(* ===== verification/_CoqProject ===== *)
-Q . S2P
Prelude.v
FatalSignal.v
KafkaServer.v
StatsTables.v
Stats.v
StatsHolder.v
StatsApi.v
NameNormalizer.v
AdminTableData.v
AdminTable.v
HealthChecker.v
ConfigStore.v
CheckpointStore.v
LogAttributes.v
KafkaClient.v
Reader.v
AdminClient.v
FakeServer.v
LdCall.v
LogConfig.v
Writer.v
LdClient.v
AdminTables.v
QueryFront.v
CheckpointedReader.v
Foreign.v
ConfigClient.v
KafkaRendezvous.v
StoreBench.v
KafkaProducer.v
KafkaParser.v
KafkaPrim.v
KafkaTypes.v
KafkaRecords.v
KafkaBatches.v
KafkaOffsets.v
Handles.v
StatsExports.v
ClusterQuery.v
GroupOffsets.v
KafkaGroup.v
KafkaGroupSafety.v
KafkaGroupRuns.v
KafkaCoordinator.v
StoreMemory.v
StoreRecords.v
StoreExports.v
