(* ===== verification/Prelude.v ===== *)
(** * The C++ runtime of HStream

    HStream is a streaming database. Its server is written in Haskell and calls
    a C++ runtime through the foreign function interface; this library models
    that runtime, the Haskell code that calls it, and the Kafka protocol's
    records, offsets and consumer groups as executable functions, and proves what
    they promise.

    ** The parts and how they interact

    - Haskell threads count events in thread-local statistics and read them
      back summed over all threads (src/common/stats/cbits).
    - Haskell sends SQL queries over virtual tables; a table sends an admin
      command to the nodes of the cluster, parses and merges their replies,
      caches the result and serves the rows the query asks for
      (src/common/hstream/cbits/query).
    - The Kafka server accepts connections, reads length-prefixed requests,
      hands each to a Haskell callback and writes the response
      (src/hstream-kafka/cbits/hs_kafka_server.cpp).
    - In Haskell the requests are decoded; a produced batch gets its offsets and
      is appended to a log, and a fetch finds the record of an offset
      (src/hstream-kafka: protocol/Kafka/Protocol/Encoding, HStream/Kafka/Common,
      HStream/Kafka/Server/Handler).
    - Consumers form groups. A coordinator collects the joins of a group's
      members, starts generations, passes the leader's assignment on, watches
      heartbeats, and keeps the group in a metastore and its offsets in a
      checkpoint store, from where another server loads them
      (src/hstream-kafka/HStream/Kafka/Group, Server/Handler/Group.hs and
      Offset.hs).
    - The fatal-signal handler unmaps the memory of the RocksDB caches before
      the process dumps core (src/common/base/cbits/fatalsignal.cpp).
    - The Kafka command line client produces and consumes messages with
      librdkafka (src/hstream-kafka/cbits/hs_kafka_client.cpp).
    - The store bindings wrap LogDevice (src/hstream-store/cbits): the client,
      appends, readers, checkpoints, log attributes and the tree of log groups,
      the health check and the versioned configuration store. Haskell calls
      them, waits for the callback, and repeats a call that answers AGAIN
      (src/hstream-store/HStream/Store/Internal). Records and results are
      written to C structures in memory of Haskell's.
    - Vectors, strings and maps go to Haskell as pointers that Haskell reads
      (src/common/base: hs_struct.cpp, hs_cpp_lib.h, HStream/Foreign.hs).
    - The benchmark server answers gRPC requests on one completion queue per
      thread (src/bench/cpp/fake_server.cpp); two programs exercise the
      checkpoint store and the log groups (src/hstream-store/bench).

    ** The files

    - Prelude (this file): machine integers with their wrap-around, the error
      monad [res], [hs_check] of checks.h, the iteration order of hash
      containers ([IterOrder]: any order, each entry once), the loops that copy
      Haskell's arrays ([array_map_loop], [array_list_loop]) and sums over maps.
    - FatalSignal: handle_fatal_signal, unmap_callback, safe_print_unsigned and
      setup_fatal_signal_handler of fatalsignal.cpp. The segment array is a
      list, system calls are events, std::sort is the class [StdSort].
    - KafkaServer: writeBE, readBE, io_context_pool, ServerHandler::handler,
      listener and the start of the server. A session is a function of the
      bytes the client sends and of what the system decides in each round.
    - StatsTables: the tables of src/common/stats/include/*.inc as lists.
    - Stats: the structs PerStreamStats, PerConnectorStats and the like, struct
      Stats, aggregation, copying, resetting and the JSON form (Stats.h,
      Stats.cpp, ServerHistograms.h). Members are positions in the tables.
    - StatsHolder: class StatsHolder with threads that start, count and exit,
      perXStatsErase, perXStatsGetall and the per-counter operations.
    - StatsApi: the functions hs_stats.cpp exports to Haskell: members looked
      up by name, time series, the check of intervals, server histograms.
    - NameNormalizer, AdminTableData, AdminTable: AdminCommandTable.cpp and
      AdminCommandTable.h: column names, the choice of nodes, replies, merging
      and indexes, and the table with its cache.
    - HealthChecker: LdChecker of ld_health_checker.cpp.
    - ConfigStore: the version extraction, callbacks and conditions of
      hs_versioned_config_store.cpp.
    - CheckpointStore: the calls of hs_checkpoint.cpp, with what their callbacks
      leave for Haskell ([Reply]).
    - LogAttributes: poke_log_attributes and peek_log_attributes of
      hs_log_attributes.cpp; the macros ADD_ATTR, PEEK and the like are
      functions of the attribute.
    - KafkaClient: hs_kafka_client.cpp. The static variables are the record
      [globals]; a round of the consumer is a list of callbacks and a message.
    - Reader: the macro READ and the checkpoint functions of hs_reader.cpp, and
      copyString of utils.cpp.
    - CheckpointedReader: the other functions of hs_reader.cpp, and a consumer
      that reads, writes its checkpoint and starts again.
    - AdminClient: AdminClient.cpp. The thread pool completes the futures in an
      arbitrary order.
    - FakeServer: fake_server.cpp. The handlers are functions; the server is a
      transition system whose steps are a client's request, an event of a
      completion queue handled by its thread ([proceed]), and the start of a
      thread.
    - LdCall: the convention by which the store bindings hand a callback to
      LogDevice and answer Haskell. LogConfig: hs_logconfigtypes.cpp, with a
      directory as a tree. Writer: hs_writer.cpp. LdClient: hs_logdevice.cpp.
    - AdminTables: the eight tables of src/hstream-admin/server/cbits/query as
      instances of the admin table, and the part of the Haskell server that
      answers their commands (Admin.hs, Types.hs).
    - QueryFront: query.cpp, hs_ldquery.cpp and the Haskell reader of query
      results (Query.hs).
    - Foreign: hs_struct.cpp and the Haskell functions that read C++ data and
      that wait for and repeat a call (both Foreign.hs), with the statistics and
      the checkpoints as Haskell sees them (Stats.hs, Checkpoint.hs).
    - ConfigClient: the calls of hs_versioned_config_store.cpp and their Haskell
      callers (VersionedConfigStore.hs).
    - KafkaRendezvous: one Kafka connection as a transition system of the
      session's coroutine and the Haskell threads it passes pointers to
      (hs_kafka_server.cpp, Network.hs); it justifies that KafkaServer treats
      the Haskell handler as a function.
    - StoreBench: the two programs of src/hstream-store/bench.
    - KafkaProducer: delivery reports, flushing and deletion of
      hs_kafka_client.cpp and the producing command of Cli.hs, over a producer
      with a queue.
    - KafkaParser, KafkaPrim, KafkaTypes: Encoding/Parser.hs, Encode.hs,
      Internal.hs and Types.hs: the parser in continuation-passing style, the
      builder, the primitive types, and the class [Serializable] with arrays,
      tagged fields and products. The class [Lawful] states what an instance
      promises; the instances for products are built from those of their fields.
    - KafkaRecords, KafkaBatches: Encoding.hs: the records of three versions,
      decoding and encoding of sequences of them, and the functions on batches
      of the produce and fetch handlers. The checksums are parameters.
    - KafkaOffsets: OffsetManager.hs, Read.hs, RecordFormat.hs, and the parts of
      Produce.hs and Consume.hs that place a batch and find a record. The class
      [LogStore] is LogDevice.
    - Handles: the structs of hs_logdevice.h that own an object of LogDevice,
      their creation, moves and deletion (hs_logdevice.cpp, hs_reader.cpp,
      hs_checkpoint.cpp, hs_versioned_config_store.cpp, ld_health_checker.cpp,
      Stream.hs, Reader.hs), as a heap with reference counts.
    - StatsExports: the C functions that the macros of Stats.h and hs_stats.cpp
      generate, and the foreign imports of HStream/Stats/Internal.hs.
    - ClusterQuery: Query.cpp, hs_query.cpp and Table.h: a query object with its
      client and its tables, and a request for rows from the object to the nodes
      and back, through AdminTable, AdminClient and AdminTables.
    - GroupOffsets: GroupOffsetManager.hs and OffsetsStore.hs: a group's offsets
      in a cache and in a store, in a state monad with exceptions ([IO]) in which
      what was assigned before an exception stays.
    - KafkaGroup: Group.hs and Member.hs: one Definition per function. [Group]
      has the fields of the source, and instead of the threads and [MVar]s of the
      runtime tables of those that exist and the answers given. [step] runs a
      request or the turn of a thread, [reachable] the states these lead to.
      KafkaGroupSafety: the invariant [sound] and that every operation preserves
      it. KafkaGroupRuns: the theorems on groups.
    - KafkaCoordinator: GroupCoordinator.hs and the handlers of the group and
      offset requests; several servers that share the metastore and the stores
      ([Cluster], [act], [runs]).
    - StoreMemory: memory as bytes that are allocated, written and freed, the
      layout of C structures, and hsc2hs's [#peek]; anything undefined in C is
      [None]. StoreRecords: the structures of hs_logdevice.h, the C++ code that
      fills them and the Haskell code that reads them (Types.hsc, Reader.hs).
    - StoreExports: the prototypes of hs_logdevice.h, the other exported
      functions of the store and the foreign imports of its Haskell modules.

    Code outside the repository is an interface: a class with the operations
    the sources call and the documented laws the proofs need (StatsCounter,
    histograms and ld_check of LogDevice, time series and number parsing of
    folly, gason's JSON reader, the status codes, ldquery, LogDevice's client,
    readers, checkpoint store, configuration store and log attributes,
    librdkafka's consumer and producer, Z-Data's strings, the text package). Every
    class has a concrete instance, used by the witnesses. In the C++ sources
    [ld_check] aborts in a debug build: an operation that can run into it
    returns an [option].

    ** What the theorems show

    - Statistics: for every sequence of thread starts, counter updates, erases,
      resets and thread exits, the values the holder reports are those of a
      single table of counters to which the same updates were applied
      ([holder_refines_counters]); a thread's exit changes no total
      ([thread_exit_conserves]), an erase removes exactly one key everywhere, a
      reset leaves nothing. Assigning a counter affects one thread only.
      Copies are faithful; copy assignment is not, since it keeps entries the
      source lacks. Name lookups, interval checks, histograms, time series and
      the JSON form are characterised on every branch. A thread's exit drops
      its time series. [hs_stat_getall_exact] follows a counter from Haskell to
      Haskell; the vectors of time series are read into too small a buffer
      ([peek_vectors_overflow]). Every function Haskell imports exists with the
      same machine types ([imports_resolve]), and the functions generated for a
      counter agree with the lookup by name ([counter_functions_agree]).
    - Admin tables: [getData_exact] states that the answer, whether fetched now
      or cached, consists of exactly the cached rows the first equality
      constraint selects, in order, and that cache and indexes stay
      consistent; [aggregate_concatenates] that
      merging replies with different columns pads with nulls and keeps rows
      rectangular; [transformDataParallel_sequential] that the worker threads
      compute what one thread would, under every interleaving;
      [jsonToTableData_reads] what is read from a reply; [selectNodes_exact]
      which nodes are asked; [fetches_bounded] how many commands a query may
      send; [newQuery_evicts] what stays in the cache. [cluster_rows] puts the
      parts together: a query gets the labelled rows of all nodes that answer,
      and the failing ones are reported, whatever the order of calls and threads;
      [node_filter_rows] that a node's rows are selected by its id. The tables are well
      formed, the server's replies fill all of them but one
      ([stats_tables_filled], [read_throughput_unanswered]), and results reach
      Haskell unchanged ([query_roundtrip]).
    - Kafka: the prefix is a bijection, well-formed requests are all served in
      order, truncated or negative lengths never reach the callback, and when
      a response buffer is leaked; connections are spread round-robin. Session
      and Haskell thread use no dead pointer ([rendezvous_exact]), but a response
      whose evaluation fails leaves the session waiting ([late_failure_hangs]).
    - Kafka records: every type of the protocol is read back as it was put;
      sequences of records of all versions round-trip, with their checksums
      ([batch_records_roundtrip]); the decoder ends on every input without
      reading outside of it ([decode_records_total]); the produce handler's
      decoder accepts exactly the encodings of right batches
      ([decodeRecordBatch_exact]), and the base offset is updated in place
      without invalidating the batch ([update_baseOffset_exact]).
    - Kafka offsets: the offsets of a log are contiguous, each held once
      ([offsets_contiguous]), and a fetch starts at the record that holds its
      offset ([fetch_finds_record]), as long as an append that fails stores
      nothing; otherwise an offset is used twice
      ([lost_append_repeats_offset]). Sparse offsets lose the epoch
      ([sparse_offset_roundtrip]).
    - Consumer groups: in every state a group reaches the leader is a member,
      requests wait only for members and only in the right state, and every
      member supports the common protocols ([group_sound]), also with several
      servers that load and unload groups ([cluster_sound]). A rebalance starts
      the next generation with those who joined and answers them all alike
      ([rebalance_round]), and there is a thread for it whenever a join waits
      ([joins_answered]); the leader's sync reaches every member
      ([leader_sync_delivers]); whoever is no longer a member is refused
      ([gone_is_fenced]). What is stored restores the group ([reload_restores])
      and its offsets ([reload_fetches_last]), so that a group survives the move
      to another server ([failover_keeps_group]). Some theorems prove defects:
      protocols that are never reset block a group ([protocol_deadlock]), a sync
      that times out strands the other members ([sync_timeout_strands]), an old
      protocol is kept ([protocol_kept]), a heartbeat thread is not stopped
      ([stale_check_rebalances]), threads of an unloaded group write to the
      metastore ([orphan_erases_group]), and a commit without the right to do so
      creates the group ([denied_commit_creates]).
    - Fatal signals: the union of the unmapped ranges is the union of the
      recorded page ranges, no page is unmapped twice, the counters and the
      decimal output are right, and the handler runs once.
    - Names normalise to a canonical form, a fixed point of the function; the
      health check and the version extraction are characterised exactly.
    - Store bindings: checkpoints that were written are read back, the last
      position of a log winning; all checkpoints are listed once; removing
      several removes only the first, a bug ([remove_checkpoints_first_only]).
      Log attributes are read back as they were given, except the inherited
      flag of replicateAcross. Extras of a log group survive an update, a
      directory lists its logs once, appended batches are what readers get, and
      records read are copied in order. A consumer that starts again from its
      checkpoint reads every record once ([resume_exact]). Haskell's calls are
      repeated as often as they should ([hs_checkpoints_roundtrip]), and of two
      conditional updates none is lost ([no_lost_update]). Byte by byte, what C++
      writes of records, gaps and results is what Haskell reads, nothing unset is
      read, and all memory is given back ([reader_read_exact],
      [read_allow_gap_exact], [callbacks_deliver]), but for the objects that are
      handed over ([objects_handed_over]). The types of all foreign imports agree
      with those of the functions, except for three integers
      ([store_imports_resolve]).
    - Handles: no smart pointer dangles and nothing is leaked or owned twice
      ([handles_sound]); a checkpointed reader owns its reader and its store
      ([ckp_reader_owns]); a store can be used for two of them only in the build
      with shared stores ([second_reader_store]); a configuration store can
      outlive the client it refers to ([vcs_outlives_client]).
    - Store benchmarks: the programs write the checkpoints and make the log
      groups they mean to ([bench_stores_all], [create_makes_all]).
    - Benchmark server: in every interleaving a completion queue names live
      objects, each method waits for its next request, requests are answered at
      most once and, when all handlers reply, all of them; the server comes to
      rest. A failed append blocks its queue, a missing stream ends the server.
    - Kafka client: the loop runs exactly until [run] is cleared and prints and
      counts what was received; the partition counter is right under both
      rebalance protocols; the consumer stops when all partitions have ended
      unless one reports its end twice; producing retries exactly while the
      queue is full; accepted messages are reported or counted by the last flush
      ([producer_session_accounts]).
    - Admin client: responses come in the order of the requests.

    ** Bounds and fuel

    Loops over containers are structural. The digit loop of safe_print_unsigned
    has fuel for the 20 digits of a 64-bit number ([digits_loop_fuel] shows it
    is enough). Session and listener loops recurse on the rounds and accepts
    that happen. The loop that repeats a call has fuel for the number of calls;
    [retry_answers] shows that one more than the number of AGAINs is enough, and
    [bench_stores_all] the same of the benchmark. The decoders of the Kafka
    protocol have fuel for the length of their input, of which every round
    consumes some; destroying objects has fuel for the pointers there are
    ([release_sound]); the lookup of a log's last record asks again at most once
    when the log does not move; the search for the topics of a group's logs has
    fuel for the logs, one of which every round removes; reading a C string has
    fuel for the memory up to its end. A loop over an array of Haskell's with an
    [int] counter is undefined from 2^31 elements on. Integers keep their C++ width
    where it can matter; containers are taken to be shorter than 2^63.

    ** What is not modelled

    Most log messages and timings; locks and memory reclamation (operations on
    a shared object are atomic steps) except in Handles and KafkaRendezvous;
    asio, gRPC, LogDevice, librdkafka and SQLite themselves; in consumer groups
    an action that a timeout interrupts (onOrTimeout), handleListOffsets, the
    creation and trimming of the checkpoint store, and authorization, which is a
    parameter; records whose payload stays in the memory of C++
    (peekDataRecordBS); the generated
    messages of the Kafka protocol and decodeBatchRecordsForProduce, which nothing
    calls; the destructor of the benchmark server, which is never reached. The
    server, SQL and stream processing written in Haskell are outside this
    library, except where a component's contract is with the Haskell code that
    calls it. hash.cpp, hs_zookeeper_client.cpp and ld_configuration.cpp forward
    to a library, and the debug functions of hs_logdevice.cpp do too. *)

From stdpp Require Import base gmap strings list fin_maps sorting.
From Stdlib Require Import ZArith Lia.
From Stdlib Require Ascii.

#[global] Open Scope Z_scope.

(** ** Machine integers

    An [n]-bit C++ integer is a [Z] kept in range by the wrap-around of its
    type: [u64] is [size_t]/[uint64_t], [i64] is [int64_t]/[HsInt], [i32] is
    [int32_t]/[int], [u32] is [uint32_t] and [u16] is [uint16_t]. *)

Definition u64 (x : Z) : Z := x mod 2 ^ 64.
Definition u32 (x : Z) : Z := x mod 2 ^ 32.
Definition u16 (x : Z) : Z := x mod 2 ^ 16.
Definition u8 (x : Z) : Z := x mod 2 ^ 8.
Definition i64 (x : Z) : Z := (x + 2 ^ 63) mod 2 ^ 64 - 2 ^ 63.
Definition i32 (x : Z) : Z := (x + 2 ^ 31) mod 2 ^ 32 - 2 ^ 31.
Definition i16 (x : Z) : Z := (x + 2 ^ 15) mod 2 ^ 16 - 2 ^ 15.
Definition i8 (x : Z) : Z := (x + 2 ^ 7) mod 2 ^ 8 - 2 ^ 7.

Definition is_u64 (x : Z) : Prop := 0 <= x < 2 ^ 64.
Definition is_u32 (x : Z) : Prop := 0 <= x < 2 ^ 32.
Definition is_i64 (x : Z) : Prop := - 2 ^ 63 <= x < 2 ^ 63.
Definition is_i32 (x : Z) : Prop := - 2 ^ 31 <= x < 2 ^ 31.
Definition is_i16 (x : Z) : Prop := - 2 ^ 15 <= x < 2 ^ 15.
Definition is_i8 (x : Z) : Prop := - 2 ^ 7 <= x < 2 ^ 7.

Ltac unfold_int :=
  unfold u64, u32, u16, u8, i64, i32, i16, i8, is_u64, is_u32, is_i64, is_i32, is_i16, is_i8 in *.

(** [int_solve] closes arithmetic goals over the wrap-around functions. *)
Ltac int_solve := unfold_int; Z.div_mod_to_equations; lia.

Create HintDb hs_int.
Create Rewrite HintDb hs_int.

Lemma u64_range x : is_u64 (u64 x).
Proof. int_solve. Qed.
Lemma i64_range x : is_i64 (i64 x).
Proof. int_solve. Qed.
Lemma i32_range x : is_i32 (i32 x).
Proof. int_solve. Qed.
Lemma u32_range x : is_u32 (u32 x).
Proof. int_solve. Qed.
Lemma u64_id x : is_u64 x -> u64 x = x.
Proof. int_solve. Qed.
Lemma i64_id x : is_i64 x -> i64 x = x.
Proof. int_solve. Qed.
Lemma i32_id x : is_i32 x -> i32 x = x.
Proof. int_solve. Qed.
Lemma u32_id x : is_u32 x -> u32 x = x.
Proof. int_solve. Qed.
Lemma i64_add_l x y : i64 (i64 x + y) = i64 (x + y).
Proof. int_solve. Qed.
Lemma i64_add_r x y : i64 (x + i64 y) = i64 (x + y).
Proof. int_solve. Qed.
Lemma u64_add_l x y : u64 (u64 x + y) = u64 (x + y).
Proof. int_solve. Qed.

#[export] Hint Resolve u64_range i64_range i32_range u32_range : hs_int.
#[export] Hint Resolve u64_id i64_id i32_id u32_id : hs_int.
#[export] Hint Rewrite i64_add_l i64_add_r u64_add_l : hs_int.

(** Disjoint bit fields: [lor] is addition. *)
Lemma lor_disjoint n a b :
  0 <= n -> a mod 2 ^ n = 0 -> 0 <= b < 2 ^ n -> Z.lor a b = a + b.
Proof.
  intros Hn Ha Hb. symmetry. apply Z.add_nocarry_lor.
  rewrite <- (Z.mod_small b (2 ^ n)), <- Z.land_ones by done.
  by rewrite (Z.land_comm b), Z.land_assoc, Z.land_ones, Ha by done.
Qed.

(** ** Outcomes of code that can throw

    [ToHs msg] is [hstream::common::dbg::ToHsException], raised by [hs_check]
    (src/common/hstream/cbits/checks.h) and caught on the Haskell boundary;
    [StdExn what] is any other C++ exception.  *)

Inductive exn : Type :=
| ToHs (msg : string)
| StdExn (what : string).

Inductive res (A : Type) : Type :=
| Ok (a : A)
| Err (e : exn).
Arguments Ok {A} a.
Arguments Err {A} e.

#[global] Instance res_ret : MRet res := fun A a => Ok a.
#[global] Instance res_bind : MBind res := fun A B f m =>
  match m with Ok a => f a | Err e => Err e end.
#[global] Instance res_fmap : FMap res := fun A B f m =>
  match m with Ok a => Ok (f a) | Err e => Err e end.

(** The codes of the characters of a string. *)
Definition char_codes (s : string) : list Z :=
  (fun c => Z.of_N (Ascii.N_of_ascii c)) <$> String.list_ascii_of_string s.

(** What the preprocessor's [#msg] makes of a string literal argument: the
    literal with its quotes. *)
Definition stringize (lit : string) : string :=
  let quote := Ascii.ascii_of_nat 34 in
  String quote (String.append lit (String quote EmptyString)).

(** [hs_check(expr, msg...)] of src/common/hstream/cbits/checks.h. The macro
    stringises its optional message; with none it throws the default one. *)
Definition hs_check (expr : bool) (msg : option string) : res unit :=
  if expr then Ok tt
  else match msg with
       | Some lit => Err (ToHs (stringize lit))
       | None => Err (ToHs "Some errors happend in cpp runtime")
       end.

Lemma bind_Ok {A B} (m : res A) (f : A -> res B) b :
  m ≫= f = Ok b <-> exists a, m = Ok a /\ f a = Ok b.
Proof. destruct m; split; naive_solver. Qed.

Lemma hs_check_Ok b msg u : hs_check b msg = Ok u -> b = true.
Proof. unfold hs_check. by destruct b, msg. Qed.

(** [inv_res H] peels the binds off a hypothesis [m = Ok x]. *)
Ltac inv_res H :=
  repeat (rewrite bind_Ok in H; let a := fresh "a" in let E := fresh "E" in
          destruct H as (a & E & H)).

(** ** Iteration order of hash containers

    [std::unordered_map], [std::unordered_set] and the thread list behind
    [folly::ThreadLocalPtr::accessAllThreads] are walked in an order the
    program does not choose. Such a container is a [gmap]; the order is a
    parameter, of which only what the standard says is known. *)

Class IterOrder (K : Type) `{Countable K} := {
  iter_list : forall {A : Type}, gmap K A -> list (K * A);
  iter_list_perm : forall {A : Type} (m : gmap K A),
    iter_list m ≡ₚ map_to_list m;
}.

(** The order stdpp's maps enumerate their entries in: one possible order. *)
#[global] Instance default_order K `{Countable K} : IterOrder K | 100 :=
  {| iter_list A m := map_to_list m; iter_list_perm A m := reflexivity _ |}.

Section iter_order.
Context {K : Type} `{Countable K} {O : IterOrder K} {A : Type}.
Implicit Type m : gmap K A.

Lemma elem_of_iter_list m k x : (k, x) ∈ iter_list m <-> m !! k = Some x.
Proof. by rewrite iter_list_perm, elem_of_map_to_list. Qed.

Lemma NoDup_iter_list_fst m : NoDup (iter_list m).*1.
Proof. rewrite iter_list_perm. apply NoDup_fst_map_to_list. Qed.

Lemma iter_list_to_map m : list_to_map (iter_list m) = m.
Proof.
  rewrite <- (list_to_map_to_list m) at 2.
  apply list_to_map_proper; [apply NoDup_iter_list_fst | apply iter_list_perm].
Qed.

Lemma length_iter_list m : length (iter_list m) = size m.
Proof. by rewrite iter_list_perm, length_map_to_list. Qed.
End iter_order.

(** ** Lists *)

Lemma StronglySorted_fmap_Forall {A B} (f : A -> B) (P : A -> Prop)
    (R1 : relation A) (R2 : relation B) (l : list A) :
  (forall x y, P x -> R1 x y -> R2 (f x) (f y)) ->
  Forall P l -> StronglySorted R1 l -> StronglySorted R2 (f <$> l).
Proof.
  intros HR. induction l as [|x l IH]; intros HP Hs; [constructor|].
  apply Forall_cons in HP as [Hx HP]. apply StronglySorted_inv in Hs as [Hs Hhd].
  simpl. constructor; [auto|]. apply Forall_fmap. eapply Forall_impl; [exact Hhd|]. simpl. eauto.
Qed.

(** Inserting entries with distinct keys one after another builds the map of
    the entries. *)
Lemma foldl_insert_lookup {K} `{Countable K} {A B} (f : A -> B) (l : list (K * A))
    (m : gmap K B) k :
  NoDup l.*1 ->
  foldl (fun m kv => <[kv.1 := f kv.2]> m) m l !! k =
    match (list_to_map l : gmap K A) !! k with
    | Some a => Some (f a)
    | None => m !! k
    end.
Proof.
  revert m. induction l as [|[k' a] l IH]; intros m Hl; simpl in *; [done|].
  apply NoDup_cons in Hl as [Hk Hl]. rewrite IH by done. destruct (decide (k' = k)) as [->|Hne].
  - rewrite (not_elem_of_list_to_map_1 l k) by done. by rewrite !lookup_insert_eq.
  - by rewrite !lookup_insert_ne by done.
Qed.

(** Pushing the two halves of every pair to two vectors. *)
Lemma foldl_unzip {A B} (l : list (A * B)) ks vs :
  foldl (fun kvs kv => (kvs.1 ++ [kv.1], kvs.2 ++ [kv.2])) (ks, vs) l = (ks ++ l.*1, vs ++ l.*2).
Proof.
  revert ks vs. induction l as [|[k v] l IH]; intros ks vs; simpl; [by rewrite !app_nil_r|].
  by rewrite IH, <- !app_assoc.
Qed.

(** ** Arrays from Haskell

    Many functions copy arrays with [for (int i = 0; i < len; ++i)]. Reading
    past the end of an array and incrementing [INT_MAX] are undefined: [None].
    In the loops [n] rounds are left and [i] is the C++ variable. *)

(** [m[key(i)] = val(i)] in every round. *)
Fixpoint array_map_loop {K V} `{Countable K} (key : nat -> option K) (val : nat -> option V)
    (n i : nat) (m : gmap K V) : option (gmap K V) :=
  match n with
  | O => Some m
  | S n =>
      k ← key i;
      v ← val i;
      if bool_decide (Z.of_nat i = 2 ^ 31 - 1) then None
      else array_map_loop key val n (S i) (<[k := v]> m)
  end.

(** [l.push_back(elem(i))] in every round. *)
Fixpoint array_list_loop {A} (elem : nat -> option A) (n i : nat) (l : list A)
    : option (list A) :=
  match n with
  | O => Some l
  | S n =>
      x ← elem i;
      if bool_decide (Z.of_nat i = 2 ^ 31 - 1) then None
      else array_list_loop elem n (S i) (l ++ [x])
  end.

(** The last of the first [len] pairs with key [k] has value [v]. *)
Definition last_write {K V} (key : nat -> option K) (val : nat -> option V) (len : nat)
    (k : K) (v : V) : Prop :=
  exists i, (i < len)%nat /\ key i = Some k /\ val i = Some v /\
    forall j, (i < j < len)%nat -> key j <> Some k.

(** All of the first [len] elements can be read. *)
Definition readable {A} (elem : nat -> option A) (len : nat) : Prop :=
  Z.of_nat len < 2 ^ 31 /\ forall i, (i < len)%nat -> is_Some (elem i).

Section arrays.
Context {K V : Type} `{Countable K} (key : nat -> option K) (val : nat -> option V).

(** What the loop has built after [i] rounds. *)
Definition built (i : nat) (m : gmap K V) : Prop :=
  forall k v, m !! k = Some v <-> last_write key val i k v.

Lemma built_0 : built 0 ∅.
Proof. intros k v. rewrite lookup_empty. split; [done|]. intros (? & ? & _). lia. Qed.

Lemma built_step i m k v :
  built i m -> key i = Some k -> val i = Some v -> built (S i) (<[k := v]> m).
Proof.
  intros Hm Hk Hv k' v'. destruct (decide (k' = k)) as [->|Hne].
  - rewrite lookup_insert_eq. split.
    + intros [= <-]. exists i. split_and!; [lia|done|done|]. intros j ?. lia.
    + intros (j & Hj & Hjk & Hjv & Hlast). destruct (decide (j = i)) as [->|]; [congruence|].
      exfalso. apply (Hlast i); [lia|done].
  - rewrite lookup_insert_ne, (Hm k' v') by done. split; intros (j & Hj & Hjk & Hjv & Hlast);
      exists j; split_and!; try done; try lia.
    + intros h Hh. destruct (decide (h = i)) as [->|]; [congruence|]. apply Hlast. lia.
    + destruct (decide (j = i)) as [->|]; [congruence|lia].
    + intros h Hh. apply Hlast. lia.
Qed.

(** A round that writes nothing. *)
Lemma built_skip i m : built i m -> key i = None -> built (S i) m.
Proof.
  intros Hm Hk k v. rewrite (Hm k v).
  split; intros (j & Hj & Hjk & Hjv & Hlast); exists j; split_and!; try done; try lia.
  - intros h Hh. destruct (decide (h = i)) as [->|]; [congruence|]. apply Hlast. lia.
  - destruct (decide (j = i)) as [->|]; [congruence|lia].
  - intros h Hh. apply Hlast. lia.
Qed.

Lemma array_map_loop_spec n i m :
  built i m -> readable key (i + n) -> readable val (i + n) ->
  exists m', array_map_loop key val n i m = Some m' /\ built (i + n) m'.
Proof.
  revert i m. induction n as [|n IH]; intros i m Hm [Hi Hk] [_ Hv].
  { exists m. by rewrite Nat.add_0_r. }
  destruct (Hk i) as [k Ek]; [lia|]. destruct (Hv i) as [v Ev]; [lia|].
  cbn [array_map_loop]. rewrite Ek, Ev. cbn [mbind option_bind].
  rewrite bool_decide_eq_false_2 by lia. rewrite <- Nat.add_succ_comm in *.
  apply IH; [by apply built_step|done|done].
Qed.

(** Starting from a map overlays what starting from the empty one builds. *)
Lemma array_map_loop_over n i (m old : gmap K V) :
  array_map_loop key val n i (m ∪ old) = (fun m' => m' ∪ old) <$> array_map_loop key val n i m.
Proof.
  revert i m. induction n as [|n IH]; intros i m; [done|]. cbn [array_map_loop].
  destruct (key i) as [k|]; [|done]. destruct (val i) as [v|]; [|done]. cbn [mbind option_bind].
  case_bool_decide; [done|]. by rewrite insert_union_l, IH.
Qed.

Lemma built_union len (m old : gmap K V) :
  built len m ->
  (forall k v, last_write key val len k v -> (m ∪ old) !! k = Some v) /\
  (forall k, (forall i, (i < len)%nat -> key i <> Some k) -> (m ∪ old) !! k = old !! k).
Proof.
  intros Hm. split.
  - intros k v Hw%Hm. by apply lookup_union_Some_l.
  - intros k Hn. destruct (m !! k) as [v|] eqn:E; [|by rewrite lookup_union_r].
    exfalso. apply Hm in E as (i & Hi & Hk & _). by apply (Hn i).
Qed.
End arrays.

Lemma array_list_loop_spec {A} (elem : nat -> option A) (xs : list A) n i l :
  (forall j, (j < n)%nat -> elem (i + j)%nat = xs !! j) -> length xs = n ->
  Z.of_nat (i + n) < 2 ^ 31 ->
  array_list_loop elem n i l = Some (l ++ xs).
Proof.
  revert xs i l. induction n as [|n IH]; intros xs i l Hx Hlen Hi; cbn [array_list_loop].
  { destruct xs; [by rewrite app_nil_r|done]. }
  destruct xs as [|x xs]; [done|]. pose proof (Hx 0%nat ltac:(lia)) as H0.
  rewrite Nat.add_0_r in H0. rewrite H0. cbn [lookup list_lookup mbind option_bind].
  rewrite bool_decide_eq_false_2 by lia. rewrite (IH xs).
  - by rewrite <- app_assoc.
  - intros j Hj. rewrite Nat.add_succ_comm. apply (Hx (S j)). lia.
  - simpl in Hlen. lia.
  - lia.
Qed.

Lemma readable_lookup {A} (l : list A) len :
  (len <= length l)%nat -> Z.of_nat len < 2 ^ 31 -> readable (fun i => l !! i) len.
Proof. intros Hl Hlen. split; [done|]. intros i Hi. apply lookup_lt_is_Some. lia. Qed.

(** ** Sums over the entries of a map in a commutative semigroup *)

Definition msum {K} `{Countable K} {A B} (op : B -> B -> B) (g : A -> B) (b : B) (m : gmap K A)
    : B := map_fold (fun _ w acc => op (g w) acc) b m.

Section msum.
Context {K : Type} `{Countable K} {O : IterOrder K} {A B : Type} (op : B -> B -> B).
Context `{!Comm (=) op} `{!Assoc (=) op}.
Implicit Types (g : A -> B) (m : gmap K A).

Lemma op_step_comm a b y : op a (op b y) = op b (op a y).
Proof. by rewrite !(assoc op), (comm op a). Qed.

Lemma msum_empty g b : msum op g b (∅ : gmap K A) = b.
Proof. apply map_fold_empty. Qed.

Lemma msum_insert g m i a b :
  m !! i = None -> msum op g b (<[i := a]> m) = op (g a) (msum op g b m).
Proof.
  intros Hi. unfold msum. rewrite map_fold_insert_L; [done| |done].
  intros. apply op_step_comm.
Qed.

Lemma msum_delete g m i a b :
  m !! i = Some a -> msum op g b m = op (g a) (msum op g b (delete i m)).
Proof.
  intros Hi. rewrite <- (insert_delete_id m i a) at 1 by done.
  apply msum_insert, lookup_delete_eq.
Qed.

Lemma msum_acc g m b c : msum op g (op c b) m = op c (msum op g b m).
Proof.
  induction m as [|i a m Hi IH] using map_ind; [by rewrite !msum_empty|].
  rewrite !msum_insert, IH by done. apply op_step_comm.
Qed.

Lemma msum_alter g m i a b f :
  m !! i = Some a -> msum op g b (alter f i m) = op (g (f a)) (msum op g b (delete i m)).
Proof.
  intros Hi. rewrite (msum_delete _ _ i (f a)) by (by rewrite lookup_alter_eq, Hi).
  by rewrite delete_alter_eq.
Qed.

Lemma foldl_op_foldr {C} (h : C -> B) (l : list C) b :
  foldl (fun acc c => op acc (h c)) b l = foldr (fun c acc => op (h c) acc) b l.
Proof.
  revert b. induction l as [|c l IH]; intros b; simpl; [done|]. rewrite IH. clear IH.
  rewrite (comm op b). induction l as [|d l IH]; simpl; [done|]. rewrite IH. apply op_step_comm.
Qed.

(** The order of iteration does not show in a sum. *)
Lemma foldl_iter_msum g m b :
  foldl (fun acc kv => op acc (g kv.2)) b (iter_list m) = msum op g b m.
Proof.
  rewrite (foldl_op_foldr (fun kv => g kv.2)). unfold msum. rewrite map_fold_foldr.
  transitivity (foldr (fun kv acc => op (g kv.2) acc) b (map_to_list m)).
  - apply (foldr_permutation (=)); [solve_proper|intros; apply op_step_comm|apply iter_list_perm].
  - induction (map_to_list m) as [|[] l IH]; simpl; congruence.
Qed.
End msum.
