(* ===== verification/FatalSignal.v ===== *)
(** * The fatal-signal handler (src/common/base/cbits/fatalsignal.cpp)

    The handler collects the page-aligned address ranges of the RocksDB cache
    entries, sorts and merges them, and unmaps every merged range so that the
    core dump stays small. *)

From stdpp Require Import base gmap strings list sorting.
From Stdlib Require Import ZArith Lia.
From S2P Require Import Prelude.

Module FatalSignal.

Definition PAGE_SHIFT : Z := 12.
Definition PAGE_SIZE : Z := Z.shiftl 1 12.
Definition PAGE_MASK : Z := u64 (Z.lnot (Z.shiftl 1 PAGE_SHIFT - 1)).

(** [struct Segment]: two [size_t]s. Its constructor takes [int]s, but the
    handler never calls it: slots of the mapped array are filled in place. *)
Record Segment := { start : Z; end_ : Z }.

Definition sizeof_Segment : Z := 16.
Definition SEGMAP_SIZE : Z := 1024 * 1024 * 1024.
Definition max_num_segs : Z := SEGMAP_SIZE / sizeof_Segment.

(** [unmap_callback]: [sarray] is the list of the [s_index] slots written so
    far, so [s_index] is its length and writing slot [s_index] appends. *)
Definition s_index (sarray : list Segment) : Z := Z.of_nat (length sarray).

Definition unmap_callback (sarray : list Segment) (entry charge : Z)
    : list Segment :=
  if max_num_segs <=? s_index sarray then sarray
  else sarray ++
    [{| start := Z.land entry PAGE_MASK;
        end_ := Z.land (u64 (entry + charge + PAGE_SIZE - 1)) PAGE_MASK |}].

(** ** Printing *)

(** The digit loop of [safe_print_unsigned]: [buf] holds the characters
    written so far, least significant first. [fuel] bounds the iterations by
    the size of [buf]; [digits_loop_enough] shows the bound is not reached. *)
Fixpoint digits_loop (fuel : nat) (num : Z) (buf : list Z) : option (list Z) :=
  match fuel with
  | O => None
  | S fuel =>
      if num =? 0 then Some buf
      else digits_loop fuel (num / 10) (buf ++ [num mod 10 + 48])
  end.

(** The in-place reversal: [buf[j]] and [buf[k]] are swapped while [j < k]. *)
Fixpoint swap_loop (fuel : nat) (j k : nat) (buf : list Z) : list Z :=
  match fuel with
  | O => buf
  | S fuel =>
      if bool_decide (j < k)%nat then
        match buf !! j, buf !! k with
        | Some tmp, Some bk => swap_loop fuel (S j) (k - 1) (<[k := tmp]> (<[j := bk]> buf))
        | _, _ => buf
        end
      else buf
  end.

Definition BUF_SIZE : nat := 64.

(** The characters [safe_print_unsigned] hands to [write]; [None] would be a
    write past the end of [buf]. *)
Definition safe_print_unsigned (num : Z) : option (list Z) :=
  if num =? 0 then Some [48]
  else match digits_loop BUF_SIZE num [] with
       | Some buf => Some (swap_loop (length buf) 0 (length buf - 1) buf)
       | None => None
       end.

(** ** Merging and unmapping *)

(** What the handler does to the outside world, in order; the argument of
    [Print] is the string literal as the source writes it. *)
Inductive event : Type :=
| Print (s : string)
| PrintUnsigned (n : Z)
| StackTrace
| Munmap (addr len : Z)
| Raise (sig : Z)
| Exit
| Pause.

Definition SIGTRAP : Z := 5.

Record counters := { unmap_count : Z; page_count : Z }.

(** One [munmap] of the range [cur_start, cur_end). *)
Definition unmap_one (cur_start cur_end : Z) (c : counters) : counters * event :=
  let len := u64 (cur_end - cur_start) in
  ({| unmap_count := u64 (unmap_count c + 1);
      page_count := u64 (page_count c + Z.shiftr len PAGE_SHIFT) |},
   Munmap cur_start len).

(** The loop [for (i = 1; i <= s_index; ++i)]: [rest] is [sarray[i..]], so
    [rest = []] is the iteration [i == s_index]. *)
Fixpoint unmap_loop (cur_start cur_end : Z) (rest : list Segment) (c : counters)
    : counters * list event :=
  match rest with
  | [] => let '(c, e) := unmap_one cur_start cur_end c in (c, [e])
  | s :: rest =>
      if cur_end <? start s then
        let '(c, e) := unmap_one cur_start cur_end c in
        let '(c, es) := unmap_loop (start s) (end_ s) rest c in (c, e :: es)
      else unmap_loop cur_start (Z.max cur_end (end_ s)) rest c
  end.

(** [std::sort] with the comparator [a.start < b.start]: some permutation of
    the array in which starts do not decrease; ties come in any order. *)
Class StdSort := {
  std_sort : list Segment -> list Segment;
  std_sort_perm : forall l, std_sort l ≡ₚ l;
  std_sort_sorted : forall l, StronglySorted (fun a b => start a <= start b) (std_sort l);
}.

(** ** The handler *)

Record handler_state := {
  insegv : Z;                (* the thread inside the handler, 0 for none *)
  sarray : list Segment;
  cnt : counters;
  log : list event;
}.

Definition emit (es : list event) (st : handler_state) : handler_state :=
  {| insegv := insegv st; sarray := sarray st; cnt := cnt st; log := log st ++ es |}.

Definition init_state : handler_state :=
  {| insegv := 0; sarray := []; cnt := {| unmap_count := 0; page_count := 0 |};
     log := [] |}.

(** One cache: [None] is a [weak_ptr] whose [lock()] is null; otherwise the
    entries [ApplyToAllCacheEntries] passes to the callback. *)
Definition collect_cache (sarray : list Segment) (cache : option (list (Z * Z)))
    : list Segment :=
  match cache with
  | None => sarray
  | Some entries => foldl (fun a e => unmap_callback a e.1 e.2) sarray entries
  end.

Definition collect_caches (sarray : list Segment) (caches : list (option (list (Z * Z))))
    : list Segment :=
  foldl collect_cache sarray caches.

(** The counters' report and the loop over the sorted array. *)
Definition unmap_segments `{StdSort} (segs : list Segment) (c : counters)
    : counters * list event :=
  match std_sort segs with
  | [] => (c, [])
  | s :: rest => unmap_loop (start s) (end_ s) rest c
  end.

(** [handle_fatal_signal] run by thread [self]; [mmap_ret] is what [mmap]
    returned for the segment array, [None] for [MAP_FAILED]; [caches] are the
    three RocksDB caches. *)
Definition handle_fatal_signal `{StdSort} (self sig : Z) (mmap_ret : option Z)
    (caches : list (option (list (Z * Z)))) (st : handler_state) : handler_state :=
  if insegv st =? 0 then
    let st := {| insegv := self; sarray := sarray st; cnt := cnt st; log := log st |} in
    let st := emit [Print "handle_fatal_signal(): Caught coredump signal ";
                    PrintUnsigned (u64 sig); Print "\n"; StackTrace] st in
    match mmap_ret with
    | None =>
        emit [Print "handle_fatal_signal(): allocate seg array failed.\n";
              Raise SIGTRAP; Exit] st
    | Some addr =>
        let segs := collect_caches (sarray st) caches in
        let st := {| insegv := insegv st; sarray := segs; cnt := cnt st; log := log st |} in
        if s_index segs =? 0 then emit [Munmap addr SEGMAP_SIZE; Raise SIGTRAP] st
        else
          let st := emit [Print "handle_fatal_signal(): processed segments: ";
                          PrintUnsigned (s_index segs); Print "\n"] st in
          let '(c, es) := unmap_segments segs (cnt st) in
          let st := {| insegv := insegv st; sarray := std_sort segs; cnt := c;
                       log := log st ++ es |} in
          emit [Print "handle_fatal_signal(): unmapped pages - unmap calls: ";
                PrintUnsigned (page_count c); Print " - ";
                PrintUnsigned (unmap_count c); Print "\n";
                Munmap addr SEGMAP_SIZE; Raise SIGTRAP] st
    end
  else if negb (self =? insegv st) then emit [Pause; Exit] st
  else emit [Raise SIGTRAP; Exit] st.

(** [setup_fatal_signal_handler]: the disposition table after installing the
    handler for SIGSEGV, SIGABRT, SIGBUS, SIGQUIT, SIGILL and SIGFPE (Linux
    numbers). [H] is the type of handlers. *)
Definition fatal_signals : list Z := [11; 6; 7; 3; 4; 8].

Definition setup_signal_handler {H : Type} (signum : Z) (handler : H)
    (disp : gmap Z H) : gmap Z H := <[signum := handler]> disp.

Definition setup_fatal_signal_handler {H : Type} (handler : H) (disp : gmap Z H)
    : gmap Z H :=
  foldl (fun d signum => setup_signal_handler signum handler d) disp fatal_signals.

(** ** Decimal printing: proofs *)

(** The number a string of ASCII digits denotes. *)
Definition digits_value (cs : list Z) : Z :=
  foldl (fun acc c => 10 * acc + (c - 48)) 0 cs.

Definition is_digit_char (c : Z) : Prop := 48 <= c <= 57.

Lemma digits_value_app xs ys :
  digits_value (xs ++ ys) =
  foldl (fun acc c => 10 * acc + (c - 48)) (digits_value xs) ys.
Proof. unfold digits_value. by rewrite foldl_app. Qed.

Lemma digits_loop_fuel n m num buf r :
  digits_loop n num buf = Some r -> (n <= m)%nat -> digits_loop m num buf = Some r.
Proof.
  revert m num buf. induction n as [|n IH]; intros m num buf; [done|].
  destruct m as [|m]; simpl; [lia|]. case_match; [done|]. intros. apply IH; [done|lia].
Qed.

(** Invariant of the digit loop: the digits to come, read after what is in
    [buf] reversed, denote [num] followed by [buf]. *)
Lemma digits_loop_spec fuel num buf :
  0 <= num < 10 ^ Z.of_nat fuel ->
  exists ds, digits_loop (S fuel) num buf = Some (buf ++ ds) /\
    Forall is_digit_char ds /\ digits_value (reverse ds) = num /\
    (num <> 0 -> exists c ds', ds = ds' ++ [c] /\ c <> 48) /\
    (num = 0 -> ds = []) /\ (length ds <= fuel)%nat.
Proof.
  revert num buf. induction fuel as [|fuel IH]; intros num buf Hn.
  - assert (num = 0) as -> by (simpl in Hn; lia). exists []. simpl.
    rewrite app_nil_r. split_and!; auto; done.
  - cbn [digits_loop]. destruct (Z.eqb_spec num 0) as [->|Hnz].
    { exists []. rewrite app_nil_r. split_and!; auto; simpl; lia || done. }
    rewrite Nat2Z.inj_succ, Z.pow_succ_r in Hn by lia.
    destruct (IH (num / 10) (buf ++ [num mod 10 + 48])) as (ds & E & Hd & Hv & Hlast & Hnil & Hlen).
    { Z.div_mod_to_equations. lia. }
    exists ((num mod 10 + 48) :: ds). rewrite <- app_assoc in E. split_and!.
    + exact E.
    + constructor; [|done]. unfold is_digit_char. Z.div_mod_to_equations. lia.
    + rewrite reverse_cons, digits_value_app, Hv. simpl. Z.div_mod_to_equations. lia.
    + intros _. destruct (decide (num / 10 = 0)) as [H0|H0].
      * rewrite (Hnil H0). exists (num mod 10 + 48), []. split; [done|].
        Z.div_mod_to_equations. lia.
      * destruct (Hlast H0) as (c & ds' & -> & Hc).
        by exists c, ((num mod 10 + 48) :: ds').
    + done.
    + simpl. lia.
Qed.

Lemma swap_loop_done fuel j k buf : (k <= j)%nat -> swap_loop fuel j k buf = buf.
Proof. intros. destruct fuel; simpl; [done|]. by rewrite bool_decide_eq_false_2 by lia. Qed.

(** The reversal loop reverses the window it still has to treat. *)
Lemma swap_loop_mid fuel pre mid post :
  (length mid <= fuel)%nat ->
  swap_loop fuel (length pre) (length pre + length mid - 1) (pre ++ mid ++ post)
  = pre ++ reverse mid ++ post.
Proof.
  revert pre mid post. induction fuel as [|fuel IH]; intros pre mid post Hf.
  { destruct mid; [done|simpl in Hf; lia]. }
  destruct mid as [|x mid _] using rev_ind; [by rewrite swap_loop_done by (simpl; lia)|].
  destruct mid as [|y mid]; [by rewrite swap_loop_done by (simpl; lia)|].
  cbn [swap_loop]. rewrite bool_decide_eq_true_2 by (rewrite length_app; simpl; lia).
  replace (length pre + length ((y :: mid) ++ [x]) - 1)%nat
    with (length pre + S (length mid))%nat by (rewrite length_app; simpl; lia).
  rewrite lookup_app_r, Nat.sub_diag by lia. simpl.
  rewrite lookup_app_r by lia.
  replace (length pre + S (length mid) - length pre)%nat with (S (length mid)) by lia.
  simpl. rewrite <- app_assoc, lookup_app_r, Nat.sub_diag by lia. simpl.
  rewrite insert_app_r_alt, Nat.sub_diag by lia. simpl.
  rewrite insert_app_r_alt by lia.
  replace (length pre + S (length mid) - length pre)%nat with (S (length mid)) by lia.
  simpl. rewrite insert_app_r_alt, Nat.sub_diag by lia. simpl.
  specialize (IH (pre ++ [x]) mid ([y] ++ post)).
  rewrite length_app in IH. simpl in IH. rewrite <- !app_assoc in IH. simpl in IH.
  replace (S (length pre)) with (length pre + 1)%nat by lia.
  replace (length pre + S (length mid) - 1)%nat
    with (length pre + 1 + length mid - 1)%nat by lia.
  rewrite length_app in Hf. simpl in Hf. rewrite IH by lia.
  rewrite reverse_cons, reverse_app. simpl. by rewrite <- !app_assoc.
Qed.

Lemma swap_loop_reverse buf :
  swap_loop (length buf) 0 (length buf - 1) buf = reverse buf.
Proof.
  pose proof (swap_loop_mid (length buf) [] buf [] (le_n _)) as H.
  simpl in H. by rewrite !app_nil_r in H.
Qed.

(** Every [size_t] is printed as its decimal numeral: the characters are
    digits, they denote the number, there is no leading zero, and at most 20
    of the 64 bytes of [buf] are used. *)
Theorem safe_print_unsigned_decimal num :
  is_u64 num ->
  exists cs, safe_print_unsigned num = Some cs /\
    Forall is_digit_char cs /\ digits_value cs = num /\
    (length cs <= 20)%nat /\ (num <> 0 -> head cs <> Some 48).
Proof.
  intros Hn. unfold safe_print_unsigned. destruct (Z.eqb_spec num 0) as [->|Hnz].
  { exists [48]. repeat split; [by repeat constructor|simpl; lia|done]. }
  destruct (digits_loop_spec 20 num []) as (ds & E & Hd & Hv & Hl & _ & Hlen).
  { unfold is_u64 in Hn. simpl. lia. }
  assert (digits_loop BUF_SIZE num [] = Some ds) as ->.
  { apply digits_loop_fuel with 21%nat; [exact E|unfold BUF_SIZE; lia]. }
  exists (reverse ds). rewrite swap_loop_reverse. split_and!; [done|by apply Forall_reverse|done| |].
  - by rewrite length_reverse.
  - intros _. destruct (Hl Hnz) as (c & ds' & -> & Hc). rewrite reverse_app. simpl. congruence.
Qed.

(** ** Page alignment: proofs *)

Definition aligned (x : Z) : Prop := x mod PAGE_SIZE = 0.

Lemma land_PAGE_MASK x : is_u64 x -> Z.land x PAGE_MASK = x - x mod PAGE_SIZE.
Proof.
  intros Hx.
  change PAGE_MASK with (Z.land (Z.ones 64) (Z.lnot (Z.ones 12))).
  rewrite Z.land_assoc, Z.land_ones, Z.mod_small by (unfold is_u64 in Hx; lia).
  rewrite <- Z.ldiff_land, Z.ldiff_ones_r, Z.shiftl_mul_pow2, Z.shiftr_div_pow2 by lia.
  change PAGE_SIZE with (2 ^ 12). rewrite Z.mul_comm. pose proof (Z_div_mod_eq_full x (2 ^ 12)). lia.
Qed.

(** A segment as the callback writes them. *)
Record seg_ok (s : Segment) : Prop := {
  seg_start_range : is_u64 (start s);
  seg_end_range : is_u64 (end_ s);
  seg_le : start s <= end_ s;
  seg_start_aligned : aligned (start s);
  seg_end_aligned : aligned (end_ s);
}.

(** A cache entry that ends, rounded up to a page, below 2^64. *)
Definition entry_ok (e : Z * Z) : Prop :=
  0 <= e.1 /\ 0 <= e.2 /\ e.1 + e.2 + PAGE_SIZE - 1 < 2 ^ 64.

Definition entry_segment (e : Z * Z) : Segment :=
  {| start := e.1 - e.1 mod PAGE_SIZE;
     end_ := e.1 + e.2 + PAGE_SIZE - 1 - (e.1 + e.2 + PAGE_SIZE - 1) mod PAGE_SIZE |}.

Lemma unmap_callback_entry arr e :
  entry_ok e -> s_index arr < max_num_segs ->
  unmap_callback arr e.1 e.2 = arr ++ [entry_segment e].
Proof.
  intros (H1 & H2 & H3) Hi. unfold unmap_callback.
  rewrite (proj2 (Z.leb_gt _ _)) by done.
  change PAGE_SIZE with 4096 in *.
  rewrite u64_id, !land_PAGE_MASK by (unfold is_u64; lia). done.
Qed.

Lemma entry_segment_ok e : entry_ok e -> seg_ok (entry_segment e).
Proof.
  destruct e as [a n]. intros (H1 & H2 & H3). cbn [fst snd] in *.
  change PAGE_SIZE with 4096 in *. unfold entry_segment.
  split; cbn [start end_ fst snd]; unfold is_u64, aligned; change PAGE_SIZE with 4096;
    Z.div_mod_to_equations; lia.
Qed.

(** The range recorded for a cache entry contains the entry, begins and
    ends on a page boundary, and exceeds it by less than a page on each side;
    when the array is full the entry is dropped and nothing is written. *)
Theorem unmap_callback_covers arr entry charge :
  0 <= entry -> 0 <= charge -> entry + charge + PAGE_SIZE - 1 < 2 ^ 64 ->
  (s_index arr < max_num_segs ->
   exists s, unmap_callback arr entry charge = arr ++ [s] /\ seg_ok s /\
     entry - PAGE_SIZE < start s <= entry /\
     entry + charge <= end_ s < entry + charge + PAGE_SIZE) /\
  (max_num_segs <= s_index arr -> unmap_callback arr entry charge = arr).
Proof.
  intros H1 H2 H3. split.
  - intros Hi. exists (entry_segment (entry, charge)).
    assert (entry_ok (entry, charge)) as Hok by done.
    split_and!; [by apply (unmap_callback_entry arr (entry, charge))
                |by apply entry_segment_ok|..];
    cbn [entry_segment start end_ fst snd]; change PAGE_SIZE with 4096 in *;
    Z.div_mod_to_equations; lia.
  - intros Hi. unfold unmap_callback. by rewrite (proj2 (Z.leb_le _ _)).
Qed.

(** ** Merging: proofs *)

(** The merged ranges [cur_start, cur_end) the loop unmaps, in order. *)
Fixpoint merge_ranges (cur_start cur_end : Z) (rest : list Segment) : list (Z * Z) :=
  match rest with
  | [] => [(cur_start, cur_end)]
  | s :: rest =>
      if cur_end <? start s
      then (cur_start, cur_end) :: merge_ranges (start s) (end_ s) rest
      else merge_ranges cur_start (Z.max cur_end (end_ s)) rest
  end.

Definition range_len (r : Z * Z) : Z := u64 (r.2 - r.1).
Definition range_event (r : Z * Z) : event := Munmap r.1 (range_len r).
Definition range_pages (r : Z * Z) : Z := Z.shiftr (range_len r) PAGE_SHIFT.
Definition count_ranges (rs : list (Z * Z)) (c : counters) : counters :=
  foldl (fun c r => {| unmap_count := u64 (unmap_count c + 1);
                       page_count := u64 (page_count c + range_pages r) |}) c rs.

Lemma unmap_loop_ranges cs ce rest c :
  unmap_loop cs ce rest c =
  (count_ranges (merge_ranges cs ce rest) c, range_event <$> merge_ranges cs ce rest).
Proof.
  revert cs ce c. induction rest as [|s rest IH]; intros cs ce c; simpl; [done|].
  destruct (ce <? start s); [|apply IH]. by rewrite IH.
Qed.

Definition in_range (a : Z) (r : Z * Z) : Prop := r.1 <= a < r.2.
Definition in_seg (a : Z) (s : Segment) : Prop := start s <= a < end_ s.

(** The loop's invariant: the current range starts at or before what is left. *)
Lemma merge_ranges_exact cs ce rest a :
  cs <= ce ->
  StronglySorted (fun a b => start a <= start b) rest ->
  Forall (fun s => cs <= start s <= end_ s) rest ->
  Exists (in_range a) (merge_ranges cs ce rest) <->
  cs <= a < ce \/ Exists (in_seg a) rest.
Proof.
  revert cs ce. induction rest as [|s rest IH]; intros cs ce Hle Hs Hall; simpl.
  { rewrite Exists_cons, !Exists_nil. unfold in_range. simpl. tauto. }
  apply StronglySorted_inv in Hs as [Hs Hhd]. apply Forall_cons in Hall as [[Hs1 Hs2] Hall].
  rewrite Exists_cons. unfold in_seg at 1. destruct (Z.ltb_spec ce (start s)).
  - rewrite Exists_cons, IH; [unfold in_range; simpl; tauto|done|done|].
    rewrite Forall_forall in Hall, Hhd |- *. intros x Hx. specialize (Hall x Hx). specialize (Hhd x Hx). lia.
  - rewrite IH; [|lia|done|done].
    assert (cs <= a < ce `max` end_ s <-> cs <= a < ce \/ start s <= a < end_ s) by lia. tauto.
Qed.

(** What every merged range satisfies, given that the segments do. *)
Definition range_ok (lo : Z) (r : Z * Z) : Prop :=
  lo <= r.1 <= r.2 /\ r.2 < 2 ^ 64 /\ aligned r.1 /\ aligned r.2.

Lemma merge_ranges_ok lo cs ce rest :
  range_ok lo (cs, ce) -> Forall (fun s => seg_ok s /\ cs <= start s) rest ->
  StronglySorted (fun a b => start a <= start b) rest ->
  Forall (range_ok lo) (merge_ranges cs ce rest).
Proof.
  revert cs ce. induction rest as [|s rest IH]; intros cs ce Hr Hall Hs; simpl.
  { by apply Forall_singleton. }
  apply StronglySorted_inv in Hs as [Hs Hhd]. apply Forall_cons in Hall as [[Hok Hle] Hall].
  destruct Hok as [[] [] ? ? ?], Hr as (? & ? & ? & ?). cbn [fst snd] in *.
  destruct (Z.ltb_spec ce (start s)).
  - constructor; [by unfold range_ok|]. apply IH; [unfold range_ok; simpl; split_and!; done || lia| |done].
    rewrite Forall_forall in Hall, Hhd |- *. intros x Hx. split; [apply Hall, Hx|apply Hhd, Hx].
  - apply IH; [|done|done]. unfold range_ok; cbn [fst snd].
    destruct (Z.max_spec ce (end_ s)) as [[_ ->]|[_ ->]]; split_and!; done || lia.
Qed.

(** The merged ranges do not touch: there is a gap after each of them. *)
Lemma merge_ranges_separated cs ce rest :
  cs <= ce -> Forall (fun s => cs <= start s <= end_ s) rest ->
  StronglySorted (fun a b => start a <= start b) rest ->
  StronglySorted (fun r1 r2 => r1.2 < r2.1) (merge_ranges cs ce rest) /\
  Forall (fun r => cs <= r.1) (merge_ranges cs ce rest).
Proof.
  revert cs ce. induction rest as [|s rest IH]; intros cs ce Hle Hall Hs; simpl.
  { split; [by repeat constructor|]. apply Forall_singleton. simpl. lia. }
  apply StronglySorted_inv in Hs as [Hs Hhd]. apply Forall_cons in Hall as [Hok Hall].
  destruct (Z.ltb_spec ce (start s)).
  - destruct (IH (start s) (end_ s)) as [IH1 IH2]; [lia| |done|].
    { rewrite Forall_forall in Hall, Hhd |- *. intros x Hx.
      specialize (Hall x Hx). specialize (Hhd x Hx). lia. }
    split; constructor; [done| |simpl; lia|];
      (eapply Forall_impl; [exact IH2|]; simpl; intros; lia).
  - apply IH; [lia|done|done].
Qed.

Definition sum_len (rs : list (Z * Z)) : Z := foldr (fun r n => r.2 - r.1 + n) 0 rs.

Lemma sum_len_bound lo rs :
  0 <= lo <= 2 ^ 64 -> StronglySorted (fun r1 r2 => r1.2 < r2.1) rs -> Forall (range_ok lo) rs ->
  0 <= sum_len rs <= 2 ^ 64 - lo.
Proof.
  revert lo. induction rs as [|r rs IH]; intros lo Hlo Hs Hok; simpl; [lia|].
  apply StronglySorted_inv in Hs as [Hs Hhd]. apply Forall_cons in Hok as [(H1 & H2 & H3 & H4) Hok].
  specialize (IH r.2). assert (0 <= sum_len rs <= 2 ^ 64 - r.2); [|lia].
  apply IH; [lia|done|]. rewrite Forall_forall in Hok, Hhd |- *. intros x Hx.
  destruct (Hok x Hx) as (? & ? & ? & ?). specialize (Hhd x Hx). unfold range_ok. split_and!; done || lia.
Qed.

(** The counters after unmapping [rs], when the sums do not overflow. *)
Lemma count_ranges_exact lo rs c :
  0 <= lo -> Forall (range_ok lo) rs ->
  0 <= unmap_count c -> unmap_count c + Z.of_nat (length rs) < 2 ^ 64 ->
  0 <= page_count c -> page_count c * PAGE_SIZE + sum_len rs <= 2 ^ 64 ->
  unmap_count (count_ranges rs c) = unmap_count c + Z.of_nat (length rs) /\
  page_count (count_ranges rs c) * PAGE_SIZE = page_count c * PAGE_SIZE + sum_len rs.
Proof.
  intros Hlo. change PAGE_SIZE with 4096. revert c.
  induction rs as [|r rs IH]; intros c Hok Hu1 Hu2 Hp1 Hp2; simpl in *; [lia|].
  apply Forall_cons in Hok as [(H1 & H2 & H3 & H4) Hok].
  assert (0 <= sum_len rs) as Hnn.
  { clear -Hok. induction rs as [|q rs IH]; simpl; [lia|].
    apply Forall_cons in Hok as [(? & ? & ? & ?) Hok]. specialize (IH Hok). lia. }
  set (c' := {| unmap_count := _; page_count := _ |}).
  assert (unmap_count c' = unmap_count c + 1) as Eu by (simpl; rewrite u64_id; [done|unfold is_u64; lia]).
  assert (page_count c' * 4096 = page_count c * 4096 + (r.2 - r.1)) as Ep.
  { simpl. unfold range_pages, range_len. rewrite (u64_id (r.2 - r.1)) by (unfold is_u64; lia).
    rewrite Z.shiftr_div_pow2 by done. change (2 ^ PAGE_SHIFT) with 4096.
    unfold aligned in H3, H4. change PAGE_SIZE with 4096 in H3, H4.
    rewrite u64_id; [|unfold is_u64]; Z.div_mod_to_equations; lia. }
  destruct (IH c') as [-> ->]; [done|lia..|]. lia.
Qed.

(** Merge sort is one sort that [std::sort] may be. *)
Definition start_le (a b : Segment) : Prop := start a <= start b.

#[global] Instance start_le_dec a b : Decision (start_le a b).
Proof. unfold start_le. apply _. Defined.
#[global] Instance start_le_total : Total start_le.
Proof. intros a b. unfold start_le. lia. Qed.
#[global] Instance start_le_trans : Transitive start_le.
Proof. intros a b c. unfold start_le. lia. Qed.

#[global] Instance merge_StdSort : StdSort | 100 :=
  {| std_sort := merge_sort start_le;
     std_sort_perm := merge_sort_Permutation start_le;
     std_sort_sorted := StronglySorted_merge_sort start_le |}.

Section unmapping.
Context `{SS : StdSort}.

(** The sorted array seen as a first range and the rest. *)
Lemma std_sort_cases segs :
  Forall seg_ok segs ->
  (std_sort segs = [] /\ segs = []) \/
  exists s rest, std_sort segs = s :: rest /\ seg_ok s /\
    Forall (fun x => seg_ok x /\ start s <= start x) rest /\
    StronglySorted (fun a b => start a <= start b) rest.
Proof.
  intros Hok. pose proof (std_sort_perm segs) as Hp. pose proof (std_sort_sorted segs) as Hs.
  rewrite <- Hp in Hok. destruct (std_sort segs) as [|s rest].
  - left. split; [done|]. by apply Permutation_nil_l in Hp.
  - right. exists s, rest. apply StronglySorted_inv in Hs as [Hs Hhd].
    apply Forall_cons in Hok as [Hs0 Hok]. split_and!; [done|done| |done].
    rewrite Forall_forall in Hok, Hhd |- *. intros x Hx. split; [apply Hok, Hx|apply Hhd, Hx].
Qed.

(** The ranges [unmap_segments] unmaps. *)
Definition segment_ranges (segs : list Segment) : list (Z * Z) :=
  match std_sort segs with
  | [] => []
  | s :: rest => merge_ranges (start s) (end_ s) rest
  end.

Lemma unmap_segments_ranges segs c :
  unmap_segments segs c =
  (count_ranges (segment_ranges segs) c, range_event <$> segment_ranges segs).
Proof.
  unfold unmap_segments, segment_ranges. destruct (std_sort segs); [done|].
  apply unmap_loop_ranges.
Qed.

Lemma segment_ranges_spec segs :
  Forall seg_ok segs ->
  Forall (range_ok 0) (segment_ranges segs) /\
  StronglySorted (fun r1 r2 => r1.2 < r2.1) (segment_ranges segs) /\
  (forall a, Exists (in_range a) (segment_ranges segs) <-> Exists (in_seg a) segs).
Proof.
  intros Hok. unfold segment_ranges.
  destruct (std_sort_cases segs Hok) as [[-> ->]|(s & rest & E & [[] [] ? ? ?] & Hrest & Hs)].
  { split_and!; [constructor|constructor|]. intros a. by rewrite !Exists_nil. }
  assert (Forall (fun x => start s <= start x <= end_ x) rest) as Hrest'.
  { eapply Forall_impl; [exact Hrest|]. by intros x [[] ?]. }
  rewrite E. split_and!.
  - apply merge_ranges_ok; [unfold range_ok; simpl; split_and!; done || lia|done|done].
  - by apply merge_ranges_separated.
  - intros a. rewrite merge_ranges_exact by done.
    rewrite <- (std_sort_perm segs), E, Exists_cons. done.
Qed.

Lemma length_segment_ranges segs : (length (segment_ranges segs) <= length segs)%nat.
Proof.
  unfold segment_ranges. rewrite <- (Permutation_length (std_sort_perm segs)).
  destruct (std_sort segs) as [|s rest]; simpl; [lia|]. generalize (start s), (end_ s).
  induction rest as [|x rest IH]; intros cs ce; simpl; [lia|].
  case_match; simpl; [by apply le_n_S, IH|]. specialize (IH cs (ce `max` end_ x)). lia.
Qed.

Definition unmaps (es : list event) (a : Z) : Prop :=
  exists addr len, Munmap addr len ∈ es /\ addr <= a < addr + len.

Lemma unmaps_ranges rs a :
  Forall (range_ok 0) rs -> unmaps (range_event <$> rs) a <-> Exists (in_range a) rs.
Proof.
  intros Hok. unfold unmaps. rewrite Exists_exists. setoid_rewrite list_elem_of_fmap.
  rewrite Forall_forall in Hok. split.
  - intros (addr & len & (r & E & Hr) & Ha). exists r. split; [done|].
    unfold range_event, range_len in E. simplify_eq. destruct (Hok r Hr) as (? & ? & _).
    rewrite u64_id in Ha by (unfold is_u64; lia). unfold in_range. lia.
  - intros (r & Hr & Ha). exists r.1, (range_len r). split; [by exists r|].
    unfold in_range in Ha. destruct (Hok r Hr) as (? & ? & _).
    unfold range_len. rewrite u64_id by (unfold is_u64; lia). lia.
Qed.

(** C13: an address is unmapped exactly when it lies in one of the recorded
    segments: merging loses no segment and unmaps nothing outside them. *)
Theorem unmap_segments_exact segs c a :
  Forall seg_ok segs ->
  unmaps (unmap_segments segs c).2 a <-> Exists (in_seg a) segs.
Proof.
  intros Hok. destruct (segment_ranges_spec segs Hok) as (H1 & _ & H2).
  rewrite unmap_segments_ranges. simpl. by rewrite unmaps_ranges.
Qed.

(** Two events that unmap ranges with a gap between them. *)
Definition event_before (e1 e2 : event) : Prop :=
  match e1, e2 with
  | Munmap a1 l1, Munmap a2 _ => a1 + l1 < a2
  | _, _ => False
  end.

(** The unmapped ranges are pairwise disjoint, in increasing order and
    maximally merged (two of them never even touch), so no page is unmapped
    twice, and the reported counters are the number of calls and the number
    of pages: [page_count] pages of 4096 bytes are exactly the bytes unmapped. *)
Theorem unmap_segments_disjoint_counted segs :
  Forall seg_ok segs -> s_index segs <= max_num_segs ->
  let '(c, es) := unmap_segments segs {| unmap_count := 0; page_count := 0 |} in
  StronglySorted event_before es /\
  unmap_count c = Z.of_nat (length es) /\
  page_count c * PAGE_SIZE =
    foldr (fun e n => match e with Munmap _ len => len + n | _ => n end) 0 es.
Proof.
  intros Hok Hn. rewrite unmap_segments_ranges.
  destruct (segment_ranges_spec segs Hok) as (H1 & H2 & _).
  pose proof (length_segment_ranges segs) as Hlen. unfold s_index in Hn.
  assert (max_num_segs = 67108864) as Emax by done.
  destruct (sum_len_bound 0 (segment_ranges segs)) as [Hs1 Hs2]; [lia|done|done|].
  destruct (count_ranges_exact 0 (segment_ranges segs) {| unmap_count := 0; page_count := 0 |})
    as [-> ->]; simpl; [lia|done|lia..|].
  rewrite length_fmap. split_and!; [|done|].
  - eapply (StronglySorted_fmap_Forall range_event (range_ok 0)); [|done|exact H2].
    intros r1 r2 (? & ? & _) Hlt. simpl.
    unfold range_len. rewrite u64_id by (unfold is_u64; lia). lia.
  - rewrite Z.mul_0_l, Z.add_0_l. clear -H1. induction H1 as [|r rs (? & ? & _) _ IH]; simpl; [done|].
    unfold range_len. rewrite u64_id by (unfold is_u64; lia). f_equal. exact IH.
Qed.

(** ** The whole handler: proofs *)

(** All entries of the caches, in the order they reach the callback. *)
Definition cache_entries (caches : list (option (list (Z * Z)))) : list (Z * Z) :=
  concat (default [] <$> caches).

Lemma collect_entries arr es :
  Forall entry_ok es -> s_index arr + Z.of_nat (length es) <= max_num_segs ->
  foldl (fun a e => unmap_callback a e.1 e.2) arr es = arr ++ (entry_segment <$> es).
Proof.
  revert arr. induction es as [|e es IH]; intros arr Hok Hlen; simpl; [by rewrite app_nil_r|].
  apply Forall_cons in Hok as [He Hok]. cbn [length] in Hlen.
  rewrite unmap_callback_entry by (done || lia). rewrite IH; [by rewrite <- app_assoc|done|].
  unfold s_index in *. rewrite length_app. simpl. lia.
Qed.

Lemma collect_caches_entries arr caches :
  Forall entry_ok (cache_entries caches) ->
  s_index arr + Z.of_nat (length (cache_entries caches)) <= max_num_segs ->
  collect_caches arr caches = arr ++ (entry_segment <$> cache_entries caches).
Proof.
  revert arr. induction caches as [|[es|] caches IH]; intros arr Hok Hlen;
    [by rewrite app_nil_r| |by apply IH].
  change (cache_entries (Some es :: caches)) with (es ++ cache_entries caches) in *.
  change (collect_caches arr (Some es :: caches)) with (collect_caches (collect_cache arr (Some es)) caches).
  simpl. apply Forall_app in Hok as [He Hok]. rewrite length_app in Hlen.
  rewrite collect_entries by (done || lia). rewrite IH; [by rewrite fmap_app, app_assoc|done|].
  unfold s_index in *. rewrite length_app, length_fmap. lia.
Qed.

(** The first thread to enter the handler, with the segment array mapped
    and the cache entries fitting in it, unmaps exactly the pages that the
    entries of the three caches touch; the addresses between the report lines
    of its log are the page-rounded entries and nothing else. *)
Theorem handle_fatal_signal_unmaps self sig addr caches :
  Forall entry_ok (cache_entries caches) ->
  0 < Z.of_nat (length (cache_entries caches)) <= max_num_segs ->
  exists pre es post,
    log (handle_fatal_signal self sig (Some addr) caches init_state) = pre ++ es ++ post /\
    (forall a, unmaps es a <-> Exists (fun e => in_seg a (entry_segment e)) (cache_entries caches)) /\
    (forall a, ~ unmaps pre a) /\
    (forall a, unmaps post a <-> addr <= a < addr + SEGMAP_SIZE).
Proof.
  intros Hok Hlen. unfold handle_fatal_signal. simpl.
  rewrite collect_caches_entries; [|done|unfold s_index; simpl length; lia]. simpl.
  set (segs := entry_segment <$> cache_entries caches).
  destruct (Z.eqb_spec (s_index segs) 0) as [H0|_].
  { unfold s_index, segs in H0. rewrite length_fmap in H0. lia. }
  destruct (unmap_segments segs _) as [c es] eqn:E. simpl.
  eexists [_; _; _; _; _; _; _], es, _. split_and!; [reflexivity| | |].
  - intros a. replace es with (unmap_segments segs {| unmap_count := 0; page_count := 0 |}).2
      by (by rewrite E). rewrite unmap_segments_exact.
    + unfold segs. by rewrite Exists_fmap.
    + apply Forall_fmap. eapply Forall_impl; [exact Hok|]. apply entry_segment_ok.
  - intros a (x & y & Hin & _). simpl in Hin. repeat (apply elem_of_cons in Hin as [?|Hin]; [done|]).
    by apply elem_of_nil in Hin.
  - intros a. split.
    + intros (x & y & Hin & Ha). simpl in Hin.
      repeat (apply elem_of_cons in Hin as [Hin|Hin]; [try done; by simplify_eq|]).
      by apply elem_of_nil in Hin.
    + intros Ha. exists addr, SEGMAP_SIZE. split; [set_solver|done].
Qed.

(** A call of the handler: the thread, the signal, and what the system gives it. *)
Record call := { c_self : Z; c_sig : Z; c_mmap : option Z;
                 c_caches : list (option (list (Z * Z))) }.

Definition run_call (st : handler_state) (c : call) : handler_state :=
  handle_fatal_signal (c_self c) (c_sig c) (c_mmap c) (c_caches c) st.

(** The events of a call that finds another call in progress. *)
Definition refused (self owner : Z) : list event :=
  if self =? owner then [Raise SIGTRAP; Exit] else [Pause; Exit].

(** Whatever threads receive fatal signals and in whatever order, only the
    first call runs the body; every later one from another thread suspends,
    and a recursive one raises SIGTRAP and exits, with the segment array and
    the counters left as the first call made them. *)
Theorem handler_runs_once c0 cs :
  c_self c0 <> 0 ->
  let st := run_call init_state c0 in
  foldl run_call init_state (c0 :: cs) =
  emit (concat ((fun c => refused (c_self c) (c_self c0)) <$> cs)) st /\
  insegv st = c_self c0.
Proof.
  intros Hne. simpl. set (st0 := run_call init_state c0).
  assert (insegv st0 = c_self c0) as Hin.
  { unfold st0, run_call, handle_fatal_signal. simpl. destruct (c_mmap c0); simpl; [|done].
    destruct (s_index _ =? 0); simpl; [done|]. by destruct (unmap_segments _ _). }
  split; [|done]. clearbody st0. revert st0 Hin.
  induction cs as [|c cs IH]; intros st Hin; simpl.
  { unfold emit. rewrite app_nil_r. by destruct st. }
  assert (run_call st c = emit (refused (c_self c) (c_self c0)) st) as ->.
  { unfold run_call, handle_fatal_signal, refused. rewrite Hin.
    rewrite (proj2 (Z.eqb_neq _ _)) by done. by destruct (c_self c =? c_self c0). }
  rewrite IH by done. unfold emit. simpl. by rewrite app_assoc.
Qed.
End unmapping.

(** After [setup_fatal_signal_handler] exactly the six fatal signals run
    the handler; the disposition of every other signal is untouched. *)
Theorem setup_fatal_signal_handler_installs {H : Type} (handler : H) (disp : gmap Z H) sig :
  setup_fatal_signal_handler handler disp !! sig =
  if bool_decide (sig ∈ fatal_signals) then Some handler else disp !! sig.
Proof.
  unfold setup_fatal_signal_handler, setup_signal_handler. case_bool_decide as Hin.
  - unfold fatal_signals in *. simpl.
    repeat (apply elem_of_cons in Hin as [->|Hin]; [by rewrite !lookup_insert|]).
    by apply elem_of_nil in Hin.
  - simpl. rewrite !lookup_insert_ne; [done|intros <-; apply Hin; unfold fatal_signals; set_solver..].
Qed.

(** ** Concrete runs *)

Definition ex_segs : list Segment :=
  [{| start := 12288; end_ := 20480 |}; {| start := 4096; end_ := 8192 |};
   {| start := 8192; end_ := 16384 |}; {| start := 40960; end_ := 45056 |}].

Definition ex_caches : list (option (list (Z * Z))) :=
  [Some [(5000, 100); (9000, 9000)]; None; Some [(41000, 1)]].

Lemma ex_segs_ok : Forall seg_ok ex_segs.
Proof. repeat constructor; unfold is_u64; simpl; try lia; done. Qed.

Example ex_segs_unmapped :
  (unmap_segments ex_segs {| unmap_count := 0; page_count := 0 |}).2 =
  [Munmap 4096 16384; Munmap 40960 4096].
Proof. vm_compute. reflexivity. Qed.

Lemma safe_print_unsigned_decimal_witness :
  is_u64 1024 /\
  exists cs, safe_print_unsigned 1024 = Some cs /\
    Forall is_digit_char cs /\ digits_value cs = 1024 /\
    (length cs <= 20)%nat /\ (1024 <> 0 -> head cs <> Some 48).
Proof. split; [unfold is_u64; lia|]. apply (safe_print_unsigned_decimal 1024). unfold is_u64; lia. Defined.

Lemma unmap_callback_covers_witness :
  unmap_callback [] 5000 100 = [{| start := 4096; end_ := 8192 |}] /\
  ((s_index [] < max_num_segs ->
   exists s, unmap_callback [] 5000 100 = [] ++ [s] /\ seg_ok s /\
     5000 - PAGE_SIZE < start s <= 5000 /\
     5000 + 100 <= end_ s < 5000 + 100 + PAGE_SIZE) /\
  (max_num_segs <= s_index [] -> unmap_callback [] 5000 100 = [])).
Proof.
  split; [reflexivity|]. apply (unmap_callback_covers [] 5000 100); change PAGE_SIZE with 4096; lia.
Defined.

Lemma unmap_segments_exact_witness :
  unmaps (unmap_segments ex_segs {| unmap_count := 0; page_count := 0 |}).2 9000 <->
  Exists (in_seg 9000) ex_segs.
Proof. apply (unmap_segments_exact ex_segs _ 9000). exact ex_segs_ok. Defined.

Lemma unmap_segments_disjoint_counted_witness :
  let '(c, es) := unmap_segments ex_segs {| unmap_count := 0; page_count := 0 |} in
  StronglySorted event_before es /\
  unmap_count c = Z.of_nat (length es) /\
  page_count c * PAGE_SIZE =
    foldr (fun e n => match e with Munmap _ len => len + n | _ => n end) 0 es.
Proof.
  apply (unmap_segments_disjoint_counted ex_segs); [exact ex_segs_ok|].
  vm_compute. discriminate.
Defined.

Lemma handle_fatal_signal_unmaps_witness :
  exists pre es post,
    log (handle_fatal_signal 7 11 (Some 1048576) ex_caches init_state) = pre ++ es ++ post /\
    (forall a, unmaps es a <-> Exists (fun e => in_seg a (entry_segment e)) (cache_entries ex_caches)) /\
    (forall a, ~ unmaps pre a) /\
    (forall a, unmaps post a <-> 1048576 <= a < 1048576 + SEGMAP_SIZE).
Proof.
  apply (handle_fatal_signal_unmaps 7 11 1048576 ex_caches).
  - repeat constructor; change PAGE_SIZE with 4096; simpl; lia.
  - vm_compute. split; [reflexivity|discriminate].
Defined.

Lemma handler_runs_once_witness :
  let c0 := {| c_self := 7; c_sig := 11; c_mmap := None; c_caches := ex_caches |} in
  let c1 := {| c_self := 9; c_sig := 6; c_mmap := None; c_caches := [] |} in
  let st := run_call init_state c0 in
  foldl run_call init_state [c0; c1; c0] =
  emit (concat ((fun c => refused (c_self c) (c_self c0)) <$> [c1; c0])) st /\
  insegv st = c_self c0.
Proof.
  apply (handler_runs_once
           {| c_self := 7; c_sig := 11; c_mmap := None; c_caches := ex_caches |}
           [{| c_self := 9; c_sig := 6; c_mmap := None; c_caches := [] |};
            {| c_self := 7; c_sig := 11; c_mmap := None; c_caches := ex_caches |}]).
  discriminate.
Defined.
End FatalSignal.
