(* ===== verification/KafkaServer.v ===== *)
(** * The Kafka protocol server (src/hstream-kafka/cbits/hs_kafka_server.cpp)

    The byte order of the length prefix, the pool of io_contexts, the session
    coroutine that serves one connection and the listener that accepts them. *)

From stdpp Require Import base gmap strings list.
From Stdlib Require Import ZArith Lia.
From S2P Require Import Prelude.

Module KafkaServer.

#[local] Arguments Nat.modulo : simpl never.

(** ** Length prefix *)

Definition writeBE (value : Z) : list Z :=
  [Z.land (Z.shiftr value 24) 255; Z.land (Z.shiftr value 16) 255;
   Z.land (Z.shiftr value 8) 255; Z.land value 255].

(** [bytes[0] << 24] is computed at type [int]. *)
Definition readBE (b0 b1 b2 b3 : Z) : Z :=
  Z.lor (Z.lor (Z.lor (i32 (Z.shiftl b0 24)) (Z.shiftl b1 16)) (Z.shiftl b2 8)) b3.

Definition is_byte (b : Z) : Prop := 0 <= b < 256.

(** ** io_context_pool *)

(** [stopped] has a flag for every io_context of [io_contexts_]. *)
Record io_context_pool := { stopped : list bool; next_io_context_ : nat }.

Definition new_io_context_pool (pool_size : nat) : res io_context_pool :=
  if bool_decide (pool_size = 0)%nat then Err (StdExn "io_context_pool size is 0")
  else Ok {| stopped := replicate pool_size false; next_io_context_ := 0 |}.

Definition pool_size (p : io_context_pool) : nat := length (stopped p).

(** Returns the index of the io_context and the pool afterwards. *)
Definition get_io_context (p : io_context_pool) : nat * io_context_pool :=
  let io_context := next_io_context_ p in
  let next := S (next_io_context_ p) in
  (io_context,
   {| stopped := stopped p;
      next_io_context_ := if bool_decide (next = pool_size p) then 0%nat else next |}).

(** [stop] stops every io_context; [run] joins one thread per io_context, so
    it returns when all of them have been stopped. *)
Definition pool_stop (p : io_context_pool) : io_context_pool :=
  {| stopped := (fun _ => true) <$> stopped p; next_io_context_ := next_io_context_ p |}.

Definition pool_run_returns (p : io_context_pool) : bool := forallb id (stopped p).

(** [n] calls of [get_io_context]. *)
Fixpoint get_io_contexts (n : nat) (p : io_context_pool) : list nat * io_context_pool :=
  match n with
  | O => ([], p)
  | S n => let '(i, p) := get_io_context p in
           let '(ctxs, p) := get_io_contexts n p in (i :: ctxs, p)
  end.

(** ** ServerHandler::handler *)

Section session.
(** The Haskell side: a state, and what one call of [callback_] does with a
    request: the new state and the response ([None]: [data] stays null). *)
Context {HS : Type} (callback : HS -> list Z -> HS * option (list Z)).

(** What the system decides in one round of the loop: whether the request
    buffer can be allocated, whether the socket is still open when the
    Haskell handler is done, and whether the write succeeds. *)
Record turn := { t_alloc : bool; t_open : bool; t_write : bool }.

(** How a session ends; [stop()] itself is taken not to throw. *)
Inductive fate : Type :=
| Returned                 (* co_return without stop() *)
| Stopped                  (* stop() after an empty response *)
| StoppedExn (what : string) (* an exception was caught, then stop() *)
| Running.                 (* no more rounds were observed *)

Record session := {
  hs : HS;
  output : list Z;             (* bytes written to the socket *)
  requests : list (list Z);    (* requests handed to Haskell *)
  leaked : list (list Z);      (* response buffers never passed to free() *)
  result : fate;
}.

Definition finish (s : session) (f : fate) : session :=
  {| hs := hs s; output := output s; requests := requests s; leaked := leaked s; result := f |}.

(** [std::vector<uint8_t> msg_bytes_(length_)]: the [int32_t] is converted to
    [size_t]; more than [max_size()] (2^63 - 1) elements is a length_error. *)
Definition alloc_vector (ok : bool) (length_ : Z) : res Z :=
  let n := u64 length_ in
  if 2 ^ 63 - 1 <? n then Err (StdExn "length_error")
  else if ok then Ok n else Err (StdExn "bad_alloc").

(** The response part of a round, after the Haskell handler has released the
    lock: [Some s'] continues the loop, [None] stands for [co_return]. *)
Definition respond (t : turn) (s : session) (response : option (list Z))
    : session * bool :=
  if t_open t then
    match response with
    | Some data =>
        if t_write t then
          ({| hs := hs s;
              output := output s ++ writeBE (i32 (Z.of_nat (length data))) ++ data;
              requests := requests s; leaked := leaked s; result := result s |}, true)
        else (* async_write throws: free(response.data) is skipped *)
          (finish {| hs := hs s; output := output s; requests := requests s;
                     leaked := leaked s ++ [data]; result := result s |}
                  (StoppedExn "async_write"), false)
    | None => (finish s Stopped, false)
    end
  else (* the socket is closed: co_return without free(response.data) *)
    (finish {| hs := hs s; output := output s; requests := requests s;
               leaked := leaked s ++ option_list response; result := result s |} Returned,
     false).

(** The loop of [handler]. [input] is what the client will have sent before
    it closes its side, [turns] the rounds the system lets happen. *)
Fixpoint handler (turns : list turn) (input : list Z) (s : session) : session :=
  match turns with
  | [] => s
  | t :: turns =>
      match input with
      | b0 :: b1 :: b2 :: b3 :: input =>
          let length_ := readBE b0 b1 b2 b3 in
          match alloc_vector (t_alloc t) length_ with
          | Err (StdExn what) | Err (ToHs what) => finish s (StoppedExn what)
          | Ok n =>
              if bool_decide (Z.to_nat n <= length input)%nat then
                let msg := take (Z.to_nat n) input in
                let '(h, response) := callback (hs s) msg in
                let s := {| hs := h; output := output s; requests := requests s ++ [msg];
                            leaked := leaked s; result := result s |} in
                let '(s, continue) := respond t s response in
                if continue then handler turns (drop (Z.to_nat n) input) s else s
              else finish s (StoppedExn "async_read")
          end
      | _ => finish s Returned (* the length could not be read *)
      end
  end.

Definition new_session (h : HS) : session :=
  {| hs := h; output := []; requests := []; leaked := []; result := Running |}.
End session.

(** ** listener *)

(** What [async_accept] and [remote_endpoint] give for one connection. *)
Inductive accept_event : Type :=
| Accepted (peer_host : string)
| AcceptFailed          (* async_accept throws *)
| EndpointFailed.       (* remote_endpoint() throws: the peer is already gone *)

(** The handlers started, each with its io_context and peer host, when [events]
    are the accepts completed so far; the io_context of an accept still pending
    is not drawn yet. An exception leaves the coroutine, whose spawner detached
    it. *)
Fixpoint listener (events : list accept_event) (p : io_context_pool)
    : list (nat * string) * io_context_pool :=
  match events with
  | [] => ([], p)
  | e :: events =>
      let '(ctx, p) := get_io_context p in
      match e with
      | Accepted peer_host =>
          let '(hs, p) := listener events p in ((ctx, peer_host) :: hs, p)
      | AcceptFailed | EndpointFailed => ([], p)
      end
  end.

(** [hs_event_notify]: the 8-byte writes done on the descriptor, and whether
    a failure was reported; [write_ret] is what [write] returns. *)
Definition hs_event_notify (fd write_ret : Z) : list (Z * Z) * bool :=
  if fd =? -1 then ([], false) else ([(fd, 1)], negb (write_ret =? 8)).

(** What [run_kafka_server] has done when [context_pool.run()] runs: the
    io_context of the acceptor, that of the listener, the writes on
    [fd_on_started] and the connections then handled. *)
Record server_run := {
  acceptor_ctx : nat;
  listener_ctx : nat;
  notified : list (Z * Z);
  connections : list (nat * string);
}.

(** [setup] is the exception that resolving the host, or opening, binding or
    listening on the acceptor's socket throws, if one of them does. *)
Definition run_kafka_server (p : io_context_pool) (setup : option string)
    (fd_on_started write_ret : Z) (events : list accept_event)
    : res server_run * io_context_pool :=
  let '(acceptor, p) := get_io_context p in
  match setup with
  | Some what => (Err (StdExn what), p)
  | None =>
      let '(listener_, p) := get_io_context p in
      let notified := (hs_event_notify fd_on_started write_ret).1 in
      let '(hs, p) := listener events p in
      (Ok {| acceptor_ctx := acceptor; listener_ctx := listener_; notified := notified;
             connections := hs |}, p)
  end.

Definition stop_kafka_server : io_context_pool -> io_context_pool := pool_stop.
Definition new_kafka_server : nat -> res io_context_pool := new_io_context_pool.

(** ** Proofs: length prefix *)

Lemma writeBE_bytes v : Forall is_byte (writeBE v).
Proof.
  unfold writeBE, is_byte. change 255 with (Z.ones 8).
  repeat constructor; rewrite Z.land_ones by lia; apply Z.mod_pos_bound; lia.
Qed.

(** The prefix as an arithmetic expression. *)
Lemma readBE_sum b0 b1 b2 b3 :
  is_byte b0 -> is_byte b1 -> is_byte b2 -> is_byte b3 ->
  readBE b0 b1 b2 b3 = i32 (b0 * 2 ^ 24) + b1 * 2 ^ 16 + b2 * 2 ^ 8 + b3.
Proof.
  unfold is_byte, readBE. intros. rewrite !Z.shiftl_mul_pow2 by lia.
  rewrite (lor_disjoint 24 (i32 _)) by (lia || int_solve).
  rewrite (lor_disjoint 16 (_ + _)) by (lia || int_solve).
  rewrite (lor_disjoint 8 (_ + _)) by (lia || int_solve). done.
Qed.

Lemma writeBE_arith v :
  writeBE v = [v / 2 ^ 24 mod 256; v / 2 ^ 16 mod 256; v / 2 ^ 8 mod 256; v mod 256].
Proof.
  unfold writeBE. change 255 with (Z.ones 8). rewrite !Z.shiftr_div_pow2 by lia.
  by rewrite !Z.land_ones by lia.
Qed.

Definition readBE_list (bs : list Z) : Z :=
  match bs with [b0; b1; b2; b3] => readBE b0 b1 b2 b3 | _ => 0 end.

Lemma readBE_writeBE_id v : is_i32 v -> readBE_list (writeBE v) = v.
Proof.
  intros Hv. rewrite writeBE_arith. simpl. rewrite readBE_sum; [|unfold is_byte; apply Z.mod_pos_bound; lia..].
  int_solve.
Qed.

(** The length prefix is a bijection between [int32_t] and four bytes. *)
Theorem prefix_roundtrip :
  (forall v, is_i32 v -> readBE_list (writeBE v) = v) /\
  (forall b0 b1 b2 b3, is_byte b0 -> is_byte b1 -> is_byte b2 -> is_byte b3 ->
     is_i32 (readBE b0 b1 b2 b3) /\ writeBE (readBE b0 b1 b2 b3) = [b0; b1; b2; b3]).
Proof.
  split; [apply readBE_writeBE_id|]. intros b0 b1 b2 b3 H0 H1 H2 H3.
  rewrite readBE_sum, writeBE_arith by done. unfold is_byte in *.
  split; [int_solve|]. repeat f_equal; int_solve.
Qed.

(** ** Proofs: io_context_pool *)

Definition pool_ok (p : io_context_pool) : Prop := (next_io_context_ p < pool_size p)%nat.

Lemma get_io_context_spec p :
  pool_ok p ->
  (get_io_context p).1 = next_io_context_ p /\
  pool_ok (get_io_context p).2 /\
  stopped (get_io_context p).2 = stopped p /\
  next_io_context_ (get_io_context p).2 = (S (next_io_context_ p) mod pool_size p)%nat.
Proof.
  unfold pool_ok, get_io_context, pool_size. simpl. intros Hlt. case_bool_decide as E.
  - rewrite E, Nat.Div0.mod_same. split_and!; lia || done.
  - rewrite Nat.mod_small by lia. split_and!; lia || done.
Qed.

Lemma mod_succ_add a k n : (0 < n)%nat -> ((S a mod n + k) mod n = (a + S k) mod n)%nat.
Proof. intros. rewrite Nat.Div0.add_mod_idemp_l. f_equal. lia. Qed.

Lemma get_io_contexts_S n p :
  (get_io_contexts (S n) p).1 =
  (get_io_context p).1 :: (get_io_contexts n (get_io_context p).2).1.
Proof.
  cbn [get_io_contexts]. destruct (get_io_context p) as [i p']. cbn [fst snd].
  by destruct (get_io_contexts n p').
Qed.

Lemma get_io_contexts_nth n p k :
  pool_ok p -> (k < n)%nat ->
  (get_io_contexts n p).1 !! k = Some ((next_io_context_ p + k) mod pool_size p)%nat.
Proof.
  revert p k. induction n as [|n IH]; intros p k Hok Hk; [lia|].
  rewrite get_io_contexts_S. destruct (get_io_context_spec p Hok) as (-> & Hok' & Es & En).
  unfold pool_ok, pool_size in *. destruct k as [|k]; cbn [lookup list_lookup].
  - by rewrite Nat.add_0_r, Nat.mod_small by done.
  - rewrite IH, En, Es by (done || lia). by rewrite mod_succ_add by lia.
Qed.

Lemma length_get_io_contexts n p : length (get_io_contexts n p).1 = n.
Proof.
  revert p. induction n as [|n IH]; intros p; [done|].
  rewrite get_io_contexts_S. cbn [length]. by rewrite IH.
Qed.

(** Io_contexts are handed out round-robin: the [k]-th of any number of
    calls returns context [(next + k) mod size], and any [size] consecutive
    calls return every io_context exactly once. *)
Theorem io_contexts_round_robin p :
  pool_ok p ->
  (forall n k, (k < n)%nat ->
     (get_io_contexts n p).1 !! k = Some ((next_io_context_ p + k) mod pool_size p)%nat) /\
  (get_io_contexts (pool_size p) p).1 ≡ₚ seq 0 (pool_size p).
Proof.
  intros Hok. split; [intros; by apply get_io_contexts_nth|].
  set (l := (get_io_contexts (pool_size p) p).1). set (n := pool_size p).
  assert (length l = n) as Hlen by apply length_get_io_contexts.
  symmetry. apply submseteq_length_Permutation; [|by rewrite Hlen, length_seq].
  apply NoDup_submseteq; [apply NoDup_seq|]. intros x Hx%elem_of_seq. apply list_elem_of_lookup.
  exists ((x + (n - next_io_context_ p)) mod n)%nat.
  unfold pool_ok in Hok. fold n in Hok. unfold l. fold n.
  rewrite get_io_contexts_nth; fold n; [|done|apply Nat.mod_upper_bound; lia].
  rewrite Nat.Div0.add_mod_idemp_r.
  replace (next_io_context_ p + (x + (n - next_io_context_ p)))%nat with (x + 1 * n)%nat by lia.
  by rewrite Nat.Div0.mod_add, Nat.mod_small by lia.
Qed.

(** ** Proofs: listener *)

(** The connections accepted before the first failure. *)
Fixpoint accepted_prefix (events : list accept_event) : list string :=
  match events with
  | Accepted h :: events => h :: accepted_prefix events
  | _ => []
  end.

Lemma listener_spec events p :
  pool_ok p ->
  (listener events p).1 =
  imap (fun i h => (((next_io_context_ p + i) mod pool_size p)%nat, h)) (accepted_prefix events).
Proof.
  revert p. induction events as [|e events IH]; intros p Hok; [done|]. cbn [listener].
  destruct (get_io_context_spec p Hok) as (E1 & Hok' & Es & En).
  destruct (get_io_context p) as [i p'] eqn:E. cbn [fst snd] in *. subst i.
  specialize (IH p' Hok'). destruct e; [|done..].
  destruct (listener events p') as [hs p''] eqn:E'. simpl in *. rewrite IH.
  unfold pool_ok, pool_size in *.
  rewrite Nat.add_0_r, Nat.mod_small by done. f_equal. rewrite Es, En.
  apply imap_ext. intros k h _. simpl. by rewrite mod_succ_add by lia.
Qed.

(** A server with [n > 0] io_contexts runs its acceptor on context 0, its
    listener on context [1 mod n] and the [i]-th accepted connection on
    context [(2 + i) mod n]; it signals its start exactly once, before the
    first connection, unless there is no descriptor to signal on; a set-up that
    throws starts and signals nothing; the first [async_accept] or
    [remote_endpoint] that throws ends the listener, and no later connection is
    served. *)
Theorem kafka_server_connections n events fd w p :
  new_kafka_server n = Ok p ->
  (run_kafka_server p None fd w events).1 =
  Ok {| acceptor_ctx := 0; listener_ctx := 1 mod n;
        notified := if fd =? -1 then [] else [(fd, 1)];
        connections := imap (fun i h => (((2 + i) mod n)%nat, h)) (accepted_prefix events) |} /\
  (forall what, (run_kafka_server p (Some what) fd w events).1 = Err (StdExn what)).
Proof.
  unfold new_kafka_server, new_io_context_pool. case_bool_decide as H0; [done|].
  intros [= <-]. set (p := {| stopped := _; next_io_context_ := _ |}).
  assert (pool_ok p) as Hok by (unfold pool_ok, pool_size; simpl; rewrite length_replicate; lia).
  unfold run_kafka_server.
  destruct (get_io_context_spec p Hok) as (E1 & Hok1 & Es1 & En1).
  destruct (get_io_context p) as [i1 p1]. cbn [fst snd] in *. subst i1. split; [|done].
  destruct (get_io_context_spec p1 Hok1) as (E2 & Hok2 & Es2 & En2).
  destruct (get_io_context p1) as [i2 p2]. cbn [fst snd] in *. subst i2.
  pose proof (listener_spec events p2 Hok2) as Hl. destruct (listener events p2) as [hs p3].
  cbn [fst] in *. rewrite Hl.
  assert (pool_size p = n) as Ep by (unfold pool_size; simpl; apply length_replicate).
  unfold pool_size in *. rewrite Es2, Es1, Ep, En2, En1, Es1, Ep. do 2 f_equal.
  { unfold hs_event_notify. by destruct (fd =? -1). }
  apply imap_ext. intros k h _. f_equal.
  rewrite !mod_succ_add by lia. f_equal.
Qed.

(** ** Proofs: sessions *)

(** A message as it travels: its length, then its bytes. *)
Definition frame (msg : list Z) : list Z := writeBE (i32 (Z.of_nat (length msg))) ++ msg.
Definition frames (msgs : list (list Z)) : list Z := concat (frame <$> msgs).
Definition msg_ok (msg : list Z) : Prop := Z.of_nat (length msg) < 2 ^ 31.
Definition turn_ok (t : turn) : Prop := t_alloc t = true /\ t_open t = true /\ t_write t = true.

(** The bytes of a prefix the server reads. *)
Lemma frame_shape msg :
  msg_ok msg -> exists b0 b1 b2 b3, frame msg = b0 :: b1 :: b2 :: b3 :: msg /\
    readBE b0 b1 b2 b3 = Z.of_nat (length msg).
Proof.
  unfold msg_ok. intros Hm.
  assert (is_i32 (Z.of_nat (length msg))) as Hr by (unfold is_i32; lia).
  pose proof (readBE_writeBE_id _ Hr) as E. unfold frame. rewrite i32_id by done.
  unfold writeBE in *. eexists _, _, _, _. split; [reflexivity|]. exact E.
Qed.

Lemma alloc_vector_ok n : 0 <= n < 2 ^ 31 -> alloc_vector true n = Ok n.
Proof.
  intros Hn. unfold alloc_vector. rewrite u64_id by (unfold is_u64; lia).
  by rewrite (proj2 (Z.ltb_ge _ _)) by lia.
Qed.

Section session_proofs.
Context {HS : Type} (callback : HS -> list Z -> HS * option (list Z)).

(** The requests run one after the other on the Haskell side. *)
Fixpoint run_callbacks (h : HS) (reqs : list (list Z)) : HS * list (option (list Z)) :=
  match reqs with
  | [] => (h, [])
  | r :: reqs =>
      let '(h, resp) := callback h r in
      let '(h, resps) := run_callbacks h reqs in (h, resp :: resps)
  end.

(** One round on a complete request. *)
Lemma handler_round t turns msg rest s :
  t_alloc t = true -> msg_ok msg ->
  handler callback (t :: turns) (frame msg ++ rest) s =
  let '(h, response) := callback (hs s) msg in
  let '(s', continue) :=
    respond t {| hs := h; output := output s; requests := requests s ++ [msg];
                 leaked := leaked s; result := result s |} response in
  if continue then handler callback turns rest s' else s'.
Proof.
  intros Ha Hm. destruct (frame_shape msg Hm) as (b0 & b1 & b2 & b3 & -> & E).
  cbn [handler app]. unfold msg_ok in Hm. rewrite E, Ha, alloc_vector_ok by lia.
  rewrite Nat2Z.id, bool_decide_eq_true_2 by (rewrite length_app; lia).
  by rewrite take_app_length, drop_app_length.
Qed.

(** C16: a client that sends well-formed requests and then closes is served
    completely and in order: the Haskell handler sees exactly its requests,
    in order and one at a time, the socket carries exactly the framed
    responses in the same order, every response buffer is freed, and the
    coroutine returns. *)
Theorem session_serves_all reqs resps h h' turns tail :
  Forall msg_ok reqs -> Forall msg_ok resps -> Forall turn_ok turns ->
  length turns = S (length reqs) -> (length tail < 4)%nat ->
  run_callbacks h reqs = (h', Some <$> resps) ->
  handler callback turns (frames reqs ++ tail) (new_session h) =
  {| hs := h'; output := frames resps; requests := reqs; leaked := []; result := Returned |}.
Proof.
  intros Hreqs Hresps Hturns Hlen Htail Hrun.
  enough (forall s, hs s = h -> handler callback turns (frames reqs ++ tail) s =
    {| hs := h'; output := output s ++ frames resps; requests := requests s ++ reqs;
       leaked := leaked s; result := Returned |}) as He by (by rewrite He).
  revert resps h turns Hresps Hturns Hlen Hrun.
  induction Hreqs as [|msg reqs Hm Hreqs IH]; intros resps h turns Hresps Hturns Hlen Hrun s Hs;
    destruct turns as [|t turns]; try discriminate; simpl in Hlen.
  - simpl in Hrun. simplify_eq. destruct resps; [|done]. unfold frames. cbn [concat fmap list_fmap app].
    rewrite !app_nil_r.
    assert (forall u, handler callback (t :: u) tail s = finish s Returned) as ->.
    { intros u. cbn [handler]. destruct tail as [|? [|? [|? [|]]]]; try done. simpl in Htail. lia. }
    done.
  - apply Forall_cons in Hturns as [(Ha & Ho & Hw) Hturns].
    simpl in Hrun. destruct (callback h msg) as [h1 resp] eqn:Ec.
    destruct (run_callbacks h1 reqs) as [h2 resps'] eqn:Er.
    destruct resps as [|data resps]; [discriminate|]. rewrite fmap_cons in Hrun.
    injection Hrun as -> -> ->. apply Forall_cons in Hresps as [Hd Hresps].
    change (frames (msg :: reqs)) with (frame msg ++ frames reqs).
    rewrite <- app_assoc, handler_round, Hs, Ec by done.
    unfold respond. rewrite Ho, Hw. erewrite IH; [|done|done|lia|exact Er|done]. simpl.
    change (frames (data :: resps)) with (frame data ++ frames resps).
    unfold frame. by rewrite <- !app_assoc.
Qed.

(** A negative length never reaches the Haskell handler: the buffer's
    constructor throws, the session is stopped and nothing is written. *)
Theorem session_negative_length b0 b1 b2 b3 rest t turns (s : session) :
  is_byte b0 -> is_byte b1 -> is_byte b2 -> is_byte b3 -> 128 <= b0 ->
  handler callback (t :: turns) (b0 :: b1 :: b2 :: b3 :: rest) s =
  finish s (StoppedExn "length_error").
Proof.
  intros H0 H1 H2 H3 Hneg. cbn [handler]. unfold alloc_vector.
  rewrite (proj2 (Z.ltb_lt _ _)); [done|].
  assert (- 2 ^ 31 <= readBE b0 b1 b2 b3 < 0) as Hr.
  { rewrite readBE_sum by done. unfold is_byte in *.
    replace (i32 (b0 * 2 ^ 24)) with (b0 * 2 ^ 24 - 2 ^ 32); [lia|].
    unfold i32. Z.div_mod_to_equations. lia. }
  unfold u64. rewrite <- (Z.mod_add _ 1), Z.mod_small by lia. lia.
Qed.

(** A request cut short stops the session without a callback or output. *)
Theorem session_truncated_body msg part t turns (s : session) :
  msg_ok msg -> t_alloc t = true -> (length part < length msg)%nat ->
  handler callback (t :: turns) (take 4 (frame msg) ++ part) s =
  finish s (StoppedExn "async_read").
Proof.
  intros Hm Ha Hlt. destruct (frame_shape msg Hm) as (b0 & b1 & b2 & b3 & -> & E).
  cbn [take app handler]. unfold msg_ok in Hm. rewrite E, Ha, alloc_vector_ok by lia.
  by rewrite Nat2Z.id, take_0, bool_decide_eq_false_2 by (simpl; lia).
Qed.

(** The buffers the coroutine frees. While the socket stays open and the
    writes succeed none is leaked; a round that finds the socket closed, or
    whose write throws, leaks the buffer of its response, the last one. *)
Theorem session_response_buffers msg rest t turns h h' data :
  t_alloc t = true -> msg_ok msg -> callback h msg = (h', Some data) ->
  (t_open t && t_write t = false ->
   leaked (handler callback (t :: turns) (frame msg ++ rest) (new_session h)) = [data]) /\
  (Forall (fun t => t_open t = true /\ t_write t = true) (t :: turns) ->
   leaked (handler callback (t :: turns) (frame msg ++ rest) (new_session h)) = []).
Proof.
  intros Ha Hm Hc. split.
  - intros Hf. rewrite handler_round by done. simpl. rewrite Hc. unfold respond.
    destruct (t_open t); [|done]. simpl in Hf. by rewrite Hf.
  - intros Hall. generalize (frame msg ++ rest). intros input.
    enough (forall s : session, leaked s = [] -> leaked (handler callback (t :: turns) input s) = [])
      as He by (by apply He).
    revert input Hall. generalize (t :: turns). clear. intros ts.
    induction ts as [|t ts IH]; intros input Hall s Hs; [done|].
    apply Forall_cons in Hall as [[Ho Hw] Hall]. cbn [handler].
    destruct input as [|b0 [|b1 [|b2 [|b3 input]]]]; try done.
    destruct (alloc_vector _ _) as [n|[]]; try done.
    case_bool_decide; [|done]. destruct (callback (hs s) _) as [h' [d|]]; unfold respond;
      rewrite Ho, ?Hw; [|done]. by apply IH.
Qed.
End session_proofs.

(** The four bytes that announce a response carry its size exactly when
    it is below 2^31; a larger response is announced with a wrong length. *)
Theorem response_prefix_exact data :
  readBE_list (take 4 (frame data)) = Z.of_nat (length data) <-> msg_ok data.
Proof.
  change (take 4 (frame data)) with (writeBE (i32 (Z.of_nat (length data)))).
  rewrite readBE_writeBE_id by apply i32_range. unfold msg_ok. split; intros H.
  - pose proof (i32_range (Z.of_nat (length data))). unfold is_i32 in *. lia.
  - apply i32_id. unfold is_i32. lia.
Qed.

(** ** Concrete runs *)

(** A Haskell side that echoes requests and counts them; an empty request is
    answered with a null response. *)
Definition echo (h : nat) (msg : list Z) : nat * option (list Z) :=
  (S h, match msg with [] => None | _ => Some msg end).

Definition good : turn := {| t_alloc := true; t_open := true; t_write := true |}.

Example echo_session :
  handler echo [good; good; good] (frames [[1; 2]; [3]]) (new_session 0%nat) =
  {| hs := 2%nat; output := [0; 0; 0; 2; 1; 2; 0; 0; 0; 1; 3]; requests := [[1; 2]; [3]];
     leaked := []; result := Returned |}.
Proof. vm_compute. reflexivity. Qed.

Lemma io_contexts_round_robin_witness :
  let p := {| stopped := [false; false; false]; next_io_context_ := 2 |} in
  (forall n k, (k < n)%nat ->
     (get_io_contexts n p).1 !! k = Some ((next_io_context_ p + k) mod pool_size p)%nat) /\
  (get_io_contexts (pool_size p) p).1 ≡ₚ seq 0 (pool_size p).
Proof.
  apply (io_contexts_round_robin {| stopped := [false; false; false]; next_io_context_ := 2 |}).
  unfold pool_ok, pool_size. simpl. lia.
Defined.

Lemma kafka_server_connections_witness :
  let p := {| stopped := replicate 4 false; next_io_context_ := 0 |} in
  let events := [Accepted "10.0.0.1"; Accepted "10.0.0.2"; EndpointFailed; Accepted "10.0.0.3"] in
  (run_kafka_server p None 7 8 events).1 =
  Ok {| acceptor_ctx := 0; listener_ctx := 1 mod 4; notified := [(7, 1)];
        connections := imap (fun i h => (((2 + i) mod 4)%nat, h)) (accepted_prefix events) |} /\
  (forall what, (run_kafka_server p (Some what) 7 8 events).1 = Err (StdExn what)).
Proof.
  apply (kafka_server_connections 4
    [Accepted "10.0.0.1"; Accepted "10.0.0.2"; EndpointFailed; Accepted "10.0.0.3"] 7 8).
  reflexivity.
Defined.

Lemma session_serves_all_witness :
  handler echo [good; good; good] (frames [[1; 2]; [3]] ++ [9]) (new_session 0%nat) =
  {| hs := 2%nat; output := frames [[1; 2]; [3]]; requests := [[1; 2]; [3]]; leaked := [];
     result := Returned |}.
Proof.
  apply (session_serves_all echo [[1; 2]; [3]] [[1; 2]; [3]] 0%nat 2%nat [good; good; good] [9]);
    [repeat constructor..| | |]; reflexivity || (simpl; lia).
Defined.

Lemma session_negative_length_witness :
  handler echo [good] [255; 255; 255; 255; 1; 2] (new_session 0%nat) =
  finish (new_session 0%nat) (StoppedExn "length_error").
Proof.
  apply (session_negative_length echo 255 255 255 255 [1; 2] good [] (new_session 0%nat));
    unfold is_byte; lia.
Defined.

Lemma session_truncated_body_witness :
  handler echo [good] (take 4 (frame [7; 8; 9]) ++ [7]) (new_session 0%nat) =
  finish (new_session 0%nat) (StoppedExn "async_read").
Proof.
  apply (session_truncated_body echo [7; 8; 9] [7] good [] (new_session 0%nat));
    reflexivity || (simpl; lia).
Defined.

Lemma session_response_buffers_witness :
  let t := {| t_alloc := true; t_open := false; t_write := true |} in
  (t_open t && t_write t = false ->
   leaked (handler echo [t] (frame [5] ++ []) (new_session 0%nat)) = [[5]]) /\
  (Forall (fun t => t_open t = true /\ t_write t = true) [t] ->
   leaked (handler echo [t] (frame [5] ++ []) (new_session 0%nat)) = []).
Proof.
  apply (session_response_buffers echo [5] [] {| t_alloc := true; t_open := false; t_write := true |}
           [] 0%nat 1%nat [5]); reflexivity.
Defined.
End KafkaServer.
