(* ===== verification/StatsTables.v ===== *)
(** * The statistics tables (src/common/stats/include/*.inc)

    Every [per_*_stats.inc] lists STAT_DEFINE(name, aggregation) lines and
    every [per_*_time_series.inc] lists TIME_SERIES_DEFINE(name, strings,
    intervals, buckets) lines. The X-macros of Stats.h expand a table to the
    members of a struct; here a struct is the sequence of its members in the
    table's order and a pointer to member is a position in that order. *)

From stdpp Require Import base gmap strings list.
From Stdlib Require Import ZArith Lia.
From S2P Require Import Prelude.

Module StatsTables.

(** [facebook::logdevice::StatsAgg], as Stats.cpp switches on it. *)
Inductive StatsAgg := SUM | MAX | SUBTRACT | ASSIGN.

(** The per-something maps of [struct Stats], in its order. A pointer to
    member [folly::Synchronized<Map> Stats::*] is one of them. *)
Inductive per_x :=
| per_stream | per_connector | per_cache_store | per_query | per_view
| per_subscription | per_handle.

#[global] Instance per_x_eq_dec : EqDecision per_x.
Proof. solve_decision. Defined.

Definition all_per_x : list per_x :=
  [per_stream; per_connector; per_cache_store; per_query; per_view;
   per_subscription; per_handle].

(** [STAT_DEFINE] lines. *)
Definition per_stream_stats_inc : list (string * StatsAgg) :=
  [("append_total", SUM); ("append_failed", SUM); ("append_in_bytes", SUM);
   ("append_in_records", SUM); ("read_in_bytes", SUM); ("read_in_batches", SUM)].

Definition per_connector_stats_inc : list (string * StatsAgg) :=
  [("delivered_in_records", SUM); ("delivered_in_bytes", SUM)].

Definition per_cache_store_stats_inc : list (string * StatsAgg) :=
  [("cs_append_total", SUM); ("cs_append_failed", SUM); ("cs_append_in_bytes", SUM);
   ("cs_append_in_records", SUM); ("cs_read_in_bytes", SUM); ("cs_read_in_records", SUM);
   ("cs_delivered_in_records", SUM); ("cs_delivered_total", SUM);
   ("cs_delivered_failed", SUM)].

Definition per_query_stats_inc : list (string * StatsAgg) :=
  [("total_input_records", SUM); ("total_output_records", SUM);
   ("total_execute_errors", SUM)].

Definition per_view_stats_inc : list (string * StatsAgg) :=
  [("total_execute_queries", SUM)].

Definition per_subscription_stats_inc : list (string * StatsAgg) :=
  [("send_out_bytes", SUM); ("send_out_records", SUM); ("send_out_records_failed", SUM);
   ("resend_records", SUM); ("resend_records_failed", SUM); ("received_acks", SUM);
   ("request_messages", SUM); ("response_messages", SUM); ("checklist_size", SUM)].

(** The counters of a struct: [PerHandleStats] has none. *)
Definition stat_defs (x : per_x) : list (string * StatsAgg) :=
  match x with
  | per_stream => per_stream_stats_inc
  | per_connector => per_connector_stats_inc
  | per_cache_store => per_cache_store_stats_inc
  | per_query => per_query_stats_inc
  | per_view => per_view_stats_inc
  | per_subscription => per_subscription_stats_inc
  | per_handle => []
  end.

(** A TIME_SERIES_DEFINE line; the strings are a [std::set], so sorted, and
    the intervals are milliseconds. *)
Record series_def := {
  ts_name : string;
  ts_strings : list string;
  ts_intervals : list Z;
  ts_buckets : Z;
}.

Definition intervals_4_60_300_600 : list Z := [4000; 60000; 300000; 600000].

Definition series_line (name : string) (strings : list string) : series_def :=
  {| ts_name := name; ts_strings := strings;
     ts_intervals := intervals_4_60_300_600; ts_buckets := 2 |}.

Definition per_stream_time_series_inc : list series_def :=
  [series_line "append_in_bytes" ["append_in_bytes"; "appends"];
   series_line "append_in_records" ["append_in_records"];
   series_line "append_in_requests" ["append_in_requests"];
   series_line "append_failed_requests" ["append_failed_requests"]].

Definition per_subscription_time_series_inc : list series_def :=
  [series_line "send_out_bytes" ["send_out_bytes"; "sends"];
   series_line "send_out_records" ["send_out_records"];
   series_line "acks" ["acknowledgements"; "acks"];
   series_line "request_messages" ["request_messages"];
   series_line "response_messages" ["response_messages"]].

Definition per_handle_time_series_inc : list series_def :=
  [series_line "queries_in" ["queries"; "queries_in"]].

Definition series_defs (x : per_x) : list series_def :=
  match x with
  | per_stream => per_stream_time_series_inc
  | per_subscription => per_subscription_time_series_inc
  | per_handle => per_handle_time_series_inc
  | _ => []
  end.

Lemma stat_defs_SUM x : Forall (fun d => d.2 = SUM) (stat_defs x).
Proof. destruct x; repeat constructor. Qed.

Lemma stat_defs_NoDup x : NoDup (stat_defs x).*1.
Proof. apply (bool_decide_unpack _). by destruct x; vm_compute. Qed.

(** No string names two time series of a struct. *)
Lemma series_strings_NoDup x : NoDup (concat (ts_strings <$> series_defs x)).
Proof. apply (bool_decide_unpack _). by destruct x; vm_compute. Qed.
End StatsTables.
