(* ===== verification/Stats.v ===== *)
(** * Statistics objects (src/common/stats/cbits/stats/Stats.h, Stats.cpp)

    The per-something structs, [struct Stats] that maps keys to them, and the
    aggregation of one [Stats] into another. LogDevice's [StatsCounter] and
    histograms and folly's time series are interfaces with the laws their
    documentation gives. *)

From stdpp Require Import base gmap strings list.
From Stdlib Require Import ZArith Lia.
From S2P Require Import Prelude StatsTables.
Import StatsTables.

(** ** Interfaces of code outside the repository *)

(** [facebook::logdevice::StatsCounter]: an [int64_t] counter with the usual
    operators; overflow wraps. *)
Class StatsCounter := {
  counter : Type;
  counter_zero : counter;                (* StatsCounter c{} *)
  counter_incr : counter -> Z -> counter; (* c += v *)
  counter_decr : counter -> Z -> counter; (* c -= v *)
  counter_assign : counter -> Z -> counter; (* c = v *)
  load : counter -> Z;
  load_range : forall c, is_i64 (load c);
  load_zero : load counter_zero = 0;
  load_incr : forall c v, load (counter_incr c v) = i64 (load c + v);
  load_decr : forall c v, load (counter_decr c v) = i64 (load c - v);
  load_assign : forall c v, load (counter_assign c v) = i64 v;
}.

(** A counter that is an integer, read modulo 2^64. *)
#[global] Program Instance int_StatsCounter : StatsCounter | 100 :=
  {| counter := Z; counter_zero := 0; counter_incr := Z.add; counter_decr := Z.sub;
     counter_assign _ v := v; load := i64 |}.
Next Obligation. apply i64_range. Qed.
Next Obligation. done. Qed.
Next Obligation. intros. by rewrite i64_add_l. Qed.
Next Obligation. intros c v. rewrite <- !Z.add_opp_r. by rewrite i64_add_l. Qed.
Next Obligation. done. Qed.

(** [facebook::logdevice]'s [ld_check]: aborts on a false condition in a debug
    build and does nothing in a release build. An aborted (or undefined)
    computation is [None]. *)
Class LdCheck := { ld_debug : bool }.

Definition ld_check `{LdCheck} (cond : bool) : option unit :=
  if ld_debug && negb cond then None else Some tt.

(** [double]. *)
Class Double := {
  double : Type;
  d_zero : double;
  d_add : double -> double -> double;
  d_mul_int : double -> Z -> double;
  d_div_int : double -> Z -> double;
}.

(** [folly::MultiLevelTimeSeries] over milliseconds. *)
Class TimeSeries `{Double} := {
  ts : Type;
  ts_new : Z -> list Z -> ts;            (* num_buckets, intervals *)
  ts_addValue : ts -> Z -> Z -> ts;      (* now, value *)
  ts_update : ts -> Z -> ts;             (* now *)
  ts_rate : ts -> Z -> Z -> double;      (* rate<double>(start, end) *)
}.

(** [LatencyHistogram], whose merge adds bucket counts, and what
    [HistogramBundle] does with the members [getMap()] lists, in its order. *)
Class Histograms `{Double} := {
  hist : Type;
  hist_new : hist;
  hist_add : hist -> Z -> hist;
  hist_merge : hist -> hist -> hist;
  hist_subtract : hist -> hist -> hist;
  hist_clear : hist -> hist;
  hist_estimatePercentile : hist -> double -> Z;
  (* samples_out, count_out, sum_out *)
  hist_estimatePercentiles : hist -> list double -> list Z * Z * Z;
  bundle_merge : list hist -> list hist -> list hist;
  bundle_subtract : list hist -> list hist -> list hist;
  bundle_clear : list hist -> list hist;
  bundle_find : list string -> string -> option nat;
  hist_merge_comm : Comm (=) hist_merge;
  hist_merge_assoc : Assoc (=) hist_merge;
  hist_merge_new : LeftId (=) hist_new hist_merge;
  hist_clear_new : forall h, hist_clear h = hist_new;
  hist_merge_add : forall h h' v, hist_merge (hist_add h v) h' = hist_add (hist_merge h h') v;
  bundle_merge_spec : forall a b, length a = length b ->
    bundle_merge a b = zip_with hist_merge a b;
  bundle_clear_spec : forall a, bundle_clear a = hist_clear <$> a;
  bundle_find_spec : forall names s i, NoDup names ->
    bundle_find names s = Some i <-> names !! i = Some s;
}.
#[global] Existing Instances hist_merge_comm hist_merge_assoc hist_merge_new.

(** *** Concrete instances, on which the definitions evaluate *)

#[global] Instance release_LdCheck : LdCheck | 100 := {| ld_debug := false |}.

#[global] Instance Z_Double : Double | 100 :=
  {| double := Z; d_zero := 0; d_add := Z.add; d_mul_int := Z.mul; d_div_int := Z.div |}.

(** A series that keeps its samples; its rate is the plain sum. *)
#[global] Instance list_TimeSeries : TimeSeries | 100 :=
  {| ts := list (Z * Z); ts_new _ _ := [];
     ts_addValue l now v := (now, v) :: l; ts_update l _ := l;
     ts_rate l start end_ :=
       foldr Z.add 0 (snd <$> filter (fun s => start <= s.1 <= end_) l) |}.

(** A histogram that keeps the count and the sum of its samples. *)
Definition mean (h : Z * Z) : Z := if h.1 =? 0 then 0 else h.2 / h.1.
Definition map2 (f : Z -> Z -> Z) (a b : Z * Z) : Z * Z := (f a.1 b.1, f a.2 b.2).

#[global] Program Instance mean_Histograms : Histograms | 100 :=
  {| hist := Z * Z; hist_new := (0, 0); hist_add h v := (h.1 + 1, h.2 + v);
     hist_merge := map2 Z.add; hist_subtract := map2 Z.sub; hist_clear _ := (0, 0);
     hist_estimatePercentile h _ := mean h;
     hist_estimatePercentiles h ps := ((fun _ => mean h) <$> ps, h.1, h.2);
     bundle_merge := zip_with (map2 Z.add); bundle_subtract := zip_with (map2 Z.sub);
     bundle_clear := fmap (fun _ => (0, 0));
     bundle_find names s := fst <$> list_find (eq s) names |}.
Next Obligation. intros [] []. unfold map2. simpl. f_equal; lia. Qed.
Next Obligation. intros [] [] []. unfold map2. simpl. f_equal; lia. Qed.
Next Obligation. by intros []. Qed.
Next Obligation. done. Qed.
Next Obligation. intros [] [] v. unfold map2. simpl. f_equal; lia. Qed.
Next Obligation. done. Qed.
Next Obligation. done. Qed.
Next Obligation.
  intros names s i Hnd. rewrite fmap_Some. split.
  - intros ([j y] & E & ->). by apply list_find_Some in E as (? & <- & _).
  - intros E. exists (i, s). split; [|done]. apply list_find_Some. split_and!; [done..|].
    intros j y Hj Hlt <-. pose proof (NoDup_lookup _ _ _ _ Hnd Hj E). lia.
Qed.

Module Stats.
Section stats.
Context {SC : StatsCounter} {D : Double} {TS : TimeSeries} {HB : Histograms}.
Context {LD : LdCheck} {OS : IterOrder string}.

(** ** Aggregating one counter (Stats.cpp) *)

Definition aggregateStat (agg : StatsAgg) (out : counter) (in_ : Z) : counter :=
  match agg with
  | SUM => counter_incr out in_
  | MAX => if load out <? in_ then counter_assign out in_ else out
  | SUBTRACT => counter_decr out in_
  | ASSIGN => counter_assign out in_
  end.

Definition aggregateStat_override (agg : StatsAgg) (override : option StatsAgg)
    (out : counter) (in_ : Z) : counter :=
  aggregateStat (default agg override) out in_.

(** A bundle of histograms, in the order of [getMap]. *)
Definition ServerHistograms : Type := list hist.

Definition server_histogram_names : list string :=
  ["append_request_latency"; "append_latency"; "read_latency";
   "append_cache_store_latency"; "read_cache_store_latency";
   "check_store_cluster_healthy_latency"; "check_meta_cluster_healthy_latency"].

Definition new_ServerHistograms : ServerHistograms :=
  (fun _ => hist_new) <$> server_histogram_names.

Definition aggregateHistogram (agg : option StatsAgg) (out in_ : ServerHistograms)
    : ServerHistograms :=
  match agg with
  | None => bundle_merge out in_
  | Some SUM => bundle_merge out in_
  | Some MAX => bundle_merge out in_
  | Some SUBTRACT => bundle_subtract out in_
  | Some ASSIGN => in_
  end.

(** ** Per-something structs *)

(** [PerStreamStats], [PerConnectorStats], ...: the counters of the struct's
    table and, for those that have them, the time series ([None]: a null
    [shared_ptr]). *)
Record PerXStats := { counters : list counter; series : list (option ts) }.

Definition new_PerXStats (x : per_x) : PerXStats :=
  {| counters := (fun _ => counter_zero) <$> stat_defs x;
     series := (fun _ => None) <$> series_defs x |}.

(** [PerXStats::aggregate]: one [aggregateStat] per STAT_DEFINE line. *)
Fixpoint aggregate_counters (defs : list (string * StatsAgg)) (agg_override : option StatsAgg)
    (this other : list counter) : list counter :=
  match defs, this, other with
  | (_, agg) :: defs, out :: this, in_ :: other =>
      aggregateStat_override agg agg_override out (load in_)
      :: aggregate_counters defs agg_override this other
  | _, _, _ => []
  end.

Definition PerXStats_aggregate (x : per_x) (this other : PerXStats)
    (agg_override : option StatsAgg) : PerXStats :=
  {| counters := aggregate_counters (stat_defs x) agg_override (counters this) (counters other);
     series := series this |}.

(** [toJsonObj] of a struct: a JSON object from names to numbers. *)
Definition PerXStats_toJsonObj (x : per_x) (p : PerXStats) : gmap string Z :=
  foldl (fun m d => <[d.1 := d.2]> m) ∅ (zip (stat_defs x).*1 (load <$> counters p)).

(** ** struct Stats *)

(** [StatsParams]: for every series of the tables its [time_intervals_name]
    and [num_buckets_name]. *)
Record StatsParams := {
  is_server : bool;
  series_params : per_x -> list (list Z * Z);
}.

Definition new_StatsParams : StatsParams :=
  {| is_server := false;
     series_params x := (fun d => (ts_intervals d, ts_buckets d)) <$> series_defs x |}.

Definition setIsServer (p : StatsParams) (b : bool) : StatsParams :=
  {| is_server := b; series_params := series_params p |}.

(** [maxStreamStatsInterval], [maxSubscribptionStatsInterval] and
    [maxHandleStatsInterval]; [back()] of an empty vector is undefined. *)
Fixpoint maxInterval_loop (defs : list series_def) (ps : list (list Z * Z))
    (string_name : string) : option Z :=
  match defs, ps with
  | d :: defs, (intervals, _) :: ps =>
      if bool_decide (string_name ∈ ts_strings d) then last intervals
      else maxInterval_loop defs ps string_name
  | _, _ => ld_check false;; Some 0
  end.

Definition maxStatsInterval (x : per_x) (p : StatsParams) (string_name : string) : option Z :=
  maxInterval_loop (series_defs x) (series_params p x) string_name.

Record Stats := {
  per_stream_stats : gmap string PerXStats;
  per_connector_stats : gmap string PerXStats;
  per_cache_store_stats : gmap string PerXStats;
  per_query_stats : gmap string PerXStats;
  per_view_stats : gmap string PerXStats;
  per_subscription_stats : gmap string PerXStats;
  per_handle_stats : gmap string PerXStats;
  server_histograms : option ServerHistograms;
  params : StatsParams;
}.

(** [this->*map] for a pointer to one of the map members. *)
Definition stats_map (x : per_x) (s : Stats) : gmap string PerXStats :=
  match x with
  | per_stream => per_stream_stats s
  | per_connector => per_connector_stats s
  | per_cache_store => per_cache_store_stats s
  | per_query => per_query_stats s
  | per_view => per_view_stats s
  | per_subscription => per_subscription_stats s
  | per_handle => per_handle_stats s
  end.

Definition set_map (x : per_x) (m : gmap string PerXStats) (s : Stats) : Stats :=
  {| per_stream_stats := match x with per_stream => m | _ => per_stream_stats s end;
     per_connector_stats := match x with per_connector => m | _ => per_connector_stats s end;
     per_cache_store_stats := match x with per_cache_store => m | _ => per_cache_store_stats s end;
     per_query_stats := match x with per_query => m | _ => per_query_stats s end;
     per_view_stats := match x with per_view => m | _ => per_view_stats s end;
     per_subscription_stats := match x with per_subscription => m | _ => per_subscription_stats s end;
     per_handle_stats := match x with per_handle => m | _ => per_handle_stats s end;
     server_histograms := server_histograms s; params := params s |}.

Definition set_histograms (h : option ServerHistograms) (s : Stats) : Stats :=
  {| per_stream_stats := per_stream_stats s; per_connector_stats := per_connector_stats s;
     per_cache_store_stats := per_cache_store_stats s; per_query_stats := per_query_stats s;
     per_view_stats := per_view_stats s; per_subscription_stats := per_subscription_stats s;
     per_handle_stats := per_handle_stats s; server_histograms := h; params := params s |}.

Definition isServerStats (s : Stats) : bool := is_server (params s).

Definition new_Stats (p : StatsParams) : Stats :=
  {| per_stream_stats := ∅; per_connector_stats := ∅; per_cache_store_stats := ∅;
     per_query_stats := ∅; per_view_stats := ∅; per_subscription_stats := ∅;
     per_handle_stats := ∅;
     server_histograms := if is_server p then Some new_ServerHistograms else None;
     params := p |}.

(** [synchronizedCopy]: the entries of a map, in the map's iteration order. *)
Definition synchronizedCopy (x : per_x) (s : Stats) : list (string * PerXStats) :=
  iter_list (stats_map x s).

(** The body of _PER_STATS for one map. *)
Definition aggregate_map (x : per_x) (agg_override : option StatsAgg)
    (this_stats : gmap string PerXStats) (other_stats : list (string * PerXStats))
    : gmap string PerXStats :=
  foldl (fun m kv =>
    <[kv.1 := PerXStats_aggregate x (default (new_PerXStats x) (m !! kv.1)) kv.2 agg_override]> m)
    this_stats other_stats.

(** The maps [aggregateCompoundStats] treats, in its order. *)
Definition aggregated : list per_x :=
  [per_stream; per_connector; per_cache_store; per_query; per_view; per_subscription].

(** The per-something part of [aggregateCompoundStats]. *)
Definition aggregate_maps (this other : Stats) (agg_override : option StatsAgg) : Stats :=
  foldl (fun s x =>
    set_map x (aggregate_map x agg_override (stats_map x s) (synchronizedCopy x other)) s)
    this aggregated.

(** Dereferencing a null [server_histograms] of [this] is undefined. *)
Definition aggregateCompoundStats (this other : Stats) (agg_override : option StatsAgg)
    (destroyed_threads : bool) : option Stats :=
  let this := aggregate_maps this other agg_override in
  match server_histograms other with
  | Some h =>
      ld_check (bool_decide (is_Some (server_histograms this)));;
      out ← server_histograms this;
      Some (set_histograms (Some (aggregateHistogram agg_override out h)) this)
  | None => Some this
  end.

Definition aggregate (this other : Stats) (agg_override : option StatsAgg) : option Stats :=
  aggregateCompoundStats this other agg_override false.

Definition aggregateForDestroyedThread (this other : Stats) : option Stats :=
  aggregateCompoundStats this other None true.

(** Copy constructor and copy assignment. *)
Definition copy_Stats (other : Stats) : option Stats :=
  aggregate (new_Stats (params other)) other (Some ASSIGN).

Definition assign_Stats (this other : Stats) : option Stats :=
  aggregate this other (Some ASSIGN).

Definition deriveStats (s : Stats) : Stats := s.

Definition Stats_reset (s : Stats) : Stats :=
  let s := foldl (fun s x => set_map x ∅ s) s
    [per_stream; per_connector; per_cache_store; per_query; per_view; per_subscription;
     per_handle] in
  if is_server (params s) then
    match server_histograms s with
    | Some h => set_histograms (Some (bundle_clear h)) s
    | None => s
    end
  else s.

(** [Stats::toJsonObj]: one object per aggregated map. *)
Definition map_toJsonObj (x : per_x) (s : Stats) : gmap string (gmap string Z) :=
  foldl (fun m kv => <[kv.1 := PerXStats_toJsonObj x kv.2]> m) ∅ (synchronizedCopy x s).

Definition member_name (x : per_x) : string :=
  match x with
  | per_stream => "per_stream_stats" | per_connector => "per_connector_stats"
  | per_cache_store => "per_cache_store_stats" | per_query => "per_query_stats"
  | per_view => "per_view_stats" | per_subscription => "per_subscription_stats"
  | per_handle => "per_handle_stats"
  end.

Definition Stats_toJsonObj (s : Stats) : gmap string (gmap string (gmap string Z)) :=
  foldl (fun r x => <[member_name x := map_toJsonObj x s]> r) ∅ aggregated.

(** ** Views: a struct as the list of its counters' values *)

Definition view (p : PerXStats) : list Z := load <$> counters p.

Definition cview (x : per_x) (s : Stats) : gmap string (list Z) := view <$> stats_map x s.

(** Pointwise [int64_t] addition, and the sum of two maps of counters. *)
Definition vadd (a b : list Z) : list Z := zip_with (fun x y => i64 (x + y)) a b.

Definition madd (a b : gmap string (list Z)) : gmap string (list Z) :=
  union_with (fun v w => Some (vadd v w)) a b.

(** The struct has one counter and one series slot per line of its tables. *)
Definition wf_per (x : per_x) (p : PerXStats) : Prop :=
  length (counters p) = length (stat_defs x) /\ length (series p) = length (series_defs x).

(** A server's [Stats] has all histograms, any other has none. *)
Definition wf_hists (prm : StatsParams) (h : option ServerHistograms) : Prop :=
  if is_server prm then exists b, h = Some b /\ length b = length server_histogram_names
  else h = None.

Definition wf_Stats (prm : StatsParams) (s : Stats) : Prop :=
  params s = prm /\ wf_hists prm (server_histograms s) /\
  forall x, map_Forall (fun _ => wf_per x) (stats_map x s).

Lemma vadd_comm : Comm (=) vadd.
Proof.
  intros a. unfold vadd. induction a as [|x a IH]; intros [|y b]; simpl; try done.
  by rewrite IH, Z.add_comm.
Qed.

Lemma vadd_assoc : Assoc (=) vadd.
Proof.
  intros a. unfold vadd. induction a as [|x a IH]; intros [|y b] [|z c]; simpl; try done.
  rewrite IH. autorewrite with hs_int. by rewrite Z.add_assoc.
Qed.

#[local] Existing Instances vadd_comm vadd_assoc.

Lemma madd_comm : Comm (=) madd.
Proof.
  intros a b. unfold madd. apply map_eq. intros k. rewrite !lookup_union_with.
  destruct (a !! k), (b !! k); simpl; try done. by rewrite (comm vadd).
Qed.

Lemma madd_assoc : Assoc (=) madd.
Proof.
  intros a b c. unfold madd. apply map_eq. intros k. rewrite !lookup_union_with.
  destruct (a !! k), (b !! k), (c !! k); simpl; try done. by rewrite (assoc vadd).
Qed.

Lemma madd_empty_l : LeftId (=) ∅ madd.
Proof. intros a. unfold madd. apply (left_id _ (union_with _)). Qed.

Lemma madd_empty_r : RightId (=) ∅ madd.
Proof. intros a. unfold madd. apply (right_id _ (union_with _)). Qed.

(** ** Structs *)

Lemma wf_new_PerXStats x : wf_per x (new_PerXStats x).
Proof. split; simpl; by rewrite length_fmap. Qed.

Lemma length_view x p : wf_per x p -> length (view p) = length (stat_defs x).
Proof. intros [H _]. unfold view. by rewrite length_fmap. Qed.

Lemma aggregate_counters_length ov defs a b :
  length a = length defs -> length b = length defs ->
  length (aggregate_counters defs ov a b) = length defs.
Proof.
  revert a b. induction defs as [|[n ag] defs IH]; intros [|c a] [|d b]; simpl; try lia.
  intros Ha Hb. f_equal. apply IH; lia.
Qed.

Lemma wf_PerXStats_aggregate x p q ov :
  wf_per x p -> wf_per x q -> wf_per x (PerXStats_aggregate x p q ov).
Proof.
  intros [Hc Hs] [Hc' _]. split; simpl; [|done]. by apply aggregate_counters_length.
Qed.

Lemma aggregate_counters_sum defs a b :
  Forall (fun d => d.2 = SUM) defs ->
  length a = length defs -> length b = length defs ->
  load <$> aggregate_counters defs None a b = vadd (load <$> a) (load <$> b).
Proof.
  intros Hd. revert a b. induction Hd as [|[n ag] defs E Hd IH]; intros [|c a] [|d b];
    simpl; try lia; [done|].
  intros Ha Hb. simpl in E. subst ag. unfold vadd, aggregateStat_override in *. simpl.
  by rewrite load_incr, IH by lia.
Qed.

Lemma view_aggregate x p q :
  wf_per x p -> wf_per x q ->
  view (PerXStats_aggregate x p q None) = vadd (view p) (view q).
Proof.
  intros [Hp _] [Hq _]. apply aggregate_counters_sum; auto using stat_defs_SUM.
Qed.

Lemma aggregate_counters_assign defs a b :
  length a = length defs -> length b = length defs ->
  load <$> aggregate_counters defs (Some ASSIGN) a b = load <$> b.
Proof.
  revert a b. induction defs as [|[n ag] defs IH]; intros [|c a] [|d b]; simpl; try lia; [done|].
  intros Ha Hb. unfold aggregateStat_override. simpl. rewrite load_assign, IH by lia. f_equal. apply i64_id, load_range.
Qed.

Lemma view_new_PerXStats x : view (new_PerXStats x) = replicate (length (stat_defs x)) 0.
Proof.
  unfold view. simpl. induction (stat_defs x); simpl; [done|].
  f_equal; [apply load_zero|done].
Qed.

Lemma vadd_zeros l : Forall is_i64 l -> vadd (replicate (length l) 0) l = l.
Proof.
  unfold vadd. induction 1 as [|z l Hz Hl IH]; simpl; [done|]. rewrite IH. f_equal.
  by apply i64_id.
Qed.

Lemma view_range p : Forall is_i64 (view p).
Proof. apply Forall_fmap, Forall_true. intros c. apply load_range. Qed.

(** ** Maps *)

(** Aggregating a list of entries with distinct keys, key by key. *)
Lemma aggregate_map_lookup x ov m l k :
  NoDup l.*1 ->
  aggregate_map x ov m l !! k =
    match (list_to_map l : gmap string PerXStats) !! k with
    | Some p => Some (PerXStats_aggregate x (default (new_PerXStats x) (m !! k)) p ov)
    | None => m !! k
    end.
Proof.
  unfold aggregate_map. revert m. induction l as [|[k' p] l IH]; intros m Hl; simpl in *; [done|].
  apply NoDup_cons in Hl as [Hk Hl]. rewrite IH by done. destruct (decide (k' = k)) as [->|Hne].
  - rewrite (not_elem_of_list_to_map_1 l k) by done. by rewrite !lookup_insert_eq.
  - by rewrite !lookup_insert_ne by done.
Qed.

Lemma aggregate_map_iter x ov m m' k :
  aggregate_map x ov m (iter_list m') !! k =
    match m' !! k with
    | Some p => Some (PerXStats_aggregate x (default (new_PerXStats x) (m !! k)) p ov)
    | None => m !! k
    end.
Proof. by rewrite aggregate_map_lookup, iter_list_to_map by apply NoDup_iter_list_fst. Qed.

Lemma stats_map_aggregate_maps x this other ov :
  stats_map x (aggregate_maps this other ov) =
    if decide (x = per_handle) then stats_map x this
    else aggregate_map x ov (stats_map x this) (synchronizedCopy x other).
Proof. by destruct x. Qed.

Lemma stats_map_set_histograms x h s : stats_map x (set_histograms h s) = stats_map x s.
Proof. by destruct x. Qed.

Lemma stats_map_set_map x y m s :
  stats_map x (set_map y m s) = if decide (x = y) then m else stats_map x s.
Proof. by destruct x, y. Qed.

Lemma wf_set_map prm x m s :
  wf_Stats prm s -> map_Forall (fun _ => wf_per x) m -> wf_Stats prm (set_map x m s).
Proof.
  intros (Hp & Hh & Hm) H. split_and!; [done..|]. intros y. rewrite stats_map_set_map.
  case_decide; [by subst|done].
Qed.

Lemma wf_aggregate_map x ov m m' :
  map_Forall (fun _ => wf_per x) m -> map_Forall (fun _ => wf_per x) m' ->
  map_Forall (fun _ => wf_per x) (aggregate_map x ov m (iter_list m')).
Proof.
  intros Hm Hm' k p. rewrite aggregate_map_iter. destruct (m' !! k) as [q|] eqn:E; [|apply Hm].
  intros [= <-]. apply wf_PerXStats_aggregate; [|by eapply Hm'].
  destruct (m !! k) eqn:E'; simpl; [by eapply Hm|apply wf_new_PerXStats].
Qed.

Lemma wf_new_Stats prm : wf_Stats prm (new_Stats prm).
Proof.
  split_and!; [done| |by intros []; apply map_Forall_empty].
  unfold wf_hists, new_Stats; simpl. destruct (is_server prm); [|done].
  by eexists.
Qed.

Lemma view_aggregate_map x m m' :
  map_Forall (fun _ => wf_per x) m -> map_Forall (fun _ => wf_per x) m' ->
  view <$> aggregate_map x None m (iter_list m') = madd (view <$> m) (view <$> m').
Proof.
  intros Hm Hm'. apply map_eq. intros k. unfold madd.
  rewrite lookup_union_with, !lookup_fmap, aggregate_map_iter.
  destruct (m' !! k) as [q|] eqn:E', (m !! k) as [p|] eqn:E; simpl; try done.
  - rewrite view_aggregate; [done|by eapply Hm|by eapply Hm'].
  - apply Hm' in E'. rewrite view_aggregate by auto using wf_new_PerXStats.
    rewrite view_new_PerXStats, <- (length_view x q) by done.
    by rewrite vadd_zeros by apply view_range.
Qed.

(** ** Aggregation never aborts between objects of one holder *)

(** What the histograms become. *)
Definition hists_aggregate (ov : option StatsAgg) (a b : option ServerHistograms)
    : option ServerHistograms :=
  match a, b with
  | Some out, Some h => Some (aggregateHistogram ov out h)
  | _, _ => a
  end.

Lemma aggregateCompoundStats_Some prm this other ov d :
  wf_Stats prm this -> wf_Stats prm other ->
  aggregateCompoundStats this other ov d =
    Some (set_histograms
      (hists_aggregate ov (server_histograms this) (server_histograms other))
      (aggregate_maps this other ov)).
Proof.
  intros (_ & Ht & _) (_ & Ho & _). unfold aggregateCompoundStats, wf_hists in *.
  destruct (is_server prm).
  - destruct Ht as (b & E & _), Ho as (b' & E' & _).
    change (server_histograms (aggregate_maps this other ov)) with (server_histograms this).
    rewrite E, E'. unfold ld_check. rewrite bool_decide_eq_true_2 by eauto.
    by rewrite andb_false_r.
  - rewrite Ho, Ht. by destruct this; simpl in *; subst.
Qed.

(** Pointwise merge of two optional bundles. *)
Definition hadd (a b : option ServerHistograms) : option ServerHistograms :=
  match a, b with
  | Some a, Some b => Some (zip_with hist_merge a b)
  | _, _ => None
  end.

Lemma zip_merge_comm : Comm (=) (zip_with hist_merge).
Proof.
  intros a. induction a as [|x a IH]; intros [|y b]; simpl; try done.
  by rewrite IH, (comm hist_merge).
Qed.

Lemma zip_merge_assoc : Assoc (=) (zip_with hist_merge).
Proof.
  intros a. induction a as [|x a IH]; intros [|y b] [|z c]; simpl; try done.
  by rewrite IH, (assoc hist_merge).
Qed.

Lemma hadd_comm : Comm (=) hadd.
Proof. intros [a|] [b|]; simpl; try done. by rewrite zip_merge_comm. Qed.

Lemma hadd_assoc : Assoc (=) hadd.
Proof. intros [a|] [b|] [c|]; simpl; try done. by rewrite zip_merge_assoc. Qed.

Lemma hists_aggregate_hadd prm a b :
  wf_hists prm a -> wf_hists prm b -> hists_aggregate None a b = hadd a b.
Proof.
  unfold wf_hists. destruct (is_server prm); [|by intros -> ->].
  intros (x & -> & Hx) (y & -> & Hy). simpl. by rewrite bundle_merge_spec by congruence.
Qed.

Lemma wf_hadd prm a b : wf_hists prm a -> wf_hists prm b -> wf_hists prm (hadd a b).
Proof.
  unfold wf_hists. destruct (is_server prm); [|by intros -> ->].
  intros (x & -> & Hx) (y & -> & Hy). simpl. eexists. split; [done|].
  rewrite length_zip_with. unfold ServerHistograms in *. rewrite Hx, Hy. apply Nat.min_id.
Qed.

Lemma hadd_new prm h :
  wf_hists prm h -> hadd (server_histograms (new_Stats prm)) h = h.
Proof.
  unfold wf_hists, new_Stats. cbn [server_histograms]. destruct (is_server prm); [|by intros ->].
  intros (b & -> & Hb). unfold hadd, new_ServerHistograms, ServerHistograms in *. f_equal.
  revert Hb. generalize server_histogram_names. induction b as [|h b IH]; intros [|n l];
    try done. intros [= E]. rewrite fmap_cons. cbn [zip_with].
  by rewrite IH, (left_id hist_new hist_merge).
Qed.

(** ** The effect of aggregating with the default functions *)

Definition aggregated_to (prm : StatsParams) (this other s : Stats) : Prop :=
  wf_Stats prm s /\
  (forall x, x <> per_handle -> cview x s = madd (cview x this) (cview x other)) /\
  stats_map per_handle s = stats_map per_handle this /\
  server_histograms s = hadd (server_histograms this) (server_histograms other).

Lemma aggregateCompoundStats_sum prm this other d :
  wf_Stats prm this -> wf_Stats prm other ->
  exists s, aggregateCompoundStats this other None d = Some s /\ aggregated_to prm this other s.
Proof.
  intros Ht Ho. rewrite (aggregateCompoundStats_Some prm) by done. eexists. split; [done|].
  destruct Ht as (Hp & Hh & Hm), Ho as (Hp' & Hh' & Hm').
  rewrite (hists_aggregate_hadd prm) by done. split_and!.
  - split_and!; [done|by apply wf_hadd|]. intros x.
    rewrite stats_map_set_histograms, stats_map_aggregate_maps. case_decide; [done|].
    by apply wf_aggregate_map.
  - intros x Hx. unfold cview.
    rewrite stats_map_set_histograms, stats_map_aggregate_maps, decide_False by done.
    by apply view_aggregate_map.
  - done.
  - done.
Qed.

(** ** Aggregating with ASSIGN: copies *)

Lemma view_aggregate_map_assign x m m' :
  map_Forall (fun _ => wf_per x) m -> map_Forall (fun _ => wf_per x) m' ->
  view <$> aggregate_map x (Some ASSIGN) m (iter_list m') = (view <$> m') ∪ (view <$> m).
Proof.
  intros Hm Hm'. apply map_eq. intros k.
  rewrite lookup_union, !lookup_fmap, aggregate_map_iter.
  destruct (m' !! k) as [q|] eqn:E'; simpl; [|by rewrite (left_id None union)].
  rewrite union_Some_l. f_equal. apply aggregate_counters_assign; [|by eapply Hm'].
  destruct (m !! k) eqn:E; simpl; [by eapply Hm|apply wf_new_PerXStats].
Qed.

Lemma aggregate_assign prm this other :
  wf_Stats prm this -> wf_Stats prm other ->
  exists s, aggregate this other (Some ASSIGN) = Some s /\
    (forall x, x <> per_handle -> cview x s = cview x other ∪ cview x this) /\
    stats_map per_handle s = stats_map per_handle this /\
    server_histograms s = server_histograms other.
Proof.
  intros Ht Ho. unfold aggregate. rewrite (aggregateCompoundStats_Some prm) by done.
  eexists. split; [done|]. destruct Ht as (Hp & Hh & Hm), Ho as (Hp' & Hh' & Hm').
  split_and!; [|done|].
  - intros x Hx. unfold cview.
    rewrite stats_map_set_histograms, stats_map_aggregate_maps, decide_False by done.
    by apply view_aggregate_map_assign.
  - simpl. unfold wf_hists in *. destruct (is_server prm); [|by rewrite Hh, Hh'].
    destruct Hh as (b & -> & _), Hh' as (b' & -> & _). done.
Qed.

(** ** Properties *)

(** The copy constructor never aborts and the copy has exactly the counters
    and histograms of the original; it drops what is only kept per thread, the
    per-handle map. *)
Theorem copy_Stats_faithful prm s :
  wf_Stats prm s ->
  exists s', copy_Stats s = Some s' /\
    (forall x, x <> per_handle -> cview x s' = cview x s) /\
    per_handle_stats s' = ∅ /\ server_histograms s' = server_histograms s.
Proof.
  intros H. destruct (H) as (Hp & _).
  destruct (aggregate_assign prm (new_Stats prm) s) as (s' & E & Hc & Hd & Hh);
    [apply wf_new_Stats|done|].
  exists s'. unfold copy_Stats. rewrite Hp. split_and!; try done.
  intros x Hx. rewrite Hc by done.
  replace (cview x (new_Stats prm)) with (∅ : gmap string (list Z)) by (by destruct x).
  apply (right_id ∅ (∪)).
Qed.

(** Copy assignment overwrites the entries of the keys the source has and
    keeps every entry whose key the source lacks, so the result is not a copy
    of the source unless the target's keys are among the source's. *)
Theorem assign_Stats_keeps_stale prm this other :
  wf_Stats prm this -> wf_Stats prm other ->
  exists s, assign_Stats this other = Some s /\
    forall x, x <> per_handle ->
      cview x s = cview x other ∪ cview x this /\
      (cview x s = cview x other <-> dom (cview x this) ⊆ dom (cview x other)).
Proof.
  intros Ht Ho. destruct (aggregate_assign prm this other) as (s & E & Hc & _); [done..|].
  exists s. split; [done|]. intros x Hx. split; [by apply Hc|]. rewrite Hc by done. split.
  - intros Eq. rewrite <- Eq, dom_union. set_solver.
  - intros Hsub. apply map_eq. intros k. rewrite lookup_union.
    destruct (cview x other !! k) eqn:Ek; [by rewrite union_Some_l|].
    destruct (cview x this !! k) eqn:Ek'; [|done]. exfalso.
    apply not_elem_of_dom in Ek. apply elem_of_dom_2 in Ek'. set_solver.
Qed.

Lemma map_toJsonObj_lookup x s k :
  map_toJsonObj x s !! k = PerXStats_toJsonObj x <$> stats_map x s !! k.
Proof.
  unfold map_toJsonObj, synchronizedCopy.
  rewrite foldl_insert_lookup, iter_list_to_map by apply NoDup_iter_list_fst.
  by destruct (stats_map x s !! k).
Qed.

Lemma PerXStats_toJsonObj_lookup x p i name :
  wf_per x p -> (stat_defs x).*1 !! i = Some name ->
  PerXStats_toJsonObj x p !! name = view p !! i.
Proof.
  intros [Hc _] Hi. unfold PerXStats_toJsonObj.
  assert (Hz : (zip (stat_defs x).*1 (view p)).*1 = (stat_defs x).*1)
    by (apply fst_zip; unfold view; rewrite !length_fmap; lia).
  change (load <$> counters p) with (view p).
  etrans; [apply (foldl_insert_lookup id); rewrite Hz; apply stat_defs_NoDup|].
  assert (is_Some (view p !! i)) as [v Hv].
  { apply lookup_lt_is_Some. apply lookup_lt_Some in Hi. unfold view.
    rewrite length_fmap in Hi. rewrite length_fmap, Hc. done. }
  rewrite (elem_of_list_to_map_1 _ name v); [done|rewrite Hz; apply stat_defs_NoDup|].
  apply list_elem_of_lookup. exists i. rewrite lookup_zip_with, Hi. simpl. by rewrite Hv.
Qed.

(** The JSON object has one member per aggregated map, which has one object
    per key of the map, which has every counter of the tables under its name
    with its value; no other map, key or order of iteration shows. *)
Theorem Stats_toJsonObj_exact prm s x :
  wf_Stats prm s -> x <> per_handle ->
  exists rows, Stats_toJsonObj s !! member_name x = Some rows /\
    forall k, match stats_map x s !! k with
      | None => rows !! k = None
      | Some p => exists obj, rows !! k = Some obj /\
          forall i name, (stat_defs x).*1 !! i = Some name -> obj !! name = view p !! i
      end.
Proof.
  intros (_ & _ & Hm) Hx. exists (map_toJsonObj x s). split; [by destruct x|].
  intros k. rewrite map_toJsonObj_lookup. destruct (stats_map x s !! k) as [p|] eqn:E; [|done].
  exists (PerXStats_toJsonObj x p). split; [done|]. intros i name.
  apply PerXStats_toJsonObj_lookup. by eapply Hm.
Qed.
End stats.
#[export] Existing Instances vadd_comm vadd_assoc madd_comm madd_assoc hadd_comm hadd_assoc.
End Stats.

(** ** Witnesses: a server's statistics with one stream *)
Module StatsWitness.
Import Stats.

Definition server_params : StatsParams := setIsServer new_StatsParams true.

Definition one_stream (k : string) : Stats :=
  set_map per_stream {[ k := new_PerXStats per_stream ]} (new_Stats server_params).

Lemma wf_one_stream k : wf_Stats server_params (one_stream k).
Proof.
  apply wf_set_map; [apply wf_new_Stats|]. apply map_Forall_singleton, wf_new_PerXStats.
Qed.

Lemma copy_Stats_faithful_witness :
  exists s', copy_Stats (one_stream "s1") = Some s' /\
    cview per_stream s' = cview per_stream (one_stream "s1").
Proof.
  destruct (copy_Stats_faithful server_params (one_stream "s1") (wf_one_stream "s1"))
    as (s' & E & H & _). exists s'. split; [exact E|]. apply H. discriminate.
Defined.

Lemma assign_Stats_keeps_stale_witness :
  exists s, assign_Stats (one_stream "s1") (one_stream "s2") = Some s /\
    cview per_stream s <> cview per_stream (one_stream "s2").
Proof.
  destruct (assign_Stats_keeps_stale server_params (one_stream "s1") (one_stream "s2")
    (wf_one_stream "s1") (wf_one_stream "s2")) as (s & E & H). exists s. split; [exact E|].
  intros Eq. apply (H per_stream) in Eq; [|discriminate].
  specialize (Eq "s1"). revert Eq. vm_compute. intros Eq. by specialize (Eq eq_refl).
Defined.

Lemma Stats_toJsonObj_exact_witness :
  exists rows, Stats_toJsonObj (one_stream "s1") !! "per_stream_stats" = Some rows /\
    rows !! "s2" = None.
Proof.
  destruct (Stats_toJsonObj_exact server_params (one_stream "s1") per_stream
    (wf_one_stream "s1") ltac:(discriminate)) as (rows & E & H).
  exists rows. split; [exact E|]. exact (H "s2").
Defined.
End StatsWitness.
