(* ===== verification/StatsHolder.v ===== *)
(** * Thread-local statistics (class StatsHolder of Stats.h, Stats.cpp)

    [StatsHolder] keeps one [Stats] per running thread and one for the threads
    that ended. Threads are numbered; the order [accessAllThreads] lists them
    in is a parameter. Here are the holder's operations and the operations on
    one counter, one time series and one key that the macros and templates of
    Stats.h define; the C functions exported to Haskell are in StatsApi. *)

From stdpp Require Import base gmap strings list.
From Stdlib Require Import ZArith Lia.
From S2P Require Import Prelude StatsTables Stats.
Import StatsTables Stats.

Module StatsHolder.
Section holder.
Context {SC : StatsCounter} {D : Double} {TS : TimeSeries} {HB : Histograms}.
Context {LD : LdCheck} {OS : IterOrder string} {OT : IterOrder nat}.

(** [StatsHolder::StatsWrapper]; [owner] is whether the pointer is set. *)
Record StatsWrapper := { stats : Stats; owner : bool }.

Record StatsHolder := {
  params_ : StatsParams;
  dead_stats_ : Stats;
  thread_stats_ : gmap nat StatsWrapper;
}.

Definition set_dead (s : Stats) (h : StatsHolder) : StatsHolder :=
  {| params_ := params_ h; dead_stats_ := s; thread_stats_ := thread_stats_ h |}.
Definition set_threads (m : gmap nat StatsWrapper) (h : StatsHolder) : StatsHolder :=
  {| params_ := params_ h; dead_stats_ := dead_stats_ h; thread_stats_ := m |}.

(** [StatsHolder::StatsHolder]. *)
Definition new_StatsHolder (p : StatsParams) : StatsHolder :=
  {| params_ := p; dead_stats_ := new_Stats p; thread_stats_ := ∅ |}.

Definition new_StatsWrapper (h : StatsHolder) : StatsWrapper :=
  {| stats := new_Stats (params_ h); owner := true |}.

(** [StatsHolder::get] on thread [tid]: the thread's [Stats], created by the
    thread's first call. *)
Definition get (tid : nat) (h : StatsHolder) : Stats * StatsHolder :=
  match thread_stats_ h !! tid with
  | Some w => (stats w, h)
  | None =>
      let w := new_StatsWrapper h in
      (stats w, set_threads (<[tid := w]> (thread_stats_ h)) h)
  end.

(** Writing through the reference [get] returned. *)
Definition put (tid : nat) (s : Stats) (h : StatsHolder) : StatsHolder :=
  set_threads (alter (fun w => {| stats := s; owner := owner w |}) tid (thread_stats_ h)) h.

(** [~StatsWrapper], run when thread [tid] ends. *)
Definition thread_exit (tid : nat) (h : StatsHolder) : option StatsHolder :=
  match thread_stats_ h !! tid with
  | None => Some h
  | Some w =>
      let h := set_threads (delete tid (thread_stats_ h)) h in
      if owner w then
        dead ← aggregateForDestroyedThread (dead_stats_ h) (stats w);
        Some (set_dead dead h)
      else Some h
  end.

(** [StatsHolder::aggregate_nonew] and [StatsHolder::aggregate]. *)
Definition aggregate_nonew (h : StatsHolder) : option Stats :=
  result ← aggregate (new_Stats (params_ h)) (dead_stats_ h) None;
  result ← foldl (fun r tw => r ≫= fun r => aggregate r (stats tw.2) None)
             (Some result) (iter_list (thread_stats_ h));
  Some (deriveStats result).

Definition reset (h : StatsHolder) : StatsHolder :=
  {| params_ := params_ h; dead_stats_ := Stats_reset (dead_stats_ h);
     thread_stats_ :=
       (fun w => {| stats := Stats_reset (stats w); owner := owner w |}) <$> thread_stats_ h |}.

(** [~StatsHolder]: the wrappers of running threads lose their owner. *)
Definition destroy (h : StatsHolder) : StatsHolder :=
  set_threads ((fun w => {| stats := stats w; owner := false |}) <$> thread_stats_ h) h.

(** [StatsHolder::runForEach] with a function that also updates [a]. *)
Definition runForEach {A} (func : Stats -> A -> Stats * A) (h : StatsHolder) (a : A)
    : StatsHolder * A :=
  let '(dead, a) := func (dead_stats_ h) a in
  let '(threads, a) :=
    foldl (fun '(m, a) tw =>
      let '(s, a) := func (stats tw.2) a in
      (<[tw.1 := {| stats := s; owner := owner tw.2 |}]> m, a))
      (thread_stats_ h, a) (iter_list (thread_stats_ h)) in
  ({| params_ := params_ h; dead_stats_ := dead; thread_stats_ := threads |}, a).

(** ** One counter of one key *)

Definition with_counter (i : nat) (f : counter -> counter) (p : PerXStats) : PerXStats :=
  {| counters := alter f i (counters p); series := series p |}.

(** The struct of [key] is updated in place when the map has it, otherwise a
    new one is updated and emplaced. *)
Definition update_entry (x : per_x) (key : string) (f : PerXStats -> PerXStats)
    (m : gmap string PerXStats) : gmap string PerXStats :=
  match m !! key with
  | Some p => <[key := f p]> m
  | None => <[key := f (new_PerXStats x)]> m
  end.

(** PER_X_STAT_ADD and PER_X_STAT_SET: counter [i] of the struct of [key]. *)
Definition stat_update (x : per_x) (i : nat) (key : string) (f : counter -> counter)
    (tid : nat) (stats_struct : option StatsHolder) : option StatsHolder :=
  h ← stats_struct;
  let '(s, h) := get tid h in
  Some (put tid (set_map x (update_entry x key (with_counter i f) (stats_map x s)) s) h).

Definition stat_add x i key (val : Z) tid sh :=
  stat_update x i key (fun c => counter_incr c val) tid sh.
Definition stat_set x i key (val : Z) tid sh :=
  stat_update x i key (fun c => counter_assign c val) tid sh.

(** PER_X_STAT_GET on an aggregated [Stats]. *)
Definition stat_get (x : per_x) (i : nat) (key : string) (stats_agg : option Stats) : Z :=
  match stats_agg with
  | Some s =>
      match stats_map x s !! key ≫= fun p => counters p !! i with
      | Some c => let r := load c in if r <? 0 then -1 else r
      | None => -1
      end
  | None => -1
  end.

(** [perXStatsErase]: how many of the holder's [Stats] had the key. *)
Definition perXStatsErase (x : per_x) (key : string) (sh : option StatsHolder)
    : option StatsHolder * Z :=
  match sh with
  | None => (None, -1)
  | Some h =>
      let '(h, r) := runForEach (fun s r =>
        (set_map x (delete key (stats_map x s)) s,
         i64 (r + if bool_decide (is_Some (stats_map x s !! key)) then 1 else 0))) h 0 in
      (Some h, r)
  end.

(** [cppMapToHs]: keys and extracted values, in iteration order. *)
Definition cppMapToHs {A B} (map : gmap string A) (extract_value : A -> B)
    : Z * list string * list B :=
  (Z.of_nat (size map), (iter_list map).*1, extract_value <$> (iter_list map).*2).

(** [perXStatsGetall]; [None] inside is the failure -1. *)
Definition perXStatsGetall (x : per_x) (find_member : string -> option nat)
    (stat_name : string) (sh : option StatsHolder)
    : option (option (Z * list string * list Z)) :=
  match sh with
  | None => Some None
  | Some h =>
      s ← aggregate_nonew h;
      match find_member stat_name with
      | None => Some None
      | Some i => Some (Some (cppMapToHs (stats_map x s)
          (fun p => default 0 (load <$> counters p !! i))))
      end
  end.

(** ** Well-formed holders and their totals *)

Definition wf_holder (h : StatsHolder) : Prop :=
  wf_Stats (params_ h) (dead_stats_ h) /\
  map_Forall (fun _ w => wf_Stats (params_ h) (stats w)) (thread_stats_ h).

(** The holder has not been destroyed. *)
Definition alive (h : StatsHolder) : Prop :=
  map_Forall (fun _ w => owner w = true) (thread_stats_ h).

(** The counters of a map, summed over dead and running threads. *)
Definition total (x : per_x) (h : StatsHolder) : gmap string (list Z) :=
  msum madd (fun w => cview x (stats w)) (cview x (dead_stats_ h)) (thread_stats_ h).

Definition total_hists (h : StatsHolder) : option ServerHistograms :=
  msum hadd (fun w => server_histograms (stats w)) (server_histograms (dead_stats_ h))
    (thread_stats_ h).

Lemma foldl_aggregate prm (l : list (nat * StatsWrapper)) s0 :
  Forall (fun tw => wf_Stats prm (stats tw.2)) l -> wf_Stats prm s0 ->
  exists s, foldl (fun r tw => r ≫= fun r => aggregate r (stats tw.2) None) (Some s0) l = Some s /\
    wf_Stats prm s /\
    (forall x, x <> per_handle ->
       cview x s = foldl (fun acc tw => madd acc (cview x (stats tw.2))) (cview x s0) l) /\
    stats_map per_handle s = stats_map per_handle s0 /\
    server_histograms s =
      foldl (fun acc tw => hadd acc (server_histograms (stats tw.2))) (server_histograms s0) l.
Proof.
  intros Hl. revert s0. induction Hl as [|[t w] l Hw Hl IH]; intros s0 Hs0.
  { exists s0. by split_and!. }
  destruct (aggregateCompoundStats_sum prm s0 (stats w) false)
    as (s1 & E1 & Hwf1 & Hc1 & Hp1 & Hh1); [done..|].
  destruct (IH s1 Hwf1) as (s & E & Hwf & Hc & Hp & Hh). exists s.
  cbn [foldl mbind option_bind snd]. unfold aggregate at 2. rewrite E1, E, Hp, Hh, Hp1, Hh1.
  split_and!; try done. intros x Hx. by rewrite Hc, Hc1.
Qed.

Lemma wf_threads_list h :
  wf_holder h ->
  Forall (fun tw => wf_Stats (params_ h) (stats tw.2)) (iter_list (thread_stats_ h)).
Proof.
  intros [_ Ht]. apply Forall_forall. intros [t w] Hin. apply elem_of_iter_list in Hin.
  by apply (Ht t).
Qed.

Lemma aggregate_nonew_sum h :
  wf_holder h ->
  exists s, aggregate_nonew h = Some s /\ wf_Stats (params_ h) s /\
    (forall x, x <> per_handle -> cview x s = total x h) /\
    stats_map per_handle s = ∅ /\ server_histograms s = total_hists h.
Proof.
  intros Hh. destruct (Hh) as [Hd _]. unfold aggregate_nonew.
  destruct (aggregateCompoundStats_sum (params_ h) (new_Stats (params_ h)) (dead_stats_ h) false)
    as (s0 & E0 & Hwf0 & Hc0 & Hp0 & Hh0); [apply wf_new_Stats|done|].
  destruct (foldl_aggregate (params_ h) _ s0 (wf_threads_list h Hh) Hwf0)
    as (s & E & Hwf & Hc & Hp & Hhs).
  change (aggregate (new_Stats (params_ h)) (dead_stats_ h) None = Some s0) in E0.
  exists s. rewrite E0. cbn [mbind option_bind]. rewrite E.
  split_and!; [done|done| |by rewrite Hp, Hp0|].
  - intros x Hx. rewrite Hc, (foldl_iter_msum madd (fun w => cview x (stats w))), Hc0 by done.
    unfold total. f_equal. by destruct x; try apply madd_empty_l.
  - rewrite Hhs, (foldl_iter_msum hadd (fun w => server_histograms (stats w))), Hh0.
    unfold total_hists. f_equal. apply (hadd_new (params_ h)), Hd.
Qed.

(** ** The holder as one well-formed sum: thread [tid] and the rest *)

Definition rest (x : per_x) (tid : nat) (h : StatsHolder) : gmap string (list Z) :=
  total x (set_threads (delete tid (thread_stats_ h)) h).

(** What the thread's own [Stats] contributes. *)
Definition local (x : per_x) (tid : nat) (h : StatsHolder) : gmap string (list Z) :=
  match thread_stats_ h !! tid with Some w => cview x (stats w) | None => ∅ end.

Lemma total_split x tid h : total x h = madd (local x tid h) (rest x tid h).
Proof.
  unfold local, rest, total. simpl. destruct (thread_stats_ h !! tid) as [w|] eqn:E.
  - by apply (msum_delete madd (fun w => cview x (stats w))).
  - by rewrite delete_id, madd_empty_l.
Qed.

(** Every entry has the counters of its table, in range. *)
Definition good (x : per_x) (m : gmap string (list Z)) : Prop :=
  map_Forall (fun _ v => length v = length (stat_defs x) /\ Forall is_i64 v) m.

Lemma good_cview prm x s : wf_Stats prm s -> good x (cview x s).
Proof.
  intros (_ & _ & Hm) k v. unfold cview. rewrite lookup_fmap. intros (p & Hp & ->)%fmap_Some.
  split; [apply length_view; by eapply Hm|apply view_range].
Qed.

Lemma good_madd x a b : good x a -> good x b -> good x (madd a b).
Proof.
  intros Ha Hb k v. unfold madd. rewrite lookup_union_with.
  destruct (a !! k) eqn:Ea, (b !! k) eqn:Eb; simpl; try done.
  - apply Ha in Ea as [La Ra]. apply Hb in Eb as [Lb Rb]. intros [= <-]. split.
    + unfold vadd. rewrite length_zip_with, La, Lb. apply Nat.min_id.
    + unfold vadd. clear. revert l0. induction l; intros [|]; simpl; constructor; auto with hs_int.
  - intros [= <-]. by eapply Ha.
  - intros [= <-]. by eapply Hb.
Qed.

Lemma good_total x h : wf_holder h -> good x (total x h).
Proof.
  destruct h as [prm d t]. intros [Hd Ht]. unfold total. simpl in *.
  induction t as [|i w t Hi IH] using map_ind.
  { rewrite msum_empty. by eapply good_cview. }
  apply map_Forall_insert in Ht as [Hw Ht]; [|done]. rewrite msum_insert by (done || apply _).
  apply good_madd; [by eapply good_cview|by apply IH].
Qed.

Lemma wf_set_threads_delete tid h :
  wf_holder h -> wf_holder (set_threads (delete tid (thread_stats_ h)) h).
Proof. intros [Hd Ht]. split; [done|]. by apply map_Forall_delete. Qed.

Lemma good_rest x tid h : wf_holder h -> good x (rest x tid h).
Proof. intros H. by apply good_total, wf_set_threads_delete. Qed.

Lemma cview_new x prm : cview x (new_Stats prm) = ∅.
Proof. by destruct x. Qed.

Lemma wf_total_hists h : wf_holder h -> wf_hists (params_ h) (total_hists h).
Proof.
  destruct h as [prm d t]. intros [Hd Ht]. unfold total_hists. simpl in *.
  induction t as [|i w t Hi IH] using map_ind; [rewrite msum_empty; apply Hd|].
  apply map_Forall_insert in Ht as [Hw Ht]; [|done]. rewrite msum_insert by (done || apply _).
  apply wf_hadd; [apply Hw|by apply IH].
Qed.

(** [get] only adds an empty [Stats]: nothing observable changes. *)
Lemma get_spec tid h s h1 :
  get tid h = (s, h1) -> wf_holder h ->
  wf_holder h1 /\ params_ h1 = params_ h /\ (alive h -> alive h1) /\
  (exists w, thread_stats_ h1 !! tid = Some w /\ stats w = s) /\
  (forall x, cview x s = local x tid h /\ total x h1 = total x h /\
     rest x tid h1 = rest x tid h) /\
  total_hists h1 = total_hists h.
Proof.
  unfold get. intros E [Hd Ht]. destruct (thread_stats_ h !! tid) as [w|] eqn:Ew.
  { injection E as <- <-. split_and!; try done; [by eauto|]. intros x.
    split_and!; [|done..]. unfold local. by rewrite Ew. }
  injection E as <- <-. split_and!.
  - split; [done|]. apply map_Forall_insert_2; [apply wf_new_Stats|done].
  - done.
  - intros Ha. by apply map_Forall_insert_2.
  - eexists. simpl. by rewrite lookup_insert_eq.
  - intros x. unfold local, total, rest, total. simpl. rewrite Ew. split_and!.
    + apply cview_new.
    + rewrite msum_insert by (done || apply _). simpl. by rewrite cview_new, madd_empty_l.
    + by rewrite delete_insert_id, delete_id.
  - unfold total_hists. simpl. rewrite msum_insert by (done || apply _). simpl.
    apply hadd_new. by apply (wf_total_hists h).
Qed.

Lemma put_spec tid s h w :
  thread_stats_ h !! tid = Some w -> wf_holder h -> wf_Stats (params_ h) s ->
  wf_holder (put tid s h) /\ (alive h -> alive (put tid s h)) /\
  (forall x, local x tid (put tid s h) = cview x s /\ rest x tid (put tid s h) = rest x tid h) /\
  (server_histograms s = server_histograms (stats w) -> total_hists (put tid s h) = total_hists h).
Proof.
  intros Ew [Hd Ht] Hs. split_and!.
  - split; [done|]. intros t w'. simpl. rewrite lookup_alter. case_decide; [subst|apply Ht].
    rewrite Ew. by intros [= <-].
  - intros Ha t w'. simpl. rewrite lookup_alter. case_decide; [subst|apply Ha].
    rewrite Ew. intros [= <-]. exact (Ha _ _ Ew).
  - intros x. unfold local, rest, total. simpl. rewrite lookup_alter_eq, Ew. split; [done|].
    by rewrite delete_alter_eq.
  - intros E. unfold total_hists. simpl.
    rewrite (msum_alter hadd _ _ tid w) by done. simpl. rewrite E. symmetry.
    by apply (msum_delete hadd (fun w => server_histograms (stats w))).
Qed.

(** ** Counters: the abstract operation *)

(** Counter [i] of a struct goes up by [d]. *)
Definition bump (i : nat) (d : Z) (v : list Z) : list Z := alter (fun c => i64 (c + d)) i v.

(** Counter [i] of the struct of [key], made of zeros when missing. *)
Definition spec_add (x : per_x) (i : nat) (key : string) (d : Z) (m : gmap string (list Z))
    : gmap string (list Z) :=
  <[key := bump i d (default (replicate (length (stat_defs x)) 0) (m !! key))]> m.

Lemma vadd_bump i d v w : vadd (bump i d v) w = bump i d (vadd v w).
Proof.
  unfold vadd, bump. revert v w. induction i as [|i IH]; intros [|a v] [|b w]; simpl; try done.
  - f_equal. autorewrite with hs_int. f_equal. lia.
  - f_equal. apply IH.
Qed.

Lemma madd_spec_add x i key d a b :
  good x b -> madd (spec_add x i key d a) b = spec_add x i key d (madd a b).
Proof.
  intros Hb. unfold madd, spec_add. apply map_eq. intros k.
  destruct (decide (key = k)) as [->|Hne]; rewrite lookup_union_with.
  2: { by rewrite !lookup_insert_ne, lookup_union_with by done. }
  rewrite !lookup_insert_eq, lookup_union_with.
  destruct (a !! k) as [v|] eqn:Ea, (b !! k) as [w|] eqn:Eb; simpl; try done.
  - by rewrite vadd_bump.
  - apply Hb in Eb as [Lw Rw]. rewrite vadd_bump, <- Lw. by rewrite vadd_zeros.
Qed.

Lemma alter_fmap_load f g i (l : list counter) :
  (forall c, l !! i = Some c -> load (f c) = g (load c)) ->
  load <$> alter f i l = alter g i (load <$> l).
Proof.
  revert i. induction l as [|c l IH]; intros [|i] H; simpl; try done.
  - f_equal. by apply H.
  - f_equal. apply IH. intros c' Hc. by apply H.
Qed.

(** The counter a struct holds, zero when the struct does not exist. *)
Definition cur (x : per_x) (i : nat) (key : string) (m : gmap string (list Z)) : Z :=
  default 0 (m !! key ≫= fun v => v !! i).

(** Any update of one counter is an addition of the difference it makes. *)
Lemma cview_update x i key f d s :
  map_Forall (fun _ => wf_per x) (stats_map x s) -> (i < length (stat_defs x))%nat ->
  (forall c, load c = cur x i key (cview x s) -> load (f c) = i64 (load c + d)) ->
  view <$> update_entry x key (with_counter i f) (stats_map x s) =
    spec_add x i key d (cview x s).
Proof.
  intros Hwf Hi Hf. unfold spec_add, cview, cur, update_entry in *. rewrite lookup_fmap in *.
  destruct (stats_map x s !! key) as [p|] eqn:E; rewrite fmap_insert; f_equal; simpl in *.
  - unfold view, bump. simpl. apply alter_fmap_load. intros c Hc. apply Hf.
    unfold view. by rewrite list_lookup_fmap, Hc.
  - unfold bump. rewrite <- view_new_PerXStats. unfold view. simpl counters.
    apply alter_fmap_load. intros c Hc. apply Hf.
    apply list_lookup_fmap_Some in Hc as (? & -> & _). apply load_zero.
Qed.

Lemma wf_with_counter x i f p : wf_per x p -> wf_per x (with_counter i f p).
Proof. intros [Hc Hs]. split; simpl; [by rewrite length_alter|done]. Qed.

Lemma wf_update_entry x key f m :
  map_Forall (fun _ => wf_per x) m -> (forall p, wf_per x p -> wf_per x (f p)) ->
  map_Forall (fun _ => wf_per x) (update_entry x key f m).
Proof.
  intros Hm Hf. unfold update_entry. destruct (m !! key) as [p|] eqn:E;
    (apply map_Forall_insert_2; [apply Hf|done]); [by eapply Hm|apply wf_new_PerXStats].
Qed.

Lemma cview_set_map x y m s :
  cview x (set_map y m s) = if decide (x = y) then view <$> m else cview x s.
Proof. unfold cview. rewrite stats_map_set_map. by case_decide. Qed.

(** Updating a counter adds the difference to the total of its map and
    leaves everything else of the holder alone. *)
Lemma stat_update_total x i key f d tid h :
  wf_holder h -> (i < length (stat_defs x))%nat ->
  (forall c, load c = cur x i key (local x tid h) -> load (f c) = i64 (load c + d)) ->
  exists h', stat_update x i key f tid (Some h) = Some h' /\ wf_holder h' /\
    (alive h -> alive h') /\
    (forall y, total y h' = if decide (y = x) then spec_add x i key d (total y h) else total y h) /\
    (forall y, local y tid h' =
       if decide (y = x) then spec_add x i key d (local y tid h) else local y tid h) /\
    total_hists h' = total_hists h.
Proof.
  intros Hwf Hi Hf. unfold stat_update. cbn [mbind option_bind].
  destruct (get tid h) as [s h1] eqn:Eg.
  destruct (get_spec tid h s h1 Eg Hwf) as (Hwf1 & Hp1 & Ha1 & (w & Ew & <-) & Hv & Hh1).
  set (s' := set_map x _ _). eexists. split; [done|].
  assert (Hws : wf_Stats (params_ h1) (stats w)) by (by eapply (proj2 Hwf1)).
  assert (Hs' : wf_Stats (params_ h1) s').
  { apply wf_set_map; [done|]. apply wf_update_entry; [apply Hws|apply wf_with_counter]. }
  destruct (put_spec tid s' h1 w Ew Hwf1 Hs') as (Hwf2 & Ha2 & Hl2 & Hh2).
  assert (Hc : forall y, cview y s' =
    if decide (y = x) then spec_add x i key d (local y tid h) else local y tid h).
  { intros y. unfold s'. rewrite cview_set_map. destruct (Hv y) as [E _].
    case_decide; [subst y|done]. rewrite (cview_update x i key f d); [by rewrite E|apply Hws|done|].
    by rewrite E. }
  split_and!; [done|by auto| | |by rewrite Hh2].
  - intros y. rewrite (total_split y tid (put _ _ _)). destruct (Hl2 y) as [-> ->].
    rewrite (Hc y), (total_split y tid h). destruct (Hv y) as (_ & _ & ->).
    case_decide; [subst y|done]. by apply madd_spec_add, good_rest.
  - intros y. destruct (Hl2 y) as [-> _]. apply Hc.
Qed.

(** ** Thread exit *)

Lemma thread_exit_total tid h :
  wf_holder h -> alive h ->
  exists h', thread_exit tid h = Some h' /\ wf_holder h' /\ alive h' /\
    thread_stats_ h' = delete tid (thread_stats_ h) /\
    (forall x, x <> per_handle -> total x h' = total x h) /\
    total_hists h' = total_hists h.
Proof.
  intros [Hd Ht] Ha. unfold thread_exit. destruct (thread_stats_ h !! tid) as [w|] eqn:Ew.
  2: { exists h. split_and!; try done. by rewrite delete_id. }
  rewrite (Ha _ _ Ew). unfold aggregateForDestroyedThread.
  cbn [set_threads dead_stats_].
  destruct (aggregateCompoundStats_sum (params_ h) (dead_stats_ h) (stats w) true)
    as (d & -> & Hwf & Hc & _ & Hh); [done|by eapply Ht|].
  eexists. split; [done|]. split_and!.
  - split; [done|]. by apply map_Forall_delete.
  - by apply map_Forall_delete.
  - done.
  - intros x Hx. rewrite (total_split x tid h). unfold local, rest, total. simpl.
    by rewrite Ew, Hc, (comm madd (cview _ _)), (msum_acc madd).
  - unfold total_hists. simpl. rewrite Hh, (comm hadd), (msum_acc hadd).
    symmetry. by apply (msum_delete hadd (fun w => server_histograms (stats w))).
Qed.

(** ** runForEach *)

Lemma runForEach_pure {A} (g : Stats -> Stats) (k : Stats -> A -> A) h a :
  runForEach (fun s a => (g s, k s a)) h a =
    ({| params_ := params_ h; dead_stats_ := g (dead_stats_ h);
        thread_stats_ :=
          (fun w => {| stats := g (stats w); owner := owner w |}) <$> thread_stats_ h |},
     foldl (fun a tw => k (stats tw.2) a) (k (dead_stats_ h) a) (iter_list (thread_stats_ h))).
Proof.
  set (F := fun w => {| stats := g (stats w); owner := owner w |}).
  assert (Hf : forall l (m : gmap nat StatsWrapper) b,
    foldl (fun '(m, a) (tw : nat * StatsWrapper) =>
      (<[tw.1 := {| stats := g (stats tw.2); owner := owner tw.2 |}]> m, k (stats tw.2) a))
      (m, b) l =
    (foldl (fun m tw => <[tw.1 := F tw.2]> m) m l, foldl (fun a tw => k (stats tw.2) a) b l)).
  { induction l as [|[t w] l IH]; intros m b; simpl; [done|]. apply IH. }
  unfold runForEach. simpl. rewrite Hf. f_equal. f_equal. apply map_eq. intros t.
  rewrite foldl_insert_lookup, iter_list_to_map, lookup_fmap by apply NoDup_iter_list_fst.
  by destruct (thread_stats_ h !! t).
Qed.

(** ** Erasing a key *)

(** How many of the holder's [Stats] have an entry for [key]. *)
Definition occurrences (x : per_x) (key : string) (h : StatsHolder) : nat :=
  length (filter (fun s => is_Some (stats_map x s !! key))
    (dead_stats_ h :: (stats <$> (map_to_list (thread_stats_ h)).*2))).

Lemma delete_madd key a b : delete key (madd a b) = madd (delete key a) (delete key b).
Proof. unfold madd. apply delete_union_with. Qed.

Lemma total_fmap x (g : Stats -> Stats) (f : gmap string (list Z) -> gmap string (list Z)) h :
  (forall a b, f (madd a b) = madd (f a) (f b)) ->
  (forall s, cview x (g s) = f (cview x s)) ->
  total x {| params_ := params_ h; dead_stats_ := g (dead_stats_ h);
             thread_stats_ := (fun w => {| stats := g (stats w); owner := owner w |})
                              <$> thread_stats_ h |} = f (total x h).
Proof.
  intros Hf Hg. unfold total. simpl. rewrite Hg. generalize (thread_stats_ h). intros m.
  induction m as [|t w m Hm IH] using map_ind; [by rewrite fmap_empty, !msum_empty|].
  rewrite fmap_insert, !msum_insert by (apply _ || done || (by rewrite lookup_fmap, Hm)).
  by rewrite IH, Hf, <- Hg.
Qed.

Lemma foldl_count {A} (P : A -> Prop) `{forall a, Decision (P a)} (l : list A) r :
  foldl (fun r a => i64 (r + if bool_decide (P a) then 1 else 0)) (i64 r) l =
    i64 (r + Z.of_nat (length (filter P l))).
Proof.
  revert r. induction l as [|a l IH]; intros r; simpl; [by rewrite Z.add_0_r|].
  rewrite i64_add_l, IH, filter_cons. f_equal. case_bool_decide;
    [rewrite decide_True by done|rewrite decide_False by done]; simpl; lia.
Qed.

Lemma wf_fmap_stats (g : Stats -> Stats) h :
  (forall prm s, wf_Stats prm s -> wf_Stats prm (g s)) -> wf_holder h ->
  wf_holder {| params_ := params_ h; dead_stats_ := g (dead_stats_ h);
               thread_stats_ := (fun w => {| stats := g (stats w); owner := owner w |})
                                <$> thread_stats_ h |}.
Proof.
  intros Hg [Hd Ht]. split; [by apply Hg|]. apply map_Forall_fmap. intros t w Hw.
  by apply Hg, (Ht t).
Qed.

Lemma perXStatsErase_spec x key h :
  wf_holder h ->
  exists h', perXStatsErase x key (Some h) = (Some h', i64 (Z.of_nat (occurrences x key h))) /\
    wf_holder h' /\ (alive h -> alive h') /\
    (forall y, total y h' = if decide (y = x) then delete key (total y h) else total y h) /\
    total_hists h' = total_hists h.
Proof.
  intros Hwf. unfold perXStatsErase.
  set (g := fun s => set_map x (delete key (stats_map x s)) s).
  rewrite (runForEach_pure g (fun s r =>
    i64 (r + if bool_decide (is_Some (stats_map x s !! key)) then 1 else 0))).
  set (h' := Build_StatsHolder _ _ _). exists h'. split_and!.
  - f_equal. unfold occurrences. rewrite filter_cons.
    pose proof (foldl_count (fun tw : nat * StatsWrapper =>
      is_Some (stats_map x (stats tw.2) !! key)) (iter_list (thread_stats_ h))) as Hc.
    rewrite Hc. f_equal. rewrite <- list_fmap_compose, iter_list_perm.
    assert (Hl : forall l : list (nat * StatsWrapper),
      length (filter (fun tw => is_Some (stats_map x (stats tw.2) !! key)) l) =
      length (filter (fun s => is_Some (stats_map x s !! key)) ((stats ∘ snd) <$> l))).
    { induction l as [|tw l IH]; [done|]. rewrite fmap_cons, !filter_cons.
      simpl. case_decide; simpl; by rewrite IH. }
    rewrite Hl. case_bool_decide; [rewrite decide_True by done|rewrite decide_False by done];
      simpl; lia.
  - apply wf_fmap_stats; [|done]. intros prm s Hs. apply wf_set_map; [done|].
    apply map_Forall_delete, Hs.
  - intros Ha. apply map_Forall_fmap. intros t w Hw. exact (Ha t w Hw).
  - intros y. unfold h'. rewrite (total_fmap y g
      (fun m => if decide (y = x) then delete key m else m)); [done| |].
    + intros a b. case_decide; [apply delete_madd|done].
    + intros s. unfold g. rewrite cview_set_map. case_decide; [|done]. subst.
      unfold cview. by rewrite fmap_delete.
  - unfold total_hists, h'. simpl. unfold msum. rewrite map_fold_fmap. done.
Qed.

(** ** Reset *)

Lemma cview_reset x s : cview x (Stats_reset s) = ∅.
Proof.
  unfold Stats_reset, cview. destruct s as [? ? ? ? ? ? ? hs prm]; simpl.
  destruct (is_server prm), hs, x; apply fmap_empty.
Qed.

Lemma hists_reset prm s :
  wf_Stats prm s -> server_histograms (Stats_reset s) = server_histograms (new_Stats prm).
Proof.
  destruct s as [? ? ? ? ? ? ? hs p]. intros (E & Hh & _). simpl in *. subst p.
  unfold Stats_reset, wf_hists in *. simpl. destruct (is_server prm) eqn:Es; simpl; [|done].
  destruct Hh as (b & -> & Hb). simpl. f_equal. rewrite bundle_clear_spec.
  unfold new_ServerHistograms. revert Hb. generalize server_histogram_names.
  induction b as [|h b IH]; intros [|n l]; try done. intros [= E].
  rewrite !fmap_cons, hist_clear_new. f_equal. by apply IH.
Qed.

Lemma wf_reset prm s : wf_Stats prm s -> wf_Stats prm (Stats_reset s).
Proof.
  intros H. split_and!.
  - destruct (H) as [<- _]. unfold Stats_reset. destruct s as [? ? ? ? ? ? ? hs p]; simpl.
    by destruct (is_server p), hs.
  - rewrite (hists_reset prm) by done. apply wf_new_Stats.
  - intros x k p Hk. pose proof (cview_reset x s) as E. apply (f_equal (lookup k)) in E.
    unfold cview in E. by rewrite lookup_fmap, Hk in E.
Qed.

Lemma reset_spec h :
  wf_holder h ->
  wf_holder (reset h) /\ (alive h -> alive (reset h)) /\
  (forall x, total x (reset h) = ∅) /\
  total_hists (reset h) = server_histograms (new_Stats (params_ h)).
Proof.
  intros Hwf. split_and!.
  - by apply (wf_fmap_stats Stats_reset); [apply wf_reset|].
  - intros Ha. apply map_Forall_fmap. intros t w Hw. exact (Ha t w Hw).
  - intros x. apply (total_fmap x Stats_reset (fun _ => ∅)); [|apply cview_reset].
    intros _ _. by rewrite madd_empty_l.
  - destruct h as [prm d m], Hwf as [Hd Ht]. unfold total_hists. simpl in *.
    rewrite (hists_reset prm) by done.
    induction m as [|t w m Hm IH] using map_ind; [by rewrite fmap_empty, msum_empty|].
    apply map_Forall_insert in Ht as [Hw Ht]; [|done].
    rewrite fmap_insert, msum_insert, IH by (done || apply _ || (by rewrite lookup_fmap, Hm)).
    simpl. rewrite (hists_reset prm) by done. apply hadd_new, wf_new_Stats.
Qed.

(** ** Histories of a holder and the abstract counters they implement *)

Inductive op :=
| Add (tid : nat) (x : per_x) (i : nat) (key : string) (val : Z)
| Touch (tid : nat)
| Exit (tid : nat)
| Erase (x : per_x) (key : string)
| Reset.

(** The counter of an [Add] exists: a generated function names it. *)
Definition op_ok (o : op) : Prop :=
  match o with Add _ x i _ _ => (i < length (stat_defs x))%nat | _ => True end.

Definition run_op (h : StatsHolder) (o : op) : option StatsHolder :=
  match o with
  | Add tid x i key val => stat_add x i key val tid (Some h)
  | Touch tid => Some (get tid h).2
  | Exit tid => thread_exit tid h
  | Erase x key => (perXStatsErase x key (Some h)).1
  | Reset => Some (reset h)
  end.

Definition run (h : StatsHolder) (ops : list op) : option StatsHolder :=
  foldl (fun r o => r ≫= fun h => run_op h o) (Some h) ops.

(** The specification knows no threads: one map of counters per kind. *)
Definition spec_op (m : per_x -> gmap string (list Z)) (o : op) : per_x -> gmap string (list Z) :=
  match o with
  | Add _ x i key val => fun y => if decide (y = x) then spec_add x i key val (m y) else m y
  | Touch _ | Exit _ => m
  | Erase x key => fun y => if decide (y = x) then delete key (m y) else m y
  | Reset => fun _ => ∅
  end.

Definition spec_run (m : per_x -> gmap string (list Z)) (ops : list op) := foldl spec_op m ops.

Lemma run_op_simulates h o m :
  wf_holder h -> alive h -> op_ok o ->
  (forall x, x <> per_handle -> total x h = m x) ->
  exists h', run_op h o = Some h' /\ wf_holder h' /\ alive h' /\
    forall x, x <> per_handle -> total x h' = spec_op m o x.
Proof.
  intros Hwf Ha Ho Hm. destruct o as [tid x i key val|tid|tid|x key|]; cbn [op_ok run_op spec_op] in *.
  - destruct (stat_update_total x i key (fun c => counter_incr c val) val tid h)
      as (h' & E & Hwf' & Ha' & Ht & _); [done|done|intros; apply load_incr|].
    exists h'. split_and!; auto. intros y Hy. rewrite Ht, Hm by done. done.
  - destruct (get tid h) as [s h1] eqn:E. exists h1.
    destruct (get_spec tid h s h1 E Hwf) as (? & _ & ? & _ & Hv & _). split_and!; auto.
    intros x Hx. destruct (Hv x) as (_ & -> & _). by apply Hm.
  - destruct (thread_exit_total tid h) as (h' & E & Hwf' & Ha' & _ & Ht & _); [done..|].
    exists h'. split_and!; auto. intros x Hx. by rewrite Ht, Hm.
  - destruct (perXStatsErase_spec x key h Hwf) as (h' & E & Hwf' & Ha' & Ht & _).
    exists h'. rewrite E. split_and!; auto. intros y Hy. by rewrite Ht, Hm.
  - destruct (reset_spec h Hwf) as (Hwf' & Ha' & Ht & _). exists (reset h). split_and!; auto.
Qed.

Lemma run_simulates ops h m :
  wf_holder h -> alive h -> Forall op_ok ops ->
  (forall x, x <> per_handle -> total x h = m x) ->
  exists h', run h ops = Some h' /\ wf_holder h' /\ alive h' /\
    forall x, x <> per_handle -> total x h' = spec_run m ops x.
Proof.
  intros Hwf Ha Hops. revert h m Hwf Ha.
  induction Hops as [|o ops Ho Hops IH]; intros h m Hwf Ha Hm; [by exists h|].
  destruct (run_op_simulates h o m) as (h1 & E & Hwf1 & Ha1 & Hm1); [done..|].
  destruct (IH h1 (spec_op m o)) as (h' & E' & H); [done..|]. exists h'.
  split; [|exact H]. unfold run in *. simpl. by rewrite E.
Qed.

Lemma wf_new_StatsHolder prm : wf_holder (new_StatsHolder prm).
Proof. split; [apply wf_new_Stats|apply map_Forall_empty]. Qed.

Lemma alive_new prm : alive (new_StatsHolder prm).
Proof. apply map_Forall_empty. Qed.

Lemma total_new x prm : total x (new_StatsHolder prm) = ∅.
Proof. unfold total. simpl. rewrite msum_empty. apply cview_new. Qed.

(** ** Properties *)

(** C1: any history of counter additions on any threads, thread starts, thread
    exits, erasures and resets runs without aborting, and what
    [aggregate_nonew] then collects is the thread-less specification's
    counters: each addition counted once, none lost by a thread's exit, and
    independent of the order threads and keys are iterated in. *)
Theorem holder_refines_counters prm ops :
  Forall op_ok ops ->
  exists h s, run (new_StatsHolder prm) ops = Some h /\ aggregate_nonew h = Some s /\
    forall x, x <> per_handle -> cview x s = spec_run (fun _ => ∅) ops x.
Proof.
  intros Hops. destruct (run_simulates ops (new_StatsHolder prm) (fun _ => ∅))
    as (h & E & Hwf & _ & Ht); auto using wf_new_StatsHolder, alive_new, total_new.
  destruct (aggregate_nonew_sum h Hwf) as (s & Es & _ & Hc & _).
  exists h, s. split_and!; [done..|]. intros x Hx. by rewrite Hc, Ht.
Qed.

(** When a thread ends, its counters and histograms move to the dead
    threads' [Stats]: the thread is gone and the collected statistics are the
    same before and after. *)
Theorem thread_exit_conserves tid h :
  wf_holder h -> alive h ->
  exists h' s s', thread_exit tid h = Some h' /\ thread_stats_ h' !! tid = None /\
    aggregate_nonew h = Some s /\ aggregate_nonew h' = Some s' /\
    (forall x, cview x s' = cview x s) /\ server_histograms s' = server_histograms s.
Proof.
  intros Hwf Ha. destruct (thread_exit_total tid h Hwf Ha) as (h' & E & Hwf' & _ & Ed & Ht & Hh).
  destruct (aggregate_nonew_sum h Hwf) as (s & Es & _ & Hc & Hp & Hs).
  destruct (aggregate_nonew_sum h' Hwf') as (s' & Es' & _ & Hc' & Hp' & Hs').
  exists h', s, s'. split_and!; try done.
  - by rewrite Ed, lookup_delete_eq.
  - intros x. destruct (decide (x = per_handle)) as [->|Hx].
    + unfold cview. by rewrite Hp, Hp'.
    + by rewrite Hc, Hc', Ht.
  - by rewrite Hs, Hs', Hh.
Qed.

(** Setting a counter sets the calling thread's copy only: the thread's
    counter becomes the value and the total changes by the difference, so it
    becomes the value only if no other thread contributes. *)
Theorem stat_set_local x i key val tid h :
  wf_holder h -> (i < length (stat_defs x))%nat -> is_i64 val ->
  exists h', stat_set x i key val tid (Some h) = Some h' /\ wf_holder h' /\
    cur x i key (local x tid h') = val /\
    total x h' = spec_add x i key (val - cur x i key (local x tid h)) (total x h).
Proof.
  intros Hwf Hi Hval. set (old := cur x i key (local x tid h)).
  destruct (stat_update_total x i key (fun c => counter_assign c val) (val - old) tid h)
    as (h' & E & Hwf' & _ & Ht & Hl & _); [done|done| |].
  { intros c Hc. rewrite load_assign. fold old in Hc. f_equal. lia. }
  exists h'. specialize (Ht x). specialize (Hl x). rewrite decide_True in Ht, Hl by done.
  split_and!; try done. rewrite Hl. unfold cur, spec_add. rewrite lookup_insert_eq. simpl.
  unfold bump. rewrite list_lookup_alter_eq.
  assert (is_Some (default (replicate (length (stat_defs x)) 0) (local x tid h !! key) !! i))
    as [v Hv].
  { apply lookup_lt_is_Some. destruct (local x tid h !! key) as [l|] eqn:El; simpl;
      [|by rewrite length_replicate].
    unfold local in El. destruct (thread_stats_ h !! tid) as [w|] eqn:Ew; [|done].
    by destruct (good_cview (params_ h) x (stats w) (proj2 Hwf _ _ Ew) _ _ El) as [-> _]. }
  rewrite Hv. simpl. replace (v + (val - old)) with val; [by apply i64_id|].
  enough (old = v) by lia. unfold old, cur. destruct (local x tid h !! key); simpl in *.
  - by rewrite Hv.
  - by apply lookup_replicate in Hv as [-> _].
Qed.

(** Erasing a key removes it from every thread, dead or running: the result
    is the number of [Stats] that had it, the key is then unknown (reading any
    of its counters gives -1) and no other key or map is changed. *)
Theorem perXStatsErase_exact x i key h :
  wf_holder h -> x <> per_handle ->
  exists h' s s', perXStatsErase x key (Some h) = (Some h', i64 (Z.of_nat (occurrences x key h))) /\
    aggregate_nonew h = Some s /\ aggregate_nonew h' = Some s' /\
    stat_get x i key (Some s') = -1 /\
    cview x s' = delete key (cview x s) /\ (forall y, y <> x -> cview y s' = cview y s).
Proof.
  intros Hwf Hx. destruct (perXStatsErase_spec x key h Hwf) as (h' & E & Hwf' & _ & Ht & _).
  destruct (aggregate_nonew_sum h Hwf) as (s & Es & _ & Hc & Hp & _).
  destruct (aggregate_nonew_sum h' Hwf') as (s' & Es' & _ & Hc' & Hp' & _).
  assert (Hx' : cview x s' = delete key (cview x s)).
  { rewrite Hc', Hc, Ht by done. by rewrite decide_True. }
  exists h', s, s'. split_and!; try done.
  - unfold stat_get. apply (f_equal (lookup key)) in Hx'. unfold cview in Hx'.
    rewrite lookup_fmap, lookup_delete_eq in Hx'. by destruct (stats_map x s' !! key).
  - intros y Hy. destruct (decide (y = per_handle)) as [->|Hyh].
    + unfold cview. by rewrite Hp, Hp'.
    + rewrite Hc', Hc, Ht by done. by rewrite decide_False.
Qed.

(** After a reset every map is empty and every histogram is as new, for
    dead and running threads alike. *)
Theorem reset_clears h :
  wf_holder h ->
  exists s, aggregate_nonew (reset h) = Some s /\ (forall x, cview x s = ∅) /\
    server_histograms s = server_histograms (new_Stats (params_ h)).
Proof.
  intros Hwf. destruct (reset_spec h Hwf) as (Hwf' & _ & Ht & Hh).
  destruct (aggregate_nonew_sum (reset h) Hwf') as (s & Es & _ & Hc & Hp & Hs).
  exists s. split_and!; [done| |by rewrite Hs]. intros x.
  destruct (decide (x = per_handle)) as [->|Hx]; [unfold cview; by rewrite Hp|].
  by rewrite Hc, Ht.
Qed.

(** Once the holder is destroyed, a thread that ends does not touch the
    holder's dead statistics, whichever thread it is. *)
Theorem exit_after_destroy tid h :
  exists h', thread_exit tid (destroy h) = Some h' /\ dead_stats_ h' = dead_stats_ h /\
    thread_stats_ h' !! tid = None.
Proof.
  unfold thread_exit, destroy. simpl. rewrite lookup_fmap.
  destruct (thread_stats_ h !! tid) as [w|] eqn:E; simpl; eexists; split_and!; try done.
  - simpl. by rewrite lookup_delete_eq.
  - simpl. by rewrite lookup_fmap, E.
Qed.

(** Reading a counter of the collected statistics gives the wrapped sum
    over all threads, and -1 when the key is unknown or the sum is negative. *)
Theorem stat_get_total x i key h :
  wf_holder h -> x <> per_handle ->
  exists s, aggregate_nonew h = Some s /\
    stat_get x i key (Some s) =
      match total x h !! key ≫= (fun v => v !! i) with
      | Some v => if v <? 0 then -1 else v
      | None => -1
      end.
Proof.
  intros Hwf Hx. destruct (aggregate_nonew_sum h Hwf) as (s & Es & _ & Hc & _).
  exists s. split; [done|]. rewrite <- Hc by done. unfold stat_get, cview.
  rewrite lookup_fmap. destruct (stats_map x s !! key) as [p|]; simpl; [|done].
  unfold view. rewrite list_lookup_fmap. by destruct (counters p !! i).
Qed.
End holder.
End StatsHolder.

(** ** Witnesses: two threads, of which one ends *)
Module StatsHolderWitness.
Import StatsHolder StatsWitness.

Definition history : list op :=
  [Add 1 per_stream 0 "s1" 5; Add 2 per_stream 0 "s1" 7; Exit 1; Add 2 per_stream 3 "s2" 1;
   Erase per_stream "s2"].

Definition two_threads : StatsHolder :=
  default (new_StatsHolder server_params)
    (run (new_StatsHolder server_params)
       [Add 1 per_stream 0 "s1" 5; Add 2 per_stream 0 "s1" 7]).

Lemma two_threads_ok : wf_holder two_threads /\ alive two_threads.
Proof.
  destruct (run_simulates [Add 1 per_stream 0 "s1" 5; Add 2 per_stream 0 "s1" 7]
    (new_StatsHolder server_params) (fun _ => ∅)) as (h & E & Hwf & Ha & _);
    auto using wf_new_StatsHolder, alive_new, total_new.
  { repeat constructor. }
  unfold two_threads. by rewrite E.
Qed.

Lemma holder_refines_counters_witness :
  exists h s, run (new_StatsHolder server_params) history = Some h /\
    aggregate_nonew h = Some s /\ cview per_stream s = {[ "s1" := [12; 0; 0; 0; 0; 0] ]}.
Proof.
  destruct (holder_refines_counters server_params history ltac:(repeat constructor))
    as (h & s & E & Es & H). exists h, s. split; [exact E|]. split; [exact Es|].
  rewrite H by discriminate. reflexivity.
Defined.

Lemma thread_exit_conserves_witness :
  exists h' s', thread_exit 1 two_threads = Some h' /\ aggregate_nonew h' = Some s' /\
    cview per_stream s' = {[ "s1" := [12; 0; 0; 0; 0; 0] ]}.
Proof.
  destruct (thread_exit_conserves 1 two_threads (proj1 two_threads_ok) (proj2 two_threads_ok))
    as (h' & s & s' & E & _ & Es & Es' & Hc & _).
  exists h', s'. split; [exact E|]. split; [exact Es'|]. rewrite Hc.
  destruct (aggregate_nonew_sum two_threads (proj1 two_threads_ok)) as (s0 & Es0 & _ & H0 & _).
  rewrite Es in Es0. injection Es0 as <-. rewrite H0 by discriminate. reflexivity.
Defined.

Lemma stat_set_local_witness :
  exists h', stat_set per_stream 0 "s1" 100 2 (Some two_threads) = Some h' /\
    total per_stream h' = {[ "s1" := [105; 0; 0; 0; 0; 0] ]}.
Proof.
  destruct (stat_set_local per_stream 0 "s1" 100 2 two_threads (proj1 two_threads_ok))
    as (h' & E & _ & _ & Ht); [vm_compute; lia|unfold is_i64; lia|].
  exists h'. split; [exact E|]. rewrite Ht. vm_compute. reflexivity.
Defined.

Lemma perXStatsErase_exact_witness :
  exists h', perXStatsErase per_stream "s1" (Some two_threads) = (Some h', 2).
Proof.
  destruct (perXStatsErase_exact per_stream 0 "s1" two_threads (proj1 two_threads_ok)
    ltac:(discriminate)) as (h' & s & s' & E & _).
  exists h'. rewrite E. reflexivity.
Defined.

Lemma reset_clears_witness :
  exists s, aggregate_nonew (reset two_threads) = Some s /\ cview per_stream s = ∅.
Proof.
  destruct (reset_clears two_threads (proj1 two_threads_ok)) as (s & E & H & _).
  exists s. split; [exact E|apply H].
Defined.

Lemma stat_get_total_witness :
  exists s, aggregate_nonew two_threads = Some s /\ stat_get per_stream 0 "s1" (Some s) = 12.
Proof.
  destruct (stat_get_total per_stream 0 "s1" two_threads (proj1 two_threads_ok)
    ltac:(discriminate)) as (s & E & H). exists s. split; [exact E|]. rewrite H. reflexivity.
Defined.
End StatsHolderWitness.
