(* ===== verification/StatsApi.v ===== *)
(** * The statistics functions exported to Haskell (hs_stats.cpp)

    Looking up a member by its name, time series, the check of the requested
    intervals and the server histograms. The clock is a parameter: [clock n] is
    what the [n]-th call of [steady_clock::now] returns, in milliseconds. *)

From stdpp Require Import base gmap strings list.
From Stdlib Require Import ZArith Lia.
From S2P Require Import Prelude StatsTables Stats StatsHolder.
Import StatsTables Stats StatsHolder.

Module StatsApi.
Section api.
Context {SC : StatsCounter} {D : Double} {TS : TimeSeries} {HB : Histograms}.
Context {LD : LdCheck} {OS : IterOrder string} {OT : IterOrder nat}.

(** ** Pointers to members *)

(** [setPer*StatsMember]: every line of the table whose name matches assigns
    [member_ptr]. *)
Fixpoint stats_member_loop (names : list string) (i : nat) (stat_name : string)
    (member_ptr : option nat) : option nat :=
  match names with
  | [] => member_ptr
  | name :: names =>
      stats_member_loop names (S i) stat_name
        (if bool_decide (name = stat_name) then Some i else member_ptr)
  end.

Definition setPerStatsMember (x : per_x) (stat_name : string) : option nat :=
  stats_member_loop (stat_defs x).*1 0 stat_name None.

(** [setPer*TimeSeriesMember]: the same, any of the line's strings matches. *)
Fixpoint series_member_loop (defs : list series_def) (i : nat) (stat_name : string)
    (member_ptr : option nat) : option nat :=
  match defs with
  | [] => member_ptr
  | d :: defs =>
      series_member_loop defs (S i) stat_name
        (if bool_decide (stat_name ∈ ts_strings d) then Some i else member_ptr)
  end.

Definition setPerTimeSeriesMember (x : per_x) (stat_name : string) : option nat :=
  series_member_loop (series_defs x) 0 stat_name None.

(** ** The holder *)

Definition new_stats_holder (is_server : bool) : StatsHolder :=
  new_StatsHolder (setIsServer new_StatsParams is_server).

Definition new_aggregate_stats (h : StatsHolder) : option Stats := aggregate_nonew h.

Definition stats_holder_reset (h : StatsHolder) : StatsHolder := reset h.

(** [stream_stat_getall], ..., [stream_stat_erase], ...: PER_X_STAT. *)
Definition stat_getall (x : per_x) (stat_name : string) (sh : option StatsHolder)
    : option (option (Z * list string * list Z)) :=
  perXStatsGetall x (setPerStatsMember x) stat_name sh.

Definition stat_erase (x : per_x) (key : string) (sh : option StatsHolder)
    : option StatsHolder * Z := perXStatsErase x key sh.

(** ** Time series *)

Definition with_series (j : nat) (f : option ts -> option ts) (p : PerXStats) : PerXStats :=
  {| counters := counters p; series := alter f j (series p) |}.

(** PER_X_TIME_SERIES_ADD: series [j] of the struct of [key]; the series is
    made by its first value. A series the parameters do not describe would be
    a member that does not exist. *)
Definition time_series_add (x : per_x) (j : nat) (key : string) (val now : Z) (tid : nat)
    (stats_struct : option StatsHolder) : option StatsHolder :=
  h ← stats_struct;
  let '(s, h) := get tid h in
  '(intervals, buckets) ← series_params (params_ h) x !! j;
  let add t :=
    Some (ts_addValue (default (ts_new buckets intervals) t) now val) in
  Some (put tid (set_map x (update_entry x key (with_series j add) (stats_map x s)) s) h).

(** The rates of one series over the requested intervals, per second:
    [Duration::period] is 1/1000. *)
Definition rate_per_second (t : ts) (now interval : Z) : double :=
  d_div_int (d_mul_int (ts_rate t (now - interval) now) 1000) 1.

Definition add_rates (t : ts) (now : Z) (ms_intervals : list Z) (vals : list double)
    : list double :=
  zip_with (fun v interval => d_add v (rate_per_second t now interval)) vals ms_intervals.

(** The entry's series, updated in the map that owns it. *)
Definition store_series (x : per_x) (j : nat) (key : string) (t : ts) (s : Stats) : Stats :=
  set_map x (alter (with_series j (fun _ => Some t)) key (stats_map x s)) s.

Section clock.
Variable clock : nat -> Z.

(** The loop of [perXTimeSeriesGet] over the entries of one [Stats]; the state
    is [aggregate_vals], [has_found] and the number of clock reads. *)
Fixpoint ts_get_loop (x : per_x) (j : nat) (key : string) (ms_intervals : list Z)
    (entries : list (string * PerXStats)) (s : Stats) (a : list double * bool * nat)
    : Stats * (list double * bool * nat) :=
  match entries with
  | [] => (s, a)
  | (key_, p) :: entries =>
      match series p !! j with
      | Some (Some t) =>
          if bool_decide (key_ = key) then
            let '(vals, _, n) := a in
            let now := clock n in
            let t := ts_update t now in
            (store_series x j key_ t s, (add_rates t now ms_intervals vals, true, S n))
          else ts_get_loop x j key ms_intervals entries s a
      | _ => ts_get_loop x j key ms_intervals entries s a
      end
  end.

(** [perXTimeSeriesGet]: the return value and [aggregate_vals]. *)
Definition perXTimeSeriesGet (x : per_x) (find_member : string -> option nat)
    (stat_name key : string) (ms_intervals : list Z) (aggregate_vals : list double)
    (h : StatsHolder) : StatsHolder * Z * list double :=
  match find_member stat_name with
  | None => (h, -1, aggregate_vals)
  | Some j =>
      let '(h, (vals, has_found, _)) :=
        runForEach (fun s a => ts_get_loop x j key ms_intervals (synchronizedCopy x s) s a)
          h (aggregate_vals, false, 0%nat) in
      (h, (if has_found : bool then 0 else -1), vals)
  end.

(** The loop of [perXTimeSeriesGetall] over the entries of one [Stats]. *)
Fixpoint ts_getall_loop (x : per_x) (j : nat) (ms_intervals : list Z)
    (entries : list (string * PerXStats)) (s : Stats) (a : gmap string (list double) * nat)
    : Stats * (gmap string (list double) * nat) :=
  match entries with
  | [] => (s, a)
  | (key, p) :: entries =>
      match series p !! j with
      | Some (Some t) =>
          let '(output, n) := a in
          let now := clock n in
          let t := ts_update t now in
          let aggregate_vector :=
            default (replicate (length ms_intervals) d_zero) (output !! key) in
          ts_getall_loop x j ms_intervals entries (store_series x j key t s)
            (<[key := add_rates t now ms_intervals aggregate_vector]> output, S n)
      | _ => ts_getall_loop x j ms_intervals entries s a
      end
  end.

Definition perXTimeSeriesGetall (x : per_x) (find_member : string -> option nat)
    (stat_name : string) (ms_intervals : list Z) (h : StatsHolder)
    : StatsHolder * option (Z * list string * list (list double)) :=
  match find_member stat_name with
  | None => (h, None)
  | Some j =>
      let '(h, (output, _)) :=
        runForEach (fun s a => ts_getall_loop x j ms_intervals (synchronizedCopy x s) s a)
          h (∅, 0%nat) in
      (h, Some (cppMapToHs output id))
  end.

(** [stream_time_series_get], [stream_time_series_getall_by_name] and those of
    subscriptions and handles. *)
Definition time_series_get x := perXTimeSeriesGet x (setPerTimeSeriesMember x).
Definition time_series_getall_by_name x := perXTimeSeriesGetall x (setPerTimeSeriesMember x).
End clock.

(** *** The functions by name *)

Definition setPerStreamStatsMember := setPerStatsMember per_stream.
Definition setPerConnectorStatsMember := setPerStatsMember per_connector.
Definition setPerCacheStoreStatsMember := setPerStatsMember per_cache_store.
Definition setPerQueryStatsMember := setPerStatsMember per_query.
Definition setPerViewStatsMember := setPerStatsMember per_view.
Definition setPerSubscriptionStatsMember := setPerStatsMember per_subscription.
Definition setPerStreamTimeSeriesMember := setPerTimeSeriesMember per_stream.
Definition setPerSubscriptionTimeSeriesMember := setPerTimeSeriesMember per_subscription.
Definition setPerHandleTimeSeriesMember := setPerTimeSeriesMember per_handle.
Definition stream_time_series_get clock := time_series_get clock per_stream.
Definition stream_time_series_getall_by_name clock := time_series_getall_by_name clock per_stream.
Definition subscription_time_series_get clock := time_series_get clock per_subscription.
Definition subscription_time_series_getall_by_name clock :=
  time_series_getall_by_name clock per_subscription.
Definition handle_time_series_get clock := time_series_get clock per_handle.
Definition handle_time_series_getall_by_name clock := time_series_getall_by_name clock per_handle.

(** ** Requested intervals *)

(** [VerifyIntervals]; [chrono_string] prints a number of seconds. *)
Fixpoint verify_loop (chrono_string : Z -> string) (max_interval : Z) (ms_intervals : list Z)
    : bool * option string :=
  match ms_intervals with
  | [] => (true, None)
  | interval :: ms_intervals =>
      if max_interval <? interval then
        (false, Some ("requested interval " +:+ chrono_string (Z.quot interval 1000)
           +:+ " is larger than the max " +:+ chrono_string (Z.quot max_interval 1000)))
      else verify_loop chrono_string max_interval ms_intervals
  end.

Definition verify_intervals (chrono_string : Z -> string) (x : per_x) (h : StatsHolder)
    (time_series : string) (ms_intervals : list Z) : option (bool * option string) :=
  max_interval ← maxStatsInterval x (params_ h) time_series;
  Some (verify_loop chrono_string max_interval ms_intervals).

(** ** Server histograms *)

(** [server_histogram_add]; the call of [get] makes the thread's [Stats]
    whether or not the histogram exists. *)
Definition server_histogram_add (stat_name : string) (usecs : Z) (tid : nat)
    (sh : option StatsHolder) : option StatsHolder * Z :=
  match sh with
  | None => (None, -1)
  | Some h =>
      let '(s, h) := get tid h in
      match server_histograms s with
      | None => (Some h, -1)
      | Some b =>
          match bundle_find server_histogram_names stat_name with
          | None => (Some h, -1)
          | Some i =>
              (Some (put tid
                 (set_histograms (Some (alter (fun g => hist_add g usecs) i b)) s) h), 0)
          end
      end
  end.

(** The histogram both estimates look at. *)
Definition find_histogram (stat_name : string) (h : StatsHolder) : option (option hist) :=
  s ← aggregate_nonew h;
  match server_histograms s with
  | None => Some None
  | Some agg_hist =>
      match bundle_find server_histogram_names stat_name with
      | None => Some None
      | Some i => Some (agg_hist !! i)
      end
  end.

(** [None] inside is the return value -1. *)
Definition server_histogram_estimatePercentiles (stat_name : string) (percentiles : list double)
    (sh : option StatsHolder) : option (option (list Z * Z * Z)) :=
  match sh with
  | None => Some None
  | Some h =>
      histogram ← find_histogram stat_name h;
      Some (option_map (fun g => hist_estimatePercentiles g percentiles) histogram)
  end.

Definition server_histogram_estimatePercentile (stat_name : string) (percentile : double)
    (sh : option StatsHolder) : option Z :=
  match sh with
  | None => Some (-1)
  | Some h =>
      histogram ← find_histogram stat_name h;
      Some (match histogram with
            | None => -1
            | Some g => hist_estimatePercentile g percentile
            end)
  end.

(** ** Members *)

Lemma stats_member_loop_spec names i n r j :
  NoDup names ->
  stats_member_loop names i n r = Some j <->
    (exists k, names !! k = Some n /\ j = (i + k)%nat) \/ (~ (n ∈ names) /\ r = Some j).
Proof.
  intros Hnd. revert i r. induction Hnd as [|m names Hm Hnd IH]; intros i r; simpl.
  { split; [by intros ->; right; split; [apply not_elem_of_nil|]|].
    by intros [(k & ? & _)|[_ ->]]. }
  rewrite IH. case_bool_decide as E; [subst m|].
  - split.
    + intros [(k & Hk & _)|[_ [= <-]]]; [by apply list_elem_of_lookup_2 in Hk|].
      left. exists 0%nat. split; [done|lia].
    + intros [(k & Hk & ->)|[Hn _]]; [|set_solver]. destruct k as [|k]; simpl in Hk.
      * right. split; [done|]. f_equal. lia.
      * by apply list_elem_of_lookup_2 in Hk.
  - split.
    + intros [(k & Hk & ->)|[Hn ->]]; [left; exists (S k); split; [done|lia]|].
      right. split; [set_solver|done].
    + intros [(k & Hk & ->)|[Hn ->]]; [|right; split; [set_solver|done]].
      destruct k as [|k]; simplify_eq/=. left. exists k. split; [done|lia].
Qed.

(** Looking a counter up by name finds the counter of that name and no
    other, and finds nothing exactly when the table has no such name. *)
Theorem setPerStatsMember_spec x stat_name i :
  setPerStatsMember x stat_name = Some i <-> (stat_defs x).*1 !! i = Some stat_name.
Proof.
  unfold setPerStatsMember. rewrite stats_member_loop_spec by apply stat_defs_NoDup.
  split; [by intros [(k & Hk & ->)|[_ ?]]|]. intros H. left. by exists i.
Qed.

Lemma in_strings d defs n k :
  defs !! k = Some d -> n ∈ ts_strings d -> n ∈ concat (ts_strings <$> defs).
Proof.
  intros Hk Hn. apply list_elem_of_In, in_concat. exists (ts_strings d).
  split; apply list_elem_of_In; [|done]. apply list_elem_of_fmap. exists d. split; [done|].
  by eapply list_elem_of_lookup_2.
Qed.

Lemma series_member_loop_spec defs i n r :
  NoDup (concat (ts_strings <$> defs)) ->
  series_member_loop defs i n r =
    match list_find (fun d => n ∈ ts_strings d) defs with
    | Some (k, _) => Some (i + k)%nat
    | None => r
    end.
Proof.
  revert i r. induction defs as [|d defs IH]; intros i r Hnd; simpl in *; [done|].
  apply NoDup_app in Hnd as (_ & Hd & Hnd). rewrite IH by done.
  case_bool_decide as E; [rewrite decide_True by done|rewrite decide_False by done].
  - destruct (list_find _ defs) as [[k d']|] eqn:F; [|f_equal; lia].
    apply list_find_Some in F as (F & Hn & _). exfalso. apply (Hd n E).
    by eapply in_strings.
  - destruct (list_find _ defs) as [[k d']|]; simpl; [f_equal; lia|done].
Qed.

Lemma strings_unique defs j k d d' n :
  NoDup (concat (ts_strings <$> defs)) -> defs !! j = Some d -> defs !! k = Some d' ->
  n ∈ ts_strings d -> n ∈ ts_strings d' -> j = k.
Proof.
  intros Hnd. revert j k. induction defs as [|e defs IH]; intros j k Hj Hk Hn Hn'; [done|].
  simpl in Hnd. apply NoDup_app in Hnd as (_ & He & Hnd).
  destruct j as [|j], k as [|k]; simplify_eq/=; [done| | |by f_equal; apply IH].
  - by destruct (He n Hn); eapply in_strings.
  - by destruct (He n Hn'); eapply in_strings.
Qed.

Lemma setPerTimeSeriesMember_find x n :
  setPerTimeSeriesMember x n = fst <$> list_find (fun d => n ∈ ts_strings d) (series_defs x).
Proof.
  unfold setPerTimeSeriesMember. rewrite series_member_loop_spec by apply series_strings_NoDup.
  by destruct (list_find _ _) as [[]|].
Qed.

(** Looking a time series up by one of its query names finds the one series
    that lists the name. *)
Theorem setPerTimeSeriesMember_spec x stat_name j :
  setPerTimeSeriesMember x stat_name = Some j <->
    exists d, series_defs x !! j = Some d /\ stat_name ∈ ts_strings d.
Proof.
  rewrite setPerTimeSeriesMember_find, fmap_Some. split.
  - intros ([k d] & F & ->). apply list_find_Some in F as (F & Hn & _). by exists d.
  - intros (d & Hj & Hn).
    destruct (list_find (fun d => stat_name ∈ ts_strings d) (series_defs x)) as [[k d']|] eqn:F.
    2: { rewrite list_find_None, Forall_forall in F. exfalso. apply (F d); [|done].
         by eapply list_elem_of_lookup_2. }
    exists (k, d'). split; [done|]. simpl. apply list_find_Some in F as (F & Hn' & _).
    by apply (strings_unique (series_defs x) j k d d' stat_name (series_strings_NoDup x)).
Qed.

(** ** Intervals *)

Lemma maxInterval_loop_find defs n :
  maxInterval_loop defs ((fun d => (ts_intervals d, ts_buckets d)) <$> defs) n =
    match list_find (fun d => n ∈ ts_strings d) defs with
    | Some (_, d) => last (ts_intervals d)
    | None => ld_check false;; Some 0
    end.
Proof.
  induction defs as [|d defs IH]; [done|]. rewrite fmap_cons. cbn [maxInterval_loop list_find].
  case_bool_decide as E; [by rewrite decide_True|rewrite decide_False by done].
  rewrite IH. by destruct (list_find _ defs) as [[]|].
Qed.

Lemma series_max x : Forall (fun d => last (ts_intervals d) = Some 600000) (series_defs x).
Proof. destruct x; repeat constructor. Qed.

Lemma maxStatsInterval_default x b n :
  maxStatsInterval x (setIsServer new_StatsParams b) n =
    match setPerTimeSeriesMember x n with
    | Some _ => Some 600000
    | None => ld_check false;; Some 0
    end.
Proof.
  unfold maxStatsInterval. rewrite setPerTimeSeriesMember_find.
  etrans; [apply maxInterval_loop_find|].
  destruct (list_find _ _) as [[k d]|] eqn:F; [|done]. simpl.
  apply list_find_Some in F as (F & _). by apply (Forall_lookup_1 _ _ _ _ (series_max x) F).
Qed.

Lemma verify_loop_spec cs max l :
  ((verify_loop cs max l).1 = true <-> Forall (fun i => i <= max) l) /\
  ((verify_loop cs max l).2 = None <-> (verify_loop cs max l).1 = true).
Proof.
  induction l as [|i l [IH IH']]; simpl; [done|].
  destruct (Z.ltb_spec max i); simpl.
  - split; [|done]. split; [done|]. intros [? _]%Forall_cons. lia.
  - rewrite IH, IH', Forall_cons. split; [|done]. naive_solver.
Qed.

(** The check of requested intervals accepts exactly the requests whose
    every interval is at most ten minutes, for every series name of the
    tables; an unknown name aborts a debug build, and in a release build is
    accepted when no interval is positive. A message is produced exactly on
    rejection. *)
Theorem verify_intervals_exact cs x b h time_series ms_intervals :
  params_ h = setIsServer new_StatsParams b ->
  let max := match setPerTimeSeriesMember x time_series with Some _ => 600000 | None => 0 end in
  match verify_intervals cs x h time_series ms_intervals with
  | None => setPerTimeSeriesMember x time_series = None /\ ld_debug = true
  | Some (ok, err) =>
      (ok = true <-> Forall (fun i => i <= max) ms_intervals) /\ (err = None <-> ok = true)
  end.
Proof.
  intros E. unfold verify_intervals. rewrite E, maxStatsInterval_default.
  destruct (setPerTimeSeriesMember x time_series); simpl.
  - pose proof (verify_loop_spec cs 600000 ms_intervals) as H.
    by destruct (verify_loop cs 600000 ms_intervals).
  - unfold ld_check. destruct ld_debug eqn:L; simpl; [done|].
    pose proof (verify_loop_spec cs 0 ms_intervals) as H.
    by destruct (verify_loop cs 0 ms_intervals).
Qed.

(** ** Histograms *)

Lemma server_histogram_names_NoDup : NoDup server_histogram_names.
Proof. apply (bool_decide_unpack _). by vm_compute. Qed.

Lemma zip_merge_add i v a b :
  zip_with hist_merge (alter (fun g => hist_add g v) i a) b =
    alter (fun g => hist_add g v) i (zip_with hist_merge a b).
Proof.
  revert i b. induction a as [|h a IH]; intros [|i] [|h' b]; simpl; try done.
  - by rewrite hist_merge_add.
  - f_equal. apply IH.
Qed.

Lemma find_histogram_total name h :
  wf_holder h ->
  find_histogram name h = Some (total_hists h ≫= fun b =>
    bundle_find server_histogram_names name ≫= fun i => b !! i).
Proof.
  intros Hwf. destruct (aggregate_nonew_sum h Hwf) as (s & Es & _ & _ & _ & Hh).
  unfold find_histogram. rewrite Es. simpl. rewrite Hh.
  destruct (total_hists h); simpl; [|done]. by destruct (bundle_find _ _).
Qed.

(** A sample added on any thread of a server is in the histogram that the
    percentile estimates use: that histogram is the previous one with the
    sample added. *)
Theorem server_histogram_add_visible name i usecs tid h :
  wf_holder h -> is_server (params_ h) = true -> server_histogram_names !! i = Some name ->
  exists h' g, server_histogram_add name usecs tid (Some h) = (Some h', 0) /\
    find_histogram name h = Some (Some g) /\
    find_histogram name h' = Some (Some (hist_add g usecs)).
Proof.
  intros Hwf Hs Hi. apply bundle_find_spec in Hi as Hf; [|apply server_histogram_names_NoDup].
  unfold server_histogram_add. destruct (get tid h) as [s h1] eqn:Eg.
  destruct (get_spec tid h s h1 Eg Hwf) as (Hwf1 & Hp & _ & (w & Ew & <-) & _ & Hh).
  assert (Hw : wf_Stats (params_ h1) (stats w)) by (by eapply (proj2 Hwf1)).
  destruct (Hw) as (Ew1 & Hwh & Hwm). unfold wf_hists in Hwh. rewrite Hp, Hs in Hwh.
  destruct Hwh as (b & Eb & Lb). rewrite Eb, Hf.
  set (s' := set_histograms _ _). exists (put tid s' h1).
  assert (Hs' : wf_Stats (params_ h1) s').
  { split_and!; [done| |intros x; unfold s'; rewrite stats_map_set_histograms; apply Hwm].
    unfold wf_hists. rewrite Hp, Hs. eexists. split; [done|].
    unfold ServerHistograms in *. by rewrite length_alter. }
  destruct (put_spec tid s' h1 w Ew Hwf1 Hs') as (Hwf2 & _).
  rewrite !find_histogram_total, <- Hh, Hf by done.
  unfold total_hists at 1. rewrite (msum_delete hadd _ _ tid w) by done.
  unfold total_hists. cbn [thread_stats_ put set_threads dead_stats_].
  rewrite (msum_alter hadd _ _ tid w) by done. simpl. rewrite Eb. unfold s'. simpl.
  pose proof (wf_total_hists _ (wf_set_threads_delete tid h1 Hwf1)) as Hr.
  unfold wf_hists, total_hists in Hr. simpl in Hr. rewrite Hp, Hs in Hr.
  destruct Hr as (r & -> & Lr). simpl. rewrite zip_merge_add.
  assert (is_Some (zip_with hist_merge b r !! i)) as [g Hg].
  { apply lookup_lt_is_Some. rewrite length_zip_with. unfold ServerHistograms in *.
    rewrite Lb, Lr. apply lookup_lt_Some in Hi. simpl in *. lia. }
  exists g. split_and!; [done|exact (f_equal Some Hg)|]. f_equal.
  etrans; [apply list_lookup_alter_eq|]. exact (f_equal (option_map _) Hg).
Qed.

Lemma cppMapToHs_map {A B} (m : gmap string A) (f : A -> B) :
  list_to_map (zip (iter_list m).*1 (f <$> (iter_list m).*2)) = f <$> m.
Proof.
  rewrite <- (iter_list_to_map m) at 3. rewrite <- list_to_map_fmap. f_equal.
  induction (iter_list m) as [|[k a] l IH]; simpl; [done|]. by f_equal.
Qed.

(** All counters of one name: one key per key of the total, in some order,
    each with the sum over all threads; an unknown name is rejected. *)
Theorem stat_getall_total x stat_name h :
  wf_holder h -> x <> per_handle ->
  match setPerStatsMember x stat_name with
  | None => stat_getall x stat_name (Some h) = Some None
  | Some i => exists keys vals,
      stat_getall x stat_name (Some h) = Some (Some (Z.of_nat (length keys), keys, vals)) /\
      length vals = length keys /\ NoDup keys /\
      list_to_map (zip keys vals) = (fun v => default 0 (v !! i)) <$> total x h
  end.
Proof.
  intros Hwf Hx. destruct (aggregate_nonew_sum h Hwf) as (s & Es & _ & Hc & _).
  unfold stat_getall, perXStatsGetall. rewrite Es. simpl.
  destruct (setPerStatsMember x stat_name) as [i|]; [|done].
  set (f := fun p : PerXStats => default 0 (load <$> counters p !! i)).
  exists (iter_list (stats_map x s)).*1, (f <$> (iter_list (stats_map x s)).*2).
  rewrite <- Hc by done. unfold cppMapToHs. split_and!.
  - by rewrite length_fmap, length_iter_list.
  - by rewrite !length_fmap.
  - apply NoDup_iter_list_fst.
  - etrans; [apply cppMapToHs_map|]. unfold cview. rewrite <- map_fmap_compose.
    apply map_fmap_ext. intros k p _. unfold f, view. simpl. by rewrite list_lookup_fmap.
Qed.

(** ** Time series *)

(** The accumulator of [runForEach] only sees each [Stats] as it was. *)
Lemma runForEach_acc {A} (func : Stats -> A -> Stats * A) h a :
  (runForEach func h a).2 =
    foldl (fun a s => (func s a).2) a
      (dead_stats_ h :: (stats <$> (iter_list (thread_stats_ h)).*2)).
Proof.
  unfold runForEach. simpl. destruct (func (dead_stats_ h) a) as [d a1]. simpl.
  generalize (thread_stats_ h) at 1 as m. revert a1.
  induction (iter_list (thread_stats_ h)) as [|[t w] l IH]; intros a1 m; simpl; [done|].
  destruct (func (stats w) a1) as [s' a2]. apply IH.
Qed.

(** The series [j] of [key] in a map of structs. *)
Definition series_of (j : nat) (key : string) (m : gmap string PerXStats) : option ts :=
  p ← m !! key; mjoin (series p !! j).

Section fixed_time.
Variable now : Z.
#[local] Notation clock := (fun _ : nat => now).

Lemma ts_get_loop_acc x j key ms entries s vals found n :
  NoDup entries.*1 ->
  exists n', (ts_get_loop clock x j key ms entries s (vals, found, n)).2 =
    match series_of j key (list_to_map entries) with
    | Some t => (add_rates (ts_update t now) now ms vals, true, n')
    | None => (vals, found, n')
    end.
Proof.
  unfold series_of. induction entries as [|[k p] entries IH]; simpl; intros Hnd; [by exists n|].
  apply NoDup_cons in Hnd as [Hk Hnd]. specialize (IH Hnd).
  destruct (decide (k = key)) as [->|Hne].
  - rewrite lookup_insert_eq. simpl.
    rewrite (not_elem_of_list_to_map_1 entries key) in IH by done. simpl in IH.
    destruct (series p !! j) as [[t|]|]; simpl; [|done|done].
    rewrite bool_decide_eq_true_2 by done. by exists (S n).
  - rewrite lookup_insert_ne by done. rewrite bool_decide_eq_false_2 by done.
    by destruct (series p !! j) as [[t|]|].
Qed.

Lemma ts_getall_loop_acc x j key ms entries s out n :
  NoDup entries.*1 ->
  (ts_getall_loop clock x j ms entries s (out, n)).2.1 !! key =
    match series_of j key (list_to_map entries) with
    | Some t => Some (add_rates (ts_update t now) now ms
                        (default (replicate (length ms) d_zero) (out !! key)))
    | None => out !! key
    end.
Proof.
  unfold series_of. revert s out n.
  induction entries as [|[k p] entries IH]; simpl; intros s out n Hnd; [done|].
  apply NoDup_cons in Hnd as [Hk Hnd]. destruct (decide (k = key)) as [->|Hne].
  - rewrite lookup_insert_eq. simpl.
    destruct (series p !! j) as [[t|]|]; simpl; rewrite IH by done;
      rewrite (not_elem_of_list_to_map_1 entries key) by done; simpl; [|done|done].
    by rewrite lookup_insert_eq.
  - rewrite (lookup_insert_ne _ k) by done.
    destruct (series p !! j) as [[t|]|]; simpl; rewrite IH by done; [|done|done].
    by rewrite lookup_insert_ne.
Qed.

(** What the two accumulators have to do with each other. *)
Definition agree (key : string) (ms : list Z) (a : list double * bool * nat)
    (b : gmap string (list double) * nat) : Prop :=
  b.1 !! key = (if a.1.2 then Some a.1.1 else None) /\
  (a.1.2 = false -> a.1.1 = replicate (length ms) d_zero).

Lemma agree_step x j key ms s a b :
  agree key ms a b ->
  agree key ms (ts_get_loop clock x j key ms (synchronizedCopy x s) s a).2
    (ts_getall_loop clock x j ms (synchronizedCopy x s) s b).2.
Proof.
  destruct a as [[vals found] n], b as [out m]. intros [Ho Hz]. simpl in *.
  destruct (ts_get_loop_acc x j key ms (synchronizedCopy x s) s vals found n) as [n' ->];
    [apply NoDup_iter_list_fst|].
  unfold agree. rewrite ts_getall_loop_acc by apply NoDup_iter_list_fst.
  destruct (series_of _ _ _); simpl; [|done]. split; [|done]. rewrite Ho.
  destruct found; simpl; [done|]. by rewrite Hz.
Qed.

(** Asking for one key and asking for all keys of a time series at the same
    time agree: [getall] lists exactly the keys for which [get] succeeds, each
    once, with the rates [get] computes. *)
Theorem time_series_getall_agrees x stat_name j key ms h :
  setPerTimeSeriesMember x stat_name = Some j ->
  exists h1 h2 r vals keys vals_all,
    time_series_get clock x stat_name key ms (replicate (length ms) d_zero) h = (h1, r, vals) /\
    time_series_getall_by_name clock x stat_name ms h =
      (h2, Some (Z.of_nat (length keys), keys, vals_all)) /\
    NoDup keys /\ length vals_all = length keys /\
    (list_to_map (zip keys vals_all) : gmap string (list double)) !! key =
      (if r =? 0 then Some vals else None).
Proof.
  intros Ej. unfold time_series_get, time_series_getall_by_name, perXTimeSeriesGet,
    perXTimeSeriesGetall. rewrite Ej.
  set (f1 := fun s a => ts_get_loop clock x j key ms (synchronizedCopy x s) s a).
  set (f2 := fun s a => ts_getall_loop clock x j ms (synchronizedCopy x s) s a).
  pose proof (runForEach_acc f1 h (replicate (length ms) d_zero, false, 0%nat)) as H1.
  pose proof (runForEach_acc f2 h (∅, 0%nat)) as H2.
  assert (Ha : agree key ms (runForEach f1 h (replicate (length ms) d_zero, false, 0%nat)).2
                 (runForEach f2 h (∅, 0%nat)).2).
  { rewrite H1, H2. generalize (dead_stats_ h :: (stats <$> (iter_list (thread_stats_ h)).*2)).
    intros l. assert (H0 : agree key ms (replicate (length ms) d_zero, false, 0%nat) (∅, 0%nat))
      by (split; [apply lookup_empty|done]). revert H0.
    generalize (replicate (length ms) d_zero, false, 0%nat) (∅ : gmap string (list double), 0%nat).
    induction l as [|s l IH]; intros a b Hab; [done|]. apply IH, agree_step, Hab. }
  destruct (runForEach f1 h _) as [h1 [[vals found] n]], (runForEach f2 h _) as [h2 [out m]].
  destruct Ha as [Ho _]. simpl in Ho.
  exists h1, h2, (if found then 0 else -1), vals, (iter_list out).*1, (id <$> (iter_list out).*2).
  unfold cppMapToHs. split_and!; [done|by rewrite length_fmap, length_iter_list| | |].
  - apply NoDup_iter_list_fst.
  - by rewrite !length_fmap.
  - rewrite cppMapToHs_map, map_fmap_id, Ho. by destruct found.
Qed.
End fixed_time.

(** ** Time series of ended threads *)

Definition no_series (s : Stats) : Prop :=
  forall x k p, stats_map x s !! k = Some p -> Forall (fun t => t = None) (series p).

Lemma aggregate_no_series this other ov d s :
  aggregateCompoundStats this other ov d = Some s -> no_series this -> no_series s.
Proof.
  intros E Hn x k p.
  assert (stats_map x s = stats_map x (aggregate_maps this other ov)) as ->.
  { unfold aggregateCompoundStats in E. destruct (server_histograms other); [|by injection E as <-].
    destruct (ld_check _); [|done]. cbn [mbind option_bind] in E.
    destruct (server_histograms (aggregate_maps _ _ _)); [|done]. injection E as <-.
    apply stats_map_set_histograms. }
  rewrite stats_map_aggregate_maps. case_decide; [apply Hn|].
  unfold synchronizedCopy. rewrite aggregate_map_iter. destruct (stats_map x other !! k); [|apply Hn].
  intros [= <-]. simpl. destruct (stats_map x this !! k) eqn:E'; simpl; [by eapply Hn|].
  apply Forall_fmap, Forall_true. done.
Qed.

Lemma ts_get_loop_no_series clock x j key ms entries s a :
  Forall (fun e => Forall (fun t => t = None) (series e.2)) entries ->
  ts_get_loop clock x j key ms entries s a = (s, a).
Proof.
  induction 1 as [|[k p] l Hp Hl IH]; simpl in *; [done|].
  destruct (series p !! j) as [[t|]|] eqn:E; try done.
  by apply (Forall_lookup_1 _ _ _ _ Hp) in E.
Qed.

(** Ended threads never contribute to time series: the dead threads'
    [Stats] holds none, ending a thread keeps it so, and once the last thread
    ended every time series query fails and changes no value. *)
Theorem exit_loses_series clock x stat_name key ms vals tid h h' :
  no_series (dead_stats_ h) -> thread_exit tid h = Some h' ->
  no_series (dead_stats_ h') /\
  (thread_stats_ h' = ∅ ->
     exists h'', time_series_get clock x stat_name key ms vals h' = (h'', -1, vals)).
Proof.
  intros Hn E. assert (Hn' : no_series (dead_stats_ h')).
  { unfold thread_exit in E. destruct (thread_stats_ h !! tid) as [w|]; [|by injection E as <-].
    destruct (owner w); [|by injection E as <-]. cbn [set_threads dead_stats_] in E.
    unfold aggregateForDestroyedThread in E.
    destruct (aggregateCompoundStats _ _ _ _) eqn:Ea; [|done]. injection E as <-.
    by eapply aggregate_no_series. }
  split; [done|]. intros Ht. unfold time_series_get, perXTimeSeriesGet.
  destruct (setPerTimeSeriesMember x stat_name) as [j|]; [|by eexists].
  pose proof (runForEach_acc (fun s a => ts_get_loop clock x j key ms (synchronizedCopy x s) s a)
    h' (vals, false, 0%nat)) as Ha.
  assert (Hi : iter_list (thread_stats_ h') = []).
  { apply length_zero_iff_nil. by rewrite length_iter_list, Ht, map_size_empty. }
  rewrite Hi in Ha. simpl in Ha. rewrite ts_get_loop_no_series in Ha.
  - destruct (runForEach _ _ _) as [h'' a]. simpl in Ha. subst a. by eexists.
  - apply Forall_forall. intros [k p] Hk. apply elem_of_iter_list in Hk. by eapply Hn'.
Qed.
End api.
End StatsApi.

(** ** Witnesses *)
Module StatsApiWitness.
Import StatsHolderWitness StatsApi StatsWitness.

Lemma verify_intervals_exact_witness :
  verify_intervals (fun _ => "x") per_stream (new_stats_holder true) "appends" [4000; 600001] =
    Some (false, Some "requested interval x is larger than the max x") /\
  (false = true <-> Forall (fun i => i <= 600000) [4000; 600001]).
Proof.
  split; [reflexivity|].
  exact (proj1 (verify_intervals_exact (fun _ => "x") per_stream true (new_stats_holder true)
    "appends" [4000; 600001] eq_refl)).
Defined.

Lemma server_histogram_add_visible_witness :
  exists h' g, server_histogram_add "append_latency" 30 7 (Some two_threads) = (Some h', 0) /\
    find_histogram "append_latency" h' = Some (Some (hist_add g 30)).
Proof.
  destruct (server_histogram_add_visible "append_latency" 1 30 7 two_threads
    (proj1 two_threads_ok) eq_refl eq_refl) as (h' & g & E & _ & H).
  exists h', g. split; [exact E|exact H].
Defined.

Lemma stat_getall_total_witness :
  exists keys vals,
    stat_getall per_stream "append_total" (Some two_threads) =
      Some (Some (Z.of_nat (length keys), keys, vals)) /\
    (list_to_map (zip keys vals) : gmap string Z) = {[ "s1" := 12 ]}.
Proof.
  destruct (stat_getall_total per_stream "append_total" two_threads (proj1 two_threads_ok)
    ltac:(discriminate)) as (keys & vals & E & _ & _ & H).
  exists keys, vals. split; [exact E|]. rewrite H. reflexivity.
Defined.

Definition series_holder : StatsHolder :=
  default two_threads (time_series_add per_stream 0 "s1" 9 1000 3 (Some two_threads)).

Lemma time_series_getall_agrees_witness :
  exists h2 keys vals_all,
    time_series_getall_by_name (fun _ => 1500) per_stream "appends" [4000] series_holder =
      (h2, Some (Z.of_nat (length keys), keys, vals_all)) /\
    (list_to_map (zip keys vals_all) : gmap string (list Z)) !! "s1" = Some [9000].
Proof.
  destruct (time_series_getall_agrees 1500 per_stream "appends" 0 "s1" [4000] series_holder
    eq_refl) as (h1 & h2 & r & vals & keys & vals_all & E1 & E2 & _ & _ & H).
  exists h2, keys, vals_all. split; [exact E2|].
  pose proof (f_equal (fun q => (q.1.2, q.2)) E1) as E.
  assert (E' : (0, [9000]) = (r, vals)) by (etrans; [|exact E]; reflexivity).
  injection E' as <- <-. exact H.
Defined.

Definition one_series : StatsHolder :=
  default (new_stats_holder true)
    (time_series_add per_stream 0 "s1" 9 1000 3 (Some (new_stats_holder true))).

Lemma exit_loses_series_witness :
  exists h' h'', thread_exit 3 one_series = Some h' /\
    time_series_get (fun _ => 1500) per_stream "appends" "s1" [4000] [0] h' = (h'', -1, [0]).
Proof.
  assert (Hn : no_series (dead_stats_ one_series)) by (intros [] k p; discriminate).
  destruct (thread_exit 3 one_series) as [h'|] eqn:E; [|exfalso; revert E; discriminate].
  assert (Ht : thread_stats_ h' = ∅).
  { change (thread_stats_ (default one_series (Some h')) = ∅). rewrite <- E. reflexivity. }
  destruct (proj2 (exit_loses_series (fun _ => 1500) per_stream "appends" "s1" [4000] [d_zero] 3
    one_series h' Hn E) Ht) as [h'' H]. exists h', h''. split; [reflexivity|exact H].
Defined.
End StatsApiWitness.
