(* ===== verification/NameNormalizer.v ===== *)
(** * Column names of admin commands (class NameNormalizer of
    src/common/hstream/cbits/query/tables/AdminCommandTable.cpp)

    A header of a server's reply is turned into a column name: lower case,
    anything but letters and digits an underscore, trimmed, and without runs of
    underscores. Strings are lists of characters here. *)

From stdpp Require Import base strings list.
From Stdlib Require Import Ascii Lia.
From Stdlib Require String.
From S2P Require Import Prelude.

Module NameNormalizer.
Open Scope nat_scope.

Definition underscore : ascii := ascii_of_nat 95.

Definition code (c : ascii) : nat := nat_of_ascii c.
Definition in_range (lo hi : nat) (c : ascii) : bool := (lo <=? code c) && (code c <=? hi).

Definition is_digit : ascii -> bool := in_range 48 57.
Definition is_lower : ascii -> bool := in_range 97 122.
Definition is_upper : ascii -> bool := in_range 65 90.

Definition tolower (c : ascii) : ascii := ascii_of_nat (code c + 32).

(** The lambda [strip_chars]. *)
Definition strip_chars (ch : ascii) : ascii :=
  if is_digit ch then ch
  else if is_lower ch then ch
  else if is_upper ch then tolower ch
  else underscore.

Definition both_underscores (a b : ascii) : bool :=
  bool_decide (a = underscore) && bool_decide (b = underscore).

(** [find_first_not_of] and [find_last_not_of] of an underscore; [None] is [npos]. *)
Fixpoint find_first_not_of (s : list ascii) : option nat :=
  match s with
  | [] => None
  | c :: s => if bool_decide (c = underscore) then S <$> find_first_not_of s else Some 0
  end.

Fixpoint find_last_not_of (s : list ascii) : option nat :=
  match s with
  | [] => None
  | c :: s =>
      match find_last_not_of s with
      | Some i => Some (S i)
      | None => if bool_decide (c = underscore) then None else Some 0
      end
  end.

(** [std::unique]: an element is dropped when it matches the last one kept. *)
Fixpoint unique_after (prev : ascii) (s : list ascii) : list ascii :=
  match s with
  | [] => []
  | c :: s =>
      if both_underscores prev c then unique_after prev s else c :: unique_after c s
  end.

Definition unique (s : list ascii) : list ascii :=
  match s with [] => [] | c :: s => c :: unique_after c s end.

Definition trim_trailing (s : list ascii) : list ascii :=
  match find_last_not_of s with Some endpos => take (endpos + 1) s | None => s end.

Definition trim_leading (s : list ascii) : list ascii :=
  match find_first_not_of s with Some startpos => drop startpos s | None => s end.

Definition normalize (name : list ascii) : list ascii :=
  unique (trim_leading (trim_trailing (strip_chars <$> name))).

(** [normalize] on the model's strings. *)
Definition normalize_string (name : string) : string :=
  String.string_of_list_ascii (normalize (String.list_ascii_of_string name)).

(** ** Canonical names *)

Definition name_char (c : ascii) : bool :=
  is_digit c || is_lower c || bool_decide (c = underscore).

(** No two underscores in a row. *)
Fixpoint no_runs_after (prev : ascii) (s : list ascii) : Prop :=
  match s with
  | [] => True
  | c :: s => both_underscores prev c = false /\ no_runs_after c s
  end.

Definition no_runs (s : list ascii) : Prop :=
  match s with [] => True | c :: s => no_runs_after c s end.

Definition trimmed (s : list ascii) : Prop :=
  head s <> Some underscore /\ last s <> Some underscore.

Definition canonical (s : list ascii) : Prop :=
  Forall (fun c => name_char c = true) s /\ no_runs s /\ (s = [underscore] \/ trimmed s).

Lemma strip_name_char c : name_char (strip_chars c) = true.
Proof. by destruct c as [[] [] [] [] [] [] [] []]. Qed.

Lemma strip_id c : name_char c = true -> strip_chars c = c.
Proof. by destruct c as [[] [] [] [] [] [] [] []]. Qed.

(** ** Trimming *)

Lemma find_last_Some s i :
  find_last_not_of s = Some i -> exists c, s !! i = Some c /\ c <> underscore.
Proof.
  revert i. induction s as [|c s IH]; simpl; [done|]. intros i.
  destruct (find_last_not_of s) as [j|]; [intros [= <-]; by apply IH|].
  case_bool_decide; [done|]. intros [= <-]. by exists c.
Qed.

Lemma find_last_None s : find_last_not_of s = None -> Forall (fun c => c = underscore) s.
Proof.
  induction s as [|c s IH]; simpl; [constructor|].
  destruct (find_last_not_of s); [done|]. case_bool_decide; [|done]. auto.
Qed.

Lemma find_last_last s c :
  last s = Some c -> c <> underscore -> find_last_not_of s = Some (length s - 1).
Proof.
  intros Hl Hc. induction s as [|d s IH]; [done|]. destruct s as [|e s].
  - simpl in *. injection Hl as ->. by rewrite bool_decide_eq_false_2.
  - cbn [find_last_not_of] in *. rewrite IH by done. simpl. f_equal. lia.
Qed.

Lemma find_first_Some s i :
  find_first_not_of s = Some i -> exists c, s !! i = Some c /\ c <> underscore.
Proof.
  revert i. induction s as [|c s IH]; simpl; [done|]. intros i. case_bool_decide.
  - intros (j & Hj & ->)%fmap_Some. by apply IH.
  - intros [= <-]. by exists c.
Qed.

Lemma find_first_None s : find_first_not_of s = None -> Forall (fun c => c = underscore) s.
Proof.
  induction s as [|c s IH]; simpl; [constructor|]. case_bool_decide; [|done].
  destruct (find_first_not_of s); [done|]. auto.
Qed.

Lemma last_take i (s : list ascii) c : s !! i = Some c -> last (take (i + 1) s) = Some c.
Proof.
  intros H. rewrite Nat.add_1_r, (take_S_r _ _ c) by done. by rewrite last_snoc.
Qed.

Lemma last_drop i (s : list ascii) : i < length s -> last (drop i s) = last s.
Proof.
  intros H. rewrite !last_lookup, lookup_drop, length_drop. f_equal. lia.
Qed.

Lemma head_drop i (s : list ascii) : head (drop i s) = s !! i.
Proof. by rewrite head_lookup, lookup_drop, Nat.add_0_r. Qed.

Lemma trim_shape s :
  Forall (fun c => c = underscore) (trim_leading (trim_trailing s)) \/
  trimmed (trim_leading (trim_trailing s)).
Proof.
  unfold trim_trailing. destruct (find_last_not_of s) as [i|] eqn:El.
  - right. apply find_last_Some in El as (c & Hi & Hc). pose proof (last_take _ _ _ Hi) as Hl.
    revert Hl. generalize (take (i + 1) s) as t. intros t Hl. unfold trim_leading.
    destruct (find_first_not_of t) as [j|] eqn:Ef.
    + apply find_first_Some in Ef as (d & Hj & Hd). split.
      * rewrite head_drop, Hj. congruence.
      * rewrite last_drop by (by eapply lookup_lt_Some). congruence.
    + apply find_first_None in Ef. exfalso. apply last_Some_elem_of in Hl.
      rewrite Forall_forall in Ef. by apply Hc, Ef.
  - left. apply find_last_None in El. unfold trim_leading.
    destruct (find_first_not_of s); [by apply Forall_drop|done].
Qed.

Lemma trim_Forall (P : ascii -> Prop) s :
  Forall P s -> Forall P (trim_leading (trim_trailing s)).
Proof.
  intros H. unfold trim_leading, trim_trailing.
  destruct (find_last_not_of s); [|destruct (find_first_not_of s); auto using Forall_drop].
  destruct (find_first_not_of _); auto using Forall_drop, Forall_take.
Qed.

Lemma trim_id s : trimmed s -> trim_leading (trim_trailing s) = s.
Proof.
  intros [Hh Hl]. destruct s as [|c s]; [done|]. simpl in Hh.
  assert (trim_trailing (c :: s) = c :: s) as ->.
  { unfold trim_trailing. destruct (last (c :: s)) as [d|] eqn:E; [|by apply last_None in E].
    rewrite (find_last_last _ d) by (done || congruence). apply take_ge. simpl. lia. }
  unfold trim_leading. simpl. by rewrite bool_decide_eq_false_2 by congruence.
Qed.

(** ** Removing runs *)

Lemma unique_after_no_runs prev s : no_runs_after prev (unique_after prev s).
Proof.
  revert prev. induction s as [|c s IH]; intros prev; simpl; [done|].
  destruct (both_underscores prev c) eqn:E; [apply IH|]. by split.
Qed.

Lemma unique_after_Forall (P : ascii -> Prop) prev s : Forall P s -> Forall P (unique_after prev s).
Proof.
  intros H. revert prev. induction H as [|c s Hc Hs IH]; intros prev; simpl; [constructor|].
  destruct (both_underscores prev c); auto.
Qed.

Lemma unique_after_underscores s :
  Forall (fun c => c = underscore) s -> unique_after underscore s = [].
Proof. induction 1 as [|c s -> Hs IH]; [done|]. exact IH. Qed.

Lemma unique_after_last prev s c :
  last (prev :: s) = Some c -> c <> underscore -> last (prev :: unique_after prev s) = Some c.
Proof.
  revert prev. induction s as [|d s IH]; intros prev Hl Hc; [done|].
  rewrite last_cons_cons in Hl. cbn [unique_after].
  destruct (both_underscores prev d) eqn:E; [|rewrite last_cons_cons; by apply IH].
  unfold both_underscores in E. apply andb_true_iff in E as [->%bool_decide_eq_true E].
  apply bool_decide_eq_true in E. subst d. by apply IH.
Qed.

Lemma unique_id s : no_runs s -> unique s = s.
Proof.
  destruct s as [|c s]; [done|]. simpl. intros H. f_equal. revert c H.
  induction s as [|d s IH]; intros c; simpl; [done|]. intros [-> H]. f_equal. by apply IH.
Qed.

Lemma unique_trimmed s : trimmed s -> trimmed (unique s).
Proof.
  intros [Hh Hl]. destruct s as [|c s]; [done|]. split; [done|]. cbn [unique].
  destruct (last (c :: s)) as [d|] eqn:E; [|by apply last_None in E].
  rewrite (unique_after_last _ _ d); congruence.
Qed.

Lemma normalize_canonical s : canonical (normalize s).
Proof.
  unfold normalize. set (t := trim_leading _).
  assert (Hc : Forall (fun c => name_char c = true) t).
  { apply trim_Forall, Forall_fmap, Forall_true. apply strip_name_char. }
  assert (Hs : Forall (fun c => c = underscore) t \/ trimmed t) by apply trim_shape.
  clearbody t. split_and!.
  - destruct Hc; simpl; [constructor|]. constructor; [done|]. by apply unique_after_Forall.
  - destruct t; simpl; [done|]. apply unique_after_no_runs.
  - destruct Hs as [Hs|Hs]; [|right; by apply unique_trimmed].
    destruct Hs as [|c t -> Hs]; [by right|]. left. simpl. by rewrite unique_after_underscores.
Qed.

Lemma normalize_id s : canonical s -> normalize s = s.
Proof.
  intros (Hc & Hr & Hs). unfold normalize.
  assert (strip_chars <$> s = s) as ->.
  { clear Hr Hs. induction Hc as [|c s H Hc IH]; [done|]. rewrite fmap_cons, IH.
    f_equal. by apply strip_id. }
  destruct Hs as [->|Hs]; [done|]. rewrite trim_id by done. by apply unique_id.
Qed.

(** A normalised name has only digits, lower-case letters and single
    underscores, none of them at an end unless the name is one underscore, and
    the names of that form are exactly those normalisation leaves alone; so
    normalising twice is normalising once. *)
Theorem normalize_canonical_forms (s : list ascii) :
  canonical (normalize s) /\ (normalize s = s <-> canonical s) /\
  normalize (normalize s) = normalize s.
Proof.
  split_and!.
  - apply normalize_canonical.
  - split; [|apply normalize_id]. intros <-. apply normalize_canonical.
  - apply normalize_id, normalize_canonical.
Qed.
End NameNormalizer.
