(* ===== verification/AdminTableData.v ===== *)
(** * Tables of admin commands: data (src/common/hstream/cbits/query/tables/
    AdminCommandTable.cpp)

    Columns and rows, the choice of the nodes to ask, the parsing of the nodes'
    replies, their aggregation to one table and the index on a column. The
    ldquery types come from LogDevice, the JSON reader is gason and numbers are
    read by folly: they are the interfaces below. *)

From stdpp Require Import base gmap strings list.
From Stdlib Require Import ZArith Lia.
From S2P Require Import Prelude NameNormalizer.

(** [ldquery::ColumnValue], [Column] and [TableData]. *)
Notation ColumnValue := (option string).
Notation Column := (list (option string)).
Notation TableData := (gmap string (list (option string))).

(** Every column has [n] rows. *)
Definition rectangular (n : nat) (t : TableData) : Prop :=
  map_Forall (fun _ (c : Column) => length c = n) t.

(** What the tables use of ldquery: column types, the clean-up of a value of a
    type, and the number of rows of a table. *)
Class Ldquery := {
  DataType : Type;
  INTEGER : DataType;
  preprocessColumn : DataType -> ColumnValue -> ColumnValue;
  numRows : TableData -> nat;
  numRows_empty : numRows ∅ = 0%nat;
  numRows_rectangular : forall t n, t <> ∅ -> rectangular n t -> numRows t = n;
}.

(** [folly::to<int>]: the exception it throws, or an [int]. *)
Class FollyTo := {
  to_int : string -> res Z;
  to_int_range : forall s z, to_int s = Ok z -> is_i32 z;
}.

(** gason's [JsonValue]; an object's node has a key. *)
Inductive JsonValue :=
| JSON_NUMBER (z : Z)
| JSON_STRING (s : string)
| JSON_ARRAY (l : list JsonValue)
| JSON_OBJECT (l : list (string * JsonValue))
| JSON_TRUE
| JSON_FALSE
| JSON_NULL.

Class Gason := { jsonParse : string -> option JsonValue }.

Module AdminTableData.
Section data.
Context {LQ : Ldquery} {FT : FollyTo} {GS : Gason}.
Context {OS : IterOrder string} {OZ : IterOrder Z}.

(** ** Constraints and nodes *)

(** sqlite3.h's operator codes. *)
Definition SQLITE_INDEX_CONSTRAINT_EQ : Z := 2.
Definition SQLITE_INDEX_CONSTRAINT_GT : Z := 4.
Definition SQLITE_INDEX_CONSTRAINT_LE : Z := 8.
Definition SQLITE_INDEX_CONSTRAINT_LT : Z := 16.
Definition SQLITE_INDEX_CONSTRAINT_GE : Z := 32.

(** [ldquery::Constraint]: the operator and the optional expression. *)
#[local] Notation Constraint := (Z * option string)%type.
#[local] Notation ConstraintMap := (gmap Z (list (Z * option string))).

Record QueryContext := { constraints : ConstraintMap; used_constraints : ConstraintMap }.

Definition set_used (u : ConstraintMap) (ctx : QueryContext) : QueryContext :=
  {| constraints := constraints ctx; used_constraints := u |}.

Inductive MatchResult := MATCH | NO_MATCH | UNUSED.

Definition nodeMatchesConstraint (nid : Z) (c : Constraint) : res MatchResult :=
  match c.2 with
  | None => Ok UNUSED
  | Some expr =>
      node_id ← to_int expr;
      Ok (if c.1 =? SQLITE_INDEX_CONSTRAINT_EQ then
            if negb (nid =? node_id) then NO_MATCH else MATCH
          else if c.1 =? SQLITE_INDEX_CONSTRAINT_LT then
            if node_id <=? nid then NO_MATCH else MATCH
          else if c.1 =? SQLITE_INDEX_CONSTRAINT_GT then
            if nid <=? node_id then NO_MATCH else MATCH
          else if c.1 =? SQLITE_INDEX_CONSTRAINT_LE then
            if node_id <? nid then NO_MATCH else MATCH
          else if c.1 =? SQLITE_INDEX_CONSTRAINT_GE then
            if nid <? node_id then NO_MATCH else MATCH
          else UNUSED)
  end.

(** [ServerNode]: the id is an [uint32]. *)
Record ServerNode := { id : Z; host : string; port : Z }.

(** The inner loop of [selectNodes]: position [i], whether the node is skipped
    and which positions were used. *)
Fixpoint match_loop (nid : Z) (cs : list Constraint) (i : nat) (skip : bool) (used : gset nat)
    : res (bool * gset nat) :=
  match cs with
  | [] => Ok (skip, used)
  | c :: cs =>
      r ← nodeMatchesConstraint nid c;
      match_loop nid cs (S i) (skip || match r with NO_MATCH => true | _ => false end)
        (match r with UNUSED => used | _ => {[i]} ∪ used end)
  end.

(** The loop over the nodes; [cs] is [None] when there is no constraint on
    column 0 or server-side filtering is not allowed. *)
Fixpoint select_loop (cs : option (list Constraint)) (nodes : list ServerNode) (used : gset nat)
    : res (list ServerNode * gset nat) :=
  match nodes with
  | [] => Ok ([], used)
  | node :: nodes =>
      '(skip, used) ← match cs with
        | None => Ok (false, used)
        | Some cs => match_loop (i32 (id node)) cs 0 false used
        end;
      '(rest, used) ← select_loop cs nodes used;
      Ok (if skip : bool then (rest, used) else (node :: rest, used))
  end.

(** The order of [std::unordered_set<int>]: [used_order] lists a set. *)
Definition selectNodes (used_order : gset nat -> list nat) (allow : bool)
    (nodes : list ServerNode) (ctx : QueryContext) : res (list ServerNode * QueryContext) :=
  let cs := if allow then constraints ctx !! 0 else None in
  '(nodes, used) ← select_loop cs nodes ∅;
  let add u i :=
    match default [] (constraints ctx !! 0) !! i with
    | Some c => <[0 := default [] (u !! 0) ++ [c]]> u
    | None => u
    end in
  Ok (nodes, set_used (foldl add (used_constraints ctx) (used_order used)) ctx).

(** ** Aggregation *)

(** [std::vector::resize] of a column: truncates, or appends nulls. *)
Definition resize_column (n : nat) (c : Column) : Column := resize n None c.

(** The columns of one source. *)
Fixpoint aggregate_cols (rows_so_far : nat) (cols : list (string * Column))
    (result : TableData) (rows_in_current : nat) : res (TableData * nat) :=
  match cols with
  | [] => Ok (result, rows_in_current)
  | (name, c) :: cols =>
      hs_check (bool_decide (rows_in_current = 0 \/ rows_in_current = length c)%nat) None;;
      let col := resize_column rows_so_far (default [] (result !! name)) ++ c in
      aggregate_cols rows_so_far cols (<[name := col]> result) (length c)
  end.

Fixpoint aggregate_loop (results : list TableData) (result : TableData) (rows_so_far : nat)
    : res (TableData * nat) :=
  match results with
  | [] => Ok (result, rows_so_far)
  | src :: results =>
      '(result, rows_in_current) ← aggregate_cols rows_so_far (iter_list src) result 0;
      aggregate_loop results result (rows_so_far + rows_in_current)
  end.

Definition aggregate (results : list TableData) : res TableData :=
  let total_rows := foldl (fun n src => n + numRows src)%nat 0%nat results in
  '(result, rows_so_far) ← aggregate_loop results ∅ 0;
  hs_check (bool_decide (rows_so_far = total_rows)) None;;
  Ok (fmap (M := gmap string) (resize_column total_rows) result).

(** ** The index on a column *)

#[local] Notation Index := (gmap string (list nat)).

(** The loop of [buildIndexForConstraint] over a column. *)
Fixpoint index_loop (col_vec : Column) (i : nat) (idx : Index) : Index :=
  match col_vec with
  | [] => idx
  | v :: col_vec =>
      index_loop col_vec (S i)
        (match v with
         | Some s => <[s := default [] (idx !! s) ++ [i]]> idx
         | None => idx
         end)
  end.

(** The rows at the given positions, of every column; [None] is an access out
    of range. *)
Definition select_rows (data : TableData) (idxs : list nat) : option TableData :=
  foldl (fun r kv => t ← r; c ← mapM (fun i => kv.2 !! i) idxs; Some (<[kv.1 := c]> t))
    (Some ∅) (iter_list data).

(** ** Parsing a node's reply *)

(** [TableColumn]: a name and a type (and a description, which is not used). *)
#[local] Notation TableColumns := (list (string * DataType)).

(** [AdminCommandTable::init]: a later column of the same name wins. *)
Fixpoint init_loop (cols : TableColumns) (i : nat) (m : gmap string nat) : gmap string nat :=
  match cols with
  | [] => m
  | (name, _) :: cols => init_loop cols (S i) (<[name := i]> m)
  end.

Definition init (cols : TableColumns) : gmap string nat := init_loop cols 0 ∅.

(** [PartialTableData]. *)
Inductive PartialTableData :=
| Success (data : TableData)
| Failure (failure_reason : string).

(** An access the language leaves undefined. *)
Definition undefined {A} : res A := Err (StdExn "undefined behaviour").

(** [ColumnAndDataType]: the column of [results] a value goes to, by its name;
    [None] is the null pointer of an ignored column. *)
#[local] Notation ColumnAndDataType := (option (string * DataType)).

Section json.
Context (fetchable : TableColumns) (nameToPosMap : gmap string nat).

(** A lambda that returns [bool] and updates captured state: [Ok None] is [false]. *)
Fixpoint parse_headers (l : list JsonValue) (columns_present : list ColumnAndDataType)
    (results : TableData) : res (option (list ColumnAndDataType * TableData)) :=
  match l with
  | [] => Ok (Some (columns_present, results))
  | JSON_STRING s :: l =>
      let name := NameNormalizer.normalize_string s in
      match nameToPosMap !! name with
      | None => parse_headers l (columns_present ++ [None]) results
      | Some col_pos =>
          match fetchable !! col_pos with
          | None => undefined
          | Some (n, type) =>
              hs_check (bool_decide (n = name)) None;;
              parse_headers l (columns_present ++ [Some (name, type)])
                (<[name := default [] (results !! name)]> results)
          end
      end
  | _ => Ok None
  end.

(** Values of a row; [col] counts them. *)
Fixpoint parse_row_loop (columns_present : list ColumnAndDataType) (l : list JsonValue)
    (col : nat) (results : TableData) : option (nat * TableData) :=
  match l with
  | [] => Some (col, results)
  | v :: l =>
      match columns_present !! col with
      | None => parse_row_loop columns_present l (S col) results
      | Some None => parse_row_loop columns_present l (S col) results
      | Some (Some (name, type)) =>
          match v with
          | JSON_STRING s =>
              parse_row_loop columns_present l (S col)
                (alter (fun c => c ++ [preprocessColumn type (Some s)]) name results)
          | JSON_NULL =>
              parse_row_loop columns_present l (S col)
                (alter (fun c => c ++ [None]) name results)
          | _ => None
          end
      end
  end.

Definition parse_row (columns_present : list ColumnAndDataType) (o : JsonValue)
    (results : TableData) : option TableData :=
  match o with
  | JSON_ARRAY l =>
      '(col, results) ← parse_row_loop columns_present l 0 results;
      if bool_decide (col = length columns_present) then Some results else None
  | _ => None
  end.

Fixpoint parse_rows (columns_present : list ColumnAndDataType) (l : list JsonValue)
    (results : TableData) : option TableData :=
  match l with
  | [] => Some results
  | o :: l => results ← parse_row columns_present o results; parse_rows columns_present l results
  end.

(** The loop that checks "type" and follows "content". *)
Fixpoint content_loop (l : list (string * JsonValue)) (value : JsonValue) : res JsonValue :=
  match l with
  | [] => Ok value
  | (key, v) :: l =>
      if bool_decide (key = "type") then
        hs_check (match v with JSON_STRING _ => true | _ => false end) None;;
        hs_check (match v with JSON_STRING s => bool_decide (s = "table") | _ => false end) None;;
        content_loop l value
      else if bool_decide (key = "content") then content_loop l v
      else content_loop l value
  end.

(** The last node with the key. *)
Fixpoint find_key (key : string) (l : list (string * JsonValue)) (r : option JsonValue)
    : option JsonValue :=
  match l with
  | [] => r
  | (k, v) :: l => find_key key l (if bool_decide (k = key) then Some v else r)
  end.

Definition jsonToTableData (json : string) : res PartialTableData :=
  match jsonParse json with
  | None => Ok (Failure "JSON_PARSE_ERROR")
  | Some (JSON_OBJECT root) =>
      value ← content_loop root (JSON_OBJECT root);
      match value with
      | JSON_OBJECT l =>
          match find_key "headers" l None, find_key "rows" l None with
          | Some (JSON_ARRAY headers), Some rows =>
              r ← parse_headers headers [] ∅;
              match r with
              | Some (columns_present, results) =>
                  match rows with
                  | JSON_ARRAY rows =>
                      match parse_rows columns_present rows results with
                      | Some results => Ok (Success results)
                      | None => Ok (Failure "MALFORMED_RESPONSE")
                      end
                  | _ => Ok (Failure "MALFORMED_RESPONSE")
                  end
              | None => Ok (Failure "MALFORMED_RESPONSE")
              end
          | _, _ => Ok (Failure "MALFORMED_RESPONSE")
          end
      | JSON_ARRAY [] => Ok (Failure "MALFORMED_RESPONSE")
      | _ => undefined (* the nodes of anything but an object have no key *)
      end
  | Some _ => Ok (Failure "MALFORMED_RESPONSE")
  end.
End json.

(** ** Parsing the replies on 32 threads *)

(** [AdminCommandClient::Response]. *)
Record Response := { response : string; success : bool; failure_reason : string }.

Section parallel.
(** [transformData], the parser above for a table's columns. *)
Context (transformData : string -> res PartialTableData).

(** One round of [thread_func]'s loop, on the output and the response of one
    node. An exception that leaves a thread ends the program: [None]. *)
Definition transform_one (out : TableData) (r : Response) : option (TableData * Response) :=
  if success r then
    match transformData (response r) with
    | Ok (Success data) => Some (data, r)
    | Ok (Failure reason) =>
        Some (out, {| response := response r; success := false; failure_reason := reason |})
    | Err _ => None
    end
  else Some (out, r).

Definition transform_step (st : option (list TableData * list Response)) (i : nat)
    : option (list TableData * list Response) :=
  '(outputs, responses) ← st;
  out ← outputs !! i;
  r ← responses !! i;
  '(out, r) ← transform_one out r;
  Some (<[i := out]> outputs, <[i := r]> responses).

Definition num_threads : nat := 32.

(** The ranges [from, to) of the threads. *)
Fixpoint spawn_loop (num_per_thread n : nat) (k i : nat) : list (nat * nat) :=
  match k with
  | O => []
  | S k =>
      if bool_decide (i * num_per_thread < n)%nat then
        (i * num_per_thread, i * num_per_thread + num_per_thread)%nat
        :: spawn_loop num_per_thread n k (S i)
      else []
  end.

Definition thread_ranges (n : nat) : list (nat * nat) :=
  spawn_loop (n / num_threads + 1) n num_threads 0.

(** The positions one thread treats, in its order. *)
Definition thread_positions (n : nat) (range : nat * nat) : list nat :=
  seq range.1 (Nat.min range.2 n - range.1).

(** [transformDataParallel] when the threads' rounds happen in [order]. *)
Definition transformDataParallel (order : list nat) (responses : list Response)
    : option (list TableData * list Response) :=
  foldl transform_step (Some (replicate (length responses) ∅, responses)) order.

(** The rounds of all threads, one thread after the other. *)
Definition all_rounds (n : nat) : list nat := thread_ranges n ≫= thread_positions n.

(** The same work without threads. *)
Definition transformDataSequential (responses : list Response)
    : option (list TableData * list Response) :=
  l ← mapM (transform_one ∅) responses; Some (l.*1, l.*2).

Lemma spawn_loop_covers per n k i :
  (n <= (i + k) * per)%nat -> (0 < per)%nat ->
  spawn_loop per n k i ≫= thread_positions n = seq (i * per) (n - i * per).
Proof.
  intros Hk Hper. revert i Hk. induction k as [|k IH]; intros i Hk; simpl.
  { rewrite Nat.add_0_r in Hk. by replace (n - i * per)%nat with 0%nat by lia. }
  case_bool_decide as Hlt.
  - simpl. rewrite IH by lia. unfold thread_positions. simpl.
    replace (n - i * per)%nat
      with ((Nat.min (i * per + per) n - i * per) + (n - S i * per))%nat by (simpl; lia).
    rewrite seq_app. f_equal.
    destruct (decide (i * per + per <= n)%nat) as [Hle|Hgt].
    + f_equal; simpl; lia.
    + by rewrite !(proj2 (Nat.sub_0_le n _)) by (simpl; lia).
  - simpl. by replace (n - i * per)%nat with 0%nat by lia.
Qed.

Lemma all_rounds_seq n : all_rounds n = seq 0 n.
Proof.
  unfold all_rounds, thread_ranges. rewrite spawn_loop_covers.
  - by rewrite Nat.mul_0_l, Nat.sub_0_r.
  - unfold num_threads. pose proof (Nat.div_mod_eq n 32).
    pose proof (Nat.mod_upper_bound n 32 ltac:(lia)). lia.
  - lia.
Qed.

(** What every interleaving keeps: positions still to do are untouched, the
    others hold the result of their own response. *)
Definition partial (rs : list Response) (l : list (TableData * Response)) (todo : list nat)
    (st : list TableData * list Response) : Prop :=
  length st.1 = length rs /\ length st.2 = length rs /\
  forall i, (i < length rs)%nat ->
    if decide (i ∈ todo) then st.1 !! i = Some ∅ /\ st.2 !! i = rs !! i
    else st.1 !! i = l.*1 !! i /\ st.2 !! i = l.*2 !! i.

Lemma partial_step rs l i todo st :
  mapM (transform_one ∅) rs = Some l -> NoDup (i :: todo) -> (i < length rs)%nat ->
  partial rs l (i :: todo) st ->
  exists st', transform_step (Some st) i = Some st' /\ partial rs l todo st'.
Proof.
  intros Hl [Hi Hnd]%NoDup_cons Hlt (L1 & L2 & H). destruct st as [outs resps]. simpl in *.
  destruct (lookup_lt_is_Some_2 rs i Hlt) as [r Hr].
  apply mapM_Some in Hl as HF. destruct (Forall2_lookup_l _ _ _ _ _ HF Hr) as ([o r'] & El & Eo).
  pose proof (H i Hlt) as Hc. rewrite decide_True in Hc by (left; done). destruct Hc as [H1 H2].
  rewrite H1, H2, Hr. simpl. rewrite Eo. simpl. eexists. split; [done|].
  split_and!; simpl; [by rewrite length_insert..|]. intros j Hj.
  destruct (decide (i = j)) as [<-|Hne].
  - rewrite decide_False by done. rewrite !list_lookup_fmap, El. simpl.
    by rewrite !list_lookup_insert_eq by lia.
  - rewrite !list_lookup_insert_ne by done. specialize (H j Hj).
    destruct (decide (j ∈ todo)) as [Hin|Hin].
    + rewrite decide_True in H by (right; done). exact H.
    + rewrite decide_False in H by set_solver. exact H.
Qed.

Lemma partial_run rs l todo st :
  mapM (transform_one ∅) rs = Some l -> NoDup todo -> Forall (fun i => i < length rs)%nat todo ->
  partial rs l todo st -> foldl transform_step (Some st) todo = Some (l.*1, l.*2).
Proof.
  intros Hl. revert st. induction todo as [|i todo IH]; intros st Hnd Hlt Hp; cbn [foldl].
  - destruct st as [outs resps], Hp as (L1 & L2 & H). simpl in *.
    pose proof (length_mapM _ _ _ Hl) as Ll. f_equal.
    assert (outs = l.*1 /\ resps = l.*2) as [-> ->]; [|done].
    split; apply list_eq; intros i; (destruct (decide (i < length rs)%nat) as [Hi|Hi];
      [by apply H|rewrite !lookup_ge_None_2 by (rewrite ?length_fmap; lia); done]).
  - apply Forall_cons in Hlt as [Hi Hlt].
    destruct (partial_step rs l i todo st Hl Hnd Hi Hp) as (st' & -> & Hp').
    apply NoDup_cons in Hnd as [_ Hnd]. by apply IH.
Qed.

Lemma foldl_step_None todo : foldl transform_step None todo = None.
Proof. by induction todo. Qed.

(** A reply whose parsing throws is still there when its round comes. *)
Lemma throwing_run (rs : list Response) i r todo st :
  rs !! i = Some r -> transform_one ∅ r = None -> i ∈ todo -> NoDup todo ->
  st.2 !! i = Some r -> st.1 !! i = Some ∅ ->
  foldl transform_step (Some st) todo = None.
Proof.
  intros Hr Hn. revert st. induction todo as [|j todo IH]; intros st Hi Hnd H2 H1; [set_solver|].
  cbn [foldl]. apply NoDup_cons in Hnd as [Hj Hnd]. destruct (decide (i = j)) as [<-|Hne].
  { unfold transform_step at 2. destruct st as [outs resps]. simpl in *. rewrite H1, H2. simpl.
    rewrite Hn. apply foldl_step_None. }
  destruct (transform_step (Some st) j) as [st'|] eqn:E; [|apply foldl_step_None].
  destruct st as [outs resps]. unfold transform_step in E. simpl in *.
  destruct (outs !! j) as [oj|]; simpl in E; [|done].
  destruct (resps !! j) as [rj|]; simpl in E; [|done].
  destruct (transform_one oj rj) as [[o' r']|]; simpl in E; [|done]. injection E as <-.
  apply IH; simpl; [set_solver|done|by rewrite list_lookup_insert_ne..].
Qed.

Lemma transform_any_order order rs :
  order ≡ₚ all_rounds (length rs) ->
  transformDataParallel order rs = transformDataSequential rs.
Proof.
  intros Ho. rewrite all_rounds_seq in Ho. unfold transformDataParallel, transformDataSequential.
  assert (Hnd : NoDup order) by (rewrite Ho; apply NoDup_seq).
  assert (Hin : forall i, i ∈ order <-> (i < length rs)%nat).
  { intros i. rewrite Ho, elem_of_seq. lia. }
  destruct (mapM (transform_one ∅) rs) as [l|] eqn:El; simpl.
  - apply (partial_run rs l); [done|done| |].
    + apply Forall_forall. intros i. by apply Hin.
    + split_and!; simpl; [by rewrite length_replicate|done|]. intros i Hi.
      rewrite decide_True by (by apply Hin). split; [by apply lookup_replicate_2|done].
  - apply mapM_None in El. apply Exists_exists in El as (r & Hr & Hn).
    apply list_elem_of_lookup in Hr as [i Hr]. pose proof (lookup_lt_Some _ _ _ Hr) as Hlt.
    eapply (throwing_run rs i r); simpl; eauto; [by apply Hin|by apply lookup_replicate_2].
Qed.

(** C28: however the rounds of the 32 threads interleave, the tables and the
    updated responses are those of parsing the replies one after the other;
    every reply is parsed exactly once, for any number of replies. *)
Theorem transformDataParallel_sequential order rs :
  order ≡ₚ all_rounds (length rs) ->
  transformDataParallel order rs = transformDataSequential rs.
Proof. apply transform_any_order. Qed.
End parallel.

(** ** Aggregation: rows of all sources, nulls for missing columns *)

(** What source [src] contributes to column [name]. *)
Definition pad (name : string) (src : TableData) : Column :=
  default (replicate (numRows src) None) (src !! name).

Definition has_column (name : string) (src : TableData) : Prop := is_Some (src !! name).

Lemma aggregate_cols_spec rows cols result ric n :
  NoDup cols.*1 -> Forall (fun kv => length kv.2 = n) cols -> (ric = 0 \/ ric = n)%nat ->
  exists result', aggregate_cols rows cols result ric =
      Ok (result', if decide (cols = []) then ric else n) /\
    forall name, result' !! name =
      match (list_to_map cols : gmap string Column) !! name with
      | Some c => Some (resize_column rows (default [] (result !! name)) ++ c)
      | None => result !! name
      end.
Proof.
  revert result ric. induction cols as [|[k c] cols IH]; intros result ric Hnd Hl Hric.
  { by exists result. }
  apply NoDup_cons in Hnd as [Hk Hnd]. apply Forall_cons in Hl as [Hc Hl]. simpl in Hc, Hk.
  cbn [aggregate_cols]. rewrite Hc, bool_decide_eq_true_2 by done. simpl.
  destruct (IH (<[k := resize_column rows (default [] (result !! k)) ++ c]> result) n)
    as (r & E & Hr); [done|done|by right|].
  exists r. split.
  { rewrite E. do 2 f_equal. by case_decide. }
  intros name. rewrite Hr. destruct (decide (k = name)) as [<-|Hne].
  - rewrite (not_elem_of_list_to_map_1 cols k) by done. by rewrite !lookup_insert_eq.
  - by rewrite !lookup_insert_ne by done.
Qed.

Lemma aggregate_src_spec rows src result :
  rectangular (numRows src) src ->
  exists result', aggregate_cols rows (iter_list src) result 0 = Ok (result', numRows src) /\
    forall name, result' !! name =
      match src !! name with
      | Some c => Some (resize_column rows (default [] (result !! name)) ++ c)
      | None => result !! name
      end.
Proof.
  intros Hr. destruct (aggregate_cols_spec rows (iter_list src) result 0 (numRows src))
    as (r & E & H); [apply NoDup_iter_list_fst| |by left|].
  - apply Forall_forall. intros [k c] Hin. apply elem_of_iter_list in Hin. by apply (Hr k).
  - exists r. rewrite iter_list_to_map in H. split; [|done]. rewrite E. do 2 f_equal.
    case_decide as Hnil; [|done]. apply (f_equal length) in Hnil.
    rewrite length_iter_list in Hnil. apply map_size_empty_inv in Hnil. by rewrite Hnil, numRows_empty.
Qed.

(** Rows of the sources treated so far. *)
Definition rows_of (srcs : list TableData) : nat := sum_list_with numRows srcs.

(** The result after the sources [srcs]: trailing nulls may be missing. *)
Definition aggregated (srcs : list TableData) (result : TableData) : Prop :=
  forall name, match result !! name with
  | Some l => (length l <= rows_of srcs)%nat /\ Exists (has_column name) srcs /\
      resize_column (rows_of srcs) l = concat (pad name <$> srcs)
  | None => ~ Exists (has_column name) srcs
  end.

Lemma pads_missing name srcs :
  ~ Exists (has_column name) srcs -> concat (pad name <$> srcs) = replicate (rows_of srcs) None.
Proof.
  unfold rows_of. induction srcs as [|src srcs IH]; intros H; [done|].
  rewrite Exists_cons in H. apply Decidable.not_or in H as [H1 H2].
  rewrite fmap_cons. cbn [concat sum_list_with].
  rewrite IH, replicate_add by done. f_equal. unfold pad, has_column in *.
  by destruct (src !! name); [destruct H1; eauto|].
Qed.

Lemma rows_of_snoc srcs src : rows_of (srcs ++ [src]) = (rows_of srcs + numRows src)%nat.
Proof. unfold rows_of. rewrite sum_list_with_app. simpl. lia. Qed.

Lemma resize_column_grow n k (l : Column) :
  (length l <= n)%nat -> resize_column (n + k) l = resize_column n l ++ replicate k None.
Proof.
  intros H. unfold resize_column. rewrite !resize_ge by lia.
  rewrite <- app_assoc, <- replicate_add. do 2 f_equal. lia.
Qed.

Lemma length_resize_column n l : length (resize_column n l) = n.
Proof. apply length_resize. Qed.

Lemma aggregated_step srcs src result result' :
  rectangular (numRows src) src -> aggregated srcs result ->
  (forall name, result' !! name =
     match src !! name with
     | Some c => Some (resize_column (rows_of srcs) (default [] (result !! name)) ++ c)
     | None => result !! name
     end) ->
  aggregated (srcs ++ [src]) result'.
Proof.
  intros Hrect Ha H name. rewrite H, rows_of_snoc, fmap_app, concat_app. simpl.
  rewrite app_nil_r. specialize (Ha name).
  assert (Hx : Exists (has_column name) (srcs ++ [src]) <->
    Exists (has_column name) srcs \/ has_column name src)
    by (rewrite Exists_app, Exists_cons, Exists_nil; naive_solver).
  assert (Hp : forall c, src !! name = Some c -> pad name src = c /\ length c = numRows src).
  { intros c Hc. unfold pad. rewrite Hc. split; [done|]. by apply (Hrect name). }
  destruct (src !! name) as [c|] eqn:E.
  - destruct (Hp c eq_refl) as [-> Lc]. rewrite length_app, length_resize_column, Lc.
    split_and!; [done|apply Hx; right; unfold has_column; by rewrite E|].
    unfold resize_column at 1. rewrite resize_all_alt
      by (rewrite length_app, length_resize_column, Lc; done).
    f_equal. destruct (result !! name) as [l|]; simpl; [by apply Ha|].
    rewrite pads_missing by done. unfold resize_column. by rewrite resize_nil.
  - assert (pad name src = replicate (numRows src) None) as -> by (unfold pad; by rewrite E).
    assert (~ has_column name src) by (unfold has_column; rewrite E; by intros [? ?]).
    destruct (result !! name) as [l|]; [|naive_solver].
    destruct Ha as (Hl & Hex & Heq). split_and!; [lia|by apply Hx; left|].
    by rewrite resize_column_grow, Heq.
Qed.

Lemma aggregate_loop_spec results srcs result :
  Forall (fun src => rectangular (numRows src) src) results -> aggregated srcs result ->
  exists r, aggregate_loop results result (rows_of srcs) = Ok (r, rows_of (srcs ++ results)) /\
    aggregated (srcs ++ results) r.
Proof.
  intros Hr. revert srcs result. induction Hr as [|src results Hs Hr IH]; intros srcs result Ha.
  { exists result. by rewrite app_nil_r. }
  destruct (aggregate_src_spec (rows_of srcs) src result Hs) as (r1 & E & H1).
  cbn [aggregate_loop]. rewrite E. cbn [mbind res_bind].
  destruct (IH (srcs ++ [src]) r1) as (r & E' & H'); [by eapply aggregated_step|].
  rewrite rows_of_snoc, <- app_assoc in E'. rewrite <- app_assoc in H'. by exists r.
Qed.

Lemma total_rows_of results k :
  foldl (fun n src => n + numRows src)%nat k results = (k + rows_of results)%nat.
Proof.
  unfold rows_of. revert k. induction results as [|src results IH]; intros k; simpl; [lia|].
  rewrite IH. lia.
Qed.

Lemma aggregate_spec results :
  Forall (fun src => rectangular (numRows src) src) results ->
  exists r, aggregate results = Ok r /\
    rectangular (rows_of results) r /\
    forall name, r !! name =
      if decide (Exists (has_column name) results) then Some (concat (pad name <$> results))
      else None.
Proof.
  intros Hr. destruct (aggregate_loop_spec results [] ∅ Hr) as (r & E & Ha).
  { intros name. rewrite lookup_empty. intros H. by apply Exists_nil in H. }
  unfold aggregate. rewrite total_rows_of. simpl in E. unfold rows_of in E at 1. simpl in E.
  rewrite E. simpl. rewrite bool_decide_eq_true_2 by done. simpl.
  assert (H : forall name, (resize_column (rows_of results) <$> r) !! name =
    if decide (Exists (has_column name) results) then Some (concat (pad name <$> results))
    else None).
  { intros name. rewrite lookup_fmap. specialize (Ha name). simpl in Ha.
    destruct (r !! name) as [l|]; simpl.
    - destruct Ha as (_ & Hex & ->). by rewrite decide_True.
    - by rewrite decide_False. }
  eexists. split_and!; [done| |exact H]. intros name c Hc. rewrite lookup_fmap in Hc.
  apply fmap_Some in Hc as (l & _ & ->). apply length_resize_column.
Qed.

(** Aggregating rectangular replies never fails and gives a rectangular
    table: it has the columns any reply has, and each column is the replies'
    columns one after the other, with a null for every row of a reply that
    lacks the column. The iteration order of the columns does not show. *)
Theorem aggregate_concatenates results :
  Forall (fun src => rectangular (numRows src) src) results ->
  exists r, aggregate results = Ok r /\
    rectangular (rows_of results) r /\
    forall name, r !! name =
      if decide (Exists (has_column name) results) then Some (concat (pad name <$> results))
      else None.
Proof. apply aggregate_spec. Qed.

(** ** Node selection *)

(** The constraint, read as a comparison; one that selection cannot use holds. *)
Definition satisfied (nid : Z) (c : Constraint) : bool :=
  match c.2 with
  | None => true
  | Some e =>
      match to_int e with
      | Err _ => true
      | Ok z =>
          if c.1 =? SQLITE_INDEX_CONSTRAINT_EQ then nid =? z
          else if c.1 =? SQLITE_INDEX_CONSTRAINT_LT then nid <? z
          else if c.1 =? SQLITE_INDEX_CONSTRAINT_GT then z <? nid
          else if c.1 =? SQLITE_INDEX_CONSTRAINT_LE then nid <=? z
          else if c.1 =? SQLITE_INDEX_CONSTRAINT_GE then z <=? nid
          else true
      end
  end.

Definition usable (c : Constraint) : bool :=
  match c.2 with
  | None => false
  | Some _ => bool_decide (c.1 ∈ [SQLITE_INDEX_CONSTRAINT_EQ; SQLITE_INDEX_CONSTRAINT_LT;
      SQLITE_INDEX_CONSTRAINT_GT; SQLITE_INDEX_CONSTRAINT_LE; SQLITE_INDEX_CONSTRAINT_GE])
  end.

(** The expression, when there is one, is an [int]. *)
Definition parses (c : Constraint) : Prop :=
  match c.2 with None => True | Some e => exists z, to_int e = Ok z end.

Lemma nodeMatchesConstraint_spec nid c :
  parses c ->
  nodeMatchesConstraint nid c =
    Ok (if usable c then if satisfied nid c then MATCH else NO_MATCH else UNUSED) /\
  (usable c = false -> satisfied nid c = true).
Proof.
  destruct c as [op [e|]]; unfold parses, nodeMatchesConstraint, usable, satisfied; simpl; [|done].
  intros [z ->]. simpl. unfold SQLITE_INDEX_CONSTRAINT_EQ, SQLITE_INDEX_CONSTRAINT_LT,
    SQLITE_INDEX_CONSTRAINT_GT, SQLITE_INDEX_CONSTRAINT_LE, SQLITE_INDEX_CONSTRAINT_GE.
  destruct (Z.eqb_spec op 2) as [->|]; [by destruct (nid =? z)|].
  destruct (Z.eqb_spec op 16) as [->|].
  { simpl. by destruct (Z.leb_spec z nid), (Z.ltb_spec nid z); try lia. }
  destruct (Z.eqb_spec op 4) as [->|].
  { simpl. by destruct (Z.leb_spec nid z), (Z.ltb_spec z nid); try lia. }
  destruct (Z.eqb_spec op 8) as [->|].
  { simpl. by destruct (Z.ltb_spec z nid), (Z.leb_spec nid z); try lia. }
  destruct (Z.eqb_spec op 32) as [->|].
  { simpl. by destruct (Z.ltb_spec nid z), (Z.leb_spec z nid); try lia. }
  by rewrite bool_decide_eq_false_2 by set_solver.
Qed.

(** Positions of the usable constraints. *)
Fixpoint usable_positions (i : nat) (cs : list Constraint) : list nat :=
  match cs with
  | [] => []
  | c :: cs => (if usable c then [i] else []) ++ usable_positions (S i) cs
  end.

Lemma match_loop_spec nid cs i skip used :
  Forall parses cs ->
  match_loop nid cs i skip used =
    Ok (skip || negb (forallb (satisfied nid) cs), list_to_set (usable_positions i cs) ∪ used).
Proof.
  intros Hp. revert i skip used. induction Hp as [|c cs Hc Hp IH]; intros i skip used; simpl.
  { by rewrite orb_false_r, union_empty_l_L. }
  destruct (nodeMatchesConstraint_spec nid c Hc) as [-> Hu]. simpl. rewrite IH. f_equal. f_equal.
  - destruct (usable c); [|rewrite Hu by done]; [destruct (satisfied nid c)|];
      simpl; rewrite ?orb_false_r, ?orb_true_r; done.
  - destruct (usable c); [destruct (satisfied nid c)|]; simpl; set_solver.
Qed.

Lemma select_loop_spec cs nodes used :
  Forall parses cs ->
  select_loop (Some cs) nodes used =
    Ok (filter (fun n => forallb (satisfied (i32 (id n))) cs = true) nodes,
        (if decide (nodes = []) then ∅ else list_to_set (usable_positions 0 cs)) ∪ used).
Proof.
  intros Hp. revert used. induction nodes as [|n nodes IH]; intros used.
  { simpl. by rewrite union_empty_l_L. }
  cbn [select_loop]. rewrite match_loop_spec by done. cbn [mbind res_bind]. rewrite IH.
  cbn [mbind res_bind]. rewrite filter_cons. simpl.
  destruct (forallb _ cs); simpl; do 2 f_equal; case_decide; set_solver.
Qed.

Lemma usable_positions_ge i cs j : j ∈ usable_positions i cs -> (i <= j)%nat.
Proof.
  revert i. induction cs as [|c cs IH]; intros i; simpl; [by intros ?%not_elem_of_nil|].
  rewrite elem_of_app. intros [H|H%IH]; [|lia].
  destruct (usable c); [apply list_elem_of_singleton in H; lia|by apply not_elem_of_nil in H].
Qed.

Lemma usable_positions_NoDup i cs : NoDup (usable_positions i cs).
Proof.
  revert i. induction cs as [|c cs IH]; intros i; simpl; [constructor|].
  apply NoDup_app. split_and!; [|intros x Hx Hx'|apply IH].
  - destruct (usable c); [apply NoDup_singleton|constructor].
  - apply usable_positions_ge in Hx'. destruct (usable c);
      [apply list_elem_of_singleton in Hx; lia|by apply not_elem_of_nil in Hx].
Qed.

Lemma usable_positions_omap pre cs :
  omap (fun j => (pre ++ cs) !! j) (usable_positions (length pre) cs) =
    filter (fun c => usable c = true) cs.
Proof.
  revert pre. induction cs as [|c cs IH]; intros pre; simpl; [done|].
  rewrite omap_app, filter_cons. specialize (IH (pre ++ [c])).
  rewrite length_app, Nat.add_1_r, <- app_assoc in IH. simpl in IH. rewrite IH.
  destruct (usable c); simpl; [|done].
  rewrite lookup_app_r, Nat.sub_diag by lia. done.
Qed.

(** Recording the used constraints appends them to those of column 0. *)
Lemma foldl_add_used (cs : list Constraint) (l : list nat) (u : ConstraintMap) :
  let add u i := match cs !! i with
    | Some c => <[0 := default [] (u !! 0) ++ [c]]> u
    | None => u
    end in
  default [] (foldl add u l !! 0) = default [] (u !! 0) ++ omap (fun i => cs !! i) l /\
  forall k, k <> 0 -> foldl add u l !! k = u !! k.
Proof.
  intros add. revert u. induction l as [|i l IH]; intros u; [by rewrite app_nil_r|].
  cbn [foldl omap list_omap]. destruct (cs !! i) as [c|] eqn:Ei.
  - assert (add u i = <[0 := default [] (u !! 0) ++ [c]]> u) as -> by (unfold add; by rewrite Ei).
    destruct (IH (<[0 := default [] (u !! 0) ++ [c]]> u)) as [E H]. split.
    + rewrite E, lookup_insert_eq. simpl. by rewrite <- app_assoc.
    + intros k Hk. by rewrite H, lookup_insert_ne.
  - assert (add u i = u) as -> by (unfold add; by rewrite Ei). apply IH.
Qed.

(** With server-side filtering, exactly the nodes whose id satisfies every
    usable constraint on column 0 are asked, in their order, and the
    constraints recorded as used for a non-empty cluster are exactly the usable
    ones; without it all nodes are asked and nothing is recorded. *)
Theorem selectNodes_exact (used_order : gset nat -> list nat) nodes ctx cs :
  (forall s, used_order s ≡ₚ elements s) ->
  constraints ctx !! 0 = Some cs -> Forall parses cs ->
  (exists ctx' used,
     selectNodes used_order true nodes ctx =
       Ok (filter (fun n => forallb (satisfied (i32 (id n))) cs = true) nodes, ctx') /\
     constraints ctx' = constraints ctx /\
     default [] (used_constraints ctx' !! 0) = default [] (used_constraints ctx !! 0) ++ used /\
     used ≡ₚ (if decide (nodes = []) then [] else filter (fun c => usable c = true) cs) /\
     forall k, k <> 0 -> used_constraints ctx' !! k = used_constraints ctx !! k) /\
  selectNodes used_order false nodes ctx = Ok (nodes, ctx).
Proof.
  intros Ho Hc Hp. split.
  - unfold selectNodes. rewrite Hc, select_loop_spec by done. cbn [mbind res_bind].
    change (default [] (Some cs)) with cs. rewrite union_empty_r_L.
    set (us := if decide (nodes = []) then ∅ else list_to_set (usable_positions 0 cs)).
    destruct (foldl_add_used cs (used_order us) (used_constraints ctx)) as [E H].
    eexists _, _. split; [done|]. split_and!; [done|exact E| |exact H].
    rewrite (Ho us). unfold us. case_decide; [by rewrite elements_empty|].
    rewrite elements_list_to_set by apply usable_positions_NoDup.
    exact (reflexive_eq _ _ (usable_positions_omap [] cs)).
  - assert (Hn : forall ns, select_loop None ns ∅ = Ok (ns, ∅)).
    { induction ns as [|n ns IH]; [done|]. cbn [select_loop mbind res_bind]. by rewrite IH. }
    unfold selectNodes. rewrite Hn. cbn [mbind res_bind].
    assert (used_order ∅ = []) as ->.
    { apply Permutation_nil_r. by rewrite (Ho ∅), elements_empty. }
    by destruct ctx.
Qed.

(** ** Reading a table *)

Lemma init_loop_lookup cols i m name :
  NoDup cols.*1 ->
  init_loop cols i m !! name =
    match list_find (fun c : string * DataType => c.1 = name) cols with
    | Some (k, _) => Some (i + k)%nat
    | None => m !! name
    end.
Proof.
  revert i m. induction cols as [|[n ty] cols IH]; intros i m Hnd; simpl in *; [done|].
  apply NoDup_cons in Hnd as [Hn Hnd]. rewrite IH by done.
  destruct (decide (n = name)) as [->|Hne].
  - destruct (list_find _ cols) as [[k c]|] eqn:F.
    { apply list_find_Some in F as (F & <- & _). exfalso. apply Hn.
      apply list_elem_of_fmap. exists c. split; [done|]. by eapply list_elem_of_lookup_2. }
    rewrite lookup_insert_eq. f_equal. lia.
  - rewrite lookup_insert_ne by done.
    destruct (list_find _ cols) as [[k c]|]; simpl; [f_equal; lia|done].
Qed.

(** The column a header names, if the table has it. *)
Definition header_column (fetchable : TableColumns) (h : string) : ColumnAndDataType :=
  snd <$> list_find (fun c : string * DataType => c.1 = NameNormalizer.normalize_string h) fetchable.

Lemma header_column_name fetchable h name ty :
  header_column fetchable h = Some (name, ty) -> NameNormalizer.normalize_string h = name.
Proof.
  unfold header_column. intros ([k [n t]] & F & E)%fmap_Some.
  apply list_find_Some in F as (_ & F & _). simpl in *. by simplify_eq.
Qed.

(** Creating the columns of the headers. *)
Definition add_columns (cp : list ColumnAndDataType) (results : TableData) : TableData :=
  foldl (fun t c => match c with
    | Some (name, _) => <[name := default [] (t !! name)]> t
    | None => t
    end) results cp.

Lemma parse_headers_spec fetchable hs cp results :
  NoDup fetchable.*1 ->
  parse_headers fetchable (init fetchable) (JSON_STRING <$> hs) cp results =
    Ok (Some (cp ++ (header_column fetchable <$> hs),
              add_columns (header_column fetchable <$> hs) results)).
Proof.
  intros Hnd. revert cp results. induction hs as [|h hs IH]; intros cp results.
  { simpl. by rewrite app_nil_r. }
  rewrite !fmap_cons. cbn [parse_headers]. unfold init at 1. rewrite init_loop_lookup by done.
  rewrite lookup_empty. unfold header_column at 1 3, add_columns. cbn [foldl].
  destruct (list_find _ fetchable) as [[k [n ty]]|] eqn:F; simpl.
  - apply list_find_Some in F as (F & E & _). simpl in E. rewrite F. subst n.
    rewrite bool_decide_eq_true_2 by done. simpl. rewrite IH, <- app_assoc. done.
  - rewrite IH, <- app_assoc. done.
Qed.

(** The value stored for a JSON value of a column's type; [None] for a value
    the parser rejects. *)
Definition cell (ty : DataType) (v : JsonValue) : option ColumnValue :=
  match v with
  | JSON_STRING s => Some (preprocessColumn ty (Some s))
  | JSON_NULL => Some None
  | _ => None
  end.

(** The cells a row gives to the columns [suf]. *)
Definition row_cells (suf : list ColumnAndDataType) (l : list JsonValue)
    : list (string * option ColumnValue) :=
  omap (fun cv => match cv.1 with Some (name, ty) => Some (name, cell ty cv.2) | None => None end)
    (zip suf l).

Definition known (cp : list ColumnAndDataType) : list string := omap (fmap fst) cp.

Lemma row_cells_names suf l : length l = length suf -> (row_cells suf l).*1 = known suf.
Proof.
  revert l. induction suf as [|[[n ty]|] suf IH]; intros [|v l] H; simplify_eq/=; [done| |].
  - unfold row_cells, known. simpl. f_equal. by apply IH.
  - unfold row_cells, known. simpl. by apply IH.
Qed.

Lemma parse_row_loop_spec pre suf l t :
  length l = length suf -> NoDup (known suf) ->
  Forall (fun nc => is_Some nc.2) (row_cells suf l) ->
  exists t', parse_row_loop (pre ++ suf) l (length pre) t = Some (length pre + length suf, t')%nat /\
    forall name, t' !! name =
      match (list_to_map (row_cells suf l) : gmap string (option ColumnValue)) !! name with
      | Some (Some v) => (fun c => c ++ [v]) <$> t !! name
      | _ => t !! name
      end.
Proof.
  revert pre l t. induction suf as [|ci suf IH]; intros pre l t Hl Hnd Hc.
  { destruct l; [|done]. exists t. simpl. by rewrite Nat.add_0_r. }
  destruct l as [|v l]; [done|]. cbn [parse_row_loop]. rewrite lookup_app_r, Nat.sub_diag by lia.
  cbn [lookup list_lookup].
  assert (Hstep : forall t1, NoDup (known suf) ->
    Forall (fun nc => is_Some nc.2) (row_cells suf l) ->
    exists t', parse_row_loop (pre ++ ci :: suf) l (S (length pre)) t1 =
        Some (length pre + length (ci :: suf), t')%nat /\
      forall name, t' !! name =
        match (list_to_map (row_cells suf l) : gmap string (option ColumnValue)) !! name with
        | Some (Some v) => (fun c => c ++ [v]) <$> t1 !! name
        | _ => t1 !! name
        end).
  { intros t1 H1 H2. destruct (IH (pre ++ [ci]) l t1) as (t' & E & H); [simpl in Hl; lia|done..|].
    exists t'. split; [|done]. rewrite <- app_assoc, length_app in E. simpl in E.
    rewrite Nat.add_1_r in E. rewrite E. do 2 f_equal. simpl. lia. }
  destruct ci as [[n ty]|]; [|by apply Hstep].
  unfold row_cells, known in Hnd, Hc. simpl in Hnd, Hc. fold (known suf) in Hnd.
  fold (row_cells suf l) in Hc. apply NoDup_cons in Hnd as [Hn Hnd].
  apply Forall_cons in Hc as [[x Hx] Hc]. simpl in Hx.
  assert (Hnot : (list_to_map (row_cells suf l) : gmap string (option ColumnValue)) !! n = None).
  { apply not_elem_of_list_to_map_1. by rewrite row_cells_names by (simpl in Hl; lia). }
  destruct (Hstep (alter (fun c => c ++ [x]) n t) Hnd Hc) as (t' & E & H).
  exists t'. split; [destruct v; simplify_eq/=; exact E|]. intros name. rewrite H.
  unfold row_cells at 2. simpl. fold (row_cells suf l). rewrite Hx.
  destruct (decide (n = name)) as [<-|Hne].
  - by rewrite Hnot, lookup_insert_eq, lookup_alter_eq.
  - by rewrite lookup_insert_ne, lookup_alter_ne by done.
Qed.

(** The cell a row gives to the column of a name. *)
Definition row_value (cp : list ColumnAndDataType) (name : string) (row : list JsonValue)
    : option ColumnValue :=
  mjoin ((list_to_map (row_cells cp row) : gmap string (option ColumnValue)) !! name).

(** A row of the width of the header, with a string or a null where the table
    has the column. *)
Definition row_ok (cp : list ColumnAndDataType) (row : list JsonValue) : Prop :=
  length row = length cp /\ Forall (fun nc => is_Some nc.2) (row_cells cp row).

Lemma parse_rows_spec cp rows t :
  NoDup (known cp) -> Forall (row_ok cp) rows ->
  exists t', parse_rows cp (JSON_ARRAY <$> rows) t = Some t' /\
    forall name, t' !! name = (fun c => c ++ omap (row_value cp name) rows) <$> t !! name.
Proof.
  intros Hnd Hr. revert t. induction Hr as [|row rows [Hl Hc] Hr IH]; intros t.
  { exists t. split; [done|]. intros name. simpl.
    destruct (t !! name); simpl; [by rewrite app_nil_r|done]. }
  destruct (parse_row_loop_spec [] cp row t Hl Hnd Hc) as (t1 & E & H).
  destruct (IH t1) as (t' & E' & H'). exists t'. rewrite fmap_cons. cbn [parse_rows parse_row].
  simpl app in E. simpl length in E. rewrite E. cbn [mbind option_bind].
  rewrite bool_decide_eq_true_2 by done. split; [exact E'|].
  intros name. rewrite H', H. cbn [omap list_omap]. unfold row_value at 2.
  destruct (list_to_map (row_cells cp row) !! name) as [[v|]|]; [|done|done].
  simpl. destruct (t !! name); simpl; [|done]. by rewrite <- app_assoc.
Qed.

Lemma row_value_at cp name ty c row v :
  NoDup (known cp) -> row_ok cp row -> cp !! c = Some (Some (name, ty)) -> row !! c = Some v ->
  row_value cp name row = cell ty v.
Proof.
  intros Hnd [Hl _] Hc Hv. unfold row_value.
  rewrite (elem_of_list_to_map_1 _ name (cell ty v)); [done| |].
  - by rewrite row_cells_names.
  - unfold row_cells. apply list_elem_of_omap. exists (Some (name, ty), v).
    split; [|done]. apply list_elem_of_lookup. exists c. by rewrite lookup_zip_with, Hc; simpl; rewrite Hv.
Qed.

Lemma add_columns_lookup cp t name :
  add_columns cp t !! name =
    if decide (name ∈ known cp) then Some (default [] (t !! name)) else t !! name.
Proof.
  unfold add_columns. revert t. induction cp as [|[[n ty]|] cp IH]; intros t; simpl.
  - done.
  - unfold known. simpl. fold (known cp). rewrite IH. destruct (decide (n = name)) as [->|Hne].
    + rewrite lookup_insert_eq, (decide_True (P := name ∈ name :: _)) by (left; done).
      by destruct (decide _).
    + rewrite lookup_insert_ne by done.
      destruct (decide (name ∈ known cp)); [rewrite decide_True by (right; done)|
        rewrite decide_False by set_solver]; done.
  - apply IH.
Qed.

(** The reply is an object with these headers and rows, at its top or under
    its "content". *)
Definition table_reply (json : string) (headers : list string) (rows : list (list JsonValue))
    : Prop :=
  exists root l, jsonParse json = Some (JSON_OBJECT root) /\
    content_loop root (JSON_OBJECT root) = Ok (JSON_OBJECT l) /\
    find_key "headers" l None = Some (JSON_ARRAY (JSON_STRING <$> headers)) /\
    find_key "rows" l None = Some (JSON_ARRAY (JSON_ARRAY <$> rows)).

Lemma known_lookup cp name :
  name ∈ known cp -> exists c ty, cp !! c = Some (Some (name, ty)).
Proof.
  unfold known. intros (o & Ho & E)%list_elem_of_omap. destruct o as [[n ty]|]; simplify_eq/=.
  apply list_elem_of_lookup in Ho as [c Hc]. eauto.
Qed.

(** Reading a well-formed reply. *)
Lemma table_reply_read fetchable json headers rows :
  table_reply json headers rows ->
  NoDup fetchable.*1 -> NoDup (known (header_column fetchable <$> headers)) ->
  Forall (row_ok (header_column fetchable <$> headers)) rows ->
  exists t, jsonToTableData fetchable (init fetchable) json = Ok (Success t) /\
    rectangular (length rows) t /\
    (forall name, is_Some (t !! name) <-> name ∈ known (header_column fetchable <$> headers)) /\
    forall c h name ty, headers !! c = Some h -> header_column fetchable h = Some (name, ty) ->
      t !! name = Some (omap (fun row => v ← row !! c; cell ty v) rows).
Proof.
  intros (root & l & Ej & Ec & Eh & Er) Hf Hnd Hr. set (cp := header_column fetchable <$> headers) in *.
  destruct (parse_rows_spec cp rows (add_columns cp ∅) Hnd Hr) as (t & Et & Ht).
  assert (Hcol : forall c name ty, cp !! c = Some (Some (name, ty)) ->
    t !! name = Some (omap (fun row => v ← row !! c; cell ty v) rows) /\
    length (omap (fun row => v ← row !! c; cell ty v) rows) = length rows).
  { intros c name ty Hc. rewrite Ht, add_columns_lookup, lookup_empty, decide_True.
    2: { unfold known. apply list_elem_of_omap. exists (Some (name, ty)). split; [|done].
         by eapply list_elem_of_lookup_2. }
    simpl. clear Et Ht Er. induction Hr as [|row rows Hrow Hr IH]; [done|].
    destruct (lookup_lt_is_Some_2 row c) as [v Hv].
    { destruct Hrow as [-> _]. by eapply lookup_lt_Some. }
    cbn [omap list_omap]. rewrite (row_value_at cp name ty c row v), Hv by done. simpl.
    destruct Hrow as [Hl Hrow]. assert (is_Some (cell ty v)) as [x ->].
    { rewrite Forall_forall in Hrow. apply (Hrow (name, cell ty v)). unfold row_cells.
      apply list_elem_of_omap. exists (Some (name, ty), v). split; [|done].
      apply list_elem_of_lookup. exists c. by rewrite lookup_zip_with, Hc; simpl; rewrite Hv. }
    destruct IH as [IH1 IH2]. split; [|simpl; by rewrite IH2]. do 2 f_equal. by injection IH1. }
  assert (Hdom : forall name, is_Some (t !! name) <-> name ∈ known cp).
  { intros name. rewrite Ht, add_columns_lookup, lookup_empty. rewrite fmap_is_Some.
    case_decide; [naive_solver|]. split; [by intros [? ?]|done]. }
  exists t. split_and!; [|intros name col Hn|done|].
  - unfold jsonToTableData. rewrite Ej, Ec. cbn [mbind res_bind]. rewrite Eh, Er.
    rewrite parse_headers_spec by done. cbn [mbind res_bind]. simpl app. fold cp. by rewrite Et.
  - destruct (known_lookup cp name) as (c & ty & Hc); [apply Hdom; eauto|].
    destruct (Hcol c name ty Hc) as [E L]. rewrite Hn in E. by injection E as ->.
  - intros c h name ty Hc Hh. apply Hcol. unfold cp. by rewrite list_lookup_fmap, Hc; simpl; rewrite Hh.
Qed.

(** A well-formed reply is read as its table: the known headers are the
    columns, every column has one value per row, and the value is the row's
    string, cleaned for the column's type, or null. Headers are matched by
    their normalised names and unknown ones are ignored. *)
Theorem jsonToTableData_reads fetchable json headers rows :
  table_reply json headers rows ->
  NoDup fetchable.*1 -> NoDup (known (header_column fetchable <$> headers)) ->
  Forall (row_ok (header_column fetchable <$> headers)) rows ->
  exists t, jsonToTableData fetchable (init fetchable) json = Ok (Success t) /\
    rectangular (length rows) t /\
    (forall name, is_Some (t !! name) <-> name ∈ known (header_column fetchable <$> headers)) /\
    forall c h name ty, headers !! c = Some h -> header_column fetchable h = Some (name, ty) ->
      t !! name = Some (omap (fun row => v ← row !! c; cell ty v) rows).
Proof. apply table_reply_read. Qed.
End data.
End AdminTableData.

(** ** Witnesses: concrete libraries and one node's reply *)
Module AdminTableDataWitness.
Import AdminTableData.

Definition first_rows (t : TableData) : nat :=
  match map_to_list t with [] => 0%nat | (_, c) :: _ => length c end.

#[export] Program Instance test_Ldquery : Ldquery :=
  {| DataType := unit; INTEGER := tt; preprocessColumn _ v := v; numRows := first_rows |}.
Next Obligation. done. Qed.
Next Obligation.
  intros t n Hne Hr. unfold first_rows. destruct (map_to_list t) as [|[k c] l] eqn:E.
  - apply map_to_list_empty_iff in E. done.
  - apply (Hr k). apply elem_of_map_to_list. rewrite E. left.
Qed.

#[export] Program Instance test_FollyTo : FollyTo :=
  {| to_int s := if bool_decide (s = "2") then Ok 2 else Err (StdExn "Invalid") |}.
Next Obligation. intros s z. simpl. case_bool_decide; [intros [= <-]; unfold is_i32; lia|done]. Qed.

Definition reply : JsonValue :=
  JSON_OBJECT [("type", JSON_STRING "table");
    ("content", JSON_OBJECT
      [("headers", JSON_ARRAY [JSON_STRING "Stream Name"; JSON_STRING "other"]);
       ("rows", JSON_ARRAY [JSON_ARRAY [JSON_STRING "s1"; JSON_TRUE];
                            JSON_ARRAY [JSON_NULL; JSON_TRUE]])])].

#[export] Instance test_Gason : Gason :=
  {| jsonParse s := if bool_decide (s = "reply") then Some reply else None |}.

Definition columns : list (string * DataType) := [("stream_name", tt)].

Lemma jsonToTableData_reads_witness :
  exists t, jsonToTableData columns (init columns) "reply" = Ok (Success t) /\
    t !! "stream_name" = Some [Some "s1"; None].
Proof.
  destruct (jsonToTableData_reads columns "reply" ["Stream Name"; "other"]
    [[JSON_STRING "s1"; JSON_TRUE]; [JSON_NULL; JSON_TRUE]]) as (t & E & _ & _ & H).
  - eexists _, _. split; [reflexivity|]. split; [reflexivity|]. split; reflexivity.
  - apply NoDup_singleton.
  - apply NoDup_singleton.
  - repeat constructor; eauto.
  - exists t. split; [exact E|].
    exact (H 0%nat "Stream Name" "stream_name" tt eq_refl eq_refl).
Defined.

Definition ok_reply (s : string) : Response :=
  {| response := s; success := true; failure_reason := "none" |}.

Lemma transformDataParallel_sequential_witness :
  transformDataParallel (jsonToTableData columns (init columns)) [1; 0]%nat
    [ok_reply "reply"; ok_reply "junk"] =
  transformDataSequential (jsonToTableData columns (init columns))
    [ok_reply "reply"; ok_reply "junk"].
Proof.
  apply (transformDataParallel_sequential (jsonToTableData columns (init columns))).
  apply Permutation_swap.
Defined.

Definition table_a : TableData := {[ "x" := [Some "1"] ]}.
Definition table_b : TableData := {[ "y" := [Some "2"; Some "3"] ]}.

Lemma aggregate_concatenates_witness :
  exists r, aggregate [table_a; table_b] = Ok r /\ r !! "x" = Some [Some "1"; None; None].
Proof.
  destruct (aggregate_concatenates [table_a; table_b]) as (r & E & _ & H).
  - constructor; [|constructor; [|constructor]]; apply map_Forall_singleton; reflexivity.
  - exists r. split; [exact E|]. rewrite H. reflexivity.
Defined.

Definition node (i : Z) : ServerNode := {| id := i; host := "h"; port := 6570 |}.

Lemma selectNodes_exact_witness :
  exists ctx', selectNodes elements true [node 1; node 2; node 3]
    {| constraints := {[ 0 := [(32, Some "2")] ]}; used_constraints := ∅ |} =
    Ok ([node 2; node 3], ctx').
Proof.
  destruct (selectNodes_exact elements [node 1; node 2; node 3]
    {| constraints := {[ 0 := [(32, Some "2")] ]}; used_constraints := ∅ |} [(32, Some "2")])
    as ((ctx' & used & E & _) & _).
  - reflexivity.
  - reflexivity.
  - constructor; [|constructor]. exists 2. reflexivity.
  - exists ctx'. exact E.
Defined.
End AdminTableDataWitness.
