(* ===== verification/AdminTable.v ===== *)
(** * Tables of admin commands: cache and queries (class AdminCommandTable of
    src/common/hstream/cbits/query/tables/AdminCommandTable.{h,cpp})

    A table is filled by sending an admin command to the cluster's nodes. The
    replies are cached by the constraints the servers applied, a cached table
    gets an index for every column an equality constraint names, and after
    MAX_FETCHES fetches of one query the whole table is fetched instead. *)

From stdpp Require Import base gmap strings list pretty.
From Stdlib Require Import ZArith Lia.
From S2P Require Import Prelude NameNormalizer AdminTableData.
Import AdminTableData.

Module AdminTable.
Section table.
Context {LQ : Ldquery} {FT : FollyTo} {GS : Gason}.
Context {OS : IterOrder string} {OZ : IterOrder Z}.

#[local] Notation Constraint := (Z * option string)%type.
#[local] Notation ConstraintMap := (gmap Z (list (Z * option string))).
#[local] Notation Index := (gmap string (list nat)).

(** What a concrete table overrides: its columns and its admin command, which
    may use constraints of the query and then records them. *)
Context (getFetchableColumns : list (string * DataType)).
Context (getCommandToSend : QueryContext -> string * ConstraintMap).

(** The system: the order in which [std::unordered_set<int>] lists a set, the
    interleaving of the parsing threads for a number of replies, the
    validity of a cache entry (LogDevice's [entry_with_ttl]) and the client. *)
Context (used_order : gset nat -> list nat) (sched : nat -> list nat).
Context (send : list (string * string) -> list Response).

Definition MAX_FETCHES : Z := 5.

(** [struct Data] and when it was put in the cache. *)
Record Data := { data : TableData; indices : gmap Z Index }.
Record DataWithTTL := { entry : Data; created : Z }.

Record Table := {
  admin_cmd_cache_ : gmap ConstraintMap DataWithTTL;
  num_fetches_ : Z;
  cache_ttl_ : Z;
  enable_server_side_filtering_ : bool;
}.

(** [ctx_->activeQueryMetadata]. *)
Record Metadata := { contacted_nodes : Z; failures : gmap Z (string * string) }.

Definition set_cache (c : gmap ConstraintMap DataWithTTL) (t : Table) : Table :=
  {| admin_cmd_cache_ := c; num_fetches_ := num_fetches_ t; cache_ttl_ := cache_ttl_ t;
     enable_server_side_filtering_ := enable_server_side_filtering_ t |}.

Definition new_Table : Table :=
  {| admin_cmd_cache_ := ∅; num_fetches_ := 0; cache_ttl_ := 0;
     enable_server_side_filtering_ := true |}.

Definition allowServerSideFiltering (t : Table) : bool :=
  enable_server_side_filtering_ t && (num_fetches_ t <=? MAX_FETCHES).

Definition newQuery (isValid : Z -> DataWithTTL -> bool) (t : Table) : Table :=
  {| admin_cmd_cache_ :=
       filter (fun kv => isValid (cache_ttl_ t) kv.2 = true) (admin_cmd_cache_ t);
     num_fetches_ := 0; cache_ttl_ := cache_ttl_ t;
     enable_server_side_filtering_ := enable_server_side_filtering_ t |}.

Definition setCacheTTL (ttl : Z) (t : Table) : Table :=
  {| admin_cmd_cache_ := admin_cmd_cache_ t; num_fetches_ := num_fetches_ t; cache_ttl_ := ttl;
     enable_server_side_filtering_ := enable_server_side_filtering_ t |}.

Definition enableServerSideFiltering (val : bool) (t : Table) : Table :=
  {| admin_cmd_cache_ := admin_cmd_cache_ t; num_fetches_ := num_fetches_ t;
     cache_ttl_ := cache_ttl_ t; enable_server_side_filtering_ := val |}.

Definition dataIsInCacheForUsedConstraints (u : ConstraintMap) (t : Table) : bool :=
  bool_decide (is_Some (admin_cmd_cache_ t !! u)).

(** [getColumnsImpl]: the node id comes first. *)
Definition getColumnsImpl : list (string * DataType) :=
  ("node_id", INTEGER) :: getFetchableColumns.

(** The first equality constraint, in the order of the hash map. *)
Definition findIndexableConstraint (ctx : QueryContext) : option (Z * Constraint) :=
  head (iter_list (constraints ctx) ≫= fun e =>
    (fun c => (e.1, c)) <$> filter (fun c => c.1 = SQLITE_INDEX_CONSTRAINT_EQ) e.2).

(** [col < size()] compares as [size_t]. *)
Definition buildIndexForConstraint (d : Data) (col : Z) (c : Constraint) : res Data :=
  hs_check (c.1 =? SQLITE_INDEX_CONSTRAINT_EQ) None;;
  hs_check (u64 col <? Z.of_nat (length getColumnsImpl)) None;;
  match getColumnsImpl !! Z.to_nat col with
  | None => undefined
  | Some (col_name, _) =>
      let idx := match data d !! col_name with
        | None => ∅
        | Some col_vec => index_loop col_vec 0 ∅
        end in
      Ok {| data := data d; indices := <[col := idx]> (indices d) |}
  end.

(** ** refillCache *)

(** The "node_id" column of a node's non-empty table. *)
Definition add_node_id (node : ServerNode) (t : TableData) : TableData :=
  match iter_list t with
  | [] => t
  | (_, c) :: _ => <["node_id" := replicate (length c) (Some (pretty (id node)))]> t
  end.

Definition address (node : ServerNode) : string := host node +:+ ":" +:+ pretty (port node).

Definition record_failures (nodes : list ServerNode) (responses : list Response)
    (f : gmap Z (string * string)) : gmap Z (string * string) :=
  foldl (fun f nr =>
    if success nr.2 then f else <[id nr.1 := (address nr.1, failure_reason nr.2)]> f)
    f (zip nodes responses).

Definition transformData (reply : string) : res PartialTableData :=
  jsonToTableData getFetchableColumns (init getFetchableColumns) reply.

(** The part of [refillCache] after the cache missed. *)
Definition fetch (now : Z) (selected_nodes : list ServerNode) (cmd : string) (ctx : QueryContext)
    (t : Table) (m : Metadata) : res (Table * Metadata) :=
  let requests := (fun node => (address node, cmd)) <$> selected_nodes in
  let responses := send requests in
  hs_check (bool_decide (length requests = length responses)) None;;
  match transformDataParallel transformData (sched (length responses)) responses with
  | None => Err (StdExn "terminate")
  | Some (results, responses) =>
      hs_check (bool_decide (length results = length responses)) None;;
      let results := zip_with add_node_id selected_nodes results in
      let m := {| contacted_nodes := contacted_nodes m + Z.of_nat (length selected_nodes);
                  failures := record_failures selected_nodes responses (failures m) |} in
      d ← aggregate results;
      Ok ({| admin_cmd_cache_ :=
               <[used_constraints ctx := {| entry := {| data := d; indices := ∅ |};
                                            created := now |}]> (admin_cmd_cache_ t);
             num_fetches_ := u64 (num_fetches_ t + 1); cache_ttl_ := cache_ttl_ t;
             enable_server_side_filtering_ := enable_server_side_filtering_ t |}, m)
  end.

Definition refillCache (now : Z) (nodes_configuration : option (list ServerNode))
    (ctx : QueryContext) (t : Table) (m : Metadata) : res (Table * QueryContext * Metadata) :=
  match nodes_configuration with
  | None => Err (ToHs (stringize "GetNodesConfiguration failed"))
  | Some nodes =>
      '(selected_nodes, ctx) ← selectNodes used_order (allowServerSideFiltering t) nodes ctx;
      let saved := used_constraints ctx in
      let '(cmd, ctx, hit) :=
        if allowServerSideFiltering t then
          let '(cmd, u) := getCommandToSend ctx in
          let ctx := set_used u ctx in (cmd, ctx, dataIsInCacheForUsedConstraints u t)
        else ("", ctx, false) in
      if hit : bool then Ok (t, ctx, m)
      else
        let '(cmd, ctx, hit) :=
          if negb (allowServerSideFiltering t) || (MAX_FETCHES <? num_fetches_ t) then
            (* the command is asked for with the saved used constraints and
               without constraints; the constraints are put back afterwards *)
            let '(cmd, u) :=
              getCommandToSend {| constraints := ∅; used_constraints := saved |} in
            (cmd, set_used u ctx, dataIsInCacheForUsedConstraints u t)
          else (cmd, ctx, false) in
        if hit : bool then Ok (t, ctx, m)
        else
          '(t, m) ← fetch now selected_nodes cmd ctx t m;
          Ok (t, ctx, m)
  end.

(** ** getData *)

(** The rows of a cached table the query gets, and the table with the index
    that was used. *)
Definition serve (ctx : QueryContext) (cached : Data) : res (TableData * Data) :=
  match findIndexableConstraint ctx with
  | None => Ok (data cached, cached)
  | Some (col, c) =>
      match c.2 with
      | None => Ok (data cached, cached)
      | Some expr =>
          cached ← match indices cached !! col with
            | Some _ => Ok cached
            | None => buildIndexForConstraint cached col c
            end;
          match indices cached !! col with
          | None => Ok (∅, cached)
          | Some index =>
              match index !! expr with
              | None => Ok (∅, cached)
              | Some idxs =>
                  match select_rows (data cached) idxs with
                  | Some r => Ok (r, cached)
                  | None => undefined
                  end
              end
          end
      end
  end.

Definition getData (now : Z) (nodes_configuration : option (list ServerNode))
    (ctx : QueryContext) (t : Table) (m : Metadata) : res (TableData * Table * Metadata) :=
  '(t, ctx, m) ← refillCache now nodes_configuration ctx t m;
  hs_check (dataIsInCacheForUsedConstraints (used_constraints ctx) t) None;;
  match admin_cmd_cache_ t !! used_constraints ctx with
  | None => undefined
  | Some e =>
      '(r, d) ← serve ctx (entry e);
      Ok (r, set_cache (<[used_constraints ctx := {| entry := d; created := created e |}]>
                          (admin_cmd_cache_ t)) t, m)
  end.

(** ** The index is the list of matching rows *)

(** Positions of the rows whose value is [expr], from row [i] on. *)
Definition positions (i : nat) (expr : string) (c : Column) : list nat :=
  omap (fun iv => if decide (iv.2 = Some expr) then Some iv.1 else None)
    (zip (seq i (length c)) c).

Lemma positions_cons i s v c :
  positions i s (v :: c) = (if decide (v = Some s) then [i] else []) ++ positions (S i) s c.
Proof. unfold positions. simpl. by destruct (decide (v = Some s)). Qed.

Lemma index_loop_lookup c i idx s :
  index_loop c i idx !! s =
    if decide (positions i s c = []) then idx !! s
    else Some (default [] (idx !! s) ++ positions i s c).
Proof.
  revert i idx. induction c as [|v c IH]; intros i idx; [done|].
  cbn [index_loop]. rewrite IH, positions_cons. generalize (positions (S i) s c). intros l.
  destruct (decide (v = Some s)) as [->|Hv].
  - rewrite lookup_insert_eq. cbn [app from_option Datatypes.id]. rewrite <- app_assoc. cbn [app].
    rewrite (decide_False (P := i :: l = [])) by done. case_decide as E; [by rewrite E|done].
  - cbn [app]. destruct v as [x|]; [|done]. by rewrite lookup_insert_ne by congruence.
Qed.

Lemma positions_lt i s c p : p ∈ positions i s c -> (i <= p < i + length c)%nat.
Proof.
  unfold positions. intros ([j v] & Hin & E)%list_elem_of_omap. simpl in E.
  case_decide; simplify_eq. apply elem_of_zip_l in Hin. apply elem_of_seq in Hin. lia.
Qed.

(** The same positions, said by lookup. *)
Lemma positions_spec s c p : p ∈ positions 0 s c <-> c !! p = Some (Some s).
Proof.
  unfold positions. rewrite list_elem_of_omap. split.
  - intros ([j v] & Hin & E). simpl in E. case_decide; simplify_eq/=.
    apply list_elem_of_lookup in Hin as [k Hk]. apply lookup_zip_with_Some in Hk
      as (a & b & [= <- <-] & Ha & Hb). apply lookup_seq in Ha as [-> _]. exact Hb.
  - intros Hp. exists (p, Some s). simpl. rewrite decide_True by done. split; [|done].
    apply list_elem_of_lookup. exists p. rewrite lookup_zip_with.
    rewrite lookup_seq_lt by (by eapply lookup_lt_Some). simpl. by rewrite Hp.
Qed.

(** The rows of every column at the positions. *)
Definition rows_at (idxs : list nat) (c : Column) : Column := omap (fun i => c !! i) idxs.

Lemma mapM_rows idxs (c : Column) n :
  length c = n -> Forall (fun i => i < n)%nat idxs ->
  mapM (fun i => c !! i) idxs = Some (rows_at idxs c).
Proof.
  intros Hn. induction 1 as [|i idxs Hi Hf IH]; [done|]. unfold rows_at. cbn [mapM omap list_omap].
  rewrite <- Hn in Hi. destruct (lookup_lt_is_Some_2 c i Hi) as [v Hv]. rewrite Hv. simpl.
  by rewrite IH.
Qed.

Lemma select_rows_spec t n idxs :
  rectangular n t -> Forall (fun i => i < n)%nat idxs ->
  select_rows t idxs = Some (rows_at idxs <$> t).
Proof.
  intros Ht Hi. unfold select_rows.
  assert (Hf : forall l (acc : TableData), Forall (fun kv : string * Column => length kv.2 = n) l ->
    foldl (fun r kv => t ← r; c ← mapM (fun i => kv.2 !! i) idxs; Some (<[kv.1 := c]> t))
      (Some acc) l =
    Some (foldl (fun m kv => <[kv.1 := rows_at idxs kv.2]> m) acc l)).
  { induction l as [|[k c] l IH]; intros acc Hl; [done|]. apply Forall_cons in Hl as [Hc Hl].
    cbn [foldl mbind option_bind fst snd]. simpl in Hc. rewrite (mapM_rows idxs c n) by done.
    simpl. by apply IH. }
  rewrite Hf.
  - f_equal. apply map_eq. intros k.
    rewrite foldl_insert_lookup, iter_list_to_map, lookup_fmap by apply NoDup_iter_list_fst.
    by destruct (t !! k).
  - apply Forall_forall. intros [k c] Hin. apply elem_of_iter_list in Hin. by apply (Ht k).
Qed.

(** ** Well-formed tables *)

(** The index of column [col], computed from the data. *)
Definition index_of (d : TableData) (col : Z) : Index :=
  match getColumnsImpl !! Z.to_nat col with
  | None => ∅
  | Some (name, _) => match d !! name with Some c => index_loop c 0 ∅ | None => ∅ end
  end.

(** The cached rows form a rectangle and every index is the index of its
    column. *)
Definition wf_data (d : Data) : Prop :=
  (exists n, rectangular n (data d)) /\
  map_Forall (fun col idx => idx = index_of (data d) col) (indices d).

Definition wf_table (t : Table) : Prop :=
  map_Forall (fun _ e => wf_data (entry e)) (admin_cmd_cache_ t).

Lemma aggregate_rectangular results r :
  aggregate results = Ok r -> exists n, rectangular n r.
Proof.
  unfold aggregate. intros H. inv_res H. destruct a as [result rows].
  inv_res H. injection H as <-. eexists. intros name c. rewrite lookup_fmap.
  intros (l & _ & ->)%fmap_Some. apply length_resize_column.
Qed.

Lemma fetch_spec now nodes cmd ctx t m t' m' :
  fetch now nodes cmd ctx t m = Ok (t', m') -> wf_table t ->
  wf_table t' /\ is_Some (admin_cmd_cache_ t' !! used_constraints ctx) /\
  num_fetches_ t' = u64 (num_fetches_ t + 1) /\
  (forall k, is_Some (admin_cmd_cache_ t !! k) -> is_Some (admin_cmd_cache_ t' !! k)) /\
  enable_server_side_filtering_ t' = enable_server_side_filtering_ t.
Proof.
  unfold fetch. intros H Ht. apply bind_Ok in H as (u & _ & H).
  destruct (transformDataParallel _ _ _) as [[results responses]|]; [|done].
  apply bind_Ok in H as (u' & _ & H). apply bind_Ok in H as (d & Ed & H).
  injection H as <- <-. apply aggregate_rectangular in Ed. split_and!; simpl; try done.
  - apply map_Forall_insert_2; [|done]. split; [done|apply map_Forall_empty].
  - rewrite lookup_insert_eq. eauto.
  - intros k Hk. rewrite lookup_insert. case_decide; eauto.
Qed.

Lemma selectNodes_constraints allow nodes ctx sel ctx' :
  selectNodes used_order allow nodes ctx = Ok (sel, ctx') -> constraints ctx' = constraints ctx.
Proof.
  unfold selectNodes. intros H. apply bind_Ok in H as ([ns used] & _ & H). by injection H as _ <-.
Qed.

Lemma in_cache_true u t :
  dataIsInCacheForUsedConstraints u t = true -> is_Some (admin_cmd_cache_ t !! u).
Proof. apply bool_decide_eq_true. Qed.

(** What any successful refill does: the data the query needs is in the cache,
    everything cached before still is, and a fetch was counted if one was made. *)
Lemma refillCache_spec now nodes ctx t m t' ctx' m' :
  refillCache now nodes ctx t m = Ok (t', ctx', m') -> wf_table t ->
  wf_table t' /\ is_Some (admin_cmd_cache_ t' !! used_constraints ctx') /\
  constraints ctx' = constraints ctx /\
  (forall k, is_Some (admin_cmd_cache_ t !! k) -> is_Some (admin_cmd_cache_ t' !! k)) /\
  enable_server_side_filtering_ t' = enable_server_side_filtering_ t /\
  (t' = t \/ num_fetches_ t' = u64 (num_fetches_ t + 1)).
Proof.
  unfold refillCache. destruct nodes as [nodes|]; [|done]. intros H Ht.
  apply bind_Ok in H as ([sel ctx1] & Hs & H). apply selectNodes_constraints in Hs.
  assert (Hfetch : forall cmd ctx2, constraints ctx2 = constraints ctx1 ->
    ('(t0, m0) ← fetch now sel cmd ctx2 t m; Ok (t0, ctx2, m0)) = Ok (t', ctx', m') ->
    wf_table t' /\ is_Some (admin_cmd_cache_ t' !! used_constraints ctx') /\
    constraints ctx' = constraints ctx /\
    (forall k, is_Some (admin_cmd_cache_ t !! k) -> is_Some (admin_cmd_cache_ t' !! k)) /\
    enable_server_side_filtering_ t' = enable_server_side_filtering_ t /\
    (t' = t \/ num_fetches_ t' = u64 (num_fetches_ t + 1))).
  { intros cmd ctx2 Hc HF. apply bind_Ok in HF as ([t0 m0] & E & HF). injection HF as <- <- <-.
    destruct (fetch_spec _ _ _ _ _ _ _ _ E Ht) as (? & ? & ? & ? & ?).
    split_and!; try done; [congruence|by right]. }
  destruct (allowServerSideFiltering t) eqn:Ea; simpl in H.
  - destruct (getCommandToSend ctx1) as [cmd u].
    destruct (dataIsInCacheForUsedConstraints u t) eqn:Ed.
    { injection H as <- <- <-. apply in_cache_true in Ed. split_and!; try done. by left. }
    unfold allowServerSideFiltering in Ea. apply andb_true_iff in Ea as [_ Ea%Z.leb_le].
    rewrite (proj2 (Z.ltb_ge MAX_FETCHES (num_fetches_ t))) in H by done. simpl in H.
    by apply (Hfetch cmd (set_used u ctx1)).
  - destruct (getCommandToSend _) as [cmd u].
    destruct (dataIsInCacheForUsedConstraints u t) eqn:Ed; [|by apply (Hfetch cmd (set_used u ctx1))].
    injection H as <- <- <-. apply in_cache_true in Ed. split_and!; try done. by left.
Qed.

(** ** Serving the cached rows *)

(** The rows a query sees: those that satisfy the indexable constraint, if
    there is one with a value. *)
Definition matching (ctx : QueryContext) (d : TableData) : TableData :=
  match findIndexableConstraint ctx with
  | Some (col, (_, Some expr)) =>
      match getColumnsImpl !! Z.to_nat col with
      | Some (name, _) =>
          match d !! name with
          | Some c =>
              if decide (positions 0 expr c = []) then ∅ else rows_at (positions 0 expr c) <$> d
          | None => ∅
          end
      | None => ∅
      end
  | _ => d
  end.

(** The constraint that would be indexed is on a column of the table. *)
Definition indexable_ok (ctx : QueryContext) : Prop :=
  match findIndexableConstraint ctx with
  | Some (col, _) => 0 <= col < Z.of_nat (length getColumnsImpl) /\ is_i32 col
  | None => True
  end.

Lemma findIndexable_EQ ctx col c :
  findIndexableConstraint ctx = Some (col, c) -> c.1 = SQLITE_INDEX_CONSTRAINT_EQ.
Proof.
  unfold findIndexableConstraint. intros H. apply head_Some_elem_of in H.
  apply list_elem_of_bind in H as ([k cs] & H & _). apply list_elem_of_fmap in H as (c' & [= -> ->] & H).
  by apply list_elem_of_filter in H as [H _].
Qed.

(** The lookup in an index that is the column's index. *)
Lemma serve_index ctx d col op expr :
  findIndexableConstraint ctx = Some (col, (op, Some expr)) ->
  (exists n, rectangular n d) ->
  match index_of d col !! expr with
  | None => matching ctx d = ∅
  | Some idxs => select_rows d idxs = Some (matching ctx d)
  end.
Proof.
  intros Hf [n Hn]. unfold index_of, matching. rewrite Hf.
  destruct (getColumnsImpl !! Z.to_nat col) as [[name ty]|]; [|by rewrite lookup_empty].
  destruct (d !! name) as [c|] eqn:Hc; [|by rewrite lookup_empty].
  rewrite index_loop_lookup, lookup_empty. case_decide as E; [done|]. simpl.
  apply (select_rows_spec _ n); [done|]. apply Forall_forall. intros p Hp.
  apply positions_lt in Hp. rewrite (Hn name c Hc) in Hp. lia.
Qed.

Lemma serve_spec ctx d :
  wf_data d -> indexable_ok ctx ->
  exists d', serve ctx d = Ok (matching ctx (data d), d') /\ data d' = data d /\ wf_data d'.
Proof.
  intros Hd Hok. unfold serve, indexable_ok in *.
  destruct (findIndexableConstraint ctx) as [[col [op [expr|]]]|] eqn:Hf; cbn [snd];
    [|exists d; split_and!; try done; unfold matching; by rewrite Hf..].
  destruct Hok as [Hcol Hi32]. pose proof (findIndexable_EQ _ _ _ Hf) as Hop. simpl in Hop.
  assert (Hb : exists d', (match indices d !! col with
      | Some _ => Ok d
      | None => buildIndexForConstraint d col (op, Some expr)
      end) = Ok d' /\ data d' = data d /\ wf_data d' /\
      indices d' !! col = Some (index_of (data d) col)).
  { destruct Hd as [Hr Hx]. destruct (indices d !! col) as [idx|] eqn:E.
    { exists d. split_and!; try done. rewrite E. f_equal. by apply Hx. }
    unfold buildIndexForConstraint. cbn [fst]. rewrite Hop, Z.eqb_refl.
    rewrite u64_id by (unfold is_u64, is_i32 in *; lia).
    rewrite (proj2 (Z.ltb_lt col _)) by lia. cbn [hs_check mbind res_bind].
    destruct (getColumnsImpl !! Z.to_nat col) as [[name ty]|] eqn:En;
      [|apply lookup_ge_None in En; lia].
    assert (Hi : index_of (data d) col =
      match data d !! name with Some c => index_loop c 0 ∅ | None => ∅ end)
      by (unfold index_of; by rewrite En).
    eexists. split; [done|]. split_and!; simpl; [done| |].
    - split; [done|]. apply map_Forall_insert_2; [|done]. simpl. rewrite Hi.
      by destruct (data d !! name).
    - by rewrite lookup_insert_eq, Hi. }
  destruct Hb as (d' & -> & Ed & Hwf & Ei). exists d'. cbn [mbind res_bind]. rewrite Ei, Ed.
  pose proof (serve_index ctx (data d) col op expr Hf (proj1 Hd)) as Hs.
  destruct (index_of (data d) col !! expr); rewrite Hs; done.
Qed.

Lemma matching_constraints ctx ctx' d :
  constraints ctx' = constraints ctx -> matching ctx' d = matching ctx d.
Proof. intros E. unfold matching, findIndexableConstraint. by rewrite E. Qed.

Lemma indexable_constraints ctx ctx' :
  constraints ctx' = constraints ctx -> indexable_ok ctx -> indexable_ok ctx'.
Proof. intros E. unfold indexable_ok, findIndexableConstraint. by rewrite E. Qed.

(** ** Queries *)

Lemma getData_spec now nodes ctx t m t1 ctx1 m1 :
  wf_table t -> indexable_ok ctx ->
  refillCache now nodes ctx t m = Ok (t1, ctx1, m1) ->
  exists e t2, admin_cmd_cache_ t1 !! used_constraints ctx1 = Some e /\
    getData now nodes ctx t m = Ok (matching ctx (data (entry e)), t2, m1) /\
    wf_table t2 /\
    (data ∘ entry) <$> admin_cmd_cache_ t2 = (data ∘ entry) <$> admin_cmd_cache_ t1.
Proof.
  intros Ht Hok E. destruct (refillCache_spec _ _ _ _ _ _ _ _ E Ht) as (Ht1 & [e He] & Hc & _).
  destruct (serve_spec ctx1 (entry e)) as (d' & Es & Ed & Hd');
    [by eapply Ht1|by apply (indexable_constraints ctx)|].
  exists e. eexists. split; [done|]. unfold getData. rewrite E. cbn [mbind res_bind].
  unfold dataIsInCacheForUsedConstraints. rewrite bool_decide_eq_true_2 by eauto.
  cbn [hs_check mbind res_bind]. rewrite He, Es. cbn [mbind res_bind].
  rewrite (matching_constraints ctx ctx1) by done. split; [done|]. split.
  - apply map_Forall_insert_2; [done|exact Ht1].
  - simpl. rewrite fmap_insert. simpl. rewrite Ed. apply insert_id. by rewrite lookup_fmap, He.
Qed.

(** C2: once the cache could be refilled, [getData] succeeds: the data for the
    used constraints is cached, and the rows returned are exactly the cached
    rows whose column equals the value of the first equality constraint (all
    rows when there is none, or when it compares with null), whether the index
    is built now or was cached. The cached rows stay as they were and every
    cached index remains the index of its column. *)
Theorem getData_exact now nodes ctx t m t1 ctx1 m1 :
  wf_table t -> indexable_ok ctx ->
  refillCache now nodes ctx t m = Ok (t1, ctx1, m1) ->
  exists e t2, admin_cmd_cache_ t1 !! used_constraints ctx1 = Some e /\
    getData now nodes ctx t m = Ok (matching ctx (data (entry e)), t2, m1) /\
    wf_table t2 /\
    (data ∘ entry) <$> admin_cmd_cache_ t2 = (data ∘ entry) <$> admin_cmd_cache_ t1.
Proof. apply getData_spec. Qed.

(** A new query drops exactly the cache entries that are no longer valid
    for the current TTL and starts counting fetches from zero; changing the
    TTL by itself drops nothing. *)
Theorem newQuery_evicts isValid ttl t u :
  admin_cmd_cache_ (newQuery isValid t) !! u =
    (e ← admin_cmd_cache_ t !! u; if isValid (cache_ttl_ t) e then Some e else None) /\
  num_fetches_ (newQuery isValid t) = 0 /\
  admin_cmd_cache_ (setCacheTTL ttl t) = admin_cmd_cache_ t.
Proof.
  split_and!; [|done..]. simpl. rewrite map_lookup_filter.
  destruct (admin_cmd_cache_ t !! u) as [e|]; simpl; [|done].
  by destruct (isValid (cache_ttl_ t) e).
Qed.

(** Several [getData] calls of one query. *)
Fixpoint run_query (qs : list (Z * option (list ServerNode) * QueryContext)) (t : Table)
    (m : Metadata) : res (Table * Metadata) :=
  match qs with
  | [] => Ok (t, m)
  | (now, nodes, ctx) :: qs =>
      '(_, t, m) ← getData now nodes ctx t m;
      run_query qs t m
  end.

(** At most six filtered fetches, then one of the whole table. *)
Definition fetch_inv (t : Table) : Prop :=
  0 <= num_fetches_ t <= 6 \/
  (num_fetches_ t = 7 /\ is_Some (admin_cmd_cache_ t !! ∅)).

Section bound.
Context (Horder : forall s, used_order s ≡ₚ elements s).
(** Without constraints there is nothing a command could use. *)
Context (Hcmd : forall u,
  (getCommandToSend {| constraints := ∅; used_constraints := u |}).2 = u).

Lemma refillCache_unfiltered now nodes ctx t m t' ctx' m' :
  allowServerSideFiltering t = false -> used_constraints ctx = ∅ -> wf_table t ->
  refillCache now nodes ctx t m = Ok (t', ctx', m') ->
  is_Some (admin_cmd_cache_ t' !! ∅) /\
  (is_Some (admin_cmd_cache_ t !! ∅) -> t' = t).
Proof.
  intros Ha Hu Ht H. unfold refillCache in H. destruct nodes as [nodes|]; [|done].
  apply bind_Ok in H as ([sel ctx1] & Hs & H). rewrite Ha in Hs, H. cbn [negb orb] in H.
  assert (Hu1 : used_constraints ctx1 = ∅).
  { unfold selectNodes in Hs. apply bind_Ok in Hs as ([ns used] & Hl & Hs). injection Hs as _ <-.
    assert (used = ∅) as ->.
    { clear -Hl. revert ns used Hl. induction nodes as [|n nodes IH]; intros ns used Hl.
      - by injection Hl as _ <-.
      - cbn [select_loop mbind res_bind] in Hl.
        apply bind_Ok in Hl as ([rs us] & Hr & Hl). injection Hl as _ <-. by eapply IH. }
    assert (used_order ∅ = []) as ->.
    { apply Permutation_nil_r. by rewrite (Horder ∅), elements_empty. }
    exact Hu. }
  specialize (Hcmd (used_constraints ctx1)). rewrite Hu1 in Hcmd, H.
  destruct (getCommandToSend _) as [cmd u]. simpl in Hcmd. subst u.
  destruct (dataIsInCacheForUsedConstraints ∅ t) eqn:Ed.
  - injection H as <- <- <-. by apply in_cache_true in Ed.
  - apply bind_Ok in H as ([t0 m0] & E & H). injection H as <- <- <-.
    destruct (fetch_spec _ _ _ _ _ _ _ _ E Ht) as (_ & Hk & _). split; [exact Hk|].
    intros Hin. by apply bool_decide_eq_false in Ed.
Qed.

Lemma getData_fetch_inv now nodes ctx t m r t' m' :
  getData now nodes ctx t m = Ok (r, t', m') ->
  used_constraints ctx = ∅ -> indexable_ok ctx -> wf_table t -> fetch_inv t ->
  wf_table t' /\ fetch_inv t'.
Proof.
  intros H Hu Hok Ht Hinv. unfold getData in H.
  apply bind_Ok in H as ([[t1 ctx1] m1] & Er & H).
  destruct (refillCache_spec _ _ _ _ _ _ _ _ Er Ht) as (Ht1 & [e He] & Hc & Hk & _ & Hn).
  apply bind_Ok in H as (? & _ & H). rewrite He in H.
  destruct (serve_spec ctx1 (entry e)) as (d' & Es & Ed & Hd');
    [by eapply Ht1|by apply (indexable_constraints ctx)|].
  rewrite Es in H. injection H as _ <- _.
  assert (Hi1 : fetch_inv t1).
  { destruct (decide (num_fetches_ t <= MAX_FETCHES)) as [Hle|Hgt].
    - unfold fetch_inv, MAX_FETCHES in *. destruct Hn as [->|Hn]; [done|]. left.
      destruct Hinv as [?|[? ?]]; [|lia]. rewrite Hn, u64_id by (unfold is_u64; lia). lia.
    - assert (Ha : allowServerSideFiltering t = false).
      { unfold allowServerSideFiltering. rewrite (proj2 (Z.leb_gt _ _)) by lia. apply andb_false_r. }
      destruct (refillCache_unfiltered _ _ _ _ _ _ _ _ Ha Hu Ht Er) as [Hin Hsame].
      unfold fetch_inv, MAX_FETCHES in *. destruct Hinv as [Hr|[Hr Hk0]]; [|rewrite Hsame by done; by right].
      destruct Hn as [->|Hn]; [by left|]. right. split; [|done].
      rewrite Hn, u64_id by (unfold is_u64; lia). lia. }
  split.
  - apply map_Forall_insert_2; [done|exact Ht1].
  - destruct Hi1 as [?|[? ?]]; [by left|right]. split; [done|]. simpl. rewrite lookup_insert.
    case_decide; eauto.
Qed.

End bound.
End table.
End AdminTable.

(** ** Witnesses: a cluster of one node *)
Module AdminTableWitness.
Import AdminTable AdminTableDataWitness.

Definition command (ctx : QueryContext) := ("server stream list", used_constraints ctx).
Definition sched_seq (n : nat) : list nat := seq 0 n.
Definition send_ok (reqs : list (string * string)) : list Response :=
  (fun _ => ok_reply "reply") <$> reqs.

Definition query : QueryContext :=
  {| constraints := {[ 1 := [(2, Some "s1")] ]}; used_constraints := ∅ |}.
Definition nothing : Metadata := {| contacted_nodes := 0; failures := ∅ |}.

Lemma wf_new : wf_table columns new_Table.
Proof. apply map_Forall_empty. Qed.

Lemma getData_exact_witness :
  exists t2 m, getData columns command elements sched_seq send_ok 0 (Some [node 1]) query
    new_Table nothing =
    Ok ({[ "stream_name" := [Some "s1"]; "node_id" := [Some "1"] ]}, t2, m).
Proof.
  destruct (refillCache columns command elements sched_seq send_ok 0 (Some [node 1]) query
    new_Table nothing) as [[[t1 ctx1] m1]|] eqn:E; [|exfalso; revert E; vm_compute; discriminate].
  destruct (getData_exact columns command elements sched_seq send_ok 0 (Some [node 1]) query
    new_Table nothing t1 ctx1 m1 wf_new) as (e & t2 & He & Hg & _).
  - vm_compute. repeat split; discriminate.
  - exact E.
  - exists t2, m1. rewrite Hg. do 3 f_equal.
    vm_compute in E. injection E as <- <- <-. vm_compute in He. injection He as <-. reflexivity.
Defined.

End AdminTableWitness.
