(* ===== verification/HealthChecker.v ===== *)
(** * The store's health check (src/hstream-store/cbits/logdevice/
    ld_health_checker.cpp)

    [LdChecker::check] asks every node of the cluster for the states it sees
    and compares the number of nodes reported not alive with a limit. The
    answers are LogDevice's: a list with one answer per node asked. *)

From stdpp Require Import base gmap strings list pretty.
From Stdlib Require Import ZArith Lia.
From S2P Require Import Prelude.

Module HealthChecker.

(** [facebook::logdevice::Status], as far as the code tells it apart. *)
Inductive Status := E_OK | E_TIMEDOUT | E_other (code : Z).

#[global] Instance Status_eq_dec : EqDecision Status.
Proof. solve_decision. Defined.

(** [ClusterStateResult]; a node's state and status are [uint16_t]s. *)
Record ClusterStateResult := {
  node_id : Z;
  addr : string;
  status : Status;
  nodes_state : list (Z * Z);
  nodes_status : list (Z * Z);
}.

(** What a node's callback is called with. *)
Record Answer := {
  a_status : Status;
  a_nodes_state : list (Z * Z);
  a_boycotted : list Z;
  a_nodes_status : list (Z * Z);
}.

Definition addResult (node_id : Z) (address : string) (a : Answer)
    (stateResults_ : list ClusterStateResult) : list ClusterStateResult :=
  stateResults_ ++
    [{| node_id := node_id; addr := address; status := a_status a;
        nodes_state := a_nodes_state a; nodes_status := a_nodes_status a |}].

(** [getClusterState]: results are cleared, one request per node is posted and
    as many callbacks awaited; [order] is the order they happen in. *)
Definition getClusterState (answer : Z -> Answer) (order : list (Z * string))
    (stateResults_ : list ClusterStateResult) : list ClusterStateResult :=
  foldl (fun rs na => addResult na.1 na.2 (answer na.1) rs) [] order.

(** One [(node_idx, state)] of an answer. *)
Definition check_node (hasNode : Z -> bool) (set : gset Z) (ns : Z * Z) : gset Z :=
  let set := if hasNode ns.1 && negb (ns.2 =? 0) then {[ns.1]} ∪ set else set in
  if hasNode ns.1 && (ns.2 =? 3) then {[ns.1]} ∪ set else set.

Definition check_result (hasNode : Z -> bool) (set : gset Z) (res : ClusterStateResult) : gset Z :=
  if bool_decide (status res = E_OK) then foldl (check_node hasNode) set (nodes_state res)
  else set.

Definition unhealthy_nodes_set (hasNode : Z -> bool) (rs : list ClusterStateResult) : gset Z :=
  foldl (check_result hasNode) ∅ rs.

(** [check]; the limit is an [int] compared with a [size_t]. [service] is the
    service discovery configuration: the nodes and their addresses. *)
Definition check (service : gmap Z string) (answer : Z -> Answer) (order : list (Z * string))
    (unhealthy_node_limit : Z) (stateResults_ : list ClusterStateResult)
    : bool * list ClusterStateResult :=
  let stateResults_ := getClusterState answer order stateResults_ in
  let set := unhealthy_nodes_set (fun n => bool_decide (is_Some (service !! n))) stateResults_ in
  (Z.of_nat (size set) <=? u64 unhealthy_node_limit, stateResults_).

(** The report's columns for one answer. *)
Definition nodesStateToString_nodes (hasNode : Z -> bool) (l : list (Z * Z)) : list Z :=
  (filter (fun ns => hasNode ns.1 && negb (ns.2 =? 0) = true) l).*1.

Definition nodesStatusToUnhealthy_nodes (hasNode : Z -> bool) (l : list (Z * Z)) : list Z :=
  (filter (fun ns => hasNode ns.1 && (ns.2 =? 3) = true) l).*1.

(** [folly::join] of node indexes. *)
Definition join (l : list Z) : string :=
  match l with
  | [] => ""
  | n :: l => foldl (fun s m => s +:+ "," +:+ pretty m) (pretty n) l
  end.

Definition nodesStateToString (hasNode : Z -> bool) (l : list (Z * Z)) : string :=
  join (nodesStateToString_nodes hasNode l).

Definition nodesStatusToUnhealthy (hasNode : Z -> bool) (l : list (Z * Z)) : string :=
  join (nodesStatusToUnhealthy_nodes hasNode l).

(** The word for the status of an answer. *)
Definition status_word (s : Status) : string :=
  match s with E_OK => "ALIVE" | E_TIMEDOUT => "SUSPECT" | E_other _ => "DEAD" end.

(** The warnings of [printUnhealthyNodes]; [sets] is the unordered set in the
    order it is iterated in. *)
Definition printUnhealthyNodes (hasNode : Z -> bool) (rs : list ClusterStateResult)
    (sets : list Z) : list string :=
  ((fun res => "[Node " +:+ pretty (node_id res) +:+ "(" +:+ addr res +:+ ")]: status: " +:+
       status_word (status res) +:+ ", dead nodes index: [" +:+
       nodesStateToString hasNode (nodes_state res) +:+ "], unhealthy nodes index: [" +:+
       nodesStatusToUnhealthy hasNode (nodes_status res) +:+ "]") <$> rs) ++
  ["Check return unhealthy nodes index: [" +:+ join sets +:+ "]"].

(** The warnings of [check] when it found these results. *)
Definition check_warnings (hasNode : Z -> bool) (rs : list ClusterStateResult) : list string :=
  let set := unhealthy_nodes_set hasNode rs in
  if bool_decide (set = ∅) then []
  else ("Cluster has " +:+ pretty (Z.of_nat (size set)) +:+ " unhealthy nodes:") ::
       printUnhealthyNodes hasNode rs (elements set).

(** ** Proofs *)

(** Some node answered in time that it sees [n], a node of the cluster, in a
    state other than alive. *)
Definition reported (service : gmap Z string) (answer : Z -> Answer) (n : Z) : Prop :=
  is_Some (service !! n) /\
  exists m st, is_Some (service !! m) /\ a_status (answer m) = E_OK /\
    (n, st) ∈ a_nodes_state (answer m) /\ st <> 0.

Lemma elem_of_check_node hasNode set ns n :
  n ∈ check_node hasNode set ns <->
    n ∈ set \/ (n = ns.1 /\ hasNode n = true /\ ns.2 <> 0).
Proof.
  unfold check_node. destruct ns as [k st]. simpl.
  destruct (Z.eqb_spec st 0), (Z.eqb_spec st 3), (hasNode k) eqn:E; simpl; try lia;
    rewrite ?elem_of_union, ?elem_of_singleton; naive_solver congruence.
Qed.

Lemma elem_of_check_nodes hasNode l set n :
  n ∈ foldl (check_node hasNode) set l <->
    n ∈ set \/ (hasNode n = true /\ exists st, (n, st) ∈ l /\ st <> 0).
Proof.
  revert set. induction l as [|[k st] l IH]; intros set; simpl.
  - split; [by left|]. intros [?|(_ & st & H & _)]; [done|by apply not_elem_of_nil in H].
  - rewrite IH, elem_of_check_node. simpl. setoid_rewrite elem_of_cons. naive_solver.
Qed.

Lemma elem_of_unhealthy hasNode rs set n :
  n ∈ foldl (check_result hasNode) set rs <->
    n ∈ set \/ (hasNode n = true /\ exists r st, r ∈ rs /\ status r = E_OK /\
                 (n, st) ∈ nodes_state r /\ st <> 0).
Proof.
  revert set. induction rs as [|r rs IH]; intros set; simpl.
  - split; [by left|]. intros [?|(_ & r & st & H & _)]; [done|by apply not_elem_of_nil in H].
  - rewrite IH. unfold check_result. setoid_rewrite elem_of_cons.
    case_bool_decide; [rewrite elem_of_check_nodes|]; naive_solver.
Qed.

(** The report accounts for the verdict: the nodes counted are those listed as
    dead by the lines of the answers that say ALIVE. *)
Lemma unhealthy_listed hasNode rs n :
  n ∈ unhealthy_nodes_set hasNode rs <->
    exists r, r ∈ rs /\ status_word (status r) = "ALIVE" /\
      n ∈ nodesStateToString_nodes hasNode (nodes_state r).
Proof.
  assert (HA : forall s, status_word s = "ALIVE" <-> s = E_OK) by (by intros []).
  unfold unhealthy_nodes_set. rewrite elem_of_unhealthy. setoid_rewrite HA.
  unfold nodesStateToString_nodes. setoid_rewrite list_elem_of_fmap. split.
  - intros [H|(Hn & r & st & Hr & Hok & Hin & Hst)]; [set_solver|].
    exists r. split_and!; [done..|]. exists (n, st). split; [done|].
    apply list_elem_of_filter. simpl. rewrite Hn. split; [|done]. by destruct (Z.eqb_spec st 0).
  - intros (r & Hr & Hok & [k st] & -> & Hf). right.
    apply list_elem_of_filter in Hf as [Hb Hin]. simpl in Hb |- *.
    apply andb_prop in Hb as [Hn Hst]. split; [done|]. exists r, st. split_and!; try done.
    by destruct (Z.eqb_spec st 0).
Qed.

Lemma getClusterState_results answer order rs :
  getClusterState answer order rs =
    (fun na => {| node_id := na.1; addr := na.2; status := a_status (answer na.1);
                  nodes_state := a_nodes_state (answer na.1);
                  nodes_status := a_nodes_status (answer na.1) |}) <$> order.
Proof.
  unfold getClusterState. change (?f <$> order) with ([] ++ (f <$> order)).
  generalize (@nil ClusterStateResult) as acc.
  induction order as [|na order IH]; intros acc; simpl; [by rewrite app_nil_r|].
  rewrite IH. unfold addResult. by rewrite <- app_assoc.
Qed.

(** The check accepts exactly when the number of cluster nodes that some
    timely answer reports as not alive is at most the limit, whatever order the
    answers arrive in and whatever an earlier check left behind; a node that
    does not answer counts only if another one reports it. A negative limit is
    compared as a huge unsigned number, so with it every cluster is accepted. *)
Theorem health_check_exact service answer order limit old :
  order ≡ₚ map_to_list service -> is_i32 limit -> Z.of_nat (size service) < 2 ^ 32 ->
  exists bad : gset Z,
    (forall n, n ∈ bad <-> reported service answer n) /\
    ((check service answer order limit old).1 = true <->
       (0 <= limit -> Z.of_nat (size bad) <= limit)).
Proof.
  intros Ho Hl Hs. set (hasNode := fun n => bool_decide (is_Some (service !! n))).
  set (bad := unhealthy_nodes_set hasNode (getClusterState answer order old)).
  assert (Hb : forall n, n ∈ bad <-> reported service answer n).
  { intros n. unfold bad, unhealthy_nodes_set. rewrite elem_of_unhealthy, getClusterState_results.
    unfold hasNode, reported. rewrite bool_decide_eq_true. split.
    - intros [H|(Hn & r & st & Hr & Hok & Hin & Hst)]; [set_solver|]. split; [done|].
      apply list_elem_of_fmap in Hr as ([m a] & -> & Hm). simpl in *.
      rewrite Ho, elem_of_map_to_list in Hm. exists m, st. split_and!; eauto.
    - intros (Hn & m & st & [a Hm] & Hok & Hin & Hst). right. split; [done|].
      eexists _, st. split_and!; [apply list_elem_of_fmap; exists (m, a)| | |exact Hst].
      + split; [done|]. by rewrite Ho, elem_of_map_to_list.
      + done.
      + done. }
  exists bad. split; [done|]. unfold check. simpl. fold hasNode. fold bad.
  assert (Hsz : (size bad <= size service)%nat).
  { rewrite <- (size_dom service). apply subseteq_size. intros n Hn. apply Hb in Hn as [Hn _].
    by apply elem_of_dom. }
  rewrite Z.leb_le. unfold is_i32 in Hl. destruct (decide (0 <= limit)) as [H0|H0].
  - rewrite u64_id by (unfold is_u64; lia). naive_solver.
  - split; [lia|]. intros _. unfold u64. rewrite <- (Z.mod_unique limit (2 ^ 64) (-1) (limit + 2 ^ 64)); lia.
Qed.
End HealthChecker.

(** ** Witness: one of two nodes is reported dead *)
Module HealthCheckerWitness.
Import HealthChecker.

Definition cluster : gmap Z string := {[ 1 := "a:1"; 2 := "b:1" ]}.
Definition answers (n : Z) : Answer :=
  if n =? 1 then
    {| a_status := E_OK; a_nodes_state := [(1, 0); (2, 1)]; a_boycotted := [];
       a_nodes_status := [] |}
  else
    {| a_status := E_TIMEDOUT; a_nodes_state := []; a_boycotted := []; a_nodes_status := [] |}.

Lemma health_check_exact_witness :
  (check cluster answers (map_to_list cluster) 0 []).1 = false /\
  exists bad : gset Z, (forall n, n ∈ bad <-> reported cluster answers n) /\
    ~ (0 <= 0 -> Z.of_nat (size bad) <= 0).
Proof.
  split; [reflexivity|].
  destruct (health_check_exact cluster answers (map_to_list cluster) 0 [])
    as (bad & Hb & Hc); [reflexivity|unfold is_i32; lia|vm_compute; reflexivity|].
  exists bad. split; [exact Hb|]. intros H. apply Hc in H. discriminate.
Defined.
End HealthCheckerWitness.
