(* ===== verification/ConfigStore.v ===== *)
(** * The versioned configuration store (src/hstream-store/cbits/logdevice/
    hs_versioned_config_store.cpp)

    The function that extracts a value's version, the callbacks that hand
    LogDevice's results to Haskell and the choice of an update's condition. *)

From stdpp Require Import base strings list.
From Stdlib Require Import ZArith Lia.
From S2P Require Import Prelude.

Module ConfigStore.

(** Strings are lists of character codes. *)
Definition colon : Z := 58.
Definition is_space (c : Z) : bool := (c =? 32) || ((9 <=? c) && (c <=? 13)).
Definition is_digit (c : Z) : bool := (48 <=? c) && (c <=? 57).

(** The digits at the front of a string. *)
Fixpoint digits (s : list Z) : list Z :=
  match s with
  | c :: s => if is_digit c then c :: digits s else []
  | [] => []
  end.

Fixpoint skip_space (s : list Z) : list Z :=
  match s with
  | c :: s' => if is_space c then skip_space s' else s
  | [] => []
  end.

Definition digits_value (ds : list Z) : Z := foldl (fun acc c => 10 * acc + (c - 48)) 0 ds.

(** [std::stoll]: leading white space, a sign, the longest run of digits. *)
Definition stoll (s : list Z) : res Z :=
  let s := skip_space s in
  let '(neg, s) := match s with
    | c :: s' => if c =? 45 then (true, s') else if c =? 43 then (false, s') else (false, s)
    | [] => (false, [])
    end in
  match digits s with
  | [] => Err (StdExn "stoll: invalid_argument")
  | ds =>
      let v := if neg : bool then - digits_value ds else digits_value ds in
      if (- 2 ^ 63 <=? v) && (v <? 2 ^ 63) then Ok v else Err (StdExn "stoll: out_of_range")
  end.

(** The part before the first colon. *)
Fixpoint before_colon (s : list Z) : list Z :=
  match s with
  | c :: s => if c =? colon then [] else c :: before_colon s
  | [] => []
  end.

(** [extract_function]: an exception leaves the version at 0, and 0 is none. *)
Definition extract_function (s : list Z) : option Z :=
  let version := match stoll (before_colon s) with Ok v => u64 v | Err _ => 0 end in
  if version =? 0 then None else Some version.

(** ** Callbacks *)

(** LogDevice's [Status] codes the code compares with. *)
Class StatusCodes := {
  OK : Z;
  VERSION_MISMATCH : Z;
  OK_mismatch : OK <> VERSION_MISMATCH;
}.

(** [vcs_value_callback_data_t] and [vcs_write_callback_data_t]. *)
Record value_cb_data := { v_st : Z; v_val : option (list Z) }.
Record write_cb_data := { w_st : Z; w_version : Z; w_val : option (list Z) }.

(** The lambda of [logdevice_vcs_get_config] and of
    [logdevice_vcs_get_latest_config]; the Haskell side is always woken up. *)
Definition value_cb `{StatusCodes} (st : Z) (val : list Z) (cb_data : option value_cb_data)
    : option value_cb_data :=
  (fun d => if st =? OK then {| v_st := st; v_val := Some val |}
            else {| v_st := st; v_val := v_val d |}) <$> cb_data.

(** The lambda of [logdevice_vcs_update_config]. *)
Definition write_cb `{StatusCodes} (st version : Z) (val : list Z) (cb_data : option write_cb_data)
    : option write_cb_data :=
  (fun d => if (st =? OK) || (st =? VERSION_MISMATCH)
            then {| w_st := st; w_version := version; w_val := Some val |}
            else {| w_st := st; w_version := w_version d; w_val := w_val d |}) <$> cb_data.

(** [VersionedConfigStore::Condition]. *)
Inductive Condition := overwrite | createIfNotExists | version_is (v : Z).

Definition update_condition (condition_mode version : Z) : Condition :=
  if condition_mode =? 2 then overwrite
  else if condition_mode =? 3 then createIfNotExists
  else version_is version.

(** ** Proofs *)

Lemma before_colon_app s rest : Forall (fun c => c <> colon) s -> before_colon (s ++ colon :: rest) = s.
Proof.
  induction 1 as [|c s Hc Hs IH]; simpl; [done|].
  destruct (Z.eqb_spec c colon); [done|]. by rewrite IH.
Qed.

Lemma digits_all ds : Forall (fun c => is_digit c = true) ds -> digits ds = ds.
Proof. induction 1 as [|c ds Hc Hd IH]; simpl; [done|]. by rewrite Hc, IH. Qed.

Lemma digit_range c : is_digit c = true -> 48 <= c <= 57.
Proof. unfold is_digit. rewrite andb_true_iff, !Z.leb_le. done. Qed.

Lemma digits_value_nonneg ds : Forall (fun c => is_digit c = true) ds -> 0 <= digits_value ds.
Proof.
  unfold digits_value. intros H. assert (Hg : forall acc, 0 <= acc ->
    0 <= foldl (fun acc c => 10 * acc + (c - 48)) acc ds); [|apply Hg; lia].
  induction H as [|c ds Hc Hd IH]; intros acc Ha; simpl; [done|].
  apply IH. apply digit_range in Hc. lia.
Qed.

Lemma stoll_digits ds :
  ds <> [] -> Forall (fun c => is_digit c = true) ds -> digits_value ds < 2 ^ 63 ->
  stoll ds = Ok (digits_value ds) /\ stoll (45 :: ds) = Ok (- digits_value ds).
Proof.
  intros Hne Hd Hv. pose proof (digits_value_nonneg ds Hd) as H0.
  assert (Hskip : skip_space ds = ds).
  { destruct Hd as [|c ds Hc Hd]; [done|]. apply digit_range in Hc. simpl. unfold is_space.
    by rewrite (proj2 (Z.eqb_neq c 32)), (proj2 (Z.leb_gt c 13)), andb_false_r by lia. }
  split.
  - unfold stoll. rewrite Hskip.
    destruct ds as [|c ds]; [done|]. apply Forall_cons in Hd as Hc. destruct Hc as [Hc _].
    apply digit_range in Hc.
    rewrite (proj2 (Z.eqb_neq c 45)), (proj2 (Z.eqb_neq c 43)) by lia.
    rewrite digits_all by done.
    by rewrite (proj2 (Z.leb_le _ _)), (proj2 (Z.ltb_lt _ _)) by lia.
  - unfold stoll. simpl. rewrite digits_all by done. destruct ds as [|c ds]; [done|].
    by rewrite (proj2 (Z.leb_le _ _)), (proj2 (Z.ltb_lt _ _)) by lia.
Qed.

(** A value that starts with a decimal version and a colon has that
    version, whatever follows; version 0 is no version, and a negative number
    is not rejected but read as a huge version. *)
Theorem extract_version ds rest :
  ds <> [] -> Forall (fun c => is_digit c = true) ds -> digits_value ds < 2 ^ 63 ->
  extract_function (ds ++ colon :: rest) =
    (if digits_value ds =? 0 then None else Some (digits_value ds)) /\
  extract_function (45 :: ds ++ colon :: rest) =
    (if digits_value ds =? 0 then None else Some (2 ^ 64 - digits_value ds)).
Proof.
  intros Hne Hd Hv. destruct (stoll_digits ds Hne Hd Hv) as [Hp Hn].
  pose proof (digits_value_nonneg ds Hd) as H0.
  assert (Hc : Forall (fun c => c <> colon) ds).
  { eapply Forall_impl; [exact Hd|]. intros c Hc%digit_range. unfold colon. lia. }
  split; unfold extract_function.
  - rewrite before_colon_app, Hp by done. rewrite u64_id by (unfold is_u64; lia). done.
  - change (45 :: ds ++ colon :: rest) with ((45 :: ds) ++ colon :: rest).
    rewrite before_colon_app, Hn by (constructor; done).
    destruct (Z.eqb_spec (digits_value ds) 0) as [->|Hz]; [done|].
    assert (u64 (- digits_value ds) = 2 ^ 64 - digits_value ds) as ->.
    { unfold u64. rewrite <- (Z.mod_unique _ (2 ^ 64) (-1) (2 ^ 64 - digits_value ds)); lia. }
    by rewrite (proj2 (Z.eqb_neq _ 0)) by lia.
Qed.

(** The bytes handed to Haskell are those of LogDevice exactly when its status
    says that they mean something. *)
Lemma write_cb_value `{StatusCodes} st version val d :
  write_cb st version val (Some d) =
    Some (if bool_decide (st = OK \/ st = VERSION_MISMATCH)
          then {| w_st := st; w_version := version; w_val := Some val |}
          else {| w_st := st; w_version := w_version d; w_val := w_val d |}).
Proof.
  unfold write_cb. simpl. f_equal.
  destruct (Z.eqb_spec st OK), (Z.eqb_spec st VERSION_MISMATCH); simpl;
    case_bool_decide; tauto.
Qed.

Lemma extract_version_witness :
  extract_function [52; 50; 58; 120] = Some 42 /\
  extract_function [45; 52; 50; 58; 120] = Some (2 ^ 64 - 42).
Proof.
  apply (extract_version [52; 50] [120]).
  - discriminate.
  - repeat constructor.
  - reflexivity.
Defined.
End ConfigStore.
