(* ===== verification/CheckpointStore.v ===== *)
(** * The checkpoint store (src/hstream-store/cbits/logdevice/hs_checkpoint.cpp)

    Haskell keeps, per customer, the last position read in each log. The
    functions here copy Haskell's arrays into C++ containers, call LogDevice's
    store, and hand its answer back through pointers and an [MVar]. *)

From stdpp Require Import base gmap strings list sorting.
From Stdlib Require Import ZArith Lia.
From S2P Require Import Prelude.

(** LogDevice's [CheckpointStore]. [contents] is what a store holds for a
    customer; a call answers with a status, and only [st_OK] promises
    something. *)
Class CheckpointStoreLib (St : Type) := {
  st_OK : Z;
  contents : St -> string -> gmap Z Z;
  getLSN : St -> string -> Z -> Z * Z;
  getAllCheckpoints : St -> string -> Z * gmap Z Z;
  updateLSN_one : St -> string -> Z -> Z -> Z * St;
  updateLSN : St -> string -> gmap Z Z -> Z * St;
  removeCheckpoints : St -> string -> list Z -> Z * St;
  removeAllCheckpoints : St -> string -> Z * St;
  getLSN_OK : forall s c l, (getLSN s c l).1 = st_OK ->
    contents s c !! l = Some (getLSN s c l).2;
  getAll_OK : forall s c, (getAllCheckpoints s c).1 = st_OK ->
    (getAllCheckpoints s c).2 = contents s c;
  updateLSN_one_OK : forall s c l v c', (updateLSN_one s c l v).1 = st_OK ->
    contents (updateLSN_one s c l v).2 c' =
    if decide (c' = c) then <[l := v]> (contents s c) else contents s c';
  updateLSN_OK : forall s c m c', (updateLSN s c m).1 = st_OK ->
    contents (updateLSN s c m).2 c' =
    if decide (c' = c) then m ∪ contents s c else contents s c';
  removeCheckpoints_OK : forall s c ls c', (removeCheckpoints s c ls).1 = st_OK ->
    contents (removeCheckpoints s c ls).2 c' =
    if decide (c' = c) then foldr delete (contents s c) ls else contents s c';
  removeAll_OK : forall s c c', (removeAllCheckpoints s c).1 = st_OK ->
    contents (removeAllCheckpoints s c).2 c' = if decide (c' = c) then ∅ else contents s c';
}.

Module CheckpointStore.

(** ** What a callback leaves for Haskell *)

(** The values written through the pointers, and the calls of
    [hs_try_putmvar]. *)
Record Reply (A : Type) := { r_st : option Z; r_val : option A; r_wakeups : nat }.
Arguments r_st {A}.
Arguments r_val {A}.
Arguments r_wakeups {A}.
Arguments Build_Reply {A}.

(** The lambda of the functions that only report a status; [st_out] says
    whether the pointer is not null. *)
Definition status_cb {A} (st_out : bool) (st : Z) : Reply A :=
  {| r_st := if st_out then Some st else None; r_val := None; r_wakeups := 1 |}.

(** ** Arrays from Haskell *)

(** [checkpoints[logid_t(logids[i])] = lsns[i]] for every [i]. *)
Definition build_checkpoints (logids lsns : list Z) (len : nat) : option (gmap Z Z) :=
  array_map_loop (fun i => logids !! i) (fun i => lsns !! i) len 0 ∅.

(** Every round pushes the element [logids] points to, which is the first one
    of the rest of the array: the pointer is not advanced. *)
Definition remove_list (logids : list Z) (len : nat) : option (list Z) :=
  array_list_loop (fun _ => head logids) len 0 [].

(** A [std::map] is walked by ascending keys. *)
Definition key_le {A} (x y : Z * A) : Prop := x.1 <= y.1.
#[global] Instance key_le_dec {A} : RelDecision (@key_le A) := fun x y => decide (x.1 <= y.1).
Definition std_map_list {A} (m : gmap Z A) : list (Z * A) := merge_sort key_le (map_to_list m).

Section store.
Context {St : Type} `{!CheckpointStoreLib St}.
Implicit Types (s : St) (c : string).

(** ** Asynchronous calls *)

Definition checkpoint_store_get_lsn (st_out value_out : bool) s c (logid : Z) : Reply Z :=
  let '(st, lsn) := getLSN s c logid in
  {| r_st := if st_out && value_out then Some st else None;
     r_val := if st_out && value_out then Some lsn else None;
     r_wakeups := 1 |}.

(** The value is [len], [keys] and [values]. *)
Definition checkpoint_store_get_all_checkpoints (st_out : bool) s c
    : Reply (Z * list Z * list Z) :=
  let '(st, log_lsn_map) := getAllCheckpoints s c in
  {| r_st := if st_out then Some st else None;
     r_val :=
       if st =? st_OK then
         let '(keys, values) :=
           foldl (fun kvs kv => (kvs.1 ++ [kv.1], kvs.2 ++ [kv.2])) ([], [])
             (std_map_list log_lsn_map) in
         Some (Z.of_nat (length keys), keys, values)
       else None;
     r_wakeups := 1 |}.

Definition checkpoint_store_update_lsn (st_out : bool) s c (logid lsn : Z) : Reply unit * St :=
  let '(st, s) := updateLSN_one s c logid lsn in (status_cb st_out st, s).

Definition checkpoint_store_update_multi_lsn (st_out : bool) s c (logids lsns : list Z)
    (len : nat) : option (Reply unit * St) :=
  checkpoints ← build_checkpoints logids lsns len;
  let '(st, s) := updateLSN s c checkpoints in Some (status_cb st_out st, s).

(** [reserve] takes a [size_t] and refuses more than [max_size()] elements. *)
Definition checkpoint_store_remove_checkpoints (st_out : bool) s c (logids : list Z)
    (logid_offset logid_len : Z) : option (res (Reply unit * St)) :=
  if (logid_offset <? 0) || (Z.of_nat (length logids) <? logid_offset) then None
  else if 2 ^ 60 - 1 <? u64 logid_len then Some (Err (StdExn "length_error"))
  else
    checkpoints ← remove_list (drop (Z.to_nat logid_offset) logids) (Z.to_nat logid_len);
    let '(st, s) := removeCheckpoints s c checkpoints in Some (Ok (status_cb st_out st, s)).

Definition checkpoint_store_remove_all_checkpoints (st_out : bool) s c : Reply unit * St :=
  let '(st, s) := removeAllCheckpoints s c in (status_cb st_out st, s).

(** ** Synchronous calls *)

Definition checkpoint_store_get_lsn_sync s c (logid : Z) : Z * Z := getLSN s c logid.

Definition checkpoint_store_update_lsn_sync s c (logid lsn : Z) : Z * St :=
  updateLSN_one s c logid lsn.

Definition checkpoint_store_update_multi_lsn_sync s c (logids lsns : list Z) (len : nat)
    : option (Z * St) :=
  checkpoints ← build_checkpoints logids lsns len; Some (updateLSN s c checkpoints).
End store.

(** ** Proofs: arrays *)

(** The position [lsn] is the last one the arrays give log [logid]. *)
Notation last_position logids lsns len logid lsn :=
  (last_write (fun i => logids !! i) (fun i => lsns !! i) len logid lsn).

Lemma build_checkpoints_spec logids lsns len :
  (len <= length logids)%nat -> (len <= length lsns)%nat -> Z.of_nat len < 2 ^ 31 ->
  exists m, build_checkpoints logids lsns len = Some m /\
    built (fun i => logids !! i) (fun i => lsns !! i) len m.
Proof.
  intros. apply (array_map_loop_spec _ _ len 0 ∅); [apply built_0|by apply readable_lookup..].
Qed.

Lemma remove_list_spec logid logids n :
  Z.of_nat n < 2 ^ 31 -> remove_list (logid :: logids) n = Some (replicate n logid).
Proof.
  intros Hn. apply (array_list_loop_spec _ (replicate n logid)); [|apply length_replicate|done].
  intros j Hj. by rewrite lookup_replicate_2.
Qed.

Lemma foldr_delete_replicate (m : gmap Z Z) n logid :
  foldr delete m (replicate (S n) logid) = delete logid m.
Proof.
  induction n as [|n IH]; [done|]. change (replicate (S (S n)) logid)
    with (logid :: replicate (S n) logid). cbn [foldr]. rewrite IH. by rewrite delete_delete_eq.
Qed.

#[global] Instance key_le_trans {A} : Transitive (@key_le A).
Proof. intros x y z. unfold key_le. lia. Qed.
#[global] Instance key_le_total {A} : Total (@key_le A).
Proof. intros x y. unfold key_le. lia. Qed.

Lemma std_map_list_perm {A} (m : gmap Z A) : std_map_list m ≡ₚ map_to_list m.
Proof. apply merge_sort_Permutation. Qed.

Lemma std_map_list_sorted {A} (m : gmap Z A) : StronglySorted Z.lt (std_map_list m).*1.
Proof.
  assert (NoDup (std_map_list m).*1) as Hnd
    by (rewrite std_map_list_perm; apply NoDup_fst_map_to_list).
  assert (StronglySorted key_le (std_map_list m)) as Hs by apply (StronglySorted_merge_sort _).
  induction Hs as [|[k v] l Hs IH Hhd]; simpl in *; [constructor|].
  apply NoDup_cons in Hnd as [Hk Hnd]. constructor; [by apply IH|].
  apply Forall_fmap, Forall_forall. intros [k' v'] Hin. simpl.
  rewrite Forall_forall in Hhd. specialize (Hhd _ Hin). unfold key_le in Hhd. simpl in Hhd.
  assert (k' <> k); [|lia]. intros ->. apply Hk. apply list_elem_of_fmap. by exists (k, v').
Qed.

(** ** Proofs: the store *)

Section store_proofs.
Context {St : Type} `{!CheckpointStoreLib St}.
Implicit Types (s : St) (c : string).

(** Writing several checkpoints at once and reading one back. The arrays
    from Haskell are read within their bounds; when the store reports success
    each log has the position given last for it in the arrays, a later read
    that succeeds returns this position, and logs and customers that are not
    named keep theirs. Haskell is woken up exactly once. *)
Theorem update_multi_lsn_roundtrip s c logids lsns len logid lsn :
  (len <= length logids)%nat -> (len <= length lsns)%nat -> Z.of_nat len < 2 ^ 31 ->
  last_position logids lsns len logid lsn ->
  exists r s', checkpoint_store_update_multi_lsn true s c logids lsns len = Some (r, s') /\
    r_wakeups r = 1%nat /\
    (r_st r = Some st_OK ->
     contents s' c !! logid = Some lsn /\
     (forall v, checkpoint_store_get_lsn_sync s' c logid = (st_OK, v) -> v = lsn) /\
     (forall l, l ∉ take len logids -> contents s' c !! l = contents s c !! l) /\
     (forall c', c' <> c -> contents s' c' = contents s c')).
Proof.
  intros Hl Hv Hlen Hw. destruct (build_checkpoints_spec logids lsns len) as (m & Em & Hm); [done..|].
  unfold checkpoint_store_update_multi_lsn. rewrite Em. cbn [mbind option_bind].
  pose proof (updateLSN_OK s c m) as Hok. destruct (updateLSN s c m) as [st s'] eqn:E.
  exists (status_cb true st), s'. split_and!; [done..|]. cbn [status_cb r_st fst snd] in *.
  intros [= ->]. destruct (built_union _ _ len m (contents s c) Hm) as [Hin Hout].
  pose proof (Hok c eq_refl) as Ec. rewrite decide_True in Ec by done.
  assert (contents s' c !! logid = Some lsn) as Hc by (rewrite Ec; by apply Hin).
  split_and!; [done| | |].
  - intros v Hg. unfold checkpoint_store_get_lsn_sync in Hg.
    pose proof (getLSN_OK s' c logid) as H. rewrite Hg in H. specialize (H eq_refl). simpl in H.
    congruence.
  - intros l Hn. rewrite Ec. apply Hout. intros i Hi Ei. apply Hn, list_elem_of_lookup.
    exists i. by rewrite lookup_take_lt.
  - intros c' Hne. rewrite Hok by done. by rewrite decide_False.
Qed.

(** Reading all checkpoints of a customer. On success Haskell gets two
    arrays of the announced length, with the log ids ascending, that hold
    exactly the store's checkpoints; on failure no array is allocated. Either
    way it is woken up exactly once. *)
Theorem get_all_checkpoints_exact s c :
  let r := checkpoint_store_get_all_checkpoints true s c in
  r_wakeups r = 1%nat /\
  (r_st r <> Some st_OK -> r_val r = None) /\
  (r_st r = Some st_OK ->
   exists keys values, r_val r = Some (Z.of_nat (size (contents s c)), keys, values) /\
     length keys = length values /\ StronglySorted Z.lt keys /\
     forall k v, contents s c !! k = Some v <-> (k, v) ∈ zip keys values).
Proof.
  unfold checkpoint_store_get_all_checkpoints. pose proof (getAll_OK s c) as Hok.
  destruct (getAllCheckpoints s c) as [st m]. cbn [fst snd r_st r_val r_wakeups] in *.
  rewrite foldl_unzip. cbn [app]. split_and!; [done| |].
  - intros Hne. destruct (Z.eqb_spec st st_OK); [congruence|done].
  - intros [= E]. rewrite <- Hok by done. rewrite E, Z.eqb_refl.
    exists (std_map_list m).*1, (std_map_list m).*2. split_and!.
    + do 4 f_equal. by rewrite length_fmap, std_map_list_perm, length_map_to_list.
    + by rewrite !length_fmap.
    + apply std_map_list_sorted.
    + intros k v. by rewrite zip_fst_snd, std_map_list_perm, elem_of_map_to_list.
Qed.

(** C40: removing the checkpoints of several logs removes only that of the
    first: [logids] is not advanced in the loop, so every other log that was
    asked for keeps its checkpoint although success is reported. *)
Theorem remove_checkpoints_first_only s c logids off len logid :
  0 <= off -> 0 < len < 2 ^ 31 -> logids !! Z.to_nat off = Some logid ->
  exists r s', checkpoint_store_remove_checkpoints true s c logids off len = Some (Ok (r, s')) /\
    r_wakeups r = 1%nat /\
    (r_st r = Some st_OK ->
     contents s' c !! logid = None /\
     (forall i l, (i < Z.to_nat len)%nat -> logids !! (Z.to_nat off + i)%nat = Some l ->
        l <> logid -> contents s' c !! l = contents s c !! l) /\
     (forall c', c' <> c -> contents s' c' = contents s c')).
Proof.
  intros Hoff Hlen Hl. unfold checkpoint_store_remove_checkpoints.
  pose proof (lookup_lt_Some _ _ _ Hl) as Hlt.
  rewrite (proj2 (Z.ltb_ge off 0)) by lia. rewrite (proj2 (Z.ltb_ge _ off)) by lia. cbn [orb].
  rewrite u64_id by (unfold is_u64; lia). rewrite (proj2 (Z.ltb_ge _ len)) by lia.
  rewrite (drop_S _ _ _ Hl), remove_list_spec by lia. cbn [mbind option_bind].
  destruct (Z.to_nat len) as [|n] eqn:En; [lia|].
  pose proof (removeCheckpoints_OK s c (replicate (S n) logid)) as Hok.
  destruct (removeCheckpoints s c (replicate (S n) logid)) as [st s'].
  exists (status_cb true st), s'. split_and!; [done..|]. cbn [status_cb r_st fst snd] in *.
  intros [= ->]. pose proof (Hok c eq_refl) as Ec.
  rewrite decide_True, foldr_delete_replicate in Ec by done. rewrite Ec. split_and!.
  - apply lookup_delete_eq.
  - intros i l _ _ Hne. by rewrite lookup_delete_ne.
  - intros c' Hne. rewrite Hok by done. by rewrite decide_False.
Qed.
End store_proofs.
End CheckpointStore.

Module CheckpointStoreWitness.
Import CheckpointStore.

(** A store in memory that never fails; status 0 is success, 1 not found. *)
Notation MemStore := (gmap string (gmap Z Z)).
Definition mem_contents (s : MemStore) (c : string) : gmap Z Z := default ∅ (s !! c).

Lemma mem_insert (s : MemStore) c c' m :
  mem_contents (<[c := m]> s) c' = if decide (c' = c) then m else mem_contents s c'.
Proof.
  unfold mem_contents. case_decide as E; [subst; by rewrite lookup_insert_eq|].
  by rewrite lookup_insert_ne.
Qed.

#[refine] Instance mem_store : CheckpointStoreLib MemStore :=
  {| st_OK := 0;
     contents := mem_contents;
     getLSN s c l := match mem_contents s c !! l with Some v => (0, v) | None => (1, 0) end;
     getAllCheckpoints s c := (0, mem_contents s c);
     updateLSN_one s c l v := (0, <[c := <[l := v]> (mem_contents s c)]> s);
     updateLSN s c m := (0, <[c := m ∪ mem_contents s c]> s);
     removeCheckpoints s c ls := (0, <[c := foldr delete (mem_contents s c) ls]> s);
     removeAllCheckpoints s c := (0, <[c := ∅]> s) |}.
Proof.
  - intros s c l. by destruct (mem_contents s c !! l).
  - done.
  - intros. apply mem_insert.
  - intros. apply mem_insert.
  - intros. apply mem_insert.
  - intros. apply mem_insert.
Defined.

Lemma update_multi_lsn_roundtrip_witness :
  exists r s', checkpoint_store_update_multi_lsn true (∅ : MemStore) "c" [5; 6; 5] [1; 2; 3] 3 =
      Some (r, s') /\
    (r_st r = Some st_OK -> contents s' "c" !! 5 = Some 3).
Proof.
  destruct (update_multi_lsn_roundtrip (∅ : MemStore) "c" [5; 6; 5] [1; 2; 3] 3 5 3)
    as (r & s' & E & _ & H); [simpl; lia..| |].
  - exists 2%nat. split_and!; [lia|done|done|]. intros j ?. lia.
  - exists r, s'. split; [exact E|]. intros Hr. apply H, Hr.
Defined.

Lemma remove_checkpoints_first_only_witness :
  let s : MemStore := {[ "c" := {[ 1 := 10; 2 := 20 ]} ]} in
  exists r s', checkpoint_store_remove_checkpoints true s "c" [1; 2] 0 2 = Some (Ok (r, s')) /\
    (r_st r = Some st_OK -> contents s' "c" !! 2 = Some 20).
Proof.
  intros s. destruct (remove_checkpoints_first_only s "c" [1; 2] 0 2 1) as (r & s' & E & _ & H);
    [lia|lia|done|].
  exists r, s'. split; [exact E|]. intros Hr. destruct (H Hr) as (_ & H2 & _).
  rewrite (H2 1%nat 2); [done|simpl; lia|done|lia].
Defined.

Lemma get_all_checkpoints_exact_witness :
  let s : MemStore := {[ "c" := {[ 7 := 10; 2 := 20 ]} ]} in
  exists keys values,
    r_val (checkpoint_store_get_all_checkpoints true s "c") = Some (2, keys, values) /\
    StronglySorted Z.lt keys /\ (7, 10) ∈ zip keys values.
Proof.
  intros s. destruct (get_all_checkpoints_exact s "c") as (_ & _ & H).
  destruct H as (keys & values & E & _ & Hs & Hz); [done|].
  exists keys, values. split; [exact E|]. split; [exact Hs|]. by apply Hz.
Defined.
End CheckpointStoreWitness.
