(* ===== verification/LogAttributes.v ===== *)
(** * Log attributes (src/hstream-store/cbits/logdevice/hs_log_attributes.cpp)

    [poke_log_attributes] builds LogDevice's attributes from Haskell's values,
    [peek_log_attributes] and [peek_log_attributes_extras] read them back.
    Bytes are integers and strings lists of bytes. *)

From stdpp Require Import base gmap list.
From Stdlib Require Import ZArith Lia.
From S2P Require Import Prelude.

(** The attributes the functions set and read, with their types; a
    [NodeLocationScope] is an integer, a duration a number of seconds. *)
Inductive field : Type :=
| replicationFactor | syncedCopies | maxWritesInFlight | singleWriter
| syncReplicationScope | replicateAcross | backlogDuration | scdEnabled
| localScdEnabled | stickyCopySets | extras.

#[global] Instance field_eq_dec : EqDecision field.
Proof. solve_decision. Defined.

Definition ty (f : field) : Type :=
  match f with
  | replicationFactor | syncedCopies | maxWritesInFlight | syncReplicationScope => Z
  | singleWriter | scdEnabled | localScdEnabled | stickyCopySets => bool
  | replicateAcross => list (Z * Z)
  | backlogDuration => option Z
  | extras => gmap (list Z) (list Z)
  end.

(** LogDevice's [Attribute<T>] and [LogAttributes]: [with_f] returns a copy in
    which attribute [f] is replaced. Nothing is assumed of [Attribute_none],
    the attribute that [with_backlogDuration(folly::none)] stores. *)
Class LogAttributesLib := {
  Attr : Type -> Type;
  LogAttrs : Type;
  Attribute : forall {T}, T -> bool -> Attr T;
  Attribute_of : forall {T}, T -> Attr T;
  Attribute_none : Attr (option Z);
  attr_value : forall {T}, Attr T -> option T;
  isInherited : forall {T}, Attr T -> bool;
  new_LogAttributes : LogAttrs;
  with_ : forall f, LogAttrs -> Attr (ty f) -> LogAttrs;
  get : forall f, LogAttrs -> Attr (ty f);
  value_Attribute : forall T (v : T) inh, attr_value (Attribute v inh) = Some v;
  inherited_Attribute : forall T (v : T) inh, isInherited (Attribute v inh) = inh;
  value_Attribute_of : forall T (v : T), attr_value (Attribute_of v) = Some v;
  inherited_Attribute_of : forall T (v : T), isInherited (Attribute_of v) = false;
  get_new : forall f, attr_value (get f new_LogAttributes) = None;
  get_with : forall f l a, get f (with_ f l a) = a;
  get_with_ne : forall f g l a, f <> g -> get g (with_ f l a) = get g l;
}.

Module LogAttributes.
Section log_attributes.
Context `{L : LogAttributesLib}.

(** [_ARG]: a pointer that may be null, and the inherited flag. *)
Record arg (T : Type) := { a_val : option T; a_inh : bool }.
Arguments a_val {T}.
Arguments a_inh {T}.

(** The arguments of [poke_log_attributes]. [keys] and [vals] are the payloads
    of Haskell's byte arrays. *)
Record poke_args := {
  a_replicationFactor : arg Z; a_syncedCopies : arg Z; a_maxWritesInFlight : arg Z;
  a_singleWriter : arg bool; a_syncReplicationScope : arg Z;
  a_replicateAcross_len : Z; a_replicateAcross_keys : list Z; a_replicateAcross_vals : list Z;
  a_replicateAcross_inh : bool;
  a_backlogDuration_flag : bool; a_backlogDuration : arg Z;
  a_scdEnabled : arg bool; a_localScdEnabled : arg bool; a_stickyCopySets : arg bool;
  a_extras_len : Z; a_keys : list (list Z); a_vals : list (list Z);
}.

(** The string a [char*] denotes: the bytes before the first zero, which has to
    be in the array. *)
Fixpoint c_string (bytes : list Z) : option (list Z) :=
  match bytes with
  | [] => None
  | b :: bytes => if b =? 0 then Some [] else (fun s => b :: s) <$> c_string bytes
  end.

(** ** poke_log_attributes *)

Definition ADD_ATTR (f : field) (a : arg (ty f)) (attrs : LogAttrs) : LogAttrs :=
  match a_val a with
  | Some v => with_ f attrs (Attribute v (a_inh a))
  | None => attrs
  end.

Definition ADD_MAYBE_ATTR (flag : bool) (a : arg Z) (attrs : LogAttrs) : LogAttrs :=
  if flag then
    match a_val a with
    | Some v => with_ backlogDuration attrs (Attribute (Some v : ty backlogDuration) (a_inh a))
    | None => with_ backlogDuration attrs Attribute_none
    end
  else attrs.

(** [rs.emplace_back(keys[i], (int)vals[i])] for every [i]. *)
Definition scope_factors (keys vals : list Z) (len : Z) : option (list (Z * Z)) :=
  array_list_loop (fun i => k ← keys !! i; v ← vals !! i; Some (k, i32 v)) (Z.to_nat len) 0 [].

Definition ADD_replicateAcross (args : poke_args) (attrs : LogAttrs) : option LogAttrs :=
  if 0 <? a_replicateAcross_len args then
    rs ← scope_factors (a_replicateAcross_keys args) (a_replicateAcross_vals args)
           (a_replicateAcross_len args);
    Some (with_ replicateAcross attrs (Attribute_of (rs : ty replicateAcross)))
  else Some attrs.

(** [extras[keys[i]->payload] = vals[i]->payload] for every [i]. *)
Definition extras_map (keys vals : list (list Z)) (len : Z) : option (gmap (list Z) (list Z)) :=
  array_map_loop (fun i => keys !! i ≫= c_string) (fun i => vals !! i ≫= c_string)
    (Z.to_nat len) 0 ∅.

Definition ADD_extras (args : poke_args) (attrs : LogAttrs) : option LogAttrs :=
  if 0 <? a_extras_len args then
    m ← extras_map (a_keys args) (a_vals args) (a_extras_len args);
    Some (with_ extras attrs (Attribute_of (m : ty extras)))
  else Some attrs.

Definition poke_log_attributes (args : poke_args) : option LogAttrs :=
  let attrs := new_LogAttributes in
  let attrs := ADD_ATTR replicationFactor (a_replicationFactor args) attrs in
  let attrs := ADD_ATTR syncedCopies (a_syncedCopies args) attrs in
  let attrs := ADD_ATTR maxWritesInFlight (a_maxWritesInFlight args) attrs in
  let attrs := ADD_ATTR singleWriter (a_singleWriter args) attrs in
  let attrs := ADD_ATTR syncReplicationScope (a_syncReplicationScope args) attrs in
  attrs ← ADD_replicateAcross args attrs;
  let attrs := ADD_MAYBE_ATTR (a_backlogDuration_flag args) (a_backlogDuration args) attrs in
  let attrs := ADD_ATTR scdEnabled (a_scdEnabled args) attrs in
  let attrs := ADD_ATTR localScdEnabled (a_localScdEnabled args) attrs in
  let attrs := ADD_ATTR stickyCopySets (a_stickyCopySets args) attrs in
  ADD_extras args attrs.

(** ** peek_log_attributes *)

(** What [PEEK] writes: [flag], [inh], and [val] when the flag is set. *)
Record peeked (T : Type) := { p_flag : bool; p_val : option T; p_inh : bool }.
Arguments p_flag {T}.
Arguments p_val {T}.
Arguments p_inh {T}.

Definition PEEK (f : field) (attrs : LogAttrs) : peeked (ty f) :=
  let a := get f attrs in
  {| p_flag := bool_decide (is_Some (attr_value a)); p_val := attr_value a;
     p_inh := isInherited a |}.

(** [PEEK_MAYBE]: the value is [val_flag] and, when set, the number. *)
Definition PEEK_MAYBE (attrs : LogAttrs) : peeked (bool * option Z) :=
  let a := get backlogDuration attrs in
  {| p_flag := bool_decide (is_Some (attr_value a));
     p_val := (fun v : option Z => (bool_decide (is_Some v), v)) <$> attr_value a;
     p_inh := isInherited a |}.

(** [PEEK_LIST_PAIR] writes [len] keys and values; [val[i]] is not checked. *)
Definition PEEK_LIST_PAIR (len : Z) (attrs : LogAttrs) : option (list Z * list Z * bool) :=
  let a := get replicateAcross attrs in
  match attr_value a with
  | Some val =>
      if 0 <? len then
        kvs ← array_list_loop (fun i => (val : list (Z * Z)) !! i) (Z.to_nat len) 0 [];
        Some (kvs.*1, kvs.*2, isInherited a)
      else Some ([], [], isInherited a)
  | None => Some ([], [], isInherited a)
  end.

Record peek_out := {
  p_replicationFactor : peeked Z; p_syncedCopies : peeked Z; p_maxWritesInFlight : peeked Z;
  p_singleWriter : peeked bool; p_syncReplicationScope : peeked Z;
  p_replicateAcross : list Z * list Z * bool;
  p_backlogDuration : peeked (bool * option Z);
  p_scdEnabled : peeked bool; p_localScdEnabled : peeked bool; p_stickyCopySets : peeked bool;
}.

Definition peek_log_attributes (attrs : LogAttrs) (replicateAcross_len : Z) : option peek_out :=
  across ← PEEK_LIST_PAIR replicateAcross_len attrs;
  Some {|
    p_replicationFactor := PEEK replicationFactor attrs;
    p_syncedCopies := PEEK syncedCopies attrs;
    p_maxWritesInFlight := PEEK maxWritesInFlight attrs;
    p_singleWriter := PEEK singleWriter attrs;
    p_syncReplicationScope := PEEK syncReplicationScope attrs;
    p_replicateAcross := across;
    p_backlogDuration := PEEK_MAYBE attrs;
    p_scdEnabled := PEEK scdEnabled attrs;
    p_localScdEnabled := PEEK localScdEnabled attrs;
    p_stickyCopySets := PEEK stickyCopySets attrs |}.

(** The arrays [keys] and [values]; [len] is their length. *)
Definition peek_log_attributes_extras `{!IterOrder (list Z)} (attrs : LogAttrs)
    : list (list Z) * list (list Z) :=
  match attr_value (get extras attrs) with
  | Some m =>
      foldl (fun kvs kv => (kvs.1 ++ [kv.1], kvs.2 ++ [kv.2])) ([], [])
        (iter_list (m : gmap (list Z) (list Z)))
  | None => ([], [])
  end.

Definition get_replicateAcross_size (attrs : LogAttrs) : Z :=
  match attr_value (get replicateAcross attrs) with
  | Some val => Z.of_nat (length (val : list (Z * Z)))
  | None => -1
  end.

(** ** Proofs *)

Lemma get_ADD_ATTR_ne f g a attrs : f <> g -> get g (ADD_ATTR f a attrs) = get g attrs.
Proof. intros Hne. unfold ADD_ATTR. destruct (a_val a); [by apply get_with_ne|done]. Qed.

Lemma get_ADD_MAYBE_ne g flag a attrs :
  backlogDuration <> g -> get g (ADD_MAYBE_ATTR flag a attrs) = get g attrs.
Proof.
  intros Hne. unfold ADD_MAYBE_ATTR. destruct flag; [|done].
  destruct (a_val a); by apply get_with_ne.
Qed.

(** Rewrites a [get] past the attributes that are set after its own. *)
Ltac get_past :=
  repeat first
    [ rewrite get_ADD_ATTR_ne by discriminate
    | rewrite get_ADD_MAYBE_ne by discriminate
    | rewrite get_with_ne by discriminate ].

(** The arrays can be read and the strings are terminated. *)
Definition args_ok (args : poke_args) : Prop :=
  let n := Z.to_nat (a_replicateAcross_len args) in
  let e := Z.to_nat (a_extras_len args) in
  (n <= length (a_replicateAcross_keys args))%nat /\
  (n <= length (a_replicateAcross_vals args))%nat /\ Z.of_nat n < 2 ^ 31 /\
  readable (fun i => a_keys args !! i ≫= c_string) e /\
  readable (fun i => a_vals args !! i ≫= c_string) e.

(** The pairs of the attribute replicateAcross. *)
Definition factors (args : poke_args) : list (Z * Z) :=
  let n := Z.to_nat (a_replicateAcross_len args) in
  zip (take n (a_replicateAcross_keys args)) (i32 <$> take n (a_replicateAcross_vals args)).

Lemma scope_factors_spec args :
  args_ok args ->
  scope_factors (a_replicateAcross_keys args) (a_replicateAcross_vals args)
    (a_replicateAcross_len args) = Some (factors args) /\
  length (factors args) = Z.to_nat (a_replicateAcross_len args).
Proof.
  intros (Hk & Hv & Hn & _). unfold scope_factors, factors.
  set (n := Z.to_nat (a_replicateAcross_len args)) in *.
  set (ps := zip _ _). assert (length ps = n) as Hlen.
  { unfold ps. rewrite length_zip_with_l_eq, length_take; [lia|].
    rewrite length_fmap, !length_take. lia. }
  split; [|done]. apply (array_list_loop_spec _ ps n 0 []); [|done|done].
  intros j Hj. unfold ps. cbn [Nat.add].
  rewrite lookup_zip_with, list_lookup_fmap, !lookup_take_lt by done.
  destruct (a_replicateAcross_keys args !! j); simpl; [|done].
  by destruct (a_replicateAcross_vals args !! j).
Qed.

(** [attrs] has attribute [f] as set from [a], and possibly others. *)
Definition has_attr (f : field) (a : arg (ty f)) (attrs : LogAttrs) : Prop :=
  get f attrs = get f (ADD_ATTR f a new_LogAttributes).

Lemma get_ADD_ATTR_unset f a attrs :
  get f attrs = get f new_LogAttributes ->
  get f (ADD_ATTR f a attrs) = get f (ADD_ATTR f a new_LogAttributes).
Proof. unfold ADD_ATTR. destruct (a_val a); [by rewrite !get_with|done]. Qed.

Lemma get_ADD_MAYBE_unset flag a attrs :
  get backlogDuration attrs = get backlogDuration new_LogAttributes ->
  get backlogDuration (ADD_MAYBE_ATTR flag a attrs) =
  get backlogDuration (ADD_MAYBE_ATTR flag a new_LogAttributes).
Proof. unfold ADD_MAYBE_ATTR. destruct flag, (a_val a); by rewrite ?get_with. Qed.

Lemma poke_gets args :
  args_ok args ->
  exists attrs m, poke_log_attributes args = Some attrs /\
    (has_attr replicationFactor (a_replicationFactor args) attrs /\
     has_attr syncedCopies (a_syncedCopies args) attrs /\
     has_attr maxWritesInFlight (a_maxWritesInFlight args) attrs /\
     has_attr singleWriter (a_singleWriter args) attrs /\
     has_attr syncReplicationScope (a_syncReplicationScope args) attrs /\
     has_attr scdEnabled (a_scdEnabled args) attrs /\
     has_attr localScdEnabled (a_localScdEnabled args) attrs /\
     has_attr stickyCopySets (a_stickyCopySets args) attrs) /\
    get backlogDuration attrs =
      get backlogDuration (ADD_MAYBE_ATTR (a_backlogDuration_flag args) (a_backlogDuration args)
        new_LogAttributes) /\
    get replicateAcross attrs =
      (if 0 <? a_replicateAcross_len args then Attribute_of (factors args : ty replicateAcross)
       else get replicateAcross new_LogAttributes) /\
    built (fun i => a_keys args !! i ≫= c_string) (fun i => a_vals args !! i ≫= c_string)
      (Z.to_nat (a_extras_len args)) m /\
    attr_value (get extras attrs) = (if 0 <? a_extras_len args then Some (m : ty extras) else None).
Proof.
  intros Hok. destruct (scope_factors_spec args Hok) as [Ef _].
  destruct Hok as (_ & _ & _ & Hek & Hev).
  destruct (array_map_loop_spec _ _ (Z.to_nat (a_extras_len args)) 0 ∅ (built_0 _ _) Hek Hev)
    as (m & Em & Hm).
  unfold poke_log_attributes, ADD_replicateAcross, ADD_extras, extras_map. rewrite Em, Ef.
  unfold has_attr.
  destruct (0 <? a_replicateAcross_len args), (0 <? a_extras_len args);
    cbn [mbind option_bind]; (eexists _, m; split; [reflexivity|]); split_and!; try exact Hm.
  all: try (by get_past; apply get_ADD_ATTR_unset; get_past).
  all: try (by get_past; apply get_ADD_MAYBE_unset; get_past).
  all: try (by get_past; rewrite ?get_with).
  all: try (by rewrite get_with, value_Attribute_of).
  all: get_past; apply get_new.
Qed.

(** [p] is what [a] was: present when it was, with its value and flag. *)
Definition returned {T} (a : arg T) (p : peeked T) : Prop :=
  p_flag p = bool_decide (is_Some (a_val a)) /\ p_val p = a_val a /\
  (is_Some (a_val a) -> p_inh p = a_inh a).

Lemma PEEK_returned f a attrs : has_attr f a attrs -> returned a (PEEK f attrs).
Proof.
  unfold has_attr, returned, PEEK, ADD_ATTR. intros ->. cbn [p_flag p_val p_inh].
  destruct (a_val a) as [v|].
  - by rewrite get_with, value_Attribute, inherited_Attribute.
  - rewrite get_new. split_and!; [done..|]. by intros [? ?].
Qed.

Lemma PEEK_across attrs val :
  attr_value (get replicateAcross attrs) = Some (val : ty replicateAcross) ->
  Z.of_nat (length (val : list (Z * Z))) < 2 ^ 31 ->
  PEEK_LIST_PAIR (get_replicateAcross_size attrs) attrs =
  Some (val.*1, val.*2, isInherited (get replicateAcross attrs)).
Proof.
  intros Ev Hlen. unfold PEEK_LIST_PAIR, get_replicateAcross_size. rewrite Ev.
  destruct (Z.ltb_spec 0 (Z.of_nat (length (val : list (Z * Z))))) as [Hpos|Hz].
  - rewrite Nat2Z.id, (array_list_loop_spec _ val); [done| |done|done]. done.
  - destruct (val : list (Z * Z)); [done|simpl in Hz; lia].
Qed.

(** What is read back of the attribute replicateAcross, *)
Lemma across_returned args attrs :
  args_ok args ->
  get replicateAcross attrs =
    (if 0 <? a_replicateAcross_len args then Attribute_of (factors args : ty replicateAcross)
     else get replicateAcross new_LogAttributes) ->
  exists across, PEEK_LIST_PAIR (get_replicateAcross_size attrs) attrs = Some across /\
    (a_replicateAcross_len args <= 0 -> get_replicateAcross_size attrs = -1) /\
    (0 < a_replicateAcross_len args ->
     get_replicateAcross_size attrs = a_replicateAcross_len args /\
     across = ((factors args).*1, (factors args).*2, false)).
Proof.
  intros Hok Ha. destruct (scope_factors_spec args Hok) as [_ Hlen].
  destruct (Z.ltb_spec 0 (a_replicateAcross_len args)) as [Hpos|Hneg].
  - assert (attr_value (get replicateAcross attrs) = Some (factors args : ty replicateAcross))
      as Ev by (by rewrite Ha, value_Attribute_of).
    eexists. split; [apply (PEEK_across _ _ Ev); rewrite Hlen; apply Hok|].
    split; [lia|]. intros _. unfold get_replicateAcross_size. rewrite Ev, Hlen, Ha.
    split; [lia|]. by rewrite inherited_Attribute_of.
  - unfold PEEK_LIST_PAIR, get_replicateAcross_size. rewrite Ha, get_new.
    eexists. split; [done|]. split; [done|]. lia.
Qed.

(** of the backlog duration *)
Lemma backlog_returned flag a attrs :
  get backlogDuration attrs = get backlogDuration (ADD_MAYBE_ATTR flag a new_LogAttributes) ->
  (flag = false -> p_flag (PEEK_MAYBE attrs) = false) /\
  (forall v, flag = true -> a_val a = Some v ->
     PEEK_MAYBE attrs = {| p_flag := true; p_val := Some (true, Some v); p_inh := a_inh a |}).
Proof.
  intros Hb. unfold PEEK_MAYBE. rewrite Hb. unfold ADD_MAYBE_ATTR. split.
  - intros ->. cbn [p_flag]. by rewrite get_new.
  - intros v -> ->. by rewrite get_with, value_Attribute, inherited_Attribute.
Qed.

(** and of the extras. *)
Lemma extras_returned `{!IterOrder (list Z)} (attrs : LogAttrs) (m : gmap (list Z) (list Z)) (present : bool)
    k v :
  attr_value (get extras attrs) = (if present then Some (m : ty extras) else None) ->
  (present = false -> m = ∅) ->
  (k, v) ∈ zip (peek_log_attributes_extras attrs).1 (peek_log_attributes_extras attrs).2 <->
  m !! k = Some v.
Proof.
  intros He Hm. unfold peek_log_attributes_extras. rewrite He. destruct present.
  - rewrite foldl_unzip. cbn [app fst snd]. by rewrite zip_fst_snd, elem_of_iter_list.
  - rewrite Hm, lookup_empty by done. simpl. split; [by intros ?%elem_of_nil|done].
Qed.

(** Reading attributes back returns what was written. Every plain
    attribute is returned as it was given or as absent; the backlog duration
    with its two flags; replicateAcross with its size, its scopes and its
    factors narrowed to [int], but never as inherited, since the flag that is
    passed for it is ignored; and the extras as the last value given for each
    key, keys and values cut at their first zero byte. *)
Theorem poke_peek_roundtrip `{!IterOrder (list Z)} args :
  args_ok args ->
  exists attrs out, poke_log_attributes args = Some attrs /\
    peek_log_attributes attrs (get_replicateAcross_size attrs) = Some out /\
    (returned (a_replicationFactor args) (p_replicationFactor out) /\
     returned (a_syncedCopies args) (p_syncedCopies out) /\
     returned (a_maxWritesInFlight args) (p_maxWritesInFlight out) /\
     returned (a_singleWriter args) (p_singleWriter out) /\
     returned (a_syncReplicationScope args) (p_syncReplicationScope out) /\
     returned (a_scdEnabled args) (p_scdEnabled out) /\
     returned (a_localScdEnabled args) (p_localScdEnabled out) /\
     returned (a_stickyCopySets args) (p_stickyCopySets out)) /\
    (a_backlogDuration_flag args = false -> p_flag (p_backlogDuration out) = false) /\
    (forall v, a_backlogDuration_flag args = true -> a_val (a_backlogDuration args) = Some v ->
       p_backlogDuration out = {| p_flag := true; p_val := Some (true, Some v);
                                  p_inh := a_inh (a_backlogDuration args) |}) /\
    (a_replicateAcross_len args <= 0 -> get_replicateAcross_size attrs = -1) /\
    (0 < a_replicateAcross_len args ->
       get_replicateAcross_size attrs = a_replicateAcross_len args /\
       p_replicateAcross out = ((factors args).*1, (factors args).*2, false)) /\
    (forall k v, (k, v) ∈ zip (peek_log_attributes_extras attrs).1
                              (peek_log_attributes_extras attrs).2 <->
       last_write (fun i => a_keys args !! i ≫= c_string) (fun i => a_vals args !! i ≫= c_string)
         (Z.to_nat (a_extras_len args)) k v).
Proof.
  intros Hok. destruct (poke_gets args Hok) as (attrs & m & Ep & Hs & Hb & Ha & Hm & He).
  destruct (across_returned args attrs Hok Ha) as (across & Eac & Hac0 & Hac).
  destruct (backlog_returned _ _ _ Hb) as [Hb0 Hb1].
  exists attrs. eexists. split; [done|]. unfold peek_log_attributes. rewrite Eac.
  split; [reflexivity|]. split; [|split_and!; [done..|]].
  - destruct Hs as (?&?&?&?&?&?&?&?). split_and!; by apply PEEK_returned.
  - intros k v. rewrite (extras_returned attrs m _ k v He); [apply Hm|].
    intros Hn. apply map_empty. intros k'. apply eq_None_not_Some. intros [v' Hv%Hm].
    destruct Hv as (i & Hi & _). apply Z.ltb_ge in Hn. lia.
Qed.
End log_attributes.

Arguments a_val {T}.
Arguments a_inh {T}.
Arguments p_flag {T}.
Arguments p_val {T}.
Arguments p_inh {T}.
Arguments Build_arg {T}.
End LogAttributes.

Module LogAttributesWitness.
Import LogAttributes.

(** Attributes as a value and a flag, and a set of them as a function. *)
Definition attr (T : Type) : Type := option T * bool.
Definition attrs : Type := forall f, attr (ty f).

Definition set_attr (f : field) (l : attrs) (a : attr (ty f)) : attrs :=
  fun g => match decide (f = g) with
           | left E => eq_rect f (fun f => attr (ty f)) a g E
           | right _ => l g
           end.

#[refine] Instance fun_attrs : LogAttributesLib :=
  {| Attr := attr; LogAttrs := attrs;
     Attribute T v inh := (Some v, inh);
     Attribute_of T v := (Some v, false);
     Attribute_none := (Some None, false);
     attr_value T a := a.1;
     isInherited T a := a.2;
     new_LogAttributes := fun f => (None, true);
     with_ := set_attr;
     get f l := l f |}.
Proof.
  - done.
  - done.
  - done.
  - done.
  - done.
  - intros f l a. unfold set_attr. destruct (decide (f = f)) as [E|]; [|done].
    by rewrite (proof_irrel E eq_refl).
  - intros f g l a Hne. unfold set_attr. by destruct (decide (f = g)).
Defined.

Definition given {T} (v : T) : arg T := {| a_val := Some v; a_inh := true |}.
Definition absent {T} : arg T := {| a_val := None; a_inh := false |}.

Definition some_args : poke_args :=
  {| a_replicationFactor := given 3; a_syncedCopies := absent; a_maxWritesInFlight := absent;
     a_singleWriter := given true; a_syncReplicationScope := absent;
     a_replicateAcross_len := 2; a_replicateAcross_keys := [1; 2];
     a_replicateAcross_vals := [3; 2]; a_replicateAcross_inh := true;
     a_backlogDuration_flag := true; a_backlogDuration := given 60;
     a_scdEnabled := absent; a_localScdEnabled := absent; a_stickyCopySets := absent;
     a_extras_len := 1; a_keys := [[107; 0]]; a_vals := [[118; 0; 119]] |}.

Lemma some_args_ok : args_ok some_args.
Proof.
  assert (forall l : list (list Z), length l = 1%nat -> is_Some (l !! 0%nat ≫= c_string) ->
    readable (fun i => l !! i ≫= c_string) 1) as Hr.
  { intros l _ H0. split; [lia|]. intros i Hi. by destruct i as [|i]; [|lia]. }
  split_and!; simpl; [lia|lia|lia|apply Hr; [done|by eexists]..].
Qed.

Lemma poke_peek_roundtrip_witness :
  exists attrs out, poke_log_attributes some_args = Some attrs /\
    peek_log_attributes attrs (get_replicateAcross_size attrs) = Some out /\
    p_val (p_replicationFactor out) = Some 3 /\
    p_replicateAcross out = ([1; 2], [3; 2], false).
Proof.
  destruct (poke_peek_roundtrip some_args some_args_ok)
    as (l & out & Ep & Eo & Hs & _ & _ & _ & Ha & _).
  exists l, out. split; [exact Ep|]. split; [exact Eo|]. split.
  - apply Hs.
  - by apply Ha.
Defined.
End LogAttributesWitness.
