(* ===== verification/KafkaClient.v ===== *)
(** * The Kafka client (src/hstream-kafka/cbits/hs_kafka_client.cpp)

    The producer's retry loop and the consumer: its global counters, the
    callbacks librdkafka runs while it is polled, the printing of messages and
    the loop that ends on an error, a signal or the end of all partitions.
    Signed counters wrap around. *)

From Stdlib Require Import Ascii.
From stdpp Require Import base gmap strings list pretty.
From Stdlib Require Import ZArith Lia.
From S2P Require Import Prelude.

(** A topic and a partition of it. *)
Notation TopicPartition := (string * Z)%type.

(** librdkafka's [KafkaConsumer]: the partitions assigned to it, and the calls
    that change the assignment. A call reports whether it failed; only a call
    that succeeds promises something. *)
Class KafkaConsumerLib (C : Type) := {
  assignment : C -> gset TopicPartition;
  cooperative : C -> bool; (* rebalance_protocol() == "COOPERATIVE" *)
  assign : C -> list TopicPartition -> bool * C;
  unassign : C -> bool * C;
  incremental_assign : C -> list TopicPartition -> bool * C;
  incremental_unassign : C -> list TopicPartition -> bool * C;
  assign_ok : forall c ps, (assign c ps).1 = true ->
    assignment (assign c ps).2 = list_to_set ps;
  unassign_ok : forall c, (unassign c).1 = true -> assignment (unassign c).2 = ∅;
  incremental_assign_ok : forall c ps, (incremental_assign c ps).1 = true ->
    assignment (incremental_assign c ps).2 = assignment c ∪ list_to_set ps;
  incremental_unassign_ok : forall c ps, (incremental_unassign c ps).1 = true ->
    assignment (incremental_unassign c ps).2 = assignment c ∖ list_to_set ps;
}.

Module KafkaClient.

(** The codes the file names; [ERR_OTHER] is any other one. *)
Inductive ErrorCode : Type :=
| ERR_NO_ERROR | ERR__TIMED_OUT | ERR__PARTITION_EOF | ERR__UNKNOWN_TOPIC
| ERR__UNKNOWN_PARTITION | ERR__QUEUE_FULL | ERR_OTHER (code : Z).

#[global] Instance ErrorCode_eq_dec : EqDecision ErrorCode.
Proof. solve_decision. Defined.

(** ** Producer *)

Section producer.
Context (PARTITION_UA : Z) (err2str : ErrorCode -> string).

(** The arguments [hs_producer_produce] passes to [produce]. *)
Record produce_call := {
  pc_topic : string; pc_partition : Z; pc_value : option string; pc_key : option string;
}.

Definition produce_args (topic : string) (partition : Z) (payload key : string) : produce_call :=
  {| pc_topic := topic;
     pc_partition := if partition <? 0 then PARTITION_UA else partition;
     pc_value := if bool_decide (String.length payload = 0%nat) then None else Some payload;
     pc_key := if bool_decide (String.length key = 0%nat) then None else Some key |}.

(** The end of a call: the return value, the error text, and the timeouts of
    the polls done. *)
Record produce_result := { ret : Z; errstr : option string; polls : list Z }.

(** [results] are the answers of the successive calls of [produce]; [None]
    when the loop is still retrying after all of them. *)
Fixpoint produce_loop (results : list ErrorCode) (done_polls : list Z) : option produce_result :=
  match results with
  | [] => None
  | err :: results =>
      if bool_decide (err = ERR_NO_ERROR) then
        Some {| ret := 0; errstr := None; polls := done_polls ++ [0] |}
      else if bool_decide (err = ERR__QUEUE_FULL) then
        produce_loop results (done_polls ++ [1000])
      else Some {| ret := 1; errstr := Some (err2str err); polls := done_polls |}
  end.

Definition hs_producer_produce (topic : string) (partition : Z) (payload key : string)
    (results : list ErrorCode) : produce_call * option produce_result :=
  (produce_args topic partition payload key, produce_loop results []).
End producer.

(** ** Construction *)

(** Objects allocated with [new] or [create]. *)
Inductive object := OConf | ODeliveryReportCb | ORebalanceCb | OEventCb.
#[global] Instance object_eq_dec : EqDecision object.
Proof. solve_decision. Defined.

Inductive step := New (o : object) | CONF_SET (key : string).

(** Runs the steps; a [CONF_SET] that fails returns a null pointer at once and
    nothing is deleted. [alive] are the objects allocated. *)
Fixpoint run_steps (set_ok : string -> bool) (steps : list step) (alive : list object)
    : bool * list object :=
  match steps with
  | [] => (true, alive)
  | New o :: steps => run_steps set_ok steps (alive ++ [o])
  | CONF_SET key :: steps =>
      if set_ok key then run_steps set_ok steps alive else (false, alive)
  end.

(** [create_ok]: the producer or consumer could be created. The objects alive
    at the end are those the result owns, or those leaked when it is null. *)
Definition construct (steps : list step) (set_ok : string -> bool) (create_ok : bool)
    : bool * list object :=
  let '(ok, alive) := run_steps set_ok steps [] in
  if ok && create_ok then (true, filter (fun o => o <> OConf) alive) else (false, alive).

Definition hs_new_producer : (string -> bool) -> bool -> bool * list object :=
  construct [New OConf; CONF_SET "bootstrap.servers"; New ODeliveryReportCb; CONF_SET "dr_cb"].

Definition hs_new_consumer_objects : (string -> bool) -> bool -> bool * list object :=
  construct
    [New OConf; New ORebalanceCb; CONF_SET "rebalance_cb"; CONF_SET "enable.partition.eof";
     CONF_SET "group.id"; CONF_SET "auto.offset.reset"; CONF_SET "enable.auto.commit";
     CONF_SET "isolation.level"; CONF_SET "metadata.broker.list"; New OEventCb;
     CONF_SET "event_cb"].

(** ** Consumer *)

(** The file's static variables, and the lines printed on standard output. *)
Record globals := {
  run : bool;
  consumer_exit_eof : bool;
  consumer_eof_cnt : Z;
  consumer_partition_cnt : Z;
  consumer_msg_cnt : Z;
  consumer_msg_bytes : Z;
  out : list string;
}.

(** Their initial values, set to [exit_eof] by [hs_new_consumer]. *)
Definition initial (exit_eof : bool) : globals :=
  {| run := true; consumer_exit_eof := exit_eof; consumer_eof_cnt := 0;
     consumer_partition_cnt := 0; consumer_msg_cnt := 0; consumer_msg_bytes := 0; out := [] |}.

Definition hs_new_consumer (exit_eof : bool) (set_ok : string -> bool) (create_ok : bool)
    (g : globals) : bool * list object * globals :=
  (hs_new_consumer_objects set_ok create_ok,
   {| run := run g; consumer_exit_eof := exit_eof; consumer_eof_cnt := consumer_eof_cnt g;
      consumer_partition_cnt := consumer_partition_cnt g; consumer_msg_cnt := consumer_msg_cnt g;
      consumer_msg_bytes := consumer_msg_bytes g; out := out g |}).

Definition stop_run (g : globals) : globals :=
  {| run := false; consumer_exit_eof := consumer_exit_eof g;
     consumer_eof_cnt := consumer_eof_cnt g; consumer_partition_cnt := consumer_partition_cnt g;
     consumer_msg_cnt := consumer_msg_cnt g; consumer_msg_bytes := consumer_msg_bytes g;
     out := out g |}.

Definition set_counts (eof partitions : Z) (g : globals) : globals :=
  {| run := run g; consumer_exit_eof := consumer_exit_eof g; consumer_eof_cnt := eof;
     consumer_partition_cnt := partitions; consumer_msg_cnt := consumer_msg_cnt g;
     consumer_msg_bytes := consumer_msg_bytes g; out := out g |}.

(** [create_time]: the timestamp is of type MSG_TIMESTAMP_CREATE_TIME. [tp]
    is where the message comes from. *)
Record Message := {
  err : ErrorCode; tp : TopicPartition; payload : string; key : option string;
  create_time : bool; timestamp : Z;
}.

(** [std::left << std::setw(n) << std::setfill(' ')] applied to [s]. *)
Fixpoint spaces (n : nat) : string :=
  match n with O => EmptyString | S n => String " "%char (spaces n) end.
Definition padded (n : nat) (s : string) : string := (s +:+ spaces (n - String.length s))%string.

Definition message_line (verbose : bool) (m : Message) : string :=
  ((if verbose then
     "CreateTimestamp: " +:+
     padded 15 (if create_time m then pretty (timestamp m) else EmptyString) +:+ " " +:+
     "Key: " +:+ padded 20 (default EmptyString (key m)) +:+ " "
   else EmptyString) +:+ payload m)%string.

Definition msg_consume (verbose : bool) (m : Message) (g : globals) : globals :=
  match err m with
  | ERR__TIMED_OUT => g
  | ERR_NO_ERROR =>
      {| run := run g; consumer_exit_eof := consumer_exit_eof g;
         consumer_eof_cnt := consumer_eof_cnt g;
         consumer_partition_cnt := consumer_partition_cnt g;
         consumer_msg_cnt := i64 (consumer_msg_cnt g + 1);
         consumer_msg_bytes := i64 (consumer_msg_bytes g + Z.of_nat (String.length (payload m)));
         out := out g ++ [message_line verbose m] |}
  | ERR__PARTITION_EOF =>
      if consumer_exit_eof g then
        let g := set_counts (i32 (consumer_eof_cnt g + 1)) (consumer_partition_cnt g) g in
        if consumer_eof_cnt g =? consumer_partition_cnt g then stop_run g else g
      else g
  | ERR__UNKNOWN_TOPIC | ERR__UNKNOWN_PARTITION => stop_run g
  | _ => stop_run g
  end.

(** What librdkafka and the system do while [consume] blocks. *)
Inductive served : Type :=
| Rebalance (assigning : bool) (partitions : list TopicPartition) (* rebalance_cb *)
| ErrorEvent (fatal : bool)                                       (* event_cb, EVENT_ERROR *)
| OtherEvent                                                      (* event_cb *)
| Signal.                                                         (* sigterm *)

Section consumer.
Context {C : Type} `{!KafkaConsumerLib C}.

Definition rebalance_cb (assigning : bool) (partitions : list TopicPartition)
    (cg : C * globals) : C * globals :=
  let '(c, g) := cg in
  let n := i32 (Z.of_nat (length partitions)) in
  if assigning then
    ((if cooperative c then incremental_assign c partitions else assign c partitions).2,
     set_counts 0 (i32 (consumer_partition_cnt g + n)) g)
  else if cooperative c then
    ((incremental_unassign c partitions).2, set_counts 0 (i32 (consumer_partition_cnt g - n)) g)
  else ((unassign c).2, set_counts 0 0 g).

Definition serve (cg : C * globals) (s : served) : C * globals :=
  match s with
  | Rebalance assigning partitions => rebalance_cb assigning partitions cg
  | ErrorEvent true | Signal => (cg.1, stop_run cg.2)
  | ErrorEvent false | OtherEvent => cg
  end.

(** One round: [consume(1000)] serves callbacks and returns a message. *)
Definition round (verbose : bool) (cg : C * globals) (r : list served * Message) : C * globals :=
  let '(c, g) := foldl serve cg r.1 in (c, msg_consume verbose r.2 g).

(** [while (run)]. Also returns the rounds that were not run. *)
Fixpoint consume_loop (verbose : bool) (rounds : list (list served * Message))
    (cg : C * globals) : C * globals * list (list served * Message) :=
  if run cg.2 then
    match rounds with
    | [] => (cg, [])
    | r :: rounds => consume_loop verbose rounds (round verbose cg r)
    end
  else (cg, rounds).

(** [subscribe] is the error that the call of [subscribe] reports, if any.
    [None] when the loop is still running after all rounds. *)
Definition hs_consumer_consume (subscribe : option string) (verbose : bool)
    (rounds : list (list served * Message)) (cg : C * globals)
    : option (Z * option string * (C * globals)) :=
  match subscribe with
  | Some e => Some (1, Some ("Failed to subscribe to topics: " +:+ e)%string, cg)
  | None =>
      let '(cg, _) := consume_loop verbose rounds cg in
      if run cg.2 then None else Some (0, None, cg)
  end.
End consumer.

(** ** Proofs: producer *)

(** Producing a message. The call is repeated exactly as long as
    librdkafka's queue is full, with one blocking poll after each refusal; the
    first other answer decides the result: success polls once without
    blocking and returns 0, an error returns 1 with its text. While the queue
    stays full the function does not return. *)
Theorem produce_retries (err2str : ErrorCode -> string) k e rest :
  e <> ERR__QUEUE_FULL ->
  produce_loop err2str (replicate k ERR__QUEUE_FULL ++ e :: rest) [] =
    Some (if bool_decide (e = ERR_NO_ERROR)
          then {| ret := 0; errstr := None; polls := replicate k 1000 ++ [0] |}
          else {| ret := 1; errstr := Some (err2str e); polls := replicate k 1000 |}) /\
  produce_loop err2str (replicate k ERR__QUEUE_FULL) [] = None.
Proof.
  intros He.
  assert (forall tl ps, produce_loop err2str (replicate k ERR__QUEUE_FULL ++ tl) ps =
    produce_loop err2str tl (ps ++ replicate k 1000)) as Hk.
  { intros tl. induction k as [|k IH]; intros ps; simpl; [by rewrite app_nil_r|].
    rewrite IH. by rewrite <- app_assoc. }
  split.
  - rewrite Hk. cbn [produce_loop app]. case_bool_decide; [done|].
    by rewrite bool_decide_eq_false_2.
  - rewrite <- (app_nil_r (replicate k ERR__QUEUE_FULL)), Hk. done.
Qed.

(** Constructing a producer or a consumer succeeds exactly when every
    setting is accepted and librdkafka can create the object; then the
    configuration has been freed and the callbacks are owned by the result.
    Otherwise a null pointer is returned and the configuration is leaked. *)
Theorem construction_exact set_ok create_ok :
  let p := hs_new_producer set_ok create_ok in
  let c := hs_new_consumer_objects set_ok create_ok in
  p.1 = set_ok "bootstrap.servers" && set_ok "dr_cb" && create_ok /\
  p.2 = (if p.1 then [ODeliveryReportCb]
         else OConf :: if set_ok "bootstrap.servers" then [ODeliveryReportCb] else []) /\
  (c.1 = true -> c.2 = [ORebalanceCb; OEventCb]) /\
  (c.1 = false -> OConf ∈ c.2 /\ ORebalanceCb ∈ c.2).
Proof.
  unfold hs_new_producer, hs_new_consumer_objects, construct. cbn [run_steps app].
  repeat (case_match; simplify_eq; try done); set_solver.
Qed.

(** ** Proofs: consumer *)

Section consumer_proofs.
Context {C : Type} `{!KafkaConsumerLib C}.
Implicit Types (c : C) (g : globals).

(** The messages received in some rounds. *)
Definition received (rounds : list (list served * Message)) : list Message :=
  filter (fun m => err m = ERR_NO_ERROR) rounds.*2.

Definition bytes (ms : list Message) : Z :=
  foldr (fun m n => Z.of_nat (String.length (payload m)) + n) 0 ms.

(** What callbacks never touch. *)
Lemma serve_keeps ss c g :
  let g' := (foldl serve (c, g) ss).2 in
  out g' = out g /\ consumer_msg_cnt g' = consumer_msg_cnt g /\
  consumer_msg_bytes g' = consumer_msg_bytes g /\ consumer_exit_eof g' = consumer_exit_eof g.
Proof.
  revert c g. induction ss as [|s ss IH]; intros c g; [done|]. cbn [foldl].
  destruct (serve (c, g) s) as [c1 g1] eqn:E. destruct (IH c1 g1) as (-> & -> & -> & ->).
  destruct s as [a ps|[]| |]; simpl in E; repeat case_match; by simplify_eq.
Qed.

Lemma round_received v c g r :
  let g' := (round v (c, g) r).2 in
  out g' = out g ++ (message_line v <$> received [r]) /\
  (is_i64 (consumer_msg_cnt g) ->
   consumer_msg_cnt g' = i64 (consumer_msg_cnt g + Z.of_nat (length (received [r])))) /\
  (is_i64 (consumer_msg_bytes g) ->
   consumer_msg_bytes g' = i64 (consumer_msg_bytes g + bytes (received [r]))).
Proof.
  unfold round, received. destruct r as [ss m]. cbn [fst snd].
  pose proof (serve_keeps ss c g) as Hk. destruct (foldl serve (c, g) ss) as [c1 g1].
  cbn [snd] in *. destruct Hk as (E1 & E2 & E3 & _). cbn [fmap list_fmap snd].
  rewrite filter_cons, filter_nil. unfold msg_consume.
  destruct (decide (err m = ERR_NO_ERROR)) as [E|E].
  - rewrite E. cbn. rewrite E1, E2, E3, Z.add_0_r. done.
  - rewrite <- E1, <- E2, <- E3. cbn. rewrite app_nil_r, !Z.add_0_r.
    split_and!; repeat case_match; try congruence; try done; intros Hi; by rewrite i64_id.
Qed.

Lemma received_cons r rounds : received (r :: rounds) = received [r] ++ received rounds.
Proof.
  unfold received. cbn [fmap list_fmap]. rewrite !filter_cons, filter_nil.
  by destruct (decide (err r.2 = ERR_NO_ERROR)).
Qed.

Lemma bytes_app ms ms' : bytes (ms ++ ms') = bytes ms + bytes ms'.
Proof. induction ms as [|m ms IH]; simpl; lia. Qed.

(** The consumer's loop. It runs the rounds up to the first one after which
    [run] is false, and no further; the messages received in them, and only
    those, are printed in order, and the counters have grown by their number
    and by the sum of their lengths. *)
Theorem consume_loop_exact v rounds c g c' g' rest :
  is_i64 (consumer_msg_cnt g) -> is_i64 (consumer_msg_bytes g) ->
  consume_loop v rounds (c, g) = (c', g', rest) ->
  exists used, rounds = used ++ rest /\ (c', g') = foldl (round v) (c, g) used /\
    (run g' = true -> rest = []) /\
    (forall k, (k < length used)%nat -> run (foldl (round v) (c, g) (take k used)).2 = true) /\
    out g' = out g ++ (message_line v <$> received used) /\
    consumer_msg_cnt g' = i64 (consumer_msg_cnt g + Z.of_nat (length (received used))) /\
    consumer_msg_bytes g' = i64 (consumer_msg_bytes g + bytes (received used)).
Proof.
  revert c g. induction rounds as [|r rounds IH]; intros c g Hc Hb E;
    cbn [consume_loop snd] in E; destruct (run g) eqn:Er; simplify_eq.
  1, 2, 4: exists []; cbn; rewrite app_nil_r, !Z.add_0_r, !i64_id by done; split_and!;
    done || congruence || (intros; lia).
  destruct (round v (c, g) r) as [c1 g1] eqn:E1.
  destruct (round_received v c g r) as (Ho & Hn & Hs). rewrite E1 in Ho, Hn, Hs.
  cbn [snd] in *. specialize (Hn Hc). specialize (Hs Hb).
  destruct (IH c1 g1) as (used & -> & Hf & Hr & Hk & Ho' & Hn' & Hs'); [rewrite ?Hn, ?Hs; apply i64_range..|done|].
  exists (r :: used). split_and!; [done|cbn [foldl]; by rewrite E1|done| | | |].
  - intros [|k] Hlt; [done|]. cbn [take foldl]. rewrite E1. apply Hk. simpl in Hlt. lia.
  - rewrite Ho', Ho, (received_cons r used), fmap_app. by rewrite app_assoc.
  - rewrite Hn', Hn, (received_cons r used), length_app, i64_add_l. f_equal. lia.
  - rewrite Hs', Hs, (received_cons r used), bytes_app, i64_add_l. f_equal. lia.
Qed.

(** ** Proofs: partitions *)

(** The rebalances librdkafka asks for: partitions are listed once; the
    cooperative protocol adds partitions that are not assigned and takes away
    assigned ones, the eager one assigns only after everything was revoked.
    The calls they lead to succeed. *)
Definition valid_rebalance c (assigning : bool) (ps : list TopicPartition) : Prop :=
  NoDup ps /\ Z.of_nat (size (assignment c) + length ps) < 2 ^ 31 /\
  if assigning then
    if cooperative c then
      (list_to_set ps : gset TopicPartition) ## assignment c /\ (incremental_assign c ps).1 = true
    else assignment c = ∅ /\ (assign c ps).1 = true
  else
    if cooperative c then
      (list_to_set ps : gset TopicPartition) ⊆ assignment c /\
      (incremental_unassign c ps).1 = true
    else (unassign c).1 = true.

Fixpoint valid_rebalances c (rs : list (bool * list TopicPartition)) g : Prop :=
  match rs with
  | [] => True
  | (a, ps) :: rs =>
      valid_rebalance c a ps /\
      valid_rebalances (rebalance_cb a ps (c, g)).1 rs (rebalance_cb a ps (c, g)).2
  end.

Definition counted c g : Prop := consumer_partition_cnt g = Z.of_nat (size (assignment c)).

Lemma rebalance_counted c g a ps :
  counted c g -> valid_rebalance c a ps ->
  counted (rebalance_cb a ps (c, g)).1 (rebalance_cb a ps (c, g)).2.
Proof.
  unfold counted, valid_rebalance, rebalance_cb. intros Hc (Hnd & Hsz & Hv).
  pose proof (size_list_to_set (C := gset TopicPartition) ps Hnd) as Hps.
  rewrite (i32_id (Z.of_nat (length ps))) by (unfold is_i32; lia).
  destruct a, (cooperative c); cbn [fst snd set_counts consumer_partition_cnt]; rewrite ?Hc.
  - destruct Hv as [Hd Hok]. rewrite incremental_assign_ok, size_union, Hps by done.
    rewrite i32_id by (unfold is_i32; lia). lia.
  - destruct Hv as [He Hok]. rewrite assign_ok, Hps, He, size_empty by done.
    rewrite i32_id by (unfold is_i32; lia). lia.
  - destruct Hv as [Hs Hok]. rewrite incremental_unassign_ok, size_difference, Hps by done.
    apply subseteq_size in Hs. rewrite Hps in Hs. rewrite i32_id by (unfold is_i32; lia). lia.
  - by rewrite unassign_ok, size_empty.
Qed.

(** Through any sequence of rebalances, cooperative or eager, the partition
    counter is the number of partitions assigned to the consumer. *)
Theorem partition_count_exact rs c g :
  counted c g -> valid_rebalances c rs g ->
  let cg := foldl (fun cg r => rebalance_cb r.1 r.2 cg) (c, g) rs in counted cg.1 cg.2.
Proof.
  revert c g. induction rs as [|[a ps] rs IH]; intros c g Hc Hv; [done|].
  destruct Hv as [Hv Hrs]. cbn [foldl fst snd].
  pose proof (rebalance_counted c g a ps Hc Hv) as Hc'.
  destruct (rebalance_cb a ps (c, g)) as [c' g']. by apply IH.
Qed.

(** ** Proofs: end of partitions *)

(** The partitions whose end is reported, in order. *)
Definition eofs (rounds : list (list served * Message)) : list TopicPartition :=
  tp <$> filter (fun m => err m = ERR__PARTITION_EOF) rounds.*2.

(** Rounds in which nothing but messages, time-outs and ends of partitions
    happens. *)
Definition quiet (r : list served * Message) : Prop :=
  Forall (fun s => s = OtherEvent \/ s = ErrorEvent false) r.1 /\
  (err r.2 = ERR_NO_ERROR \/ err r.2 = ERR__TIMED_OUT \/ err r.2 = ERR__PARTITION_EOF).

Lemma quiet_served ss c g :
  Forall (fun s => s = OtherEvent \/ s = ErrorEvent false) ss -> foldl serve (c, g) ss = (c, g).
Proof. induction 1 as [|s ss [-> | ->] _ IH]; done. Qed.

Lemma eofs_cons r rounds :
  eofs (r :: rounds) =
  (if decide (err r.2 = ERR__PARTITION_EOF) then [tp r.2] else []) ++ eofs rounds.
Proof. unfold eofs. cbn [fmap list_fmap]. rewrite filter_cons. by case_decide. Qed.

(** With [n] partitions and [k] ends seen, the loop stops when [n - k] more
    have been seen. *)
Lemma quiet_loop v rounds c g :
  Forall quiet rounds -> run g = true -> consumer_exit_eof g = true ->
  0 <= consumer_eof_cnt g < consumer_partition_cnt g -> consumer_partition_cnt g < 2 ^ 31 ->
  run (consume_loop v rounds (c, g)).1.2 = false <->
  consumer_partition_cnt g <= consumer_eof_cnt g + Z.of_nat (length (eofs rounds)).
Proof.
  intros Hq. revert g. induction Hq as [|[ss m] rounds [Hs He] Hq IH]; intros g Hr Hx Hlt Hmax.
  { cbn [consume_loop snd]. rewrite Hr. cbn. rewrite Hr. split; [done|lia]. }
  cbn [consume_loop snd]. rewrite Hr. unfold round. cbn [fst snd] in *.
  rewrite (quiet_served ss c g Hs), eofs_cons, length_app. cbn [snd].
  destruct He as [He|[He|He]]; unfold msg_consume; rewrite He.
  - rewrite decide_False by done. rewrite IH by done. done.
  - rewrite decide_False by done. rewrite IH by done. done.
  - rewrite decide_True by done. rewrite Hx. cbn [set_counts consumer_eof_cnt
      consumer_partition_cnt]. rewrite i32_id by (unfold is_i32; lia). cbn [length].
    destruct (Z.eqb_spec (consumer_eof_cnt g + 1) (consumer_partition_cnt g)) as [E|E].
    + destruct rounds; cbn; (split; [lia|done]).
    + rewrite IH by (cbn; done || lia). cbn. lia.
Qed.

(** With [exit_eof], an assignment that does not change and no errors, the
    consumer stops exactly when every assigned partition has reported its end,
    provided that no partition reports it twice. *)
Theorem exits_at_end_of_all v rounds c g :
  Forall quiet rounds -> run g = true -> consumer_exit_eof g = true ->
  consumer_eof_cnt g = 0 -> counted c g -> assignment c <> ∅ ->
  Z.of_nat (size (assignment c)) < 2 ^ 31 ->
  NoDup (eofs rounds) -> list_to_set (eofs rounds) ⊆ assignment c ->
  run (consume_loop v rounds (c, g)).1.2 = false <-> list_to_set (eofs rounds) = assignment c.
Proof.
  unfold counted. intros Hq Hr Hx H0 Hc Hne Hmax Hnd Hsub.
  assert (size (assignment c) <> 0%nat) as Hpos by (intros E%size_empty_inv; by apply Hne, leibniz_equiv).
  pose proof (size_list_to_set (C := gset TopicPartition) (eofs rounds) Hnd) as Hsz.
  rewrite quiet_loop by (done || lia). rewrite H0, Hc. split.
  - intros Hle. apply leibniz_equiv, set_subseteq_size_equiv; [exact Hsub|]. rewrite Hsz. lia.
  - intros E. rewrite <- E, Hsz. lia.
Qed.
End consumer_proofs.
End KafkaClient.

Module KafkaClientWitness.
Import KafkaClient.

(** A consumer whose calls always succeed: its protocol and its assignment. *)
#[refine] Instance set_consumer : KafkaConsumerLib (bool * gset TopicPartition) :=
  {| assignment c := c.2;
     cooperative c := c.1;
     assign c ps := (true, (c.1, list_to_set ps));
     unassign c := (true, (c.1, ∅));
     incremental_assign c ps := (true, (c.1, c.2 ∪ list_to_set ps));
     incremental_unassign c ps := (true, (c.1, c.2 ∖ list_to_set ps)) |}.
Proof. all: done. Defined.

Definition p0 : TopicPartition := ("t", 0).
Definition p1 : TopicPartition := ("t", 1).
Definition msg (e : ErrorCode) (p : TopicPartition) : Message :=
  {| err := e; tp := p; payload := "hello"; key := None; create_time := true; timestamp := 42 |}.
Definition eof (p : TopicPartition) : list served * Message := ([], msg ERR__PARTITION_EOF p).
Definition data (p : TopicPartition) : list served * Message := ([], msg ERR_NO_ERROR p).

Definition reading : (bool * gset TopicPartition) * globals :=
  rebalance_cb true [p0; p1] ((false, ∅), initial true).

(** A partition that reports its end, receives a message and reports its
    end again is counted twice: with two partitions the consumer stops as if
    both had ended, and the message waiting in the other is never read. *)
Theorem eof_counted_twice :
  assignment reading.1 = {[ p0; p1 ]} /\
  consume_loop false [eof p0; data p0; eof p0; data p1; eof p1] reading =
  (reading.1,
   {| run := false; consumer_exit_eof := true; consumer_eof_cnt := 2;
      consumer_partition_cnt := 2; consumer_msg_cnt := 1; consumer_msg_bytes := 5;
      out := ["hello"] |},
   [data p1; eof p1]).
Proof. split; [vm_compute; reflexivity|]. vm_compute. reflexivity. Qed.

Lemma produce_retries_witness :
  produce_loop (fun _ => "error") [ERR__QUEUE_FULL; ERR__QUEUE_FULL; ERR_NO_ERROR] [] =
    Some {| ret := 0; errstr := None; polls := [1000; 1000; 0] |} /\
  produce_loop (fun _ => "error") [ERR__QUEUE_FULL; ERR__QUEUE_FULL] [] = None.
Proof. apply (produce_retries (fun _ => "error") 2 ERR_NO_ERROR []). discriminate. Defined.

Lemma construction_exact_witness :
  (hs_new_producer (fun _ => false) true).1 = false /\
  (hs_new_producer (fun _ => false) true).2 = [OConf].
Proof.
  destruct (construction_exact (fun _ => false) true) as (H1 & H2 & _).
  split; [exact H1|]. rewrite H2, H1. reflexivity.
Defined.

Lemma consume_loop_exact_witness :
  exists used, [data p0; eof p0; eof p1; data p1] = used ++ [data p1] /\
    [("hello" : string)] = message_line false <$> received used.
Proof.
  destruct (consume_loop_exact false [data p0; eof p0; eof p1; data p1] reading.1 reading.2
    reading.1 {| run := false; consumer_exit_eof := true; consumer_eof_cnt := 2;
      consumer_partition_cnt := 2; consumer_msg_cnt := 1; consumer_msg_bytes := 5;
      out := ["hello"] |} [data p1]) as (used & E & _ & _ & _ & Ho & _);
    [split; vm_compute; congruence..|vm_compute; reflexivity|].
  exists used. split; [exact E|exact Ho].
Defined.

Lemma partition_count_exact_witness :
  let cg := foldl (fun cg r => rebalance_cb r.1 r.2 cg) ((true, ∅), initial true)
    [(true, [p0; p1]); (false, [p0])] in
  counted cg.1 cg.2.
Proof.
  apply (partition_count_exact [(true, [p0; p1]); (false, [p0])] (true, ∅) (initial true)).
  - vm_compute. reflexivity.
  - split_and!; try done; try (vm_compute; reflexivity);
      (apply (bool_decide_unpack _); vm_compute; exact I).
Defined.

Lemma exits_at_end_of_all_witness :
  run (consume_loop false [eof p0; data p1; eof p1] reading).1.2 = false <->
  list_to_set (eofs [eof p0; data p1; eof p1]) = assignment reading.1.
Proof.
  apply (exits_at_end_of_all false [eof p0; data p1; eof p1] reading.1 reading.2);
    try (vm_compute; reflexivity).
  - repeat (apply Forall_cons; split; [split; [constructor|simpl; auto]|]). constructor.
  - vm_compute. discriminate.
  - apply (bool_decide_unpack _). vm_compute. exact I.
  - apply (bool_decide_unpack _). vm_compute. exact I.
Defined.
End KafkaClientWitness.
