(* ===== verification/Reader.v ===== *)
(** * Readers (src/hstream-store/cbits/logdevice/hs_reader.cpp, utils.cpp)

    Records read from LogDevice are copied to an array of Haskell's; a gap in
    the sequence numbers is reported instead. A checkpointed reader also writes
    and removes checkpoints. *)

From stdpp Require Import base gmap strings list.
From Stdlib Require Import ZArith Lia.
From S2P Require Import Prelude CheckpointStore.
Import CheckpointStore.

Module Reader.

(** LogDevice's codes: the statuses and the gap type the code names. *)
Class ReaderCodes := { E_OK : Z; E_GAP : Z; E_DATALOSS : Z; GapType_DATALOSS : Z }.

(** LogDevice's [DataRecord] and [GapRecord], with the members the code reads;
    a payload is its bytes. *)
Record DataRecord := {
  d_logid : Z; d_lsn : Z; d_timestamp : Z; d_batch_offset : Z; d_payload : list Z;
  d_byte_offset : Z;
}.
Record GapRecord := { g_logid : Z; g_type : Z; g_lo : Z; g_hi : Z }.

(** [logdevice_data_record_t]; the payload is null or points to its bytes. *)
Record logdevice_data_record_t := {
  logid : Z; lsn : Z; timestamp : Z; batch_offset : Z; payload : option (list Z);
  payload_len : Z; byte_offset : Z;
}.

(** [copyString]; an empty payload has a null copy. *)
Definition copyString (malloc_ok : bool) (data : list Z) : res (option (list Z)) :=
  match data with
  | [] => Ok None
  | _ => if malloc_ok then Ok (Some data) else Err (StdExn "bad_alloc")
  end.

(** What [reader->rep->read] leaves: its return value, the records, the gap
    and LogDevice's [err]. *)
Record read_result := { nread : Z; data : list DataRecord; gap : GapRecord; err : Z }.

Definition copied (r : DataRecord) (p : option (list Z)) : logdevice_data_record_t :=
  {| logid := d_logid r; lsn := d_lsn r; timestamp := d_timestamp r;
     batch_offset := d_batch_offset r; payload := p;
     payload_len := Z.of_nat (length (d_payload r)); byte_offset := d_byte_offset r |}.

(** The loop over the records; [malloc_ok i] says whether the [i]-th copy can
    be allocated. Writing past [data_out] is undefined: [None]. *)
Fixpoint copy_loop (malloc_ok : nat -> bool) (data : list DataRecord) (i : nat)
    (data_out : list logdevice_data_record_t) : option (res (list logdevice_data_record_t)) :=
  match data with
  | [] => Some (Ok data_out)
  | r :: data =>
      if bool_decide (i < length data_out)%nat then
        match copyString (malloc_ok i) (d_payload r) with
        | Ok p => copy_loop malloc_ok data (S i) (<[i := copied r p]> data_out)
        | Err e => Some (Err e)
        end
      else None
  end.

(** What the caller gets: the status, the array, the gap when one was written
    and [*len_out]. *)
Record read_out := {
  o_status : Z; o_data : list logdevice_data_record_t; o_gap : option GapRecord; o_len : Z;
}.

Section read.
Context `{!ReaderCodes}.

(** [READ]. [asserts]: the build checks assertions; a failed one aborts. The
    gap type is narrowed to a byte. *)
Definition READ (asserts : bool) (malloc_ok : nat -> bool) (rr : read_result)
    (data_out : list logdevice_data_record_t) (gap_out : bool) : option (res read_out) :=
  if 0 <=? nread rr then
    copied ← copy_loop malloc_ok (data rr) 0 data_out;
    match copied with
    | Ok data_out =>
        Some (Ok {| o_status := E_OK; o_data := data_out; o_gap := None; o_len := nread rr |})
    | Err e => Some (Err e)
    end
  else if asserts && negb (err rr =? E_GAP) then None
  else if gap_out then
    let g := {| g_logid := g_logid (gap rr); g_type := u8 (g_type (gap rr));
                g_lo := g_lo (gap rr); g_hi := g_hi (gap rr) |} in
    Some (Ok {| o_status := E_OK; o_data := data_out; o_gap := Some g; o_len := nread rr |})
  else
    Some (Ok {| o_status := if g_type (gap rr) =? GapType_DATALOSS then E_DATALOSS else E_OK;
                o_data := data_out; o_gap := None; o_len := nread rr |}).

(** [START_READING], [STOP_READING] and the checkpointed variants: [ret] is
    what the reader's function returned. *)
Definition status_of (ret err : Z) : Z := if ret =? 0 then E_OK else err.
End read.

(** ** Checkpoints of a reader *)

(** The map that [crb_write_checkpoints] and [sync_write_checkpoints] pass to
    the reader, *)
Definition crb_write_checkpoints (logids lsns : list Z) (len : nat) : option (gmap Z Z) :=
  build_checkpoints logids lsns len.

(** and the vector built from [logids] and [logids + len] by
    [crb_write_last_read_checkpoints], [crb_asyncRemoveCheckpoints] and
    [sync_write_last_read_checkpoints]. *)
Definition crb_logids (logids : list Z) (len : nat) : option (list Z) :=
  if bool_decide (len <= length logids)%nat then Some (take len logids) else None.

(** ** Proofs *)

(** The copy of a record. *)
Definition delivered (r : DataRecord) : logdevice_data_record_t :=
  copied r (if decide (d_payload r = []) then None else Some (d_payload r)).

Lemma copyString_delivered r : copyString true (d_payload r) = Ok (payload (delivered r)).
Proof. unfold copyString, delivered. by destruct (d_payload r). Qed.

Lemma copy_loop_spec malloc_ok data i data_out :
  (i + length data <= length data_out)%nat -> (forall j, malloc_ok j = true) ->
  copy_loop malloc_ok data i data_out =
  Some (Ok (take i data_out ++ (delivered <$> data) ++ drop (i + length data) data_out)).
Proof.
  revert i data_out. induction data as [|r data IH]; intros i out Hlen Hm;
    cbn [copy_loop length fmap list_fmap app].
  { rewrite Nat.add_0_r. by rewrite take_drop. }
  simpl in Hlen. rewrite bool_decide_eq_true_2, Hm, copyString_delivered by lia.
  rewrite IH by (rewrite ?length_insert; done || lia).
  rewrite (take_S_r _ _ (copied r (payload (delivered r)))) by (apply list_lookup_insert_eq; lia).
  rewrite take_insert_ge, drop_insert_lt, Nat.add_succ_comm by lia. by rewrite <- app_assoc.
Qed.

Section read_proofs.
Context `{!ReaderCodes}.

(** Records that fit are copied to the front of the array. *)
Lemma READ_records asserts malloc_ok rr data_out gap_out :
  (forall j, malloc_ok j = true) -> (length (data rr) <= length data_out)%nat ->
  0 <= nread rr -> nread rr = Z.of_nat (length (data rr)) ->
  READ asserts malloc_ok rr data_out gap_out =
  Some (Ok {| o_status := E_OK;
              o_data := (delivered <$> data rr) ++ drop (length (data rr)) data_out;
              o_gap := None; o_len := Z.of_nat (length (data rr)) |}).
Proof.
  intros Hm Hlen Hpos Hn. unfold READ. rewrite (proj2 (Z.leb_le _ _)) by done.
  rewrite copy_loop_spec by done. cbn [mbind option_bind take app Nat.add]. by rewrite Hn.
Qed.

(** A read. When LogDevice returned records, no more than the array holds,
    they are copied to its beginning in order, with their payloads, lengths
    and attributes; the rest of the array stays as it was and the number of
    records is returned. Otherwise the array is untouched: the gap is stored
    when there is a place for it, and without one a loss of data, and nothing
    else, is reported as an error. *)
Theorem read_exact asserts malloc_ok rr data_out gap_out :
  (forall j, malloc_ok j = true) -> (length (data rr) <= length data_out)%nat ->
  (0 <= nread rr -> nread rr = Z.of_nat (length (data rr)) ->
   READ asserts malloc_ok rr data_out gap_out =
   Some (Ok {| o_status := E_OK;
               o_data := (delivered <$> data rr) ++ drop (length (data rr)) data_out;
               o_gap := None; o_len := Z.of_nat (length (data rr)) |})) /\
  (nread rr < 0 -> err rr = E_GAP ->
   exists o, READ asserts malloc_ok rr data_out gap_out = Some (Ok o) /\
     o_data o = data_out /\ o_len o = nread rr /\
     (gap_out = true -> o_status o = E_OK /\
        exists g, o_gap o = Some g /\ g_lo g = g_lo (gap rr) /\ g_hi g = g_hi (gap rr) /\
          g_logid g = g_logid (gap rr)) /\
     (gap_out = false -> E_DATALOSS <> E_OK ->
        o_gap o = None /\ (o_status o = E_DATALOSS <-> g_type (gap rr) = GapType_DATALOSS))).
Proof.
  intros Hm Hlen. split; [by apply READ_records|]. unfold READ.
  - intros Hneg He. rewrite (proj2 (Z.leb_gt _ _)) by done. rewrite He, Z.eqb_refl, andb_false_r.
    destruct gap_out; eexists; (split; [reflexivity|]); cbn; split_and!; try done.
    + intros _. split; [done|]. by eexists.
    + intros _ Hd. split; [done|]. destruct (Z.eqb_spec (g_type (gap rr)) GapType_DATALOSS);
        by split.
Qed.
End read_proofs.

(** What a checkpointed reader writes and removes: the map passed on has
    the last position given for each log, and the logs removed are exactly
    those of the array, in order. *)
Theorem reader_checkpoints_exact logids lsns len :
  (len <= length logids)%nat -> (len <= length lsns)%nat -> Z.of_nat len < 2 ^ 31 ->
  (exists m, crb_write_checkpoints logids lsns len = Some m /\
     forall l v, m !! l = Some v <-> last_position logids lsns len l v) /\
  crb_logids logids len = Some (take len logids).
Proof.
  intros Hl Hv Hn. split; [by apply build_checkpoints_spec|].
  unfold crb_logids. by rewrite bool_decide_eq_true_2.
Qed.
End Reader.

Module ReaderWitness.
Import Reader.

#[local] Instance codes : ReaderCodes :=
  {| E_OK := 0; E_GAP := 5; E_DATALOSS := 6; GapType_DATALOSS := 2 |}.

Definition rec (n : Z) (p : list Z) : DataRecord :=
  {| d_logid := 1; d_lsn := n; d_timestamp := 0; d_batch_offset := 0; d_payload := p;
     d_byte_offset := 0 |}.
Definition cell : logdevice_data_record_t :=
  {| logid := 0; lsn := 0; timestamp := 0; batch_offset := 0; payload := None;
     payload_len := 0; byte_offset := 0 |}.
Definition two_records : read_result :=
  {| nread := 2; data := [rec 7 [1; 2]; rec 8 []];
     gap := {| g_logid := 0; g_type := 0; g_lo := 0; g_hi := 0 |}; err := 0 |}.

Lemma read_exact_witness :
  READ true (fun _ => true) two_records [cell; cell; cell] false =
  Some (Ok {| o_status := 0; o_data := [delivered (rec 7 [1; 2]); delivered (rec 8 []); cell];
              o_gap := None; o_len := 2 |}).
Proof.
  destruct (read_exact true (fun _ => true) two_records [cell; cell; cell] false) as [H _];
    [done|simpl; lia|].
  apply H; simpl; lia.
Defined.

Lemma reader_checkpoints_exact_witness : crb_logids [4; 5; 6] 2 = Some [4; 5].
Proof. apply (reader_checkpoints_exact [4; 5; 6] [1; 2; 3] 2); simpl; lia. Defined.
End ReaderWitness.
