(* ===== verification/AdminClient.v ===== *)
(** * The admin command client (src/clients/cpp/src/AdminClient.cpp, .h)

    [send] gives the requests to a thread pool and collects the responses.
    gRPC is a parameter: what a call for a request ends with. *)

From stdpp Require Import base gmap strings list pretty.
From Stdlib Require Import ZArith Lia.
From S2P Require Import Prelude NameNormalizer AdminTableData.
Import AdminTableData.

Module AdminClient.

(** [AdminCommandClient::Request]. *)
Record Request := { addr : string; request : string }.

(** The end of a gRPC call: a reply, a status that is not ok, or an
    exception. *)
Inductive rpc_end (A : Type) : Type :=
| Reply (a : A)
| StatusError (error_code : Z) (error_message : string)
| Thrown (what : string).
Arguments Reply {A}.
Arguments StatusError {A}.
Arguments Thrown {A}.

(** [getNodesConfiguration]; an exception passes to the caller. *)
Definition getNodesConfiguration {Node} (call : rpc_end (list Node)) : res (option (list Node)) :=
  match call with
  | Reply servernodes =>
      Ok (Some (foldl (fun nodes i => nodes ++ [i]) [] servernodes))
  | StatusError _ _ => Ok None
  | Thrown what => Err (StdExn what)
  end.

(** [folly::Try<Response>]. *)
Notation Try := (res Response).

Definition sendAdminCommand (call : rpc_end string) : Try :=
  match call with
  | Reply result => Ok {| response := result; success := true; failure_reason := EmptyString |}
  | StatusError code message =>
      Ok {| response := EmptyString; success := false;
            failure_reason := (pretty code +:+ ": " +:+ message)%string |}
  | Thrown what => Err (StdExn what)
  end.

Section send.
(** How the call for the [i]-th request ends. *)
Context (rpc : nat -> Request -> rpc_end string).

(** [asyncSend]: the futures, one per request; the pool's threads complete
    them one after the other in some [order]. *)
Definition complete (rs : list Request) (futures : list (option Try)) (i : nat)
    : list (option Try) :=
  match rs !! i with
  | Some r => <[i := Some (sendAdminCommand (rpc i r))]> futures
  | None => futures
  end.

Definition asyncSend (order : list nat) (rs : list Request) : list (option Try) :=
  foldl (complete rs) (replicate (length rs) None) order.

(** The text of an exception. *)
Definition what (e : exn) : string := match e with StdExn w | ToHs w => w end.

(** [collectAll] waits for all futures and gives their results in the order of
    the futures; [None] while one is not complete. *)
Definition send (order : list nat) (rs : list Request) : option (list Response) :=
  results ← mapM (fun f => f) (asyncSend order rs);
  Some (foldl (fun ret result =>
    ret ++ [match result with
            | Ok v => v
            | Err e => {| response := EmptyString; success := false; failure_reason := what e |}
            end]) [] results).

(** ** Proofs *)

(** The response to one request. *)
Definition answer (i : nat) (r : Request) : Response :=
  match rpc i r with
  | Reply result => {| response := result; success := true; failure_reason := EmptyString |}
  | StatusError code message =>
      {| response := EmptyString; success := false;
         failure_reason := (pretty code +:+ ": " +:+ message)%string |}
  | Thrown w => {| response := EmptyString; success := false; failure_reason := w |}
  end.

Lemma length_asyncSend order rs : length (asyncSend order rs) = length rs.
Proof.
  unfold asyncSend. rewrite <- (length_replicate (length rs) (None : option Try)) at 2.
  generalize (replicate (length rs) (None : option Try)). induction order as [|i order IH];
    intros fs; [done|]. cbn [foldl]. rewrite IH. unfold complete.
  destruct (rs !! i); [apply length_insert|done].
Qed.

Lemma complete_all rs order fs i r :
  length fs = length rs -> rs !! i = Some r ->
  foldl (complete rs) fs order !! i =
  if decide (i ∈ order) then Some (Some (sendAdminCommand (rpc i r))) else fs !! i.
Proof.
  revert fs. induction order as [|j order IH]; intros fs Hlen Hr; cbn [foldl].
  { rewrite decide_False; [done|]. apply not_elem_of_nil. }
  rewrite IH; [|unfold complete; destruct (rs !! j); rewrite ?length_insert; done|done].
  unfold complete. destruct (decide (i ∈ order)) as [Hi|Hi].
  { rewrite decide_True; [done|]. by apply elem_of_cons; right. }
  destruct (decide (j = i)) as [->|Hne].
  - rewrite decide_True by (by apply elem_of_cons; left). rewrite Hr.
    apply list_lookup_insert_eq. rewrite Hlen. by eapply lookup_lt_Some.
  - rewrite decide_False by (rewrite elem_of_cons; naive_solver).
    destruct (rs !! j); [by rewrite list_lookup_insert_ne|done].
Qed.

Lemma foldl_snoc_fmap {A B} (f : A -> B) (l : list A) acc :
  foldl (fun ret x => ret ++ [f x]) acc l = acc ++ (f <$> l).
Proof.
  revert acc. induction l as [|x l IH]; intros acc; simpl; [by rewrite app_nil_r|].
  by rewrite IH, <- app_assoc.
Qed.

Lemma send_complete order rs : order ≡ₚ seq 0 (length rs) -> send order rs = Some (imap answer rs).
Proof.
  intros Hp. unfold send.
  assert (asyncSend order rs = Some <$> imap (fun i r => sendAdminCommand (rpc i r)) rs) as ->.
  { apply list_eq. intros i. rewrite list_lookup_fmap, list_lookup_imap.
    destruct (rs !! i) as [r|] eqn:Hr; simpl.
    - unfold asyncSend. rewrite (complete_all rs order _ i r) by (rewrite ?length_replicate; done).
      rewrite decide_True; [done|]. rewrite Hp. apply elem_of_seq.
      apply lookup_lt_Some in Hr. lia.
    - apply lookup_ge_None_2. rewrite length_asyncSend. by apply lookup_ge_None_1. }
  rewrite mapM_fmap_Some by done. cbn [mbind option_bind]. f_equal.
  rewrite (foldl_snoc_fmap (fun result => match result with
    | Ok v => v
    | Err e => {| response := EmptyString; success := false; failure_reason := what e |} end)).
  cbn [app]. rewrite fmap_imap. apply imap_ext. intros i r _. unfold answer, compose.
  by destruct (rpc i r).
Qed.

(** Whatever the order in which the pool completes the calls, [send]
    returns one response per request, in the order of the requests: the reply,
    the status of a failed call, or the text of an exception. It returns only
    when every call has been completed. *)
Theorem send_in_order order rs :
  (order ≡ₚ seq 0 (length rs) -> send order rs = Some (imap answer rs)) /\
  (forall i, (i < length rs)%nat -> i ∉ order -> send order rs = None).
Proof.
  split; [apply send_complete|]. unfold send.
  intros i Hi Hn. destruct (lookup_lt_is_Some_2 rs i Hi) as [r Hr].
  destruct (mapM (fun f => f) (asyncSend order rs)) as [l|] eqn:E; [|done]. exfalso.
  apply mapM_Some in E.
  destruct (Forall2_lookup_l _ _ _ i None E) as (y & _ & Hy); [|done].
  unfold asyncSend. rewrite (complete_all rs order _ i r) by (rewrite ?length_replicate; done).
  rewrite decide_False by done. by apply lookup_replicate_2.
Qed.
End send.
End AdminClient.

Module AdminClientWitness.
Import AdminClient.

(** The first node answers, the second is unavailable, the third throws. *)
Definition rpc (i : nat) (r : Request) : rpc_end string :=
  match i with 0%nat => Reply "ok" | 1%nat => StatusError 14 "down" | _ => Thrown "boom" end.
Definition req : Request := {| addr := "127.0.0.1:6570"; request := "server status" |}.

Lemma send_in_order_witness :
  failure_reason <$> default [] (send rpc [2; 0; 1]%nat [req; req; req]) =
  [EmptyString; "14: down"; "boom"].
Proof.
  destruct (send_in_order rpc [2; 0; 1]%nat [req; req; req]) as [H _].
  rewrite H; [vm_compute; reflexivity|].
  apply (bool_decide_unpack _). vm_compute. exact I.
Defined.
End AdminClientWitness.
