(* ===== verification/FakeServer.v ===== *)
(** * The benchmark's server (src/bench/cpp/fake_server.cpp)

    An asynchronous gRPC server. Every RPC method of every completion queue has
    an object that waits for a request; when one arrives the object first makes
    its successor, then runs its handler, replies, and deletes itself once the
    reply is sent. The handlers are functions; the life of the objects is a
    transition system in which gRPC moves and the threads of the server move. *)

From stdpp Require Import base gmap strings list relations pretty.
From Stdlib Require Import ZArith Lia Ascii.
From S2P Require Import Prelude ConfigStore.

Module FakeServer.

(** ** Requests, replies and handlers *)

Inductive CallStatus := CREATE | PROCESS | FINISH.
Inductive Method := Echo | DescribeCluster | ListShards | LookupShard | CreateStream | Append.

#[global] Instance CallStatus_eq_dec : EqDecision CallStatus.
Proof. solve_decision. Defined.
#[global] Instance Method_eq_dec : EqDecision Method.
Proof. solve_decision. Defined.

(** [HStreamCtx] without the client. *)
Record HStreamCtx := { host : string; port : Z }.

(** The request and the reply of every method. *)
Inductive Request : Method -> Type :=
| EchoRequest (msg : string) : Request Echo
| EmptyRequest : Request DescribeCluster
| ListShardsRequest (streamname : string) : Request ListShards
| LookupShardRequest (shardid : Z) : Request LookupShard
| StreamRequest (streamname : string) : Request CreateStream
| AppendRequest (streamname : string) (shardid batchsize : Z) (payload : string)
    : Request Append.

Record ServerNode := { n_id : Z; n_host : string; n_port : Z }.
Record Shard := {
  sh_streamname : string; sh_shardid : Z; sh_start : string; sh_end : string; sh_epoch : Z;
}.
Record RecordId := { r_shardid : Z; r_batchid : Z; r_batchindex : Z }.

Inductive Reply : Method -> Type :=
| EchoResponse (msg : string) : Reply Echo
| DescribeClusterResponse (protocolversion serverversion : string) (nodes : list ServerNode)
    : Reply DescribeCluster
| ListShardsResponse (shards : list Shard) : Reply ListShards
| LookupShardResponse (shardid : Z) (node : ServerNode) : Reply LookupShard
| StreamResponse : Reply CreateStream (* as default constructed *)
| AppendResponse (streamname : string) (shardid : Z) (recordids : list RecordId) : Reply Append.

(** What a handler ends with. [Blocks]: it waits forever. *)
Inductive outcome (m : Method) := Replies (r : Reply m) | Throws (what : string) | Blocks.
Arguments Replies {m}.
Arguments Throws {m}.
Arguments Blocks {m}.

(** What LogDevice gives the handlers: the log groups of a directory, with the
    first id of their range and their extras, and the fate of an append. *)
Record LogGroup := { first_logid : Z; extras : option (gmap string string) }.
Inductive append_fate :=
| NotPosted                        (* appendBatched returns an error *)
| Appended (lsn : Z)               (* the callback gets E::OK *)
| AppendFailed.                    (* the callback gets another status *)

(** [std::stoull]: as [std::stoll] with another range; a minus sign negates in
    the unsigned type. *)
Definition stoull (str : string) : res Z :=
  let s := ConfigStore.skip_space (char_codes str) in
  let '(neg, s) := match s with
    | c :: s' => if c =? 45 then (true, s') else if c =? 43 then (false, s') else (false, s)
    | [] => (false, [])
    end in
  match ConfigStore.digits s with
  | [] => Err (StdExn "stoull")
  | ds =>
      let v := ConfigStore.digits_value ds in
      if 2 ^ 64 <=? v then Err (StdExn "stoull") else Ok (if neg : bool then u64 (- v) else v)
  end.

Section handlers.
Context (ctx : HStreamCtx).
Context (getDirectorySync : string -> option (list (string * LogGroup))).
Context (appendBatched : Z -> string -> append_fate).
(** The value of the variable [lsn] when nothing was assigned to it. *)
Context (uninitialised : Z).

Definition this_node : ServerNode := {| n_id := 1000; n_host := host ctx; n_port := port ctx |}.

(** One round of the loop of [ListShardsCall::handler]. *)
Definition shard_of (streamname : string) (log : LogGroup) : res Shard :=
  match extras log with
  | Some extras =>
      match extras !! "startKey", extras !! "endKey", extras !! "epoch" with
      | Some startKey, Some endKey, Some epoch =>
          epoch ← stoull epoch;
          Ok {| sh_streamname := streamname; sh_shardid := first_logid log;
                sh_start := startKey; sh_end := endKey; sh_epoch := epoch |}
      | _, _, _ => Err (StdExn "Empty attrs")
      end
  | None => Err (StdExn "Empty extras")
  end.

Fixpoint shards_loop (streamname : string) (logs : list (string * LogGroup)) (acc : list Shard)
    : res (list Shard) :=
  match logs with
  | [] => Ok acc
  | (_, log) :: logs =>
      shard ← shard_of streamname log;
      shards_loop streamname logs (acc ++ [shard])
  end.

(** [for (unsigned int i = 0; i < batchSize; i++)]. *)
Definition record_ids (logid lsn batchSize : Z) : list RecordId :=
  (fun i => {| r_shardid := logid; r_batchid := lsn; r_batchindex := Z.of_nat i |}) <$>
    seq 0 (Z.to_nat batchSize).

Definition handler {m : Method} (request_ : Request m) : outcome m :=
  match request_ with
  | EchoRequest msg => Replies (EchoResponse msg)
  | EmptyRequest => Replies (DescribeClusterResponse "0.0.0" "0.0.0" [this_node])
  | ListShardsRequest streamname =>
      let dir_path := "/hstream/stream/" +:+ streamname in
      match getDirectorySync dir_path with
      | None => Throws ("getDirectory failed: " +:+ dir_path)
      | Some logs =>
          match shards_loop streamname logs [] with
          | Ok shards => Replies (ListShardsResponse shards)
          | Err (StdExn w) | Err (ToHs w) => Throws w
          end
      end
  | LookupShardRequest shardid => Replies (LookupShardResponse shardid this_node)
  | StreamRequest _ => Replies StreamResponse
  | AppendRequest streamname logid batchSize payload =>
      match appendBatched logid payload with
      | NotPosted =>
          Replies (AppendResponse streamname logid (record_ids logid uninitialised batchSize))
      | Appended lsn => Replies (AppendResponse streamname logid (record_ids logid lsn batchSize))
      | AppendFailed => Blocks (* the callback does not post the semaphore *)
      end
  end.
End handlers.

(** ** The server *)

(** An object of a class derived from [RpcCallBase]. [cq_] is the number of its
    completion queue; [request_] is filled in by gRPC. *)
Record Call := {
  method : Method; cq_ : nat; status_ : CallStatus; request_ : option (Request method);
}.

(** An operation gRPC has been asked for, under the tag of its object:
    [RequestOp] by [request_rpc_method], [FinishOp] by [responder_.Finish]. *)
Inductive op := RequestOp | FinishOp.
#[global] Instance op_eq_dec : EqDecision op.
Proof. solve_decision. Defined.

(** An entry of a completion queue. *)
Record event := { ev_queue : nat; ev_tag : nat; ev_ok : bool }.

(** [calls]: the objects alive, by address. [threads]: the queues whose thread
    is in its loop and not stuck in a handler; [starting]: the queues whose
    thread has not begun. [accepted] and [replied]: the requests gRPC
    delivered and the replies given to it, under the tags of the objects. *)
Record server := {
  calls : gmap nat Call;
  next : nat;
  pending : gmap nat (op * nat);
  events : list event;
  accepted : list (nat * {m : Method & Request m});
  replied : list (nat * {m : Method & Reply m});
  threads : gset nat;
  starting : gset nat;
  terminated : bool;
}.

Definition with_calls (f : gmap nat Call -> gmap nat Call) (s : server) : server :=
  {| calls := f (calls s); next := next s; pending := pending s; events := events s;
     accepted := accepted s; replied := replied s; threads := threads s; starting := starting s;
     terminated := terminated s |}.

Definition set_status (st : CallStatus) (c : Call) : Call :=
  {| method := method c; cq_ := cq_ c; status_ := st; request_ := request_ c |}.

(** The branch CREATE of [proceed]: the call is registered with gRPC. *)
Definition proceed_create (tag : nat) (c : Call) (s : server) : server :=
  {| calls := <[tag := set_status PROCESS c]> (calls s); next := next s;
     pending := <[tag := (RequestOp, cq_ c)]> (pending s); events := events s;
     accepted := accepted s; replied := replied s; threads := threads s; starting := starting s;
     terminated := terminated s |}.

(** [new NameCall(service, cq, hstream_ctx)]: the constructor calls [proceed]
    on an object whose status is CREATE. *)
Definition new_call (m : Method) (queue : nat) (s : server) : server :=
  let c := {| method := m; cq_ := queue; status_ := CREATE; request_ := None |} in
  proceed_create (next s) c
    {| calls := <[next s := c]> (calls s); next := S (next s); pending := pending s;
       events := events s; accepted := accepted s; replied := replied s; threads := threads s;
       starting := starting s; terminated := terminated s |}.

Definition all_methods : list Method :=
  [Echo; DescribeCluster; ListShards; LookupShard; CreateStream; Append].

(** The threads [run] makes have not begun yet; [HandleRpcs(i)] before its loop. *)
Definition run (parallelism : nat) : server :=
  {| calls := ∅; next := 0; pending := ∅; events := []; accepted := []; replied := [];
     threads := ∅; starting := list_to_set (seq 0 parallelism); terminated := false |}.

Definition HandleRpcs_begin (i : nat) (s : server) : server :=
  foldl (fun s m => new_call m i s)
    {| calls := calls s; next := next s; pending := pending s; events := events s;
       accepted := accepted s; replied := replied s; threads := {[ i ]} ∪ threads s;
       starting := starting s ∖ {[ i ]}; terminated := terminated s |}
    all_methods.

Definition newline : string := String "010"%char EmptyString.

(** The program. What Boost makes of the arguments: an error, a request for
    help, or the options given; an option that is not given has its default. *)
Inductive parsed :=
| OptionError (what : string)
| OptionHelp
| Options (host_ : option string) (port_ : option Z) (store_config_ : option string).

Record cli_options := { cli_host : string; cli_port : Z; cli_store_config : string }.

Inductive ends := Exits (code : Z) (out err : string).

Definition parse_command_line (argv0 desc : string) (p : parsed) : ends + cli_options :=
  match p with
  | OptionError what => inl (Exits 1 "" (argv0 +:+ ": " +:+ what +:+ newline))
  | OptionHelp => inl (Exits 0 ("A fake cpp server" +:+ newline +:+ desc) "")
  | Options h p c =>
      inr {| cli_host := default "0.0.0.0" h; cli_port := default 7570 p;
             cli_store_config := default "./local-data/logdevice/logdevice.conf" c |}
  end.

(** [main] up to the join of the threads: the context, what is printed, and the
    server with its threads. [create] is the store's client factory. *)
Definition main {Client} (create : string -> Client) (parallelism : nat) (argv0 desc : string)
    (p : parsed) : ends + (HStreamCtx * Client * string * server) :=
  match parse_command_line argv0 desc p with
  | inl e => inl e
  | inr o =>
      let ctx := {| host := cli_host o; port := cli_port o |} in
      let server_address := host ctx +:+ ":" +:+ pretty (port ctx) in
      inr (ctx, create (cli_store_config o),
           "Server listening on " +:+ server_address +:+ newline, run parallelism)
  end.

Section proceed.
Context (handle : forall m, Request m -> outcome m).

(** The branch PROCESS. [new cls] makes the successor before the handler runs;
    it is an object of the base class, whose template argument fixes the method.
    [proceed] is [noexcept]: an exception terminates the program. *)
Definition proceed_process (tag : nat) (c : Call) (s : server) : option server :=
  let s := new_call (method c) (cq_ c) s in
  req ← request_ c;
  Some
    match handle (method c) req with
    | Replies r =>
        {| calls := <[tag := set_status FINISH c]> (calls s); next := next s;
           pending := <[tag := (FinishOp, cq_ c)]> (pending s); events := events s;
           accepted := accepted s; replied := replied s ++ [(tag, existT (method c) r)];
           threads := threads s; starting := starting s; terminated := terminated s |}
    | Throws _ =>
        {| calls := calls s; next := next s; pending := pending s; events := events s;
           accepted := accepted s; replied := replied s; threads := threads s;
           starting := starting s; terminated := true |}
    | Blocks =>
        {| calls := calls s; next := next s; pending := pending s; events := events s;
           accepted := accepted s; replied := replied s; threads := threads s ∖ {[ cq_ c ]};
           starting := starting s; terminated := terminated s |}
    end.

(** [proceed] on the object at [tag]; [None]: there is none, or the object has
    no request, which is undefined. *)
Definition proceed (tag : nat) (s : server) : option server :=
  c ← calls s !! tag;
  match status_ c with
  | CREATE => Some (proceed_create tag c s)
  | PROCESS => proceed_process tag c s
  | FINISH => Some (with_calls (delete tag) s)
  end.

(** The body of the loop of [HandleRpcs] for one event. *)
Definition handle_event (e : event) (s : server) : option server :=
  if ev_ok e then proceed (ev_tag e) s
  else _ ← calls s !! ev_tag e; Some (with_calls (delete (ev_tag e)) s).

(** ** Transitions *)

Definition set_events (es : list event) (s : server) : server :=
  {| calls := calls s; next := next s; pending := pending s; events := es;
     accepted := accepted s; replied := replied s; threads := threads s; starting := starting s;
     terminated := terminated s |}.

(** gRPC completes the operation at [tag]. *)
Definition complete (tag queue : nat) (ok : bool) (s : server) : server :=
  {| calls := calls s; next := next s; pending := delete tag (pending s);
     events := events s ++ [{| ev_queue := queue; ev_tag := tag; ev_ok := ok |}];
     accepted := accepted s; replied := replied s; threads := threads s; starting := starting s;
     terminated := terminated s |}.

(** The request [req] is stored in the object [c] at [tag]. *)
Definition deliver (tag : nat) (c : Call) (req : Request (method c)) (s : server) : server :=
  {| calls := <[tag := {| method := method c; cq_ := cq_ c; status_ := status_ c;
                          request_ := Some req |}]> (calls s);
     next := next s; pending := pending s; events := events s;
     accepted := accepted s ++ [(tag, existT (method c) req)]; replied := replied s;
     threads := threads s; starting := starting s;
     terminated := terminated s |}.

(** A client's request arrives for a waiting object. gRPC would complete a
    waiting object without a request only after the server's shutdown, which
    comes after the threads have ended, that is, never. *)
Inductive arrive : server -> server -> Prop :=
| arrive_request s tag queue c (req : Request (method c)) :
    terminated s = false -> pending s !! tag = Some (RequestOp, queue) ->
    calls s !! tag = Some c ->
    arrive s (complete tag queue true (deliver tag c req s)).

(** Moves that answer requests: a thread begins, gRPC finishes sending a reply,
    well or not, and the thread of a queue takes an event of its queue. *)
Inductive internal : server -> server -> Prop :=
| internal_begin s i :
    terminated s = false -> i ∈ starting s -> internal s (HandleRpcs_begin i s)
| internal_sent s tag queue ok :
    terminated s = false -> pending s !! tag = Some (FinishOp, queue) ->
    internal s (complete tag queue ok s)
| internal_thread s s' e es es' :
    terminated s = false -> events s = es ++ e :: es' -> ev_queue e ∈ threads s ->
    handle_event e (set_events (es ++ es') s) = Some s' ->
    internal s s'.

Definition step (s s' : server) : Prop := arrive s s' \/ internal s s'.
Definition reachable (parallelism : nat) : server -> Prop := rtc step (run parallelism).

(** ** The invariant *)

(** The object that receives the next request of a method on a queue: it is
    registered with gRPC, or its request has arrived and waits in the queue. *)
Definition open (s : server) (q : nat) (m : Method) (t : nat) : Prop :=
  exists c, calls s !! t = Some c /\ method c = m /\ cq_ c = q /\ status_ c = PROCESS /\
    (pending s !! t = Some (RequestOp, q) \/ t ∈ ev_tag <$> events s).

Definition op_status (o : op) : CallStatus :=
  match o with RequestOp => PROCESS | FinishOp => FINISH end.

(** The object of an event is alive, on the event's queue, and gRPC holds no
    other operation of it; it has a request to process or is to be deleted. *)
Definition event_ok (s : server) (e : event) : Prop :=
  exists c, calls s !! ev_tag e = Some c /\ cq_ c = ev_queue e /\ pending s !! ev_tag e = None /\
    (status_ c = PROCESS /\ ev_ok e = true /\ is_Some (request_ c) \/ status_ c = FINISH).

(** [L q m]: method [m] is served on queue [q]. *)
Record inv (L : nat -> Method -> Prop) (s : server) : Prop := {
  inv_fresh : forall t, is_Some (calls s !! t) -> (t < next s)%nat;
  inv_pending : forall t o q, pending s !! t = Some (o, q) ->
    exists c, calls s !! t = Some c /\ cq_ c = q /\ status_ c = op_status o /\
      (o = RequestOp -> request_ c = None);
  inv_events : forall e, e ∈ events s -> event_ok s e;
  inv_nodup : NoDup (ev_tag <$> events s);
  inv_open : forall q m, L q m <-> exists t, open s q m t;
  inv_open_uniq : forall q m t t', open s q m t -> open s q m t' -> t = t';
}.

Definition waiting (m : Method) (q : nat) : Call :=
  {| method := m; cq_ := q; status_ := PROCESS; request_ := None |}.

Lemma new_call_eq m q s :
  new_call m q s =
  {| calls := <[next s := waiting m q]> (calls s); next := S (next s);
     pending := <[next s := (RequestOp, q)]> (pending s); events := events s;
     accepted := accepted s; replied := replied s; threads := threads s; starting := starting s;
     terminated := terminated s |}.
Proof. unfold new_call, proceed_create, set_status, waiting. simpl. by rewrite insert_insert_eq. Qed.

Lemma fresh_not_pending L s : inv L s -> pending s !! next s = None.
Proof.
  intros H. apply eq_None_not_Some. intros [[o q] Hp].
  destruct (inv_pending L s H _ _ _ Hp) as (c & Hc & _).
  specialize (inv_fresh L s H (next s) (ex_intro _ c Hc)). lia.
Qed.

Lemma fresh_not_call L s : inv L s -> calls s !! next s = None.
Proof.
  intros H. apply eq_None_not_Some. intros Hc. specialize (inv_fresh L s H _ Hc). lia.
Qed.

Lemma events_alive L s t :
  inv L s -> t ∈ ev_tag <$> events s -> is_Some (calls s !! t) /\ pending s !! t = None.
Proof.
  intros H (e & -> & He)%list_elem_of_fmap. destruct (inv_events L s H e He) as (c & Hc & _ & Hp & _).
  eauto.
Qed.

Lemma new_call_open L s q m q' m' t :
  inv L s ->
  open (new_call m q s) q' m' t <-> (t = next s /\ q' = q /\ m' = m) \/ open s q' m' t.
Proof.
  intros H. rewrite new_call_eq. unfold open. simpl. destruct (decide (t = next s)) as [->|Hne].
  - rewrite !lookup_insert_eq. split.
    + intros (c & [= <-] & <- & <- & _). by left.
    + intros [(_ & -> & ->)|(c & Hc & _)]; [|by rewrite (fresh_not_call L s H) in Hc].
      exists (waiting m q). split_and!; try done. by left.
  - rewrite !lookup_insert_ne by done. naive_solver.
Qed.

Lemma new_call_inv L s q m :
  inv L s -> ~ L q m -> inv (fun q' m' => L q' m' \/ (q' = q /\ m' = m)) (new_call m q s).
Proof.
  intros H Hn. pose proof (fresh_not_pending L s H) as Hfp. pose proof (fresh_not_call L s H) as Hfc.
  split.
  - intros t. rewrite new_call_eq. simpl. rewrite lookup_insert_is_Some'.
    intros [<-|Ht%(inv_fresh L s H)]; lia.
  - intros t o q'. rewrite new_call_eq. simpl. destruct (decide (t = next s)) as [->|Hne].
    + rewrite !lookup_insert_eq. intros [= <- <-]. exists (waiting m q). done.
    + rewrite !lookup_insert_ne by done. apply (inv_pending L s H).
  - intros e. rewrite new_call_eq. simpl. intros He.
    destruct (inv_events L s H e He) as (c & Hc & Hr). unfold event_ok. simpl.
    assert (next s <> ev_tag e) by congruence. rewrite !lookup_insert_ne by done. eauto.
  - rewrite new_call_eq. apply (inv_nodup L s H).
  - intros q' m'. setoid_rewrite (new_call_open L s q m q' m'); [|done].
    rewrite (inv_open L s H). naive_solver.
  - intros q' m' t t'. rewrite !(new_call_open L s) by done.
    intros [(-> & -> & ->)|Ho] [(-> & Hq & Hm)|Ho']; try done.
    + exfalso. apply Hn, (inv_open L s H). eauto.
    + subst. exfalso. apply Hn, (inv_open L s H). eauto.
    + by eapply (inv_open_uniq L s H).
Qed.

Lemma inv_ext L L' s : (forall q m, L q m <-> L' q m) -> inv L s -> inv L' s.
Proof.
  intros E H. split; [apply H|apply H|apply H|apply H| |apply H].
  intros q m. rewrite <- E. apply (inv_open L s H).
Qed.

Lemma start_calls_inv L s q ms :
  inv L s -> NoDup ms -> (forall m, m ∈ ms -> ~ L q m) ->
  inv (fun q' m' => L q' m' \/ (q' = q /\ m' ∈ ms)) (foldl (fun s m => new_call m q s) s ms).
Proof.
  revert L s. induction ms as [|m ms IH]; intros L s H Hnd Hn; cbn [foldl].
  - eapply inv_ext; [|exact H]. intros q' m'. rewrite elem_of_nil. tauto.
  - apply NoDup_cons in Hnd as [Hm Hnd].
    eapply inv_ext; [|apply (IH _ _ (new_call_inv L s q m H (Hn m ltac:(by left))) Hnd)].
    + intros q' m'. rewrite elem_of_cons. naive_solver.
    + intros m' Hm' [HL|[_ ->]]; [|done]. by apply (Hn m'); [right|].
Qed.

Lemma run_inv n : inv (fun q _ => False) (run n).
Proof.
  split; unfold open; simpl; try (intros *; rewrite lookup_empty); try done.
  - by intros e ?%elem_of_nil.
  - constructor.
  - intros q m. split; [done|]. intros (t & c & Hc & _). by rewrite lookup_empty in Hc.
  - by intros (c & ? & _).
Qed.

Lemma inv_same L s s' :
  calls s' = calls s -> next s' = next s -> pending s' = pending s -> events s' = events s ->
  inv L s -> inv L s'.
Proof. destruct s, s'. simpl. intros -> -> -> -> H. split; apply H. Qed.

Lemma HandleRpcs_begin_inv L s i :
  inv L s -> (forall m, ~ L i m) ->
  inv (fun q m => L q m \/ q = i) (HandleRpcs_begin i s).
Proof.
  intros H Hn. eapply inv_ext; [|apply (start_calls_inv L _ i all_methods)].
  - intros q m. simpl. assert (m ∈ all_methods) by (destruct m; set_solver). tauto.
  - by eapply inv_same; [..|exact H].
  - apply (bool_decide_unpack _). by vm_compute.
  - done.
Qed.

(** gRPC completes an operation. *)
Lemma complete_inv L s t o q ok :
  inv L s -> pending s !! t = Some (o, q) ->
  (forall c, calls s !! t = Some c -> o = RequestOp -> ok = true) ->
  forall c', (forall c, calls s !! t = Some c -> method c' = method c /\ cq_ c' = cq_ c /\
                status_ c' = status_ c) ->
  (o = RequestOp -> is_Some (request_ c')) ->
  inv L (complete t q ok (with_calls (insert t c') s)).
Proof.
  intros H Hp Hok c' Hc' Hreq. destruct (inv_pending L s H _ _ _ Hp) as (c & Hc & Hq & Hst & _).
  destruct (Hc' c Hc) as (Em & Eq & Es).
  assert (t ∉ ev_tag <$> events s) as Hne.
  { intros Ht. apply (events_alive L s) in Ht as [_ Hn]; [congruence|done]. }
  assert (forall q0 m0 t0, open (complete t q ok (with_calls (insert t c') s)) q0 m0 t0 <->
                           open s q0 m0 t0) as Ho.
  { intros q0 m0 t0. unfold open. simpl. setoid_rewrite fmap_app. setoid_rewrite elem_of_app.
    simpl. setoid_rewrite list_elem_of_singleton. destruct (decide (t0 = t)) as [->|Hd].
    - rewrite lookup_insert_eq, lookup_delete_eq, Hc, Hp. split.
      + intros (? & [= <-] & <- & <- & Hs & _). exists c. split_and!; try congruence.
        left. rewrite Es, Hst in Hs. destruct o; [congruence|done].
      + intros (? & [= <-] & <- & <- & Hs & _). exists c'. split_and!; try congruence. by right; right.
    - rewrite lookup_insert_ne, lookup_delete_ne by done. naive_solver. }
  split.
  - intros t0. simpl. rewrite lookup_insert_is_Some'. intros [<-|]; eapply (inv_fresh L s H); eauto.
  - intros t0 o0 q0. simpl. intros Hp0. destruct (decide (t0 = t)) as [->|Hd].
    { by rewrite lookup_delete_eq in Hp0. }
    rewrite lookup_delete_ne in Hp0 by done. rewrite lookup_insert_ne by done.
    by apply (inv_pending L s H).
  - intros e. simpl. rewrite elem_of_app, list_elem_of_singleton. unfold event_ok. simpl.
    intros [He| ->]; simpl.
    + destruct (inv_events L s H e He) as (c0 & Hc0 & Hq0 & Hp0 & Hs0).
      assert (t <> ev_tag e) by congruence. exists c0.
      rewrite lookup_insert_ne, lookup_delete_ne by done. done.
    + exists c'. rewrite lookup_insert_eq, lookup_delete_eq. split_and!; try congruence.
      rewrite Es, Hst. destruct o; [left|by right]. simpl. eauto.
  - simpl. rewrite fmap_app. apply NoDup_app. split_and!; [apply H| |apply NoDup_singleton].
    intros x Hx ->%list_elem_of_singleton. done.
  - intros q0 m0. rewrite (inv_open L s H). by setoid_rewrite Ho.
  - intros q0 m0 t0 t1. rewrite !Ho. apply (inv_open_uniq L s H).
Qed.

(** A thread takes an event: the object of a request is no longer open. *)
Lemma take_event_inv L s es e es' c :
  inv L s -> events s = es ++ e :: es' -> calls s !! ev_tag e = Some c ->
  let s' := set_events (es ++ es') s in
  ev_tag e ∉ ev_tag <$> events s' /\ pending s' !! ev_tag e = None /\
  inv (fun q m => L q m /\ ~ (status_ c = PROCESS /\ q = cq_ c /\ m = method c)) s'.
Proof.
  intros H Ee Hc. simpl. destruct (inv_events L s H e) as (c0 & Hc0 & Hq & Hp & Hs).
  { rewrite Ee. set_solver. }
  rewrite Hc in Hc0. injection Hc0 as <-. pose proof (inv_nodup L s H) as Hnd.
  rewrite Ee, fmap_app, fmap_cons in Hnd. pose proof Hnd as Hnd'.
  apply NoDup_app in Hnd as (Hn1 & Hd & Hn2). apply NoDup_cons in Hn2 as [He2 Hn2].
  assert (ev_tag e ∉ ev_tag <$> (es ++ es')) as Hni.
  { rewrite fmap_app, elem_of_app. intros [Hx|Hx]; [|done]. by apply (Hd _ Hx); left. }
  assert (forall q m t, open (set_events (es ++ es') s) q m t <-> open s q m t /\ t <> ev_tag e)
    as Ho.
  { intros q m t. unfold open. simpl. rewrite Ee, !fmap_app, fmap_cons. split.
    - intros (c1 & Hc1 & Hm & Hq1 & Hs1 & Hl).
      assert (t <> ev_tag e) as Hte.
      { intros ->. destruct Hl as [Hl|Hl]; [congruence|]. apply Hni. by rewrite fmap_app. }
      split; [|done]. exists c1. split_and!; try done. destruct Hl as [|Hl]; [by left|right].
      set_solver.
    - intros [(c1 & Hc1 & Hm & Hq1 & Hs1 & Hl) Hte]. exists c1. split_and!; try done.
      destruct Hl as [|Hl]; [by left|right]. set_solver. }
  split_and!; [done|done|]. split.
  - apply (inv_fresh L s H).
  - apply (inv_pending L s H).
  - intros e0 He0. apply (inv_events L s H). rewrite Ee. simpl in He0. set_solver.
  - simpl. rewrite fmap_app. apply NoDup_app. split_and!; [done| |done].
    intros x Hx Hx'. apply (Hd x Hx). by right.
  - intros q m. setoid_rewrite Ho. rewrite (inv_open L s H). split.
    + intros [[t Ht] Hn]. exists t. split; [done|]. intros ->. apply Hn.
      destruct Ht as (c1 & Hc1 & Hm & Hq1 & Hs1 & _). rewrite Hc in Hc1. by injection Hc1 as <-.
    + intros (t & Ht & Hte). split; [eauto|]. intros (Hs1 & -> & ->). apply Hte.
      apply (inv_open_uniq L s H (cq_ c) (method c)); [done|]. exists c. split_and!; try done.
      right. rewrite Ee, fmap_app, fmap_cons. set_solver.
  - intros q m t t'. rewrite !Ho. intros [Ht _] [Ht' _]. by apply (inv_open_uniq L s H q m).
Qed.

(** An object that gRPC does not know any more is deleted or, *)
Lemma delete_call_inv L s t :
  inv L s -> pending s !! t = None -> t ∉ ev_tag <$> events s ->
  inv L (with_calls (delete t) s).
Proof.
  intros H Hp He.
  assert (forall q m t0, open (with_calls (delete t) s) q m t0 <-> open s q m t0) as Ho.
  { intros q m t0. unfold open. simpl. destruct (decide (t0 = t)) as [->|Hd].
    - rewrite lookup_delete_eq, Hp. split; [by intros (? & ? & _)|]. naive_solver.
    - by rewrite lookup_delete_ne. }
  split.
  - intros t0. simpl. rewrite lookup_delete_is_Some. intros [_ Ht0]. by apply (inv_fresh L s H).
  - intros t0 o q Hp0. simpl. destruct (inv_pending L s H _ _ _ Hp0) as (c & Hc & Hr).
    assert (t <> t0) by (intros ->; simpl in Hp0; congruence). rewrite lookup_delete_ne by done. eauto.
  - intros e He0. destruct (inv_events L s H e He0) as (c & Hc & Hr). exists c. simpl.
    rewrite lookup_delete_ne; [done|]. intros ->. apply He, list_elem_of_fmap. by exists e.
  - apply H.
  - intros q m. rewrite (inv_open L s H). by setoid_rewrite Ho.
  - intros q m t0 t1. rewrite !Ho. apply (inv_open_uniq L s H).
Qed.

(** after its handler, asks for its reply to be sent. *)
Lemma finish_inv L s t c x :
  inv L s -> calls s !! t = Some c -> pending s !! t = None -> t ∉ ev_tag <$> events s ->
  inv L {| calls := <[t := set_status FINISH c]> (calls s); next := next s;
           pending := <[t := (FinishOp, cq_ c)]> (pending s); events := events s;
           accepted := accepted s; replied := replied s ++ [x]; threads := threads s;
           starting := starting s; terminated := terminated s |}.
Proof.
  intros H Hc Hp He. set (s' := {| calls := <[t := _]> _ |}).
  assert (forall q m t0, open s' q m t0 <-> open s q m t0) as Ho.
  { intros q m t0. unfold open, s'. simpl. destruct (decide (t0 = t)) as [->|Hd].
    - rewrite !lookup_insert_eq, Hp. split; [|naive_solver].
      intros (? & [= <-] & _ & _ & Hs & _). done.
    - by rewrite !lookup_insert_ne. }
  split.
  - intros t0. simpl. rewrite lookup_insert_is_Some'. intros [<-|]; eapply (inv_fresh L s H); eauto.
  - intros t0 o q. simpl. destruct (decide (t0 = t)) as [->|Hd].
    + rewrite !lookup_insert_eq. intros [= <- <-]. by eexists.
    + rewrite !lookup_insert_ne by done. apply (inv_pending L s H).
  - intros e He0. destruct (inv_events L s H e He0) as (c0 & Hc0 & Hr). exists c0. simpl.
    rewrite !lookup_insert_ne; [done|..];
      (intros ->; apply He, list_elem_of_fmap; by exists e).
  - apply H.
  - intros q m. rewrite (inv_open L s H). by setoid_rewrite Ho.
  - intros q m t0 t1. rewrite !Ho. apply (inv_open_uniq L s H).
Qed.

(** Every event is handled, and the handling keeps the invariant. *)
Lemma process_inv L s c tag req :
  inv (fun q m => L q m /\ ~ (q = cq_ c /\ m = method c)) s -> L (cq_ c) (method c) ->
  calls s !! tag = Some c -> request_ c = Some req ->
  pending s !! tag = None -> tag ∉ ev_tag <$> events s ->
  exists s', proceed_process tag c s = Some s' /\ inv L s'.
Proof.
  intros H HL Hc Hr Hp He. unfold proceed_process. rewrite Hr. eexists. split; [done|].
  assert (next s <> tag) as Hne.
  { intros <-. by rewrite (fresh_not_call _ s H) in Hc. }
  assert (inv L (new_call (method c) (cq_ c) s)) as Hn.
  { eapply inv_ext; [|apply (new_call_inv _ s (cq_ c) (method c) H); naive_solver].
    intros q m. simpl. destruct (decide (q = cq_ c)), (decide (m = method c)); naive_solver. }
  destruct (handle (method c) req) as [r|w|].
  - apply finish_inv; [done|..]; rewrite new_call_eq; simpl; by rewrite ?lookup_insert_ne.
  - by eapply inv_same; [..|exact Hn].
  - by eapply inv_same; [..|exact Hn].
Qed.

Lemma thread_inv L s es e es' :
  inv L s -> events s = es ++ e :: es' ->
  exists s', handle_event e (set_events (es ++ es') s) = Some s' /\ inv L s'.
Proof.
  intros H Ee. destruct (inv_events L s H e) as (c & Hc & Hq & Hp & Hs);
    [rewrite Ee; set_solver|].
  destruct (take_event_inv L s es e es' c H Ee Hc) as (He & Hp' & Hi).
  unfold handle_event, proceed. simpl. rewrite Hc. simpl.
  destruct Hs as [(Hs & -> & [req Hr])|Hs]; rewrite Hs.
  - eapply process_inv; [|..|exact Hc|exact Hr|exact Hp'|exact He].
    + eapply inv_ext; [|exact Hi]. naive_solver.
    + apply (inv_open L s H). exists (ev_tag e), c. rewrite Ee. split_and!; try done. right. set_solver.
  - exists (with_calls (delete (ev_tag e)) (set_events (es ++ es') s)).
    split; [by destruct (ev_ok e)|]. apply delete_call_inv; [|done|done].
    eapply inv_ext; [|exact Hi]. rewrite Hs. naive_solver.
Qed.

(** The threads that have begun serve every method. *)
Definition served (n : nat) (s : server) (q : nat) (m : Method) : Prop :=
  (q < n)%nat /\ q ∉ starting s.

Lemma handle_event_starting e s s' : handle_event e s = Some s' -> starting s' = starting s.
Proof.
  unfold handle_event, proceed, proceed_process. intros H.
  repeat (case_match || simplify_option_eq); done.
Qed.

Lemma begin_starting i s : starting (HandleRpcs_begin i s) = starting s ∖ {[ i ]}.
Proof. reflexivity. Qed.

Lemma step_inv n s s' :
  (forall i, i ∈ starting s -> (i < n)%nat) -> inv (served n s) s -> step s s' ->
  (forall i, i ∈ starting s' -> (i < n)%nat) /\ inv (served n s') s'.
Proof.
  intros Hs H [Ha|Hi].
  - destruct Ha as [s tag queue c req _ Hp Hc]. split; [done|].
    eapply inv_same;
      [..|apply (complete_inv _ s tag RequestOp queue true H Hp); [done|..]]; try reflexivity; [|eauto].
    intros c0 Hc0. rewrite Hc in Hc0. injection Hc0 as <-. done.
  - destruct Hi as [s i _ Hi|s tag queue ok _ Hp|s s' e es es' _ Ee _ Hh].
    + rewrite begin_starting. split; [set_solver|].
      eapply inv_ext; [|apply (HandleRpcs_begin_inv _ s i H)].
      * intros q m. unfold served. rewrite begin_starting.
        specialize (Hs i Hi). destruct (decide (q = i)) as [->|]; set_solver by lia.
      * intros m [_ Hn]. done.
    + split; [done|]. destruct (inv_pending _ s H _ _ _ Hp) as (c & Hc & _).
      replace s with (with_calls (insert tag c) s) at 2.
      { apply (complete_inv _ s tag FinishOp queue ok H Hp); [done|naive_solver|done]. }
      unfold with_calls. rewrite insert_id by done. by destruct s.
    + pose proof (handle_event_starting _ _ _ Hh) as Hst. simpl in Hst. rewrite Hst. split; [done|].
      destruct (thread_inv _ s es e es' H Ee) as (s1 & Hs1 & Hi1). simplify_eq.
      unfold served. by rewrite Hst.
Qed.

Lemma reachable_inv n s :
  reachable n s -> (forall i, i ∈ starting s -> (i < n)%nat) /\ inv (served n s) s.
Proof.
  unfold reachable. intros Hr. remember (run n) as s0 eqn:E.
  assert ((forall i, i ∈ starting s0 -> (i < n)%nat) /\ inv (served n s0) s0) as H0.
  { subst. split; [intros i; simpl; set_unfold; lia|]. eapply inv_ext; [|apply run_inv].
    intros q m. unfold served. simpl. set_unfold. lia. }
  clear E. induction Hr as [|s1 s2 s3 Hst _ IH]; [done|]. apply IH. destruct H0. by eapply step_inv.
Qed.

(** ** Termination *)

(** What is left to do: threads to begin, replies to be sent, events to handle;
    the event of a request counts for the reply and its event too. *)
Definition weight (s : server) (e : event) : nat :=
  match status_ <$> calls s !! ev_tag e with Some PROCESS => 3 | _ => 1 end.

Definition to_send (s : server) : nat :=
  size (filter (fun kv : nat * (op * nat) => kv.2.1 = FinishOp) (pending s)).

Definition work (s : server) : nat :=
  size (starting s) + 2 * to_send s + sum_list_with (weight s) (events s).

Definition tags_fresh (s : server) : Prop :=
  pending s !! next s = None /\ (forall t, is_Some (pending s !! t) -> (t < next s)%nat) /\
  (forall e, e ∈ events s -> (ev_tag e < next s)%nat).

Lemma inv_tags_fresh L s : inv L s -> tags_fresh s.
Proof.
  intros H. split_and!; [by eapply fresh_not_pending|..].
  - intros t [[o q] Hp]. destruct (inv_pending L s H _ _ _ Hp) as (c & Hc & _).
    eapply (inv_fresh L s H); eauto.
  - intros e He. destruct (inv_events L s H e He) as (c & Hc & _). eapply (inv_fresh L s H); eauto.
Qed.

Lemma weights_ext s s' es :
  (forall e, e ∈ es -> calls s' !! ev_tag e = calls s !! ev_tag e) ->
  sum_list_with (weight s') es = sum_list_with (weight s) es.
Proof.
  intros H. induction es as [|e es IH]; [done|]. simpl. rewrite IH by (intros; apply H; by right).
  unfold weight. rewrite H by (by left). done.
Qed.

Lemma new_call_work m q s :
  tags_fresh s -> work (new_call m q s) = work s /\ tags_fresh (new_call m q s).
Proof.
  intros (Hn & Hp & He). rewrite new_call_eq. unfold work, to_send. simpl. split.
  - rewrite map_filter_insert_False, delete_id by done. f_equal. apply weights_ext.
    intros e He'. simpl. apply lookup_insert_ne. specialize (He e He'). lia.
  - split_and!; simpl.
    + rewrite lookup_insert_ne by lia. apply eq_None_not_Some. intros Hs%Hp. lia.
    + intros t. rewrite lookup_insert_is_Some'. intros [<-|Ht%Hp]; lia.
    + intros e He'%He. lia.
Qed.

Lemma begin_work s i :
  tags_fresh s -> i ∈ starting s -> S (work (HandleRpcs_begin i s)) = work s.
Proof.
  intros Hf Hi. unfold HandleRpcs_begin. set (s1 := {| calls := calls s |}).
  assert (forall ms s0, tags_fresh s0 ->
    work (foldl (fun s m => new_call m i s) s0 ms) = work s0) as Hfold.
  { induction ms as [|m ms IH]; intros s0 Hs0; cbn [foldl]; [done|].
    destruct (new_call_work m i s0 Hs0) as [<- Hf']. by apply IH. }
  rewrite Hfold by apply Hf. unfold work, to_send. simpl.
  rewrite size_difference by set_solver. rewrite size_singleton.
  assert (size (starting s) <> 0%nat) by (apply size_non_empty_iff; set_solver).
  rewrite (weights_ext s s1) by done. lia.
Qed.

Lemma sent_work L s tag queue ok :
  inv L s -> pending s !! tag = Some (FinishOp, queue) ->
  S (work (complete tag queue ok s)) = work s.
Proof.
  intros H Hp. destruct (inv_pending L s H _ _ _ Hp) as (c & Hc & _ & Hs & _).
  unfold work, to_send. simpl. rewrite sum_list_with_app. simpl.
  rewrite (weights_ext s (complete tag queue ok s)) by done.
  unfold weight at 2. simpl. rewrite Hc. simpl. rewrite Hs. simpl.
  set (f := fun kv : nat * (op * nat) => kv.2.1 = FinishOp).
  assert (filter f (pending s) !! tag = Some (FinishOp, queue)) as Hf
    by (by apply map_lookup_filter_Some).
  rewrite map_filter_delete, map_size_delete_Some by eauto.
  assert (size (filter f (pending s)) <> 0%nat).
  { apply map_size_non_empty_iff. intros He. by rewrite He in Hf. }
  lia.
Qed.

Lemma finish_work s t c x :
  pending s !! t = None -> t ∉ ev_tag <$> events s ->
  work {| calls := <[t := set_status FINISH c]> (calls s); next := next s;
          pending := <[t := (FinishOp, cq_ c)]> (pending s); events := events s;
          accepted := accepted s; replied := x; threads := threads s; starting := starting s;
          terminated := terminated s |} = (2 + work s)%nat.
Proof.
  intros Hp He. set (s' := {| calls := <[t := _]> _ |}). unfold work, to_send. simpl.
  rewrite map_filter_insert_True by done. rewrite map_size_insert_None.
  2: { apply map_lookup_filter_None. by left. }
  rewrite (weights_ext s s'); [lia|]. intros e He0. simpl. apply lookup_insert_ne. intros ->.
  apply He, list_elem_of_fmap. by exists e.
Qed.

Lemma process_work L s c tag req :
  inv L s -> calls s !! tag = Some c -> request_ c = Some req -> pending s !! tag = None ->
  tag ∉ ev_tag <$> events s ->
  exists s', proceed_process tag c s = Some s' /\ (work s' < 3 + work s)%nat.
Proof.
  intros H Hc Hr Hp He. unfold proceed_process. rewrite Hr. eexists. split; [done|].
  destruct (new_call_work (method c) (cq_ c) s) as [<- _]; [by eapply inv_tags_fresh|].
  destruct (handle (method c) req) as [r|w|].
  2,3: match goal with |- (work ?s1 < _ + work ?s2)%nat => change (work s1) with (work s2) end; lia.
  rewrite finish_work; [lia|..]; rewrite new_call_eq; simpl; [|done].
  rewrite lookup_insert_ne; [done|]. intros <-. by rewrite (fresh_not_call L s H) in Hc.
Qed.

Lemma thread_work L s s' es e es' :
  inv L s -> events s = es ++ e :: es' ->
  handle_event e (set_events (es ++ es') s) = Some s' -> (work s' < work s)%nat.
Proof.
  intros H Ee Hh. destruct (inv_events L s H e) as (c & Hc & Hq & Hp & Hs);
    [rewrite Ee; set_solver|].
  destruct (take_event_inv L s es e es' c H Ee Hc) as (He & Hp' & Hi).
  set (s0 := set_events (es ++ es') s) in *.
  assert (work s = weight s e + work s0)%nat as ->.
  { unfold work. change (sum_list_with (weight s0) (events s0)) with
      (sum_list_with (weight s) (es ++ es')).
    rewrite Ee, !sum_list_with_app. unfold s0, to_send. simpl. lia. }
  assert (forall s1, (forall t, t <> ev_tag e -> calls s1 !! t = calls s !! t) ->
    sum_list_with (weight s1) (es ++ es') = sum_list_with (weight s0) (es ++ es')) as Hext.
  { intros s1 Hs1. apply weights_ext. intros e0 He0. apply Hs1. intros E. apply He.
    rewrite <- E. apply list_elem_of_fmap. by exists e0. }
  unfold weight at 1. rewrite Hc. simpl. unfold handle_event, proceed in Hh. simpl in Hh.
  rewrite Hc in Hh. simpl in Hh. destruct Hs as [(Hs & Hok & [req Hr])|Hs]; rewrite Hs in Hh |- *.
  - rewrite Hok in Hh. destruct (process_work _ s0 c (ev_tag e) req Hi Hc Hr Hp' He) as (s1 & Hs1 & ?).
    fold s0 in Hh. rewrite Hs1 in Hh. by injection Hh as <-.
  - assert (s' = with_calls (delete (ev_tag e)) s0) as -> by (destruct (ev_ok e); simplify_eq/=; done).
    unfold work, to_send. simpl. rewrite Hext; [lia|].
    intros t Ht. simpl. by rewrite lookup_delete_ne.
Qed.

Lemma internal_work n s s' : reachable n s -> internal s s' -> (work s' < work s)%nat.
Proof.
  intros Hr Hi. destruct (reachable_inv n s Hr) as [_ H].
  destruct Hi as [s i _ Hi|s tag queue ok _ Hp|s s' e es es' _ Ee _ Hh].
  - rewrite <- (begin_work s i); [lia|by eapply inv_tags_fresh|done].
  - rewrite <- (sent_work _ s tag queue ok H Hp). lia.
  - by eapply thread_work.
Qed.

Lemma reachable_step n s s' : reachable n s -> step s s' -> reachable n s'.
Proof. intros Hr Hs. by eapply rtc_r. Qed.

(** ** Requests and replies *)

(** The handler of a request does not end with a reply. *)
Definition no_reply (p : {m : Method & Request m}) : Prop :=
  forall r, handle (projT1 p) (projT2 p) <> Replies r.

(** The request of an object, waiting in a completion queue. *)
Definition queued (s : server) (t : nat) : Prop :=
  exists e c, e ∈ events s /\ ev_tag e = t /\ calls s !! t = Some c /\ status_ c = PROCESS.

(** [X]: the tags of the requests a thread is handling. *)
Record logs_but (X : nat -> Prop) (s : server) : Prop := {
  log_queued : forall e c, e ∈ events s -> calls s !! ev_tag e = Some c -> status_ c = PROCESS ->
    exists req, request_ c = Some req /\ (ev_tag e, existT (method c) req) ∈ accepted s /\
      ev_tag e ∉ (replied s).*1;
  log_waiting : forall t q, pending s !! t = Some (RequestOp, q) -> t ∉ (accepted s).*1;
  log_fresh : forall t, t ∈ (accepted s).*1 -> (t < next s)%nat;
  log_once : NoDup (accepted s).*1;
  log_replied_once : NoDup (replied s).*1;
  log_replied : forall t p, (t, p) ∈ replied s ->
    exists req, (t, existT (projT1 p) req) ∈ accepted s /\ handle _ req = Replies (projT2 p);
  log_open : forall t p, (t, p) ∈ accepted s ->
    X t \/ t ∈ (replied s).*1 \/ queued s t \/ no_reply p;
}.
Notation logs := (logs_but (fun _ => False)).

Lemma run_logs n : logs (run n).
Proof. split; simpl; set_solver by constructor. Qed.

Lemma new_call_logs X m q s : tags_fresh s -> logs_but X s -> logs_but X (new_call m q s).
Proof.
  intros (_ & _ & He) H. rewrite new_call_eq.
  assert (forall e, e ∈ events s ->
    <[next s := waiting m q]> (calls s) !! ev_tag e = calls s !! ev_tag e) as Hl.
  { intros e He0%He. apply lookup_insert_ne. lia. }
  split; simpl; try apply H.
  - intros e c He0. rewrite Hl by done. by apply (log_queued X s H).
  - intros t q'. destruct (decide (t = next s)) as [->|Hn].
    + intros _ Hin%(log_fresh X s H). lia.
    + rewrite lookup_insert_ne by done. apply (log_waiting X s H).
  - intros t Ht%(log_fresh X s H). lia.
  - intros t p Hp. destruct (log_open X s H t p Hp) as [?|[?|[(e & c & He0 & <- & Hc)|?]]];
      [by left|by right; left| |by do 3 right].
    right; right; left. exists e, c. simpl. by rewrite Hl.
Qed.

Lemma logs_flags X s th st b :
  logs_but X s ->
  logs_but X {| calls := calls s; next := next s; pending := pending s; events := events s;
              accepted := accepted s; replied := replied s; threads := th; starting := st;
              terminated := b |}.
Proof. intros H. split; apply H. Qed.

Lemma begin_logs i s : tags_fresh s -> logs s -> logs (HandleRpcs_begin i s).
Proof.
  intros Hf H. unfold HandleRpcs_begin.
  assert (forall ms s0, tags_fresh s0 -> logs s0 ->
    logs (foldl (fun s m => new_call m i s) s0 ms)) as Hfold.
  { induction ms as [|m ms IH]; intros s0 Hf0 H0; cbn [foldl]; [done|].
    apply IH; [by apply new_call_work|by apply new_call_logs]. }
  apply Hfold; [apply Hf|by apply logs_flags].
Qed.

Lemma arrive_logs L s s' : inv L s -> logs s -> arrive s s' -> logs s'.
Proof.
  intros Hi H Ha. destruct Ha as [s tag queue c req _ Hp Hc].
  destruct (inv_pending L s Hi _ _ _ Hp) as (c0 & Hc0 & _ & Hst & _). rewrite Hc in Hc0.
  injection Hc0 as <-. pose proof (log_waiting _ s H _ _ Hp) as Hw.
  assert (forall e, e ∈ events s -> tag <> ev_tag e) as Hne.
  { intros e He E. destruct (inv_events L s Hi e He) as (? & _ & _ & Hn & _). congruence. }
  assert (tag ∉ (replied s).*1) as Hnr.
  { intros ((?, p) & -> & Hp')%list_elem_of_fmap. apply Hw. simpl.
    destruct (log_replied _ s H _ _ Hp') as (r & Hr & _). apply list_elem_of_fmap. by eexists (_, _). }
  split; simpl; try apply H.
  - intros e c0. rewrite elem_of_app, list_elem_of_singleton. intros [He| ->]; simpl.
    + rewrite lookup_insert_ne by auto. intros Hc0 Hs0.
      destruct (log_queued _ s H e c0 He Hc0 Hs0) as (r & Hr & Ha & Hn). exists r. set_solver.
    + rewrite lookup_insert_eq. intros [= <-] _. exists req. set_solver.
  - intros t q Ht. apply lookup_delete_Some in Ht as [Ht Hp']. rewrite fmap_app.
    specialize (log_waiting _ s H _ _ Hp'). set_solver.
  - intros t. rewrite fmap_app, elem_of_app. simpl. rewrite list_elem_of_singleton.
    intros [Ht| ->]; [by apply H|]. eapply (inv_fresh L s Hi). eauto.
  - rewrite fmap_app. apply NoDup_app. split_and!; [apply H| |apply NoDup_singleton]. set_solver.
  - intros t p Hp'. destruct (log_replied _ s H t p Hp') as (r & Hr & Hh). exists r. set_solver.
  - intros t p. rewrite elem_of_app, list_elem_of_singleton. intros [Ha|[= -> ->]].
    + destruct (log_open _ s H t p Ha) as [[]|[?|[(e & c0 & He & <- & Hc0)|?]]];
        [by right; left| |by do 3 right].
      right; right; left. exists e, c0. simpl. rewrite lookup_insert_ne by auto. set_solver.
    + right; right; left. eexists _, _. simpl.
      rewrite lookup_insert_eq, elem_of_app, list_elem_of_singleton. by split_and!; [right|..].
Qed.

Lemma sent_logs L s tag queue ok :
  inv L s -> logs s -> pending s !! tag = Some (FinishOp, queue) ->
  logs (complete tag queue ok s).
Proof.
  intros Hi H Hp. destruct (inv_pending L s Hi _ _ _ Hp) as (c & Hc & _ & Hs & _).
  split; simpl; try apply H.
  - intros e c0. rewrite elem_of_app, list_elem_of_singleton. intros [He| ->]; [by apply H|].
    simpl. rewrite Hc. intros [= <-]. by rewrite Hs.
  - intros t q [_ Ht]%lookup_delete_Some. by apply (log_waiting _ s H t q).
  - intros t p Ht. destruct (log_open _ s H t p Ht) as [[]|[?|[(e & c0 & He & ?)|?]]];
      [by right; left| |by do 3 right].
    right; right; left. exists e, c0. simpl. rewrite elem_of_app. eauto.
Qed.

Lemma take_logs L s es e es' :
  inv L s -> logs s -> events s = es ++ e :: es' ->
  logs_but (fun t => queued s t /\ t = ev_tag e) (set_events (es ++ es') s).
Proof.
  intros Hi H Ee. split; simpl; try apply H.
  - intros e0 c0 He0. apply (log_queued _ s H). rewrite Ee. set_solver.
  - intros t p Ht. destruct (log_open _ s H t p Ht) as [[]|[?|[Hq|?]]];
      [by right; left| |by do 3 right].
    pose proof Hq as (e0 & c0 & He0 & <- & Hc0). rewrite Ee in He0.
    destruct (decide (ev_tag e0 = ev_tag e)); [by left|]. right; right; left.
    exists e0, c0. simpl. set_solver.
Qed.

Lemma logs_shrink (X : nat -> Prop) s :
  (forall t p, X t -> (t, p) ∈ accepted s -> no_reply p) -> logs_but X s -> logs s.
Proof.
  intros HX H. split; try apply H. intros t p Hp.
  destruct (log_open _ s H t p Hp) as [?|[?|[?|?]]]; [|by right; left|by do 2 right; left|by do 3 right].
  do 3 right. by apply (HX t).
Qed.

Lemma finish_logs (X : nat -> Prop) s t c req r :
  logs_but X s -> (forall t', X t' -> t' = t) ->
  (t, existT (method c) req) ∈ accepted s -> handle (method c) req = Replies r ->
  t ∉ (replied s).*1 -> t ∉ ev_tag <$> events s ->
  logs {| calls := <[t := set_status FINISH c]> (calls s); next := next s;
          pending := <[t := (FinishOp, cq_ c)]> (pending s); events := events s;
          accepted := accepted s; replied := replied s ++ [(t, existT (method c) r)];
          threads := threads s; starting := starting s;
     terminated := terminated s |}.
Proof.
  intros H HX Ha Hh Hn He.
  assert (forall e, e ∈ events s -> t <> ev_tag e) as Hne.
  { intros e He' ->. apply He, list_elem_of_fmap. by exists e. }
  split; simpl; try apply H.
  - intros e c0 He0. rewrite lookup_insert_ne by auto. intros Hc0 Hs0.
    destruct (log_queued _ s H e c0 He0 Hc0 Hs0) as (q & Hq & Hac & Hnr). exists q.
    rewrite fmap_app. specialize (Hne e He0). set_solver.
  - intros t0 q [[_ ?]|[_ Ht]]%lookup_insert_Some; [done|]. by apply (log_waiting _ s H t0 q).
  - rewrite fmap_app. apply NoDup_app. split_and!; [apply H| |apply NoDup_singleton]. set_solver.
  - intros t0 p. rewrite elem_of_app, list_elem_of_singleton. intros [Hp|[= -> ->]]; [by apply H|].
    by exists req.
  - intros t0 p Hp. right. rewrite fmap_app. destruct (decide (t0 = t)) as [->|Hd]; [left; set_solver|].
    destruct (log_open _ s H t0 p Hp) as [?|[?|[(e & c0 & He0 & <- & Hc0)|?]]];
      [by edestruct Hd; auto|left; set_solver| |by do 2 right].
    right; left. exists e, c0. simpl. by rewrite lookup_insert_ne by auto.
Qed.

Lemma accepted_eq X s t p p' : logs_but X s -> (t, p) ∈ accepted s -> (t, p') ∈ accepted s -> p = p'.
Proof.
  intros H [i Hi]%list_elem_of_lookup [k Hk]%list_elem_of_lookup.
  assert (i = k) as ->; [|congruence].
  eapply (NoDup_lookup _ _ _ t (log_once X s H)); by rewrite list_lookup_fmap, ?Hi, ?Hk.
Qed.

Lemma process_logs (X : nat -> Prop) s tag c req :
  logs_but X s -> tags_fresh s -> (forall t, X t -> t = tag) ->
  request_ c = Some req -> (tag, existT (method c) req) ∈ accepted s ->
  tag ∉ (replied s).*1 -> tag ∉ ev_tag <$> events s ->
  exists s', proceed_process tag c s = Some s' /\ logs s'.
Proof.
  intros H Hf HX Hr Ha Hn He. unfold proceed_process. rewrite Hr. eexists. split; [done|].
  pose proof (new_call_logs X (method c) (cq_ c) s Hf H) as Hl.
  assert ((forall r, handle (method c) req <> Replies r) -> logs (new_call (method c) (cq_ c) s))
    as Hno.
  { intros Hno. eapply logs_shrink; [|exact Hl]. intros t p ->%HX Hp.
    by rewrite (accepted_eq _ _ _ _ _ H Hp Ha). }
  destruct (handle (method c) req) as [r|w|] eqn:Eh; [|by apply logs_flags, Hno..].
  by eapply finish_logs.
Qed.

Lemma thread_logs L s s' es e es' :
  inv L s -> logs s -> events s = es ++ e :: es' ->
  handle_event e (set_events (es ++ es') s) = Some s' -> logs s'.
Proof.
  intros Hi H Ee Hh. destruct (inv_events L s Hi e) as (c & Hc & Hq & Hp & Hs);
    [rewrite Ee; set_solver|].
  destruct (take_event_inv L s es e es' c Hi Ee Hc) as (He & _ & Hi0).
  pose proof (take_logs L s es e es' Hi H Ee) as Ht. set (s0 := set_events (es ++ es') s) in *.
  unfold handle_event, proceed in Hh. simpl in Hh. rewrite Hc in Hh. simpl in Hh.
  destruct Hs as [(Hs & Hok & _)|Hs]; rewrite Hs in Hh.
  - destruct (log_queued _ s H e c) as (req & Hr & Ha & Hn); [rewrite Ee; set_solver|done..|].
    destruct (process_logs _ s0 (ev_tag e) c req Ht (inv_tags_fresh _ _ Hi0)) as (s1 & Hs1 & ?);
      [by intros t [_ ?]|done..|].
    rewrite Hok in Hh. fold s0 in Hh. rewrite Hs1 in Hh. by injection Hh as <-.
  - assert (s' = with_calls (delete (ev_tag e)) s0) as -> by (destruct (ev_ok e); simplify_eq/=; done).
    assert (forall e0, e0 ∈ es ++ es' -> ev_tag e <> ev_tag e0) as Hne.
    { intros e0 He0 E. apply He. rewrite E. apply list_elem_of_fmap. by exists e0. }
    split; simpl; try apply Ht.
    + intros e0 c0 He0. rewrite lookup_delete_ne by auto. by apply (log_queued _ s0 Ht).
    + intros t p Hp1. destruct (log_open _ s0 Ht t p Hp1) as
        [[(_ & c0 & _ & _ & Hc0 & Hs0) ->]|[?|[(e0 & c0 & He0 & <- & Hc0)|?]]].
      * congruence.
      * by right; left.
      * right; right; left. exists e0, c0. simpl. by rewrite lookup_delete_ne by auto.
      * by do 3 right.
Qed.

Lemma reachable_logs n s : reachable n s -> logs s.
Proof.
  revert s. apply rtc_ind_r; [apply run_logs|]. intros s s' Hr Hst H.
  destruct (reachable_inv n s Hr) as [_ Hi]. destruct Hst as [Ha|Hint].
  - by eapply arrive_logs.
  - destruct Hint as [s i _ Hs|s tag queue ok _ Hp|s s' e es es' _ Ee _ Hh].
    + by apply begin_logs; [eapply inv_tags_fresh|].
    + by eapply sent_logs.
    + by eapply thread_logs.
Qed.

(** ** Theorems *)

(** C14: whatever the interleaving of clients, gRPC and threads, an event in a
    completion queue names an object that is alive, in the state the event is
    for, with its request: [proceed] is never called on a deleted object and its
    assertion never fails. And for every queue whose thread has begun and every
    method there is exactly one object that has or awaits the next request. *)
Theorem server_safe n s :
  reachable n s ->
  (forall es e es', events s = es ++ e :: es' ->
     is_Some (handle_event e (set_events (es ++ es') s))) /\
  (forall q m, (q < n)%nat -> q ∉ starting s -> exists! t, open s q m t).
Proof.
  intros [_ H]%reachable_inv. split.
  - intros es e es' Ee. destruct (thread_inv _ s es e es' H Ee) as (s' & Hs' & _). eauto.
  - intros q m Hq Hs. destruct (proj1 (inv_open _ s H q m)) as [t Ht]; [done|].
    exists t. split; [done|]. intros t'. by apply (inv_open_uniq _ s H q m).
Qed.

(** The program either ends before it makes a server, by an error of the
    options or for help, or serves from an initial state of the transition
    system with what the options say. *)
Lemma main_starts {Client} (create : string -> Client) n argv0 desc p :
  match main create n argv0 desc p with
  | inl (Exits code _ _) => (p = OptionHelp /\ code = 0) \/ (exists what, p = OptionError what /\ code = 1)
  | inr (ctx, client, _, s) =>
      exists h po c, p = Options h po c /\ reachable n s /\ host ctx = default "0.0.0.0" h /\
        port ctx = default 7570 po /\
        client = create (default "./local-data/logdevice/logdevice.conf" c)
  end.
Proof.
  destruct p as [what| |h po c]; simpl; [right; eauto|by left|].
  exists h, po, c. split_and!; [done|apply rtc_refl|done..].
Qed.

(** A request is answered at most once, and every reply is what the handler
    of its method computes from the request that the object received. *)
Theorem replies_exact n s :
  reachable n s ->
  NoDup (replied s).*1 /\
  forall t p, (t, p) ∈ replied s ->
    exists req, (t, existT (projT1 p) req) ∈ accepted s /\ handle _ req = Replies (projT2 p).
Proof. intros H%reachable_logs. split; apply H. Qed.

(** Without new requests the server comes to rest: there is no infinite
    sequence of threads beginning, events being handled and replies being sent. *)
Theorem answering_terminates n s : reachable n s -> sn internal s.
Proof.
  remember (work s) as k eqn:Ek. revert s Ek. induction (lt_wf k) as [k _ IH].
  intros s -> Hr. constructor. intros s' Hs'. eapply IH; [by eapply internal_work|done|].
  eapply reachable_step; [done|by right].
Qed.

(** No handler stops the server or its thread. *)
Definition alive (n : nat) (s : server) : Prop :=
  terminated s = false /\ forall q, (q < n)%nat -> q ∉ starting s -> q ∈ threads s.

Lemma begin_flags i s :
  threads (HandleRpcs_begin i s) = {[ i ]} ∪ threads s /\
  terminated (HandleRpcs_begin i s) = terminated s /\ accepted (HandleRpcs_begin i s) = accepted s.
Proof. done. Qed.

Lemma handle_event_flags e s s' :
  (forall m req, exists r, handle m req = Replies r) -> handle_event e s = Some s' ->
  threads s' = threads s /\ terminated s' = terminated s.
Proof.
  intros Hh. unfold handle_event, proceed, proceed_process. intros H.
  repeat (case_match || simplify_option_eq); try done.
  all: match goal with
       | E : handle ?m ?r = _ |- _ => destruct (Hh m r) as [? Hr]; rewrite Hr in E; done
       end.
Qed.

Lemma reachable_alive n s :
  (forall m req, exists r, handle m req = Replies r) -> reachable n s -> alive n s.
Proof.
  intros Hh. revert s. apply rtc_ind_r.
  { split; [done|]. simpl. set_unfold. lia. }
  intros s s' _ [Ha|Hi] [Ht Hth].
  - by destruct Ha.
  - destruct Hi as [s i _ Hs|s tag queue ok _ Hp|s s' e es es' _ Ee _ He]; [|done|].
    + split; [done|]. rewrite begin_starting. destruct (begin_flags i s) as [-> _].
      intros q Hq Hn. specialize (Hth q Hq). destruct (decide (q = i)); set_solver.
    + destruct (handle_event_flags _ _ _ Hh He) as [E1 E2].
      unfold alive. by rewrite E1, E2, (handle_event_starting _ _ _ He).
Qed.

Lemma handle_event_accepted e s s' : handle_event e s = Some s' -> accepted s' = accepted s.
Proof.
  unfold handle_event, proceed, proceed_process. intros H.
  repeat (case_match || simplify_option_eq); done.
Qed.

Lemma internal_accepted s s' : internal s s' -> accepted s' = accepted s.
Proof. intros [| |? ? ? ? ? ? ? ? ?%handle_event_accepted]; done. Qed.

Lemma internal_star n s s' :
  reachable n s -> rtc internal s s' -> reachable n s' /\ accepted s' = accepted s.
Proof.
  intros Hr. revert s'. apply rtc_ind_r; [done|]. intros s1 s2 _ Hi [Hr1 <-]. split.
  - eapply reachable_step; [done|by right].
  - by apply internal_accepted.
Qed.

(** C12: with handlers that always reply, the server has answered every request
    once it comes to rest, however it got there. *)
Theorem all_answered n s s' :
  (forall m req, exists r, handle m req = Replies r) ->
  reachable n s -> rtc internal s s' -> nf internal s' ->
  forall t p, (t, p) ∈ accepted s ->
    exists r, handle (projT1 p) (projT2 p) = Replies r /\ (t, existT (projT1 p) r) ∈ replied s'.
Proof.
  intros Hh Hr Hst Hnf t p Hp. destruct (internal_star n s s' Hr Hst) as [Hr' Ea].
  rewrite <- Ea in Hp. pose proof (reachable_logs n s' Hr') as Hl.
  destruct (reachable_alive n s' Hh Hr') as [Htm Hth]. destruct (reachable_inv n s' Hr') as [_ Hi].
  destruct (log_open _ s' Hl t p Hp) as [[]|[Ht|[(e & c & He & <- & Hc & Hs)|Hno]]].
  - apply list_elem_of_fmap in Ht as ([t' p'] & -> & Hin). destruct (log_replied _ s' Hl _ _ Hin)
      as (req & Hreq & Hreply). simpl in Hp. rewrite (accepted_eq _ _ _ _ _ Hl Hp Hreq).
    simpl. exists (projT2 p'). by destruct p'.
  - destruct Hnf. pose proof He as (es & es' & Ee)%list_elem_of_split.
    destruct (thread_inv _ s' es e es' Hi Ee) as (s1 & Hs1 & _). exists s1.
    econstructor; [done|exact Ee| |exact Hs1].
    destruct (inv_events _ s' Hi e He) as (c' & Hc' & Hq & _). rewrite Hc in Hc'. injection Hc' as <-.
    destruct (proj2 (inv_open _ s' Hi (ev_queue e) (method c))) as [Hn Hst']; [|by apply Hth].
    exists (ev_tag e), c. split_and!; try done. right. apply list_elem_of_fmap. by exists e.
  - destruct (Hh (projT1 p) (projT2 p)) as [r Hr1]. by destruct (Hno r).
Qed.

(** A queue without a thread keeps its events. *)
Lemma dead_queue q s s' :
  q ∉ threads s -> q ∉ starting s -> rtc step s s' ->
  q ∉ threads s' /\ q ∉ starting s' /\
  forall e, e ∈ events s -> ev_queue e = q -> e ∈ events s'.
Proof.
  intros H1 H2. revert s'. apply rtc_ind_r; [done|]. intros s1 s2 _ [Ha|Hi] (Ht & Hs & He).
  - destruct Ha. simpl. split_and!; [done..|]. intros e0 He0 Hq. rewrite elem_of_app. auto.
  - destruct Hi as [s1 i _ Hi|s1 tag queue ok _ Hp|s1 s2 e es es' _ Ee Hq Hh].
    + rewrite begin_starting. destruct (begin_flags i s1) as [-> _]. split_and!; [set_solver..|done].
    + simpl. split_and!; [done..|]. intros e0 He0 Hq. rewrite elem_of_app. auto.
    + rewrite (handle_event_starting _ _ _ Hh).
      assert (threads s2 ⊆ threads s1 /\ events s2 = es ++ es') as [Hth ->].
      { unfold handle_event, proceed, proceed_process in Hh.
        repeat (case_match || simplify_option_eq); set_solver. }
      split_and!; [set_solver|done|]. intros e0 He0 <-. specialize (He e0 He0 eq_refl).
      rewrite Ee in He. set_solver.
Qed.

Lemma block_step s s1 es e es' c req :
  handle_event e (set_events (es ++ es') s) = Some s1 ->
  calls s !! ev_tag e = Some c -> status_ c = PROCESS -> request_ c = Some req ->
  handle (method c) req = Blocks -> ev_ok e = true ->
  threads s1 = threads s ∖ {[ cq_ c ]} /\ starting s1 = starting s.
Proof.
  intros Hh Hc Hs Hr Hb Hok. unfold handle_event, proceed in Hh. simpl in Hh.
  rewrite Hok, Hc in Hh. simpl in Hh. rewrite Hs in Hh. unfold proceed_process in Hh.
  rewrite Hr in Hh. simpl in Hh. rewrite Hb in Hh. by injection Hh as <-.
Qed.

Lemma accepted_grows s s' x : rtc step s s' -> x ∈ accepted s -> x ∈ accepted s'.
Proof.
  intros Hst Hx. revert s' Hst. apply rtc_ind_r; [done|]. intros s1 s2 _ [Ha|Hi] Hx1.
  - destruct Ha. simpl. rewrite elem_of_app. by left.
  - by rewrite (internal_accepted _ _ Hi).
Qed.

Lemma blocked_queue n s s1 s' es e es' c req :
  reachable n s -> terminated s = false -> events s = es ++ e :: es' -> ev_queue e ∈ threads s ->
  handle_event e (set_events (es ++ es') s) = Some s1 ->
  calls s !! ev_tag e = Some c -> status_ c = PROCESS -> request_ c = Some req ->
  handle (method c) req = Blocks -> rtc step s1 s' ->
  ev_tag e ∉ (replied s').*1 /\
  forall e', e' ∈ events s1 -> ev_queue e' = ev_queue e -> e' ∈ events s'.
Proof.
  intros Hr Htm Ee Hq Hh Hc Hs Hreq Hb Hst. pose proof (reachable_logs n s Hr) as Hl.
  destruct (reachable_inv n s Hr) as [_ Hi].
  destruct (inv_events _ s Hi e) as (c' & Hc' & Ecq & _ & Hok); [rewrite Ee; set_solver|].
  rewrite Hc in Hc'. injection Hc' as <-. destruct Hok as [(_ & Hok & _)|]; [|congruence].
  destruct (block_step s s1 es e es' c req Hh Hc Hs Hreq Hb Hok) as [E1 E2].
  assert (forall s2, rtc step s1 s2 -> reachable n s2) as Hreach.
  { intros s2 H2. unfold reachable in *. etrans; [exact Hr|]. eapply rtc_l; [|exact H2]. right.
    by econstructor. }
  split.
  - intros ([t p] & E & Hin)%list_elem_of_fmap. simpl in E. subst t.
    pose proof (reachable_logs n s' (Hreach s' Hst)) as Hl'.
    destruct (log_replied _ s' Hl' _ _ Hin) as (req' & Ha' & Hh').
    destruct (log_queued _ s Hl e c) as (req0 & Hr0 & Ha & _); [rewrite Ee; set_solver|done..|].
    rewrite Hreq in Hr0. injection Hr0 as <-.
    assert ((ev_tag e, existT (method c) req) ∈ accepted s') as Ha2.
    { eapply accepted_grows; [|exact Ha]. eapply rtc_l; [|exact Hst]. right. by econstructor. }
    pose proof (accepted_eq _ _ _ _ _ Hl' Ha' Ha2) as E.
    apply (f_equal (fun p => match handle (projT1 p) (projT2 p) with
                             | Blocks => True | _ => False end)) in E.
    simpl in E. rewrite Hh', Hb in E. by rewrite E.
  - destruct (dead_queue (ev_queue e) s1 s') as (_ & _ & He); [..|exact Hst|exact He].
    + rewrite E1, <- Ecq. set_solver.
    + rewrite E2. apply (inv_open _ s Hi (ev_queue e) (method c)). exists (ev_tag e), c.
      split_and!; try done. right. rewrite Ee, fmap_app, fmap_cons. set_solver.
Qed.
End proceed.

(** ** The service *)

Definition service ctx getDirectorySync appendBatched uninitialised
    : forall m, Request m -> outcome m :=
  fun m request_ => handler ctx getDirectorySync appendBatched uninitialised request_.

(** An append whose callback reports an error leaves its thread waiting on
    the semaphore: the request is never answered, and no request that is or
    gets into the same completion queue is handled again. *)
Theorem failed_append_stops_queue ctx getDirectorySync appendBatched uninitialised
    n s s1 s' es e es' queue streamname logid batchSize payload :
  let handle := service ctx getDirectorySync appendBatched uninitialised in
  appendBatched logid payload = AppendFailed ->
  reachable handle n s -> terminated s = false ->
  events s = es ++ e :: es' -> ev_queue e ∈ threads s ->
  calls s !! ev_tag e =
    Some {| method := Append; cq_ := queue; status_ := PROCESS;
            request_ := Some (AppendRequest streamname logid batchSize payload) |} ->
  handle_event handle e (set_events (es ++ es') s) = Some s1 -> rtc (step handle) s1 s' ->
  ev_tag e ∉ (replied s').*1 /\
  forall e', e' ∈ events s1 -> ev_queue e' = ev_queue e -> e' ∈ events s'.
Proof.
  intros handle Hf Hr Ht Ee Hq Hc Hh Hst.
  set (c := {| method := Append |}) in Hc.
  eapply (blocked_queue handle n s s1 s' es e es' c
    (AppendRequest streamname logid batchSize payload)); try done.
  unfold handle, service, c. simpl. by rewrite Hf.
Qed.

Lemma shards_loop_Ok streamname logs acc r :
  shards_loop streamname logs acc = Ok r <->
  exists shards, r = acc ++ shards /\
    Forall2 (fun '(_, log) shard => shard_of streamname log = Ok shard) logs shards.
Proof.
  revert acc. induction logs as [|[name log] logs IH]; intros acc; cbn [shards_loop].
  - split; [intros [= <-]; exists []; by rewrite app_nil_r|].
    intros (shards & -> & Hs). inversion_clear Hs. by rewrite app_nil_r.
  - destruct (shard_of streamname log) as [shard|x] eqn:E.
    + simpl. rewrite IH. split.
      * intros (shards & -> & Hs). exists (shard :: shards). rewrite <- app_assoc. split; [done|].
        by constructor.
      * intros (shards & -> & Hs). inversion_clear Hs as [|? sh ? shs Hsh Hrest]. exists shs.
        rewrite <- app_assoc. split; [simpl; congruence|done].
    + split; [done|]. intros (shards & -> & Hs). inversion_clear Hs. congruence.
Qed.

(** [ListShards] lists exactly the log groups of the stream's directory, in
    its order, each with the keys and the epoch of its attributes. When the
    directory is missing, or one group lacks an attribute or has no number for
    its epoch, the handler throws: with [proceed] being [noexcept], the first
    such event that is handled ends the whole server. *)
Theorem list_shards_exact ctx getDirectorySync appendBatched uninitialised streamname :
  let handle := service ctx getDirectorySync appendBatched uninitialised in
  (forall shards, handle _ (ListShardsRequest streamname) = Replies (ListShardsResponse shards) <->
     exists logs, getDirectorySync ("/hstream/stream/" +:+ streamname) = Some logs /\
       Forall2 (fun '(_, log) shard => shard_of streamname log = Ok shard) logs shards) /\
  (forall queue tag s,
     (forall r, handle _ (ListShardsRequest streamname) <> Replies r) ->
     exists s', proceed_process handle tag
       {| method := ListShards; cq_ := queue; status_ := PROCESS;
          request_ := Some (ListShardsRequest streamname) |} s = Some s' /\
       terminated s' = true /\ forall s'', ~ step handle s' s'').
Proof.
  intros handle.
  assert (forall tag queue s w, handle _ (ListShardsRequest streamname) = Throws w ->
    exists s', proceed_process handle tag
       {| method := ListShards; cq_ := queue; status_ := PROCESS;
          request_ := Some (ListShardsRequest streamname) |} s = Some s' /\
       terminated s' = true /\ forall s'', ~ step handle s' s'') as Hthrow.
  { intros tag queue s w Ew. unfold proceed_process. cbn [request_ method mbind option_bind].
    rewrite Ew. eexists. split_and!; [done..|].
    intros s'' [Ha|Hi]; [inversion Ha|inversion Hi]; by subst. }
  split.
  - intros shards. unfold handle, service. simpl.
    destruct (getDirectorySync _) as [logs|]; [|naive_solver].
    destruct (shards_loop streamname logs []) as [r|x] eqn:E.
    + apply shards_loop_Ok in E as (sh & -> & Hs). simpl. split; [intros [= <-]; eauto|].
      intros (logs' & [= <-] & Hs'). f_equal. f_equal. revert Hs Hs'. clear. revert sh shards.
      induction logs as [|[? ?] ? IH]; intros ? ? H1 H2; inversion_clear H1; inversion_clear H2; [done|].
      f_equal; [congruence|by apply IH].
    + split; [by destruct x|]. intros (logs' & [= <-] & Hs).
      assert (shards_loop streamname logs [] = Ok shards) by (apply shards_loop_Ok; eauto). congruence.
  - intros queue tag s Hno. destruct (handle _ (ListShardsRequest streamname)) as [r|w|] eqn:E.
    + by destruct (Hno r).
    + eapply Hthrow; eauto.
    + exfalso. revert E. unfold handle, service. simpl. repeat case_match; done.
Qed.

End FakeServer.

(** ** A run of the server *)

Module FakeServerWitness.
Import FakeServer.

Definition echo_service : forall m, Request m -> outcome m :=
  service {| host := "0.0.0.0"; port := 7570 |} (fun _ => Some []) (fun _ _ => Appended 7) 0.

(** The thread has begun; a request arrives; its event is handled; the reply is
    sent; the object is deleted. *)
Definition begun : server := HandleRpcs_begin 0 (run 1).
Definition arrived : server :=
  complete 0 0 true (deliver 0 (waiting Echo 0) (EchoRequest "hi") begun).
Definition handled : server :=
  default arrived
    (handle_event echo_service {| ev_queue := 0; ev_tag := 0; ev_ok := true |} (set_events [] arrived)).
Definition sent : server := complete 0 0 true handled.
Definition done_ : server :=
  default sent
    (handle_event echo_service {| ev_queue := 0; ev_tag := 0; ev_ok := true |} (set_events [] sent)).

Lemma begun_reachable h : reachable h 1 begun.
Proof. apply rtc_once. right. by apply internal_begin; [|set_solver]. Qed.

Lemma arrived_reachable h : reachable h 1 arrived.
Proof.
  eapply rtc_r; [apply begun_reachable|]. left. by apply (arrive_request begun 0 0 (waiting Echo 0)).
Qed.

Lemma arrived_done : rtc (internal echo_service) arrived done_.
Proof.
  eapply (rtc_l _ _ handled); [|eapply (rtc_l _ _ sent); [|apply rtc_once]].
  - apply (internal_thread _ _ _ {| ev_queue := 0; ev_tag := 0; ev_ok := true |} [] []);
      [done..|set_solver|done].
  - by apply internal_sent.
  - apply (internal_thread _ _ _ {| ev_queue := 0; ev_tag := 0; ev_ok := true |} [] []);
      [done..|set_solver|done].
Qed.

Lemma done_rests : nf (internal echo_service) done_.
Proof.
  intros [s Hs]. remember done_ as d eqn:Ed.
  destruct Hs as [d i _ Hi|d tag queue ok _ Hp|d s e es es' _ He _ _]; subst d.
  - assert (starting done_ = ∅) as E by by vm_compute. rewrite E in Hi. by apply elem_of_empty in Hi.
  - assert (map_Forall (fun _ p => p.1 = RequestOp) (pending done_)) as Hf
      by (apply (bool_decide_unpack _); by vm_compute).
    by specialize (Hf _ _ Hp).
  - assert (events done_ = []) as E by by vm_compute. rewrite E in He. by destruct es.
Qed.

Lemma echo_replies m (req : Request m) : exists r, echo_service m req = Replies r.
Proof. destruct req; eexists; reflexivity. Qed.

Lemma server_safe_witness : exists! t, open begun 0 Append t.
Proof.
  apply (server_safe echo_service 1 begun (begun_reachable _)); [lia|]. by vm_compute.
Defined.

Lemma replies_exact_witness :
  exists req, (0%nat, existT Echo req) ∈ accepted handled /\
    echo_service Echo req = Replies (EchoResponse "hi").
Proof.
  assert (reachable echo_service 1 handled) as Hr.
  { eapply rtc_r; [apply arrived_reachable|]. right.
    apply (internal_thread _ _ _ {| ev_queue := 0; ev_tag := 0; ev_ok := true |} [] []);
      [done..|set_solver|done]. }
  apply (proj2 (replies_exact echo_service 1 handled Hr) 0%nat (existT Echo (EchoResponse "hi"))).
  vm_compute. by left.
Defined.

Lemma answering_terminates_witness : sn (internal echo_service) arrived.
Proof. apply (answering_terminates echo_service 1), arrived_reachable. Defined.

Lemma all_answered_witness :
  exists r, echo_service Echo (EchoRequest "hi") = Replies r /\
    (0%nat, existT Echo r) ∈ replied done_.
Proof.
  apply (all_answered echo_service 1 arrived done_ echo_replies (arrived_reachable _) arrived_done
    done_rests 0%nat (existT Echo (EchoRequest "hi"))). vm_compute. by left.
Defined.

(** A failing append. *)
Definition failing_service : forall m, Request m -> outcome m :=
  service {| host := "0.0.0.0"; port := 7570 |} (fun _ => None) (fun _ _ => AppendFailed) 0.
Definition append_event : event := {| ev_queue := 0; ev_tag := 5; ev_ok := true |}.
Definition append_arrived : server :=
  complete 5 0 true (deliver 5 (waiting Append 0) (AppendRequest "s" 1 1 "x") begun).
Definition stuck : server :=
  default append_arrived (handle_event failing_service append_event (set_events [] append_arrived)).

Lemma failed_append_stops_queue_witness :
  5%nat ∉ (replied stuck).*1 /\ threads stuck = ∅ /\ terminated stuck = false.
Proof.
  split; [|by vm_compute].
  apply (failed_append_stops_queue {| host := "0.0.0.0"; port := 7570 |} (fun _ => None)
    (fun _ _ => AppendFailed) 0 1 append_arrived stuck stuck [] append_event [] 0 "s" 1 1 "x");
    [done|..|apply rtc_refl]; try done.
  eapply rtc_r; [apply begun_reachable|]. left. by apply (arrive_request begun 5 0 (waiting Append 0)).
Defined.

Lemma list_shards_exact_witness :
  exists s', proceed_process failing_service 2
    {| method := ListShards; cq_ := 0; status_ := PROCESS;
       request_ := Some (ListShardsRequest "s") |} begun = Some s' /\ terminated s' = true.
Proof.
  destruct (proj2 (list_shards_exact {| host := "0.0.0.0"; port := 7570 |} (fun _ => None)
    (fun _ _ => AppendFailed) 0 "s") 0%nat 2%nat begun) as (s' & Hs' & Ht & _); [done|].
  exists s'. by split.
Defined.
End FakeServerWitness.
