(* ===== verification/LdCall.v ===== *)
(** * Calls into LogDevice

    The convention hs_logdevice.cpp, hs_writer.cpp and hs_logconfigtypes.cpp
    (src/hstream-store/cbits) share: a function hands a callback to an
    asynchronous operation of LogDevice's client; the callback fills in a
    structure of Haskell's and wakes the Haskell thread up with
    [hs_try_putmvar]. *)

From stdpp Require Import base list.
From Stdlib Require Import ZArith Lia.
From S2P Require Import Prelude LogAttributes.

(** LogDevice's [Status] codes and constants the code names. *)
Class LdCodes := {
  E_OK : Z;
  E_LOGS_SECTION_MISSING : Z;
  LSN_INVALID : Z;
  E_OK_range : 0 <= E_OK < 2 ^ 16;
}.

Module LdCall.

(** What an operation of the client does with its callback: it is called once,
    with the results, or the operation fails at once and sets [err]. *)
Inductive posted (R : Type) : Type := Posted (results : R) | Refused (err : Z).
Arguments Posted {R}.
Arguments Refused {R}.

(** What Haskell sees of a call: the value returned, the memory the callback
    writes to, and how often [hs_try_putmvar] is called. *)
Record answer (D : Type) := { ret : Z; out : D; wakeups : nat }.
Arguments ret {D}.
Arguments out {D}.
Arguments wakeups {D}.

Section call.
Context `{LdCodes} {R D : Type}.

(** [int ret = client->rep->op(..., cb); if (ret == 0) return E::OK; return err;] *)
Definition status_call (cb : R -> D -> D) (p : posted R) (d : D) : answer D :=
  match p with
  | Posted r => {| ret := E_OK; out := cb r d; wakeups := 1 |}
  | Refused err => {| ret := err; out := d; wakeups := 0 |}
  end.

(** [return client->rep->op(..., cb)]: 0, or -1 on failure. *)
Definition int_call (cb : R -> D -> D) (p : posted R) (d : D) : answer D :=
  match p with
  | Posted r => {| ret := 0; out := cb r d; wakeups := 1 |}
  | Refused _ => {| ret := -1; out := d; wakeups := 0 |}
  end.
End call.

(** A callback that writes through a pointer it first tests for null. *)
Definition if_data {A} (f : A -> A) (data : option A) : option A := f <$> data.

(** [strdup(s.c_str())] of a [std::string]: the bytes before the first zero. *)
Definition strdup (s : list Z) : list Z := default [] (LogAttributes.c_string (s ++ [0])).

(** A caller that passes memory and waits for the wake-up exactly when the call
    reports success, as the Haskell wrappers do, is never left waiting and
    never reads memory that was not written. *)
Lemma status_call_wakes `{LdCodes} {R D} (cb : R -> D -> D) p d :
  (forall e, p = Refused e -> e <> E_OK) ->
  (ret (status_call cb p d) = E_OK <-> wakeups (status_call cb p d) = 1%nat) /\
  (ret (status_call cb p d) = E_OK -> exists r, p = Posted r /\ out (status_call cb p d) = cb r d).
Proof.
  intros He. destruct p as [r|e]; simpl; [split; [done|eauto]|].
  specialize (He e eq_refl). split; [split; [done|lia]|done].
Qed.

Lemma c_string_terminated s : exists t, LogAttributes.c_string (s ++ [0]) = Some t.
Proof.
  induction s as [|b s [t IH]]; simpl; [eauto|]. rewrite IH. destruct (b =? 0); simpl; eauto.
Qed.

Lemma strdup_id s : Forall (fun b => b <> 0) s -> strdup s = s.
Proof.
  unfold strdup. induction 1 as [|b s Hb Hs IH]; simpl; [done|].
  destruct (Z.eqb_spec b 0); [done|]. destruct (c_string_terminated s) as [t E].
  rewrite E in IH |- *. simpl in *. congruence.
Qed.
End LdCall.
