(* ===== verification/LogConfig.v ===== *)
(** * Log configuration (src/hstream-store/cbits/logdevice/hs_logconfigtypes.cpp)

    Attributes with their extras, log groups, directories, and the calls that
    create, read, change and remove them in LogDevice's configuration tree. *)

From stdpp Require Import base gmap list.
From Stdlib Require Import ZArith Lia.
From S2P Require Import Prelude LogAttributes LdCall.

Notation cstr := (list Z).

(** LogDevice's [client::LogGroup], with the members the code reads. *)
Record LogGroup `{LogAttributesLib} := {
  g_range : Z * Z; g_name : cstr; g_full_name : cstr; g_attrs : LogAttrs; g_version : Z;
}.

(** LogDevice's [client::Directory]: a tree, whose maps [children] and [logs] are
    lists of entries in the order a traversal meets them. *)
Inductive Directory `{LogAttributesLib} : Type :=
  Dir (name full_name : cstr) (version : Z) (attrs : LogAttrs)
      (children : list (cstr * Directory)) (logs : list (cstr * LogGroup)).

Section directory.
Context `{L : LogAttributesLib}.
Definition d_name (d : Directory) := let 'Dir n _ _ _ _ _ := d in n.
Definition d_full_name (d : Directory) := let 'Dir _ n _ _ _ _ := d in n.
Definition d_version (d : Directory) := let 'Dir _ _ v _ _ _ := d in v.
Definition d_attrs (d : Directory) := let 'Dir _ _ _ a _ _ := d in a.
Definition d_children (d : Directory) := let 'Dir _ _ _ _ c _ := d in c.
Definition d_logs (d : Directory) := let 'Dir _ _ _ _ _ l := d in l.

(** Induction with the hypothesis for every child. *)
Lemma Directory_tree_ind (P : Directory -> Prop) :
  (forall n fn v a cs ls, Forall (fun kd => P kd.2) cs -> P (Dir n fn v a cs ls)) ->
  forall d, P d.
Proof.
  intros HP. fix IH 1. intros [n fn v a cs ls]. apply HP.
  induction cs as [|[k d] cs IHcs]; constructor; [apply IH|exact IHcs].
Qed.
End directory.

(** LogDevice's client: the configuration tree is its state. The functions and
    the laws are those of its documentation: a status is a 16-bit number, setting
    the attributes of a log group stores them, and a log group that was made is
    found. A synchronous call returns its object, or the reason and [err];
    [removeLogGroupSync] takes the content of the cell for the version and
    returns its result, that content and [err]. *)
Class LogsConfigLib `{LdCodes} `{LogAttributesLib} := {
  LC : Type;
  makeLogGroup : LC -> cstr -> Z * Z -> LogAttrs -> bool ->
    LC * LdCall.posted (Z * option LogGroup * cstr);
  getLogGroup : LC -> cstr -> Z * option LogGroup;
  getLogGroupById : LC -> Z -> Z * option LogGroup;
  removeLogGroup : LC -> cstr -> LC * LdCall.posted (Z * Z * cstr);
  setAttributes : LC -> cstr -> LogAttrs -> LC * LdCall.posted (Z * Z * cstr);
  setLogGroupRange : LC -> cstr -> Z * Z -> LC * LdCall.posted (Z * Z * cstr);
  rename : LC -> cstr -> cstr -> LC * LdCall.posted (Z * Z * cstr);
  makeDirectory : LC -> cstr -> bool -> LogAttrs ->
    LC * LdCall.posted (Z * option Directory * cstr);
  removeDirectory : LC -> cstr -> bool -> LC * LdCall.posted (Z * Z * cstr);
  getDirectory : LC -> cstr -> LdCall.posted (Z * option Directory);
  syncLogsConfigVersion : LC -> Z -> bool * Z;
  makeLogGroupSync : LC -> cstr -> Z * Z -> LogAttrs -> bool -> LC * (LogGroup + cstr * Z);
  getLogGroupSync : LC -> cstr -> LogGroup + Z;
  removeLogGroupSync : LC -> cstr -> Z -> LC * bool * Z * Z;
  makeDirectorySync : LC -> cstr -> bool -> LogAttrs -> LC * (Directory + cstr * Z);
  make_status : forall lc path range attrs mk lc' st og reason,
    makeLogGroup lc path range attrs mk = (lc', LdCall.Posted (st, og, reason)) -> 0 <= st < 2 ^ 16;
  set_status : forall lc path attrs lc' st version reason,
    setAttributes lc path attrs = (lc', LdCall.Posted (st, version, reason)) -> 0 <= st < 2 ^ 16;
  make_found : forall lc path range attrs mk lc' og reason m,
    makeLogGroup lc path range attrs mk = (lc', LdCall.Posted (E_OK, og, reason)) ->
    attr_value (get extras attrs) = Some m ->
    exists g, og = Some g /\ getLogGroup lc' path = (E_OK, Some g) /\
      getLogGroup lc' (g_full_name g) = (E_OK, Some g) /\
      g_range g = range /\ attr_value (get extras (g_attrs g)) = Some m;
  set_stored : forall lc path attrs lc' version reason m st g,
    getLogGroup lc path = (st, Some g) ->
    setAttributes lc path attrs = (lc', LdCall.Posted (E_OK, version, reason)) ->
    attr_value (get extras attrs) = Some m ->
    exists g', getLogGroup lc' path = (E_OK, Some g') /\ g_range g' = g_range g /\
      attr_value (get extras (g_attrs g')) = Some m;
}.

Module LogConfig.

(** ** Attributes *)

Section attributes.
Context `{L : LogAttributesLib}.

(** [for (int i = 0; i < extras_len; ++i) extras[keys[i]] = vals[i]]. *)
Definition put_extras (keys vals : list cstr) (len : Z) (m : gmap cstr cstr)
    : option (gmap cstr cstr) :=
  if 0 <? len then
    array_map_loop (fun i => keys !! i ≫= LogAttributes.c_string)
      (fun i => vals !! i ≫= LogAttributes.c_string) (Z.to_nat len) 0 m
  else Some m.

Definition new_log_attributes (factor : Z) (extras_len : Z) (keys vals : list cstr)
    : option LogAttrs :=
  let attrs := with_ replicationFactor new_LogAttributes
                 (Attribute_of (factor : ty replicationFactor)) in
  if 0 <? extras_len then
    m ← put_extras keys vals extras_len ∅;
    Some (with_ extras attrs (Attribute_of (m : ty extras)))
  else Some attrs.

Definition exist_log_attrs_extras (attrs : option LogAttrs) (key : cstr) : bool :=
  match attrs with
  | Some attrs =>
      match attr_value (get extras attrs) with
      | Some m => bool_decide (is_Some ((m : gmap cstr cstr) !! key))
      | None => false
      end
  | None => false
  end.

(** [extras[key]] of a copy: a missing key gives the empty string; the [value()]
    of an attribute that has none is undefined. *)
Definition get_log_attrs_extra (attrs : LogAttrs) (key : cstr) : option cstr :=
  m ← attr_value (get extras attrs);
  Some (default [] ((m : gmap cstr cstr) !! key)).

Definition current_extras (attrs : LogAttrs) : gmap cstr cstr :=
  default ∅ (attr_value (get extras attrs)).

Definition update_log_attrs_extras (attrs : LogAttrs) (extras_len : Z) (keys vals : list cstr)
    : option LogAttrs :=
  m ← put_extras keys vals extras_len (current_extras attrs);
  Some (with_ extras attrs (Attribute_of (m : ty extras))).

Definition get_replication_factor (attrs : LogAttrs) : option Z :=
  attr_value (get replicationFactor attrs).

(** The vectors [keys] and [values]; [len] is their length. *)
Definition get_attribute_extras `{!IterOrder (list Z)} (attrs : LogAttrs)
    : list cstr * list cstr :=
  match attr_value (get extras attrs) with
  | Some m =>
      foldl (fun kvs kv => (kvs.1 ++ [kv.1], kvs.2 ++ [kv.2])) ([], [])
        (iter_list (m : gmap cstr cstr))
  | None => ([], [])
  end.
End attributes.

(** ** Head and tail attributes *)

Record LogHeadAttributes := { h_trim_point : Z; h_trim_point_timestamp : Z }.
Record log_head_attributes_cb_data := { h_st : Z; h_attrs : option LogHeadAttributes }.
Record LogTailAttributes := { t_lsn : Z; t_timestamp : Z; t_byte_offset : Z }.
Record log_tail_attributes_cb_data := { t_st : Z; t_attrs : option LogTailAttributes }.

(** [static_cast<c_error_code_t>]. *)
Definition error_code (st : Z) : Z := u16 st.

Definition head_attributes_cb (r : Z * option LogHeadAttributes) :=
  LdCall.if_data (fun _ => {| h_st := error_code r.1; h_attrs := r.2 |}).

Definition tail_attributes_cb (r : Z * option LogTailAttributes) :=
  LdCall.if_data (fun _ => {| t_st := error_code r.1; t_attrs := r.2 |}).

Definition get_trim_point_timestamp (a : LogHeadAttributes) : Z := h_trim_point_timestamp a.
Definition get_trim_point (a : LogHeadAttributes) : Z := h_trim_point a.
Definition ld_client_get_tail_attributes_lsn (a : LogTailAttributes) : Z := t_lsn a.
Definition ld_client_get_tail_attributes_last_timestamp (a : LogTailAttributes) : Z :=
  t_timestamp a.
Definition ld_client_get_tail_attributes_bytes_offset (a : LogTailAttributes) : Z :=
  t_byte_offset a.

Section tails.
Context `{LdCodes}.
Definition get_head_attributes := LdCall.status_call head_attributes_cb.
Definition ld_client_get_tail_attributes := LdCall.status_call tail_attributes_cb.

Definition valid_log_tail_attributes (a : LogTailAttributes) : bool :=
  negb (t_lsn a =? LSN_INVALID) && negb (t_timestamp a =? 0).
End tails.

(** ** Log groups *)

Section client.
Context `{C : LogsConfigLib}.

Record make_loggroup_cb_data := { mg_st : Z; mg_loggroup : option LogGroup; mg_reason : cstr }.
Record make_directory_cb_data := { md_st : Z; md_directory : option Directory; md_reason : cstr }.
Record logsconfig_status_cb_data := { s_st : Z; s_version : Z; s_reason : cstr }.

Definition make_loggroup_cb (r : Z * option LogGroup * cstr) :=
  LdCall.if_data (fun _ => {| mg_st := error_code r.1.1; mg_loggroup := r.1.2;
                              mg_reason := LdCall.strdup r.2 |}).

(** The lambda of every call that reports a status and a version. *)
Definition logsconfig_status_cb (r : Z * Z * cstr) :=
  LdCall.if_data (fun _ => {| s_st := error_code r.1.1; s_version := r.1.2;
                              s_reason := LdCall.strdup r.2 |}).

(** [attrs ? *attrs : LogAttributes()]. *)
Definition attrs_or_default (attrs : option LogAttrs) : LogAttrs :=
  default new_LogAttributes attrs.

Definition ld_client_make_loggroup (client : LC) (path : cstr) (start_logid end_logid : Z)
    (attrs : option LogAttrs) (mk_intermediate_dirs : bool) (data : option make_loggroup_cb_data) :=
  let '(client, p) := makeLogGroup client path (start_logid, end_logid)
                        (attrs_or_default attrs) mk_intermediate_dirs in
  (client, LdCall.status_call make_loggroup_cb p data).

(** The lambda of [ld_client_get_loggroup] and [ld_client_get_loggroup_by_id].
    [st_out] and [loggroup_result] are pointers; the branch that stores null
    does not test [loggroup_result]. *)
Definition loggroup_cb (r : Z * option LogGroup) (st_out : option Z)
    (loggroup_result : option (option LogGroup)) : option (Z * option LogGroup) :=
  _ ← st_out;
  if bool_decide (is_Some loggroup_result) && bool_decide (is_Some r.2) then Some (r.1, r.2)
  else _ ← loggroup_result; Some (r.1, None).

Definition ld_client_get_loggroup (client : LC) (path : cstr) :=
  loggroup_cb (getLogGroup client path).
Definition ld_client_get_loggroup_by_id (client : LC) (logid : Z) :=
  loggroup_cb (getLogGroupById client logid).

Definition ld_client_logid_has_group (client : LC) (logid : Z) (st_out : option Z)
    (result : option bool) : option (Z * bool) :=
  let r := getLogGroupById client logid in
  _ ← st_out; _ ← result; Some (r.1, if r.2 is Some _ then true else false).

Definition ld_client_remove_loggroup (client : LC) (path : cstr)
    (data : option logsconfig_status_cb_data) :=
  let '(client, p) := removeLogGroup client path in
  (client, LdCall.status_call logsconfig_status_cb p data).

Definition ld_loggroup_get_range (group : LogGroup) : Z * Z := g_range group.
(** A name is returned as a pointer: the string read there. *)
Definition ld_loggroup_get_name (group : LogGroup) : cstr := LdCall.strdup (g_name group).
Definition ld_loggroup_get_fully_qualified_name (group : LogGroup) : cstr :=
  LdCall.strdup (g_full_name group).
Definition ld_loggroup_get_attrs (group : LogGroup) : LogAttrs := g_attrs group.
Definition ld_loggroup_get_version (group : LogGroup) : Z := g_version group.

(** [*attrs] of a null pointer is undefined. *)
Definition ld_client_set_attributes (client : LC) (path : cstr) (attrs : option LogAttrs)
    (data : option logsconfig_status_cb_data) :=
  attrs ← attrs;
  let '(client, p) := setAttributes client path attrs in
  Some (client, LdCall.status_call logsconfig_status_cb p data).

Definition ld_loggroup_update_extra_attrs (client : LC) (group : LogGroup)
    (extras_len : Z) (keys vals : list cstr) (data : option logsconfig_status_cb_data) :=
  m ← put_extras keys vals extras_len (current_extras (g_attrs group));
  ld_client_set_attributes client (g_full_name group)
    (Some (with_ extras (g_attrs group) (Attribute_of (m : ty extras)))) data.

Definition ld_client_rename (client : LC) (from_path to_path : cstr)
    (data : option logsconfig_status_cb_data) :=
  let '(client, p) := rename client from_path to_path in
  (client, LdCall.status_call logsconfig_status_cb p data).

Definition ld_client_set_log_group_range (client : LC) (path : cstr) (first last : Z)
    (data : option logsconfig_status_cb_data) :=
  let '(client, p) := setLogGroupRange client path (first, last) in
  (client, LdCall.status_call logsconfig_status_cb p data).

Definition ld_client_sync_logsconfig_version (client : LC) (version : Z) : Z :=
  let '(r, err) := syncLogsConfigVersion client version in
  if r || (err =? E_LOGS_SECTION_MISSING) then E_OK else err.

(** The deprecated synchronous calls: the status, the cell of the result, which
    is written on success only, and what goes to standard error. *)
Definition ld_client_make_loggroup_sync (client : LC) (path : cstr) (start_logid end_logid : Z)
    (attrs : option LogAttrs) (mk_intermediate_dirs : bool) (loggroup_result : option LogGroup)
    : LC * (Z * option LogGroup * option cstr) :=
  let '(client, r) := makeLogGroupSync client path (start_logid, end_logid)
                        (attrs_or_default attrs) mk_intermediate_dirs in
  (client, match r with
           | inl loggroup => (E_OK, Some loggroup, None)
           | inr (reason, err) => (err, loggroup_result, Some reason)
           end).

Definition ld_client_get_loggroup_sync (client : LC) (path : cstr)
    (loggroup_result : option LogGroup) : Z * option LogGroup :=
  match getLogGroupSync client path with
  | inl loggroup => (E_OK, Some loggroup)
  | inr err => (err, loggroup_result)
  end.

Definition ld_client_remove_loggroup_sync (client : LC) (path : cstr) (version : Z)
    : LC * Z * Z :=
  let '(client, ret, version, err) := removeLogGroupSync client path version in
  (client, if (ret : bool) then E_OK else err, version).

Definition ld_client_make_directory_sync (client : LC) (path : cstr) (mk_intermediate_dirs : bool)
    (attrs : option LogAttrs) (logdir_ret : option Directory)
    : LC * (Z * option Directory * option cstr) :=
  let '(client, r) := makeDirectorySync client path mk_intermediate_dirs
                        (attrs_or_default attrs) in
  (client, match r with
           | inl directory => (E_OK, Some directory, None)
           | inr (reason, err) => (err, logdir_ret, Some reason)
           end).

(** ** Directories *)

Definition make_directory_cb (r : Z * option Directory * cstr) :=
  LdCall.if_data (fun _ => {| md_st := error_code r.1.1; md_directory := r.1.2;
                              md_reason := LdCall.strdup r.2 |}).

Definition ld_client_make_directory (client : LC) (path : cstr) (mk_intermediate_dirs : bool)
    (attrs : option LogAttrs) (data : option make_directory_cb_data) :=
  let '(client, p) := makeDirectory client path mk_intermediate_dirs (attrs_or_default attrs) in
  (client, LdCall.status_call make_directory_cb p data).

Definition ld_client_remove_directory (client : LC) (path : cstr) (recursive : bool)
    (data : option logsconfig_status_cb_data) :=
  let '(client, p) := removeDirectory client path recursive in
  (client, LdCall.status_call logsconfig_status_cb p data).

(** The lambda of [ld_client_get_directory] on the cells of [st_out] and
    [logdir_result], both null or not; a missing directory leaves the cell. *)
Definition directory_cb (r : Z * option Directory)
    (cells : option Z * option (option Directory)) : option Z * option (option Directory) :=
  match cells with
  | (Some _, Some cell) => (Some r.1, Some (match r.2 with Some d => Some d | None => cell end))
  | _ => cells
  end.

Definition ld_client_get_directory (client : LC) (path : cstr) :=
  LdCall.status_call directory_cb (getDirectory client path).
End client.

Section directories.
Context `{L : LogAttributesLib}.

(** [getKeys] of hs_logdevice.h. *)
Definition getKeys {A} (container : list (cstr * A)) : list cstr :=
  foldl (fun keys x => keys ++ [x.1]) [] container.

Definition ld_logdir_children_keys (dir : Directory) : list cstr := getKeys (d_children dir).
Definition ld_logdir_logs_keys (dir : Directory) : list cstr := getKeys (d_logs dir).

Definition ld_logdirectory_name (dir : Directory) : cstr := LdCall.strdup (d_name dir).
Definition ld_logdirectory_full_name (dir : Directory) : cstr := LdCall.strdup (d_full_name dir).
Definition ld_logdirectory_get_version (dir : Directory) : Z := d_version dir.
Definition ld_logdirectory_get_attrs (dir : Directory) : LogAttrs := d_attrs dir.

(** [attrMap.find(key)]. *)
Definition find_attr {A} (attrMap : list (cstr * A)) (key : cstr) : option A :=
  (fun x => x.2.2) <$> list_find (fun kv => kv.1 = key) attrMap.

Definition LD_LOGDIRECTORY_MAP_ATTR {A B} (attrMap : list (cstr * A)) (FIND_FUN : A -> B)
    (NOT_FUN : B) (key : cstr) : B :=
  match find_attr attrMap key with Some value => FIND_FUN value | None => NOT_FUN end.

Definition ld_logdir_child_name dir :=
  LD_LOGDIRECTORY_MAP_ATTR (d_children dir) (fun d => Some (d_name d)) None.
Definition ld_logdir_child_full_name dir :=
  LD_LOGDIRECTORY_MAP_ATTR (d_children dir) (fun d => Some (d_full_name d)) None.
Definition ld_logdir_child_version dir :=
  LD_LOGDIRECTORY_MAP_ATTR (d_children dir) d_version 0.
Definition ld_logdir_log_name dir :=
  LD_LOGDIRECTORY_MAP_ATTR (d_logs dir) (fun g => Some (g_name g)) None.
Definition ld_logdir_log_full_name dir :=
  LD_LOGDIRECTORY_MAP_ATTR (d_logs dir) (fun g => Some (g_full_name g)) None.
Definition ld_logdir_log_version dir := LD_LOGDIRECTORY_MAP_ATTR (d_logs dir) g_version 0.
Definition ld_logdir_log_attrs dir :=
  LD_LOGDIRECTORY_MAP_ATTR (d_logs dir) (fun g => Some (g_attrs g)) None.

(** The cells of [start] and [end]. *)
Definition ld_logdir_logs_range (dir : Directory) (key : cstr) (cells : Z * Z) : Z * Z :=
  match find_attr (d_logs dir) key with Some value => g_range value | None => cells end.

Fixpoint get_logs_name (dir : Directory) (rec : bool) (lognames : list cstr) : list cstr :=
  match dir with
  | Dir _ _ _ _ children logs =>
      let lognames := foldl (fun lognames kv => lognames ++ [g_full_name kv.2]) lognames logs in
      if rec then foldl (fun lognames kv => get_logs_name kv.2 rec lognames) lognames children
      else lognames
  end.

(** [std::move] of a pointer that is passed by const reference moves nothing. *)
Definition ld_logdirectory_get_logs_name (dir : Directory) (recursive : bool) : Z * list cstr :=
  let lognames := get_logs_name dir recursive [] in
  (Z.of_nat (length lognames), lognames).
End directories.

(** ** Extras *)

Notation array_string a := (fun i => a !! i ≫= LogAttributes.c_string).

(** The arrays hold [len] terminated strings. *)
Definition strings_ok (keys vals : list cstr) (len : Z) : Prop :=
  readable (array_string keys) (Z.to_nat len) /\ readable (array_string vals) (Z.to_nat len).

(** The last of the pairs given for [k] has value [v]; none is given for [k]. *)
Notation written keys vals len := (last_write (array_string keys) (array_string vals) (Z.to_nat len)).
Definition unwritten (keys : list cstr) (len : Z) (k : cstr) : Prop :=
  forall i, (i < Z.to_nat len)%nat -> array_string keys i <> Some k.

Lemma put_extras_spec (keys vals : list cstr) (len : Z) (old : gmap cstr cstr) :
  strings_ok keys vals len ->
  exists m, put_extras keys vals len old = Some m /\
    (forall k v, written keys vals len k v -> m !! k = Some v) /\
    (forall k, unwritten keys len k -> m !! k = old !! k).
Proof.
  intros [Hk Hv]. unfold put_extras. destruct (Z.ltb_spec 0 len) as [Hpos|Hneg].
  - destruct (array_map_loop_spec _ _ (Z.to_nat len) 0 ∅ (built_0 _ _) Hk Hv) as (m & Em & Hm).
    exists (m ∪ old). rewrite <- (map_empty_union old) at 1.
    rewrite array_map_loop_over, Em. split; [done|]. by apply built_union.
  - exists old. split; [done|]. split; [|done]. intros k v (i & Hi & _). lia.
Qed.

Section extras.
Context `{C : LogsConfigLib}.

Lemma get_extra_of m attrs k :
  attr_value (get extras attrs) = Some (m : ty extras) ->
  get_log_attrs_extra attrs k = Some (default [] ((m : gmap cstr cstr) !! k)) /\
  exist_log_attrs_extras (Some attrs) k = bool_decide (is_Some ((m : gmap cstr cstr) !! k)).
Proof. unfold get_log_attrs_extra, exist_log_attrs_extras. by intros ->. Qed.

(** [g] has the pairs of the arrays, and else what [old] has. *)
Definition has_extras (keys vals : list cstr) (len : Z) (old : gmap cstr cstr) (attrs : LogAttrs)
    : Prop :=
  (forall k v, written keys vals len k v ->
     exist_log_attrs_extras (Some attrs) k = true /\ get_log_attrs_extra attrs k = Some v) /\
  (forall k, unwritten keys len k ->
     exist_log_attrs_extras (Some attrs) k = bool_decide (is_Some (old !! k)) /\
     get_log_attrs_extra attrs k = Some (default [] (old !! k))).

Lemma has_extras_of keys vals len old m attrs :
  attr_value (get extras attrs) = Some (m : ty extras) ->
  (forall k v, written keys vals len k v -> (m : gmap cstr cstr) !! k = Some v) ->
  (forall k, unwritten keys len k -> (m : gmap cstr cstr) !! k = old !! k) ->
  has_extras keys vals len old attrs.
Proof.
  intros Ha Hw Hu. split.
  - intros k v Hk%Hw. destruct (get_extra_of m attrs k Ha) as [-> ->]. by rewrite Hk.
  - intros k Hk%Hu. destruct (get_extra_of m attrs k Ha) as [-> ->]. by rewrite Hk.
Qed.

Lemma error_code_OK st : 0 <= st < 2 ^ 16 -> error_code st = E_OK -> st = E_OK.
Proof. pose proof E_OK_range. unfold error_code. int_solve. Qed.

(** What Haskell sees of a log group that was made, *)
Lemma make_loggroup_found lc path lo hi attrs m mk lc1 a1 d r :
  attr_value (get extras attrs) = Some m ->
  ld_client_make_loggroup lc path lo hi (Some attrs) mk (Some d) = (lc1, a1) ->
  LdCall.wakeups a1 = 1%nat -> LdCall.out a1 = Some r -> mg_st r = E_OK ->
  exists g, mg_loggroup r = Some g /\ getLogGroup lc1 path = (E_OK, Some g) /\
    getLogGroup lc1 (g_full_name g) = (E_OK, Some g) /\
    g_range g = (lo, hi) /\ attr_value (get extras (g_attrs g)) = Some m.
Proof.
  intros Hm. unfold ld_client_make_loggroup. destruct (makeLogGroup _ _ _ _ _) as [lc' p] eqn:E.
  intros [= -> <-]. destruct p as [[[st og] reason]|e]; [|done]. simpl. intros _ [= <-] Hst.
  pose proof (make_status _ _ _ _ _ _ _ _ _ E) as Hr. apply error_code_OK in Hst as ->; [|done].
  exact (make_found _ _ _ _ _ _ _ _ m E Hm).
Qed.

(** and of one whose extras were updated. *)
Lemma update_extras_found lc g st g0 len keys vals d :
  strings_ok keys vals len -> getLogGroup lc (g_full_name g) = (st, Some g0) ->
  exists lc2 a2, ld_loggroup_update_extra_attrs lc g len keys vals (Some d) = Some (lc2, a2) /\
    forall r, LdCall.wakeups a2 = 1%nat -> LdCall.out a2 = Some r -> s_st r = E_OK ->
      exists g', getLogGroup lc2 (g_full_name g) = (E_OK, Some g') /\ g_range g' = g_range g0 /\
        has_extras keys vals len (current_extras (g_attrs g)) (g_attrs g').
Proof.
  intros Hs Hg. unfold ld_loggroup_update_extra_attrs.
  destruct (put_extras_spec keys vals len (current_extras (g_attrs g)) Hs) as (m & -> & Hw & Hu).
  cbn [mbind option_bind ld_client_set_attributes].
  set (attrs := with_ extras (g_attrs g) (Attribute_of (m : ty extras))).
  assert (attr_value (get extras attrs) = Some (m : ty extras)) as Ha
    by (unfold attrs; by rewrite get_with, value_Attribute_of).
  unfold ld_client_set_attributes. cbn [mbind option_bind].
  destruct (setAttributes lc (g_full_name g) attrs) as [lc2 p] eqn:E. eexists _, _. split; [done|].
  intros r. destruct p as [[[st' v] reason]|e]; [|done]. simpl. intros _ [= <-] Hst.
  pose proof (set_status _ _ _ _ _ _ _ E) as Hr. apply error_code_OK in Hst as ->; [|done].
  destruct (set_stored _ _ _ _ _ _ _ _ _ Hg E Ha) as (g' & Hg' & Hrange & Hx).
  exists g'. split_and!; [done..|]. by eapply has_extras_of.
Qed.

Lemma new_attributes_extras factor len keys vals :
  0 < len -> strings_ok keys vals len ->
  exists attrs m, new_log_attributes factor len keys vals = Some attrs /\
    get_replication_factor attrs = Some factor /\
    attr_value (get extras attrs) = Some (m : ty extras) /\
    (forall k v, written keys vals len k v -> (m : gmap cstr cstr) !! k = Some v) /\
    (forall k, unwritten keys len k -> (m : gmap cstr cstr) !! k = None).
Proof.
  intros Hlen Hs. unfold new_log_attributes. destruct (put_extras_spec keys vals len ∅ Hs)
    as (m & -> & Hw & Hu). apply Z.ltb_lt in Hlen as ->. cbn [mbind option_bind].
  eexists _, m. split; [done|]. unfold get_replication_factor.
  rewrite get_with_ne, !get_with, !value_Attribute_of by done.
  split_and!; [done..|]. intros k Hk. by rewrite Hu.
Qed.

(** A log group keeps its extras. Made with the attributes of
    [new_log_attributes], it is found under its path with its range and the last
    value given for each key. After [ld_loggroup_update_extra_attrs] on it, it is
    found with the same range, with the last value the update gives for each of
    its keys, and with the first values for all other keys. *)
Theorem group_extras_survive lc path lo hi factor len keys vals mk d len2 keys2 vals2 d2 :
  0 < len -> strings_ok keys vals len -> strings_ok keys2 vals2 len2 ->
  exists attrs, new_log_attributes factor len keys vals = Some attrs /\
    let '(lc1, a1) := ld_client_make_loggroup lc path lo hi (Some attrs) mk (Some d) in
    forall r, LdCall.wakeups a1 = 1%nat -> LdCall.out a1 = Some r -> mg_st r = E_OK ->
    exists g lc2 a2,
      mg_loggroup r = Some g /\
      ld_client_get_loggroup lc1 path (Some 0) (Some None) = Some (E_OK, Some g) /\
      ld_loggroup_get_range g = (lo, hi) /\ has_extras keys vals len ∅ (g_attrs g) /\
      ld_loggroup_update_extra_attrs lc1 g len2 keys2 vals2 (Some d2) = Some (lc2, a2) /\
      forall r2, LdCall.wakeups a2 = 1%nat -> LdCall.out a2 = Some r2 -> s_st r2 = E_OK ->
      exists g', ld_client_get_loggroup lc2 (g_full_name g) (Some 0) (Some None) =
                   Some (E_OK, Some g') /\
        ld_loggroup_get_range g' = (lo, hi) /\
        has_extras keys2 vals2 len2 (current_extras (g_attrs g)) (g_attrs g').
Proof.
  intros Hlen Hs Hs2.
  destruct (new_attributes_extras factor len keys vals Hlen Hs) as (attrs & m & Ea & _ & Hm & Hw & Hu).
  exists attrs. split; [done|]. destruct (ld_client_make_loggroup _ _ _ _ _ _ _) as [lc1 a1] eqn:E.
  intros r Hwk Ho Hst.
  destruct (make_loggroup_found lc path lo hi attrs m mk lc1 a1 d r Hm E Hwk Ho Hst)
    as (g & Hg & Hf & Hfull & Hr & Hx).
  destruct (update_extras_found lc1 g E_OK g len2 keys2 vals2 d2 Hs2 Hfull) as (lc2 & a2 & Eu & Hup).
  exists g, lc2, a2. unfold ld_client_get_loggroup. rewrite Hf.
  split_and!; [done..| |done|]; [by eapply has_extras_of|]. intros r2 Hwk2 Ho2 Hst2.
  destruct (Hup r2 Hwk2 Ho2 Hst2) as (g' & Hg' & Hr' & Hx'). exists g'. rewrite Hg'.
  unfold ld_loggroup_get_range. by rewrite Hr', Hr.
Qed.
End extras.

(** ** Listing a directory *)

Section listing.
Context `{L : LogAttributesLib}.

(** The log group [g] is in [dir] or, with [rec], under a child of it. *)
Inductive log_under (rec : bool) : Directory -> LogGroup -> Prop :=
| under_here dir k g : (k, g) ∈ d_logs dir -> log_under rec dir g
| under_child dir k c g :
    rec = true -> (k, c) ∈ d_children dir -> log_under rec c g -> log_under rec dir g.

(** Names in a directory: they contain no delimiter and are not shared, and a
    full name is the full name of the directory, the delimiter and the name. *)
Definition delimiter : Z := 47.
Definition plain (k : cstr) : Prop := delimiter ∉ k.
Definition under (full : cstr) (k : cstr) : cstr := full ++ delimiter :: k.

Inductive well_named : Directory -> Prop :=
| named n fn v a children logs :
    NoDup children.*1 -> NoDup logs.*1 ->
    Forall (fun kg => plain kg.1 /\ g_full_name kg.2 = under fn kg.1) logs ->
    Forall (fun kd => plain kd.1 /\ d_full_name kd.2 = under fn kd.1) children ->
    Forall (fun kd => well_named kd.2) children ->
    well_named (Dir n fn v a children logs).

(** The groups as the paths of names that lead to them, in the order listed. *)
Fixpoint log_paths (rec : bool) (dir : Directory) : list (list cstr) :=
  match dir with
  | Dir _ _ _ _ children logs =>
      ((fun kg => [kg.1]) <$> logs) ++
      (if rec then children ≫= (fun kd => cons kd.1 <$> log_paths rec kd.2) else [])
  end.

Definition join (full : cstr) (ks : list cstr) : cstr := foldl under full ks.

Lemma foldl_push {A B} (f : A -> B) (l : list A) acc :
  foldl (fun acc x => acc ++ [f x]) acc l = acc ++ (f <$> l).
Proof.
  revert acc. induction l as [|x l IH]; intros acc; simpl; [by rewrite app_nil_r|].
  by rewrite IH, <- app_assoc.
Qed.

Lemma foldl_append {A B} (f : A -> list B) (g : list B -> A -> list B) (l : list A) acc :
  Forall (fun x => forall acc, g acc x = acc ++ f x) l ->
  foldl g acc l = acc ++ (l ≫= f).
Proof.
  intros Hg. revert acc. induction Hg as [|x l Hx _ IH]; intros acc; simpl;
    [by rewrite app_nil_r|]. by rewrite Hx, IH, <- app_assoc.
Qed.

Lemma fmap_bind {A B C} (f : B -> C) (g : A -> list B) (l : list A) :
  f <$> (l ≫= g) = l ≫= (fun x => f <$> g x).
Proof. induction l as [|x l IH]; csimpl; [done|]. by rewrite fmap_app, IH. Qed.

(** The names are the paths, joined. *)
Lemma get_logs_name_paths dir rec :
  well_named dir -> forall acc,
  get_logs_name dir rec acc = acc ++ (join (d_full_name dir) <$> log_paths rec dir).
Proof.
  induction dir as [n fn v a cs ls IH] using Directory_tree_ind. intros Hw acc.
  inversion Hw as [? ? ? ? ? ? _ _ Hlogs Hch Hws]; subst. cbn [get_logs_name log_paths d_full_name].
  rewrite (foldl_push (fun kv => g_full_name kv.2)), fmap_app.
  assert ((fun kv => g_full_name kv.2) <$> ls = join fn <$> ((fun kg => [kg.1]) <$> ls)) as ->.
  { rewrite <- list_fmap_compose. apply list_fmap_ext. intros i kg Hi.
    rewrite Forall_forall in Hlogs. by destruct (Hlogs kg (list_elem_of_lookup_2 _ _ _ Hi)). }
  destruct rec; [|by rewrite app_nil_r].
  rewrite (foldl_append (fun kd => join (under fn kd.1) <$> log_paths true kd.2)).
  - rewrite <- app_assoc, fmap_bind. do 2 f_equal. apply list_bind_ext; [|done]. intros kd.
    by rewrite <- list_fmap_compose.
  - rewrite Forall_forall in IH, Hch, Hws |- *. intros kd Hkd acc'.
    rewrite IH by auto. by destruct (Hch kd Hkd) as [_ ->].
Qed.

Lemma log_paths_plain rec dir :
  well_named dir -> forall ks, ks ∈ log_paths rec dir -> Forall plain ks /\ ks <> [].
Proof.
  induction dir as [n fn v a cs ls IH] using Directory_tree_ind. intros Hw ks.
  inversion Hw as [? ? ? ? ? ? _ _ Hlogs Hch Hws]; subst. cbn [log_paths].
  rewrite Forall_forall in IH, Hch, Hws. rewrite Forall_forall in Hlogs.
  rewrite elem_of_app, list_elem_of_fmap. intros [(kg & -> & Hkg)|Hks].
  - by destruct (Hlogs kg Hkg); auto.
  - destruct rec; [|by apply elem_of_nil in Hks].
    apply list_elem_of_bind in Hks as (kd & (ks' & -> & Hks')%list_elem_of_fmap & Hkd).
    destruct (Hch kd Hkd) as [Hp _]. destruct (IH kd Hkd (Hws kd Hkd) ks' Hks'). auto.
Qed.

Lemma NoDup_bind_cons {A} (f : A -> list (list cstr)) (key : A -> cstr) (l : list A) :
  NoDup (key <$> l) -> Forall (fun x => NoDup (f x)) l ->
  NoDup (l ≫= (fun x => cons (key x) <$> f x)).
Proof.
  intros Hk Hf. induction Hf as [|x l Hx Hf IH]; csimpl; [constructor|].
  apply NoDup_cons in Hk as [Hx' Hk]. apply NoDup_app. split_and!; [|..|by apply IH].
  - apply NoDup_fmap_2; [|done]. by intros ? ? [=].
  - intros ks (ks1 & -> & _)%list_elem_of_fmap
      (y & (ks2 & [= E _] & _)%list_elem_of_fmap & Hy)%list_elem_of_bind.
    apply Hx'. rewrite E. by apply list_elem_of_fmap_2.
Qed.

Lemma NoDup_log_paths rec dir : well_named dir -> NoDup (log_paths rec dir).
Proof.
  induction dir as [n fn v a cs ls IH] using Directory_tree_ind. intros Hw.
  inversion Hw as [? ? ? ? ? ? Hc Hl Hlogs Hch Hws]; subst. cbn [log_paths].
  rewrite Forall_forall in IH, Hws. apply NoDup_app. split_and!.
  - apply (NoDup_fmap_2 (fun k => [k])) in Hl. by rewrite <- list_fmap_compose in Hl.
  - intros ks (kg & -> & _)%list_elem_of_fmap Hks. destruct rec; [|by apply elem_of_nil in Hks].
    apply list_elem_of_bind in Hks as (kd & (ks' & [= _ <-] & Hks')%list_elem_of_fmap & Hkd).
    by destruct (log_paths_plain true kd.2 (Hws kd Hkd) [] Hks').
  - destruct rec; [|constructor]. apply NoDup_bind_cons; [done|]. apply Forall_forall. auto.
Qed.

(** Paths of plain names are told apart when joined. *)
Lemma split_plain k k' r r' :
  plain k -> plain k' -> k ++ delimiter :: r = k' ++ delimiter :: r' -> k = k' /\ r = r'.
Proof.
  revert k'. unfold plain. induction k as [|b k IH]; intros [|b' k'] Hk Hk' E; simpl in *.
  - by injection E.
  - injection E as <- _. destruct Hk'. by left.
  - injection E as -> _. destruct Hk. by left.
  - injection E as -> E. rewrite not_elem_of_cons in Hk, Hk'. destruct Hk, Hk'.
    by destruct (IH k') as [-> ->].
Qed.

Lemma join_app full ks : join full ks = full ++ join [] ks.
Proof.
  unfold join. induction ks as [|k ks IH] using rev_ind; simpl; [by rewrite app_nil_r|].
  rewrite !foldl_app, IH. simpl. unfold under. by rewrite <- app_assoc.
Qed.

Lemma join_cons k ks : join [] (k :: ks) = delimiter :: k ++ join [] ks.
Proof. change (join [] (k :: ks)) with (join (under [] k) ks). by rewrite join_app. Qed.

Lemma join_head ks : ks <> [] -> exists r, join [] ks = delimiter :: r.
Proof. destruct ks as [|k ks]; [done|]. rewrite join_cons. eauto. Qed.

Lemma join_inj full ks ks' :
  Forall plain ks -> Forall plain ks' -> join full ks = join full ks' -> ks = ks'.
Proof.
  rewrite !(join_app full). intros Hp Hp' E%app_inv_head. revert ks' Hp' E.
  induction Hp as [|k ks Hk Hp IH]; intros [|k' ks'] Hp'; rewrite ?join_cons; try done.
  apply Forall_cons in Hp' as [Hk' Hp']. intros [= E].
  assert (k = k' /\ join [] ks = join [] ks') as [-> E']; [|f_equal; by apply IH].
  destruct ks as [|k1 ks], ks' as [|k1' ks']; rewrite ?join_cons in *.
  - by rewrite !app_nil_r in E.
  - rewrite app_nil_r in E. subst k. destruct Hk. rewrite elem_of_app, elem_of_cons. auto.
  - rewrite app_nil_r in E. subst k'. destruct Hk'. rewrite elem_of_app, elem_of_cons. auto.
  - apply split_plain in E as [-> ->]; done.
Qed.

(** The log groups that are listed; [P] holds of what a child adds. *)
Lemma elem_of_foldl_names {A} (g : list cstr -> A -> list cstr) (P : A -> cstr -> Prop) (l : list A)
    acc x :
  Forall (fun a => forall acc, x ∈ g acc a <-> x ∈ acc \/ P a x) l ->
  x ∈ foldl g acc l <-> x ∈ acc \/ exists a, a ∈ l /\ P a x.
Proof.
  intros Hg. revert acc. induction Hg as [|a l Ha _ IH]; intros acc; simpl.
  - split; [by left|]. intros [?|(a & ?%elem_of_nil & _)]; done.
  - rewrite IH, Ha. setoid_rewrite elem_of_cons. naive_solver.
Qed.

Lemma get_logs_name_elem rec dir acc x :
  x ∈ get_logs_name dir rec acc <-> x ∈ acc \/ exists g, log_under rec dir g /\ g_full_name g = x.
Proof.
  revert acc. induction dir as [n fn v a cs ls IH] using Directory_tree_ind. intros acc.
  cbn [get_logs_name]. rewrite (foldl_push (fun kv => g_full_name kv.2)).
  assert ((exists g, log_under rec (Dir n fn v a cs ls) g /\ g_full_name g = x) <->
    x ∈ (fun kv => g_full_name kv.2) <$> ls \/
    (rec = true /\ exists kd, kd ∈ cs /\ exists g, log_under rec kd.2 g /\ g_full_name g = x)) as ->.
  { split.
    - intros (g & Hg & <-). inversion Hg as [? k ? Hin|? k c ? Hrec Hin Hu]; subst; simpl in Hin.
      + left. by apply (list_elem_of_fmap_2 (fun kv => g_full_name kv.2) ls (k, g)).
      + right. split; [done|]. exists (k, c). eauto.
    - intros [(kg & -> & Hin)%list_elem_of_fmap|(-> & kd & Hin & g & Hu & <-)].
      + exists kg.2. split; [|done]. apply (under_here _ _ kg.1). by destruct kg.
      + exists g. split; [|done]. apply (under_child _ _ kd.1 kd.2); [done| |done]. by destruct kd. }
  destruct rec.
  - rewrite (elem_of_foldl_names _ (fun kd x => exists g, log_under true kd.2 g /\ g_full_name g = x)) by
      (eapply Forall_impl; [exact IH|]; simpl; intros kd Hkd acc'; apply Hkd).
    rewrite elem_of_app. naive_solver.
  - rewrite elem_of_app. naive_solver.
Qed.

(** Listing a directory gives the full name of every log group in it, or under
    it when the listing is recursive, each once, and nothing else; the length
    reported is their number. *)
Theorem get_logs_name_exact dir recursive :
  well_named dir ->
  let '(len, names) := ld_logdirectory_get_logs_name dir recursive in
  len = Z.of_nat (length names) /\ NoDup names /\
  forall x, x ∈ names <-> exists g, log_under recursive dir g /\ g_full_name g = x.
Proof.
  intros Hw. cbn [ld_logdirectory_get_logs_name]. split_and!; [done| |].
  - rewrite get_logs_name_paths by done. simpl. apply NoDup_fmap_2_strong; [|by apply NoDup_log_paths].
    intros ks ks' Hks Hks'. apply join_inj; by eapply log_paths_plain.
  - intros x. rewrite get_logs_name_elem, elem_of_nil. naive_solver.
Qed.

(** Finding an entry by one of the keys that are listed. *)
Lemma find_attr_keys {A} (m : list (cstr * A)) k :
  k ∈ getKeys m <-> is_Some (find_attr m k).
Proof.
  unfold getKeys, find_attr. rewrite (foldl_push fst). simpl. rewrite fmap_is_Some. split.
  - intros ([k' x] & -> & Hin)%list_elem_of_fmap. by apply (list_find_elem_of _ m (k', x)).
  - intros [[i [k' x]] (Hi & <- & _)%list_find_Some].
    by apply (list_elem_of_fmap_2 fst m (k', x)), list_elem_of_lookup_2 with i.
Qed.
End listing.
End LogConfig.

(** ** A configuration *)

Module LogConfigWitness.
Import LogAttributesWitness LogConfig.

#[refine] Instance codes : LdCodes := {| E_OK := 0; E_LOGS_SECTION_MISSING := 1; LSN_INVALID := 0 |}.
Proof. lia. Defined.

(** Log groups by path; a path is a full name. *)
Definition group_at (path : cstr) (range : Z * Z) (attrs : LogAttrs) : LogGroup :=
  {| g_range := range; g_name := path; g_full_name := path; g_attrs := attrs; g_version := 1 |}.

Definition find_group (lc : gmap cstr LogGroup) (path : cstr) : Z * option LogGroup :=
  match lc !! path with Some g => (0, Some g) | None => (2, None) end.

#[refine] Instance map_config : LogsConfigLib := {|
  LC := gmap cstr LogGroup;
  makeLogGroup lc path range attrs mk :=
    let g := group_at path range attrs in
    (<[path := g]> lc, LdCall.Posted (0, Some g, []));
  getLogGroup := find_group;
  getLogGroupById lc _ := (2, None);
  removeLogGroup lc path := (delete path lc, LdCall.Posted (0, 1, []));
  setAttributes lc path attrs :=
    match lc !! path with
    | Some g => (<[path := group_at path (g_range g) attrs]> lc, LdCall.Posted (0, 1, []))
    | None => (lc, LdCall.Refused 2)
    end;
  setLogGroupRange lc path range := (lc, LdCall.Refused 3);
  rename lc from to := (lc, LdCall.Refused 3);
  makeDirectory lc path mk attrs := (lc, LdCall.Refused 3);
  removeDirectory lc path rec := (lc, LdCall.Refused 3);
  getDirectory lc path := LdCall.Refused 3;
  syncLogsConfigVersion lc v := (true, 0);
  makeLogGroupSync lc path range attrs mk :=
    let g := group_at path range attrs in (<[path := g]> lc, inl g);
  getLogGroupSync lc path := match lc !! path with Some g => inl g | None => inr 2 end;
  removeLogGroupSync lc path v := (delete path lc, true, 1, 0);
  makeDirectorySync lc path mk attrs := (lc, inr ([], 3));
|}.
Proof.
  - intros lc path range l mk lc' st og reason [= _ <- _ _]. lia.
  - intros *. destruct (lc !! path); [|done]. intros [= _ <- _ _]. lia.
  - intros lc path range l mk lc' og reason m [= <- <- _] Hm. eexists. split; [done|].
    unfold find_group. simpl.
    by rewrite !lookup_insert_eq.
  - intros *. unfold find_group. destruct (lc !! path) as [g'|] eqn:E; [|done].
    intros [= <- ->] [= <- _ _] Hm. simpl. rewrite lookup_insert_eq. by eexists.
Defined.

Definition some_group_data : make_loggroup_cb_data :=
  {| mg_st := 9; mg_loggroup := None; mg_reason := [] |}.
Definition some_status_data : logsconfig_status_cb_data :=
  {| s_st := 9; s_version := 0; s_reason := [] |}.

Lemma one_string_ok (a : list cstr) :
  is_Some (a !! 0%nat ≫= LogAttributes.c_string) ->
  readable (fun i => a !! i ≫= LogAttributes.c_string) 1.
Proof. intros Ha. split; [lia|]. intros i Hi. by destruct i; [|lia]. Qed.

Lemma group_extras_survive_witness :
  exists attrs, new_log_attributes 3 1 [[107; 0]] [[118; 0]] = Some attrs /\
    let '(lc1, a1) := ld_client_make_loggroup (∅ : LC) [47; 97] 1 5 (Some attrs) true
                        (Some some_group_data) in
    LdCall.wakeups a1 = 1%nat /\
    exists g, mg_loggroup <$> LdCall.out a1 = Some (Some g) /\
      ld_loggroup_get_range g = (1, 5) /\
      get_log_attrs_extra (g_attrs g) [107] = Some [118].
Proof.
  destruct (group_extras_survive (∅ : LC) [47; 97] 1 5 3 1 [[107; 0]] [[118; 0]] true some_group_data
    1 [[107; 0]] [[119; 0]] some_status_data) as (attrs & Ha & Hm).
  - lia.
  - split; by apply one_string_ok.
  - split; by apply one_string_ok.
  - exists attrs. split; [exact Ha|]. destruct (ld_client_make_loggroup _ _ _ _ _ _ _) as [lc1 a1] eqn:E.
    simpl in E. injection E as <- <-. split; [done|].
    destruct (Hm _ eq_refl eq_refl eq_refl) as (g & lc2 & a2 & Hg & _ & Hr & [Hw _] & _).
    exists g. split; [by rewrite <- Hg|]. split; [exact Hr|]. apply (Hw [107] [118]).
    exists 0%nat. split_and!; [simpl; lia|done|done|]. simpl. intros. lia.
Defined.

Definition leaf (fn : cstr) : LogGroup := group_at fn (1, 1) new_LogAttributes.
Definition tree : Directory :=
  Dir [] [] 1 new_LogAttributes
    [([97], Dir [97] [47; 97] 1 new_LogAttributes [] [([98], leaf [47; 97; 47; 98])])]
    [([98], leaf [47; 98])].

Lemma tree_named : well_named tree.
Proof.
  repeat first [constructor | split]; unfold plain, delimiter; simpl; rewrite ?elem_of_cons, ?elem_of_nil;
    try done; lia.
Qed.

Lemma get_logs_name_exact_witness :
  [47; 97; 47; 98] ∈ (ld_logdirectory_get_logs_name tree true).2.
Proof.
  pose proof (get_logs_name_exact tree true tree_named) as Hex.
  apply (proj2 (proj2 Hex)). exists (leaf [47; 97; 47; 98]). split; [|done].
  eapply (under_child _ _ [97]); [done|by left|]. eapply (under_here _ _ [98]). by left.
Defined.
End LogConfigWitness.
