(* ===== verification/Writer.v ===== *)
(** * Writer (src/hstream-store/cbits/logdevice/hs_writer.cpp)

    Attributes of an append, appends that wait and that call back, and batches,
    which are encoded into one record. *)

From stdpp Require Import base gmap list.
From Stdlib Require Import ZArith Lia.
From S2P Require Import Prelude LogAttributes LdCall.

Notation bytes := (list Z).

(** LogDevice's [AppendAttributes]. *)
Record AppendAttributes := {
  optional_keys : gmap Z (list Z);
  counters : option (gmap Z Z);
}.

(** LogDevice's client, as its documentation describes it. [records] is what
    readers of a log get: the LSN and the attributes of each record, and its
    payloads; a batch has several, decoded from one blob. [calculateSize] is what
    an estimator that was given the payloads computes, [encode] what an encoder
    makes of them; it has to be told the size. *)
Class WriterLib `{LdCodes} := {
  KeyType_UNDEFINED : Z;
  Log : Type;
  records : Log -> Z -> list (Z * AppendAttributes * list bytes);
  append : Log -> Z -> bytes -> AppendAttributes -> Log * LdCall.posted (Z * Z * Z * Z);
  appendSync : Log -> Z -> bytes -> AppendAttributes -> Log * (Z * Z * Z);
  appendBatched : Log -> Z -> bytes -> AppendAttributes -> Log * LdCall.posted (Z * Z * Z * Z);
  calculateSize : list bytes -> Z;
  encode : Z -> Z -> list bytes -> Z -> Z -> bytes;
  decode : bytes -> option (list bytes);
  decode_encode : forall bufs compression level,
    decode (encode (Z.of_nat (length bufs)) (calculateSize bufs) bufs compression level) = Some bufs;
  (* the callback's results are the status, the log id, the LSN and the time *)
  append_stored : forall l logid p attrs l' st logid' lsn ts,
    append l logid p attrs = (l', LdCall.Posted (st, logid', lsn, ts)) ->
    0 <= st < 2 ^ 16 /\
    (st = E_OK -> logid' = logid /\ records l' logid = records l logid ++ [(lsn, attrs, [p])]);
  appendSync_stored : forall l logid p attrs l' lsn ts err,
    appendSync l logid p attrs = (l', (lsn, ts, err)) ->
    lsn <> LSN_INVALID -> records l' logid = records l logid ++ [(lsn, attrs, [p])];
  appendBatched_stored : forall l logid blob attrs l' st logid' lsn ts bufs,
    appendBatched l logid blob attrs = (l', LdCall.Posted (st, logid', lsn, ts)) ->
    decode blob = Some bufs ->
    0 <= st < 2 ^ 16 /\
    (st = E_OK -> logid' = logid /\ records l' logid = records l logid ++ [(lsn, attrs, bufs)]);
}.

Module Writer.
Section writer.
Context `{W : WriterLib}.

Definition empty_attributes : AppendAttributes := {| optional_keys := ∅; counters := None |}.

(** ** Attributes *)

(** [keyvals[i]] are C strings. *)
Definition ld_cons_append_attributes (keytypes : list Z) (keyvals : list (list Z))
    (optional_keys_len : Z) (counter_key counter_val : list Z) (counters_len : Z)
    : option AppendAttributes :=
  keys ← (if 0 <? optional_keys_len then
            array_map_loop (fun i => keytypes !! i) (fun i => keyvals !! i ≫= LogAttributes.c_string)
              (Z.to_nat optional_keys_len) 0 (∅ : gmap Z (list Z))
          else Some ∅);
  cs ← (if 0 <=? counters_len then
          Some <$> array_map_loop (fun i => counter_key !! i) (fun i => counter_val !! i)
                     (Z.to_nat counters_len) 0 (∅ : gmap Z Z)
        else Some None);
  Some {| optional_keys := keys; counters := cs |}.

Definition ld_new_append_attributes := ld_cons_append_attributes.

(** [Payload(payload + offset, length)]; outside the buffer it is undefined. *)
Definition slice (payload : bytes) (offset length : Z) : option bytes :=
  if (0 <=? offset) && (0 <=? length) && (offset + length <=? Z.of_nat (List.length payload))
  then Some (take (Z.to_nat length) (drop (Z.to_nat offset) payload))
  else None.

(** ** Appends *)

(** The cells of [ts], if it is not null, and of [lsn_ret]. *)
Definition _append_payload_sync (client : Log) (logid : Z) (payload : bytes) (offset length : Z)
    (attrs : AppendAttributes) (ts : option Z) (lsn_ret : Z) : option (Log * (Z * option Z * Z)) :=
  p ← slice payload offset length;
  let '(client, (result, timestamp, err)) := appendSync client logid p attrs in
  let ts := (fun _ => timestamp) <$> ts in
  Some (client, if result =? LSN_INVALID then (err, ts, lsn_ret) else (E_OK, ts, result)).

Record logdevice_append_cb_data := { a_st : Z; a_logid : Z; a_lsn : Z; a_timestamp : Z }.

Definition append_cb (r : Z * Z * Z * Z) :=
  LdCall.if_data (fun _ =>
    let '(st, logid, lsn, timestamp) := r in
    {| a_st := u16 st; a_logid := logid; a_lsn := lsn; a_timestamp := timestamp |}).

Definition _append_payload_async (cb_data : option logdevice_append_cb_data) (client : Log)
    (logid : Z) (payload : bytes) (offset length : Z) (attrs : AppendAttributes) :=
  p ← slice payload offset length;
  let '(client, posted) := append client logid p attrs in
  Some (client, LdCall.status_call append_cb posted cb_data).

Definition logdevice_append_async client logid payload offset length cb_data :=
  _append_payload_async cb_data client logid payload offset length empty_attributes.

(** [attrs.optional_keys[keytype] = keyval]. *)
Definition one_key (keytype : Z) (keyval : list Z) : AppendAttributes :=
  {| optional_keys := {[ keytype := keyval ]}; counters := None |}.

Definition logdevice_append_with_attrs_async client logid payload offset length keytype keyval
    cb_data :=
  _append_payload_async cb_data client logid payload offset length (one_key keytype keyval).

Definition logdevice_append_sync client logid payload offset length ts lsn_ret :=
  _append_payload_sync client logid payload offset length empty_attributes ts lsn_ret.

Definition logdevice_append_with_attrs_sync client logid payload offset length keytype keyval
    ts lsn_ret :=
  _append_payload_sync client logid payload offset length (one_key keytype keyval) ts lsn_ret.

(** ** Batches *)

(** The loop over the attributes; the value of an undefined key is not read. *)
Fixpoint attrs_loop (keytypes : list Z) (keyvals : list (list Z)) (n i : nat)
    (m : gmap Z (list Z)) : option (gmap Z (list Z)) :=
  match n with
  | O => Some m
  | S n =>
      keytype ← keytypes !! i;
      m ← (if keytype =? KeyType_UNDEFINED then Some m
           else v ← keyvals !! i ≫= LogAttributes.c_string; Some (<[keytype := v]> m));
      if bool_decide (Z.of_nat i = 2 ^ 31 - 1) then None
      else attrs_loop keytypes keyvals n (S i) m
  end.

(** [iobuf i]: the [ExLen] bytes at [ExPayload + ExOffset]. *)
Definition APPEND_BATCH (iobuf : nat -> option bytes) (total_len : Z) (client : Log) (logid : Z)
    (compression zstd_level : Z) (attrs_len : Z) (attrs_keytypes : list Z)
    (attrs_keyvals : list (list Z)) (cb_data : option logdevice_append_cb_data) :=
  estimated ← array_list_loop iobuf (Z.to_nat total_len) 0 [];
  let total_blob_bytes := calculateSize estimated in
  encoded ← array_list_loop iobuf (Z.to_nat total_len) 0 [];
  let blob := encode total_len total_blob_bytes encoded compression zstd_level in
  keys ← attrs_loop attrs_keytypes attrs_keyvals (Z.to_nat attrs_len) 0 ∅;
  let '(client, posted) :=
    appendBatched client logid blob {| optional_keys := keys; counters := None |} in
  Some (client, LdCall.status_call append_cb posted cb_data).

Definition logdevice_append_batch_rts client logid (payloads : list bytes) (payload_lens : list Z)
    (total_len : Z) :=
  fun compression zstd_level attrs_len attrs_keytypes attrs_keyvals cb_data =>
  APPEND_BATCH (fun i => p ← payloads !! i; len ← payload_lens !! i; slice p 0 len) total_len
    client logid compression zstd_level attrs_len attrs_keytypes attrs_keyvals cb_data.

Definition logdevice_append_batch client logid (payloads : list bytes)
    (payload_offsets payload_lens : list Z) (total_len : Z) :=
  fun compression zstd_level attrs_len attrs_keytypes attrs_keyvals cb_data =>
  APPEND_BATCH (fun i => p ← payloads !! i; off ← payload_offsets !! i; len ← payload_lens !! i;
                         slice p off len) total_len
    client logid compression zstd_level attrs_len attrs_keytypes attrs_keyvals cb_data.

(** ** Proofs *)

Notation array_string a := (fun i => a !! i ≫= LogAttributes.c_string).

(** The key of round [i], if it is one. *)
Definition defined_key (keytypes : list Z) (i : nat) : option Z :=
  k ← keytypes !! i; if k =? KeyType_UNDEFINED then None else Some k.

(** All keys can be read, and the values of those that are defined. *)
Definition keys_ok (keytypes : list Z) (keyvals : list (list Z)) (len : nat) : Prop :=
  readable (fun i => keytypes !! i) len /\
  forall i, (i < len)%nat -> is_Some (defined_key keytypes i) -> is_Some (array_string keyvals i).

Lemma attrs_loop_spec keytypes keyvals n i m :
  built (defined_key keytypes) (array_string keyvals) i m -> keys_ok keytypes keyvals (i + n) ->
  exists m', attrs_loop keytypes keyvals n i m = Some m' /\
    built (defined_key keytypes) (array_string keyvals) (i + n) m'.
Proof.
  revert i m. induction n as [|n IH]; intros i m Hm [[Hi Hk] Hv].
  { exists m. by rewrite Nat.add_0_r. }
  destruct (Hk i) as [key Ek]; [lia|]. cbn [attrs_loop]. rewrite Ek. cbn [mbind option_bind].
  specialize (Hv i ltac:(lia)) as Hvi. rewrite <- Nat.add_succ_comm in *.
  assert (defined_key keytypes i = if key =? KeyType_UNDEFINED then None else Some key) as Ed
    by (unfold defined_key; by rewrite Ek).
  destruct (key =? KeyType_UNDEFINED).
  - cbn [mbind option_bind]. rewrite bool_decide_eq_false_2 by lia.
    apply IH; [by apply built_skip|done].
  - destruct Hvi as [v Ev]; [eauto|]. rewrite Ev. cbn [mbind option_bind].
    rewrite bool_decide_eq_false_2 by lia. apply IH; [by apply built_step|done].
Qed.

(** The attributes of an append have the last value given for each key type
    and for each counter; with a negative number of counters there are none,
    and with zero the set of counters is empty. *)
Theorem append_attributes_exact keytypes keyvals keys_len counter_key counter_val counters_len :
  readable (fun i => keytypes !! i) (Z.to_nat keys_len) ->
  readable (array_string keyvals) (Z.to_nat keys_len) ->
  readable (fun i => counter_key !! i) (Z.to_nat counters_len) ->
  readable (fun i => counter_val !! i) (Z.to_nat counters_len) ->
  exists attrs, ld_new_append_attributes keytypes keyvals keys_len counter_key counter_val counters_len
      = Some attrs /\
    (forall k v, optional_keys attrs !! k = Some v <->
       last_write (fun i => keytypes !! i) (array_string keyvals) (Z.to_nat keys_len) k v) /\
    (counters_len < 0 <-> counters attrs = None) /\
    (forall cs, counters attrs = Some cs -> forall k v, cs !! k = Some v <->
       last_write (fun i => counter_key !! i) (fun i => counter_val !! i) (Z.to_nat counters_len) k v).
Proof.
  intros Hk Hv Hck Hcv. unfold ld_new_append_attributes, ld_cons_append_attributes.
  destruct (array_map_loop_spec _ _ (Z.to_nat keys_len) 0 ∅ (built_0 _ _) Hk Hv) as (m & Em & Hm).
  destruct (array_map_loop_spec _ _ (Z.to_nat counters_len) 0 ∅ (built_0 _ _) Hck Hcv) as (c & Ec & Hc).
  assert ((if 0 <? keys_len then array_map_loop (fun i => keytypes !! i) (array_string keyvals)
             (Z.to_nat keys_len) 0 ∅ else Some ∅) = Some m) as ->.
  { destruct (Z.ltb_spec 0 keys_len); [done|]. by rewrite Z2Nat.nonpos in Em. }
  cbn [mbind option_bind]. rewrite Ec. destruct (Z.leb_spec 0 counters_len); cbn [fmap option_fmap];
    eexists; (split; [reflexivity|]); cbn [optional_keys counters]; split_and!; try done.
  - split; [lia|done].
  - intros cs [= <-]. apply Hc.
Qed.

(** ** What readers get *)

Lemma status_range st : 0 <= st < 2 ^ 16 -> u16 st = st.
Proof. int_solve. Qed.

(** The buffers of a batch: one for each of the [total_len] payloads. *)
Definition batch_of (iobuf : nat -> option bytes) (total_len : Z) (bufs : list bytes) : Prop :=
  Z.of_nat (length bufs) = total_len /\ total_len < 2 ^ 31 /\
  forall i, (i < length bufs)%nat -> iobuf i = bufs !! i.

Lemma batch_loop iobuf total_len bufs :
  batch_of iobuf total_len bufs -> array_list_loop iobuf (Z.to_nat total_len) 0 [] = Some bufs.
Proof.
  intros (Hl & Hb & Hi). rewrite (array_list_loop_spec iobuf bufs); [done| |lia|lia].
  intros j Hj. apply Hi. lia.
Qed.

Lemma append_batch_stored iobuf total_len bufs client logid compression level attrs_len keytypes
    keyvals d :
  batch_of iobuf total_len bufs -> keys_ok keytypes keyvals (Z.to_nat attrs_len) ->
  exists client' a attrs,
    APPEND_BATCH iobuf total_len client logid compression level attrs_len keytypes keyvals (Some d) =
      Some (client', a) /\
    (forall k v, optional_keys attrs !! k = Some v <->
       last_write (defined_key keytypes) (array_string keyvals) (Z.to_nat attrs_len) k v) /\
    (forall r, LdCall.wakeups a = 1%nat -> LdCall.out a = Some r -> a_st r = E_OK ->
       a_logid r = logid /\
       records client' logid = records client logid ++ [(a_lsn r, attrs, bufs)]).
Proof.
  intros Hb Hk. destruct (attrs_loop_spec keytypes keyvals (Z.to_nat attrs_len) 0 ∅ (built_0 _ _) Hk)
    as (keys & Ek & Hkeys).
  unfold APPEND_BATCH. rewrite (batch_loop _ _ _ Hb), Ek. cbn [mbind option_bind].
  destruct (appendBatched _ _ _ _) as [client' p] eqn:E.
  eexists client', _, {| optional_keys := keys; counters := None |}. split_and!; [done|done|].
  destruct p as [[[[st logid'] lsn] ts]|e]; [|done]. simpl. intros r _ [= <-]. simpl.
  destruct Hb as [Hl _]. eapply appendBatched_stored in E as [Hr Hs];
    [|by rewrite <- Hl; apply decode_encode].
  rewrite status_range by done. intros ->. by apply Hs.
Qed.

(** C25: a batch is stored as one record: when the callback reports success,
    readers of the log get exactly the given slices of the payloads, in order,
    under the LSN the callback reports, with the last value given for each
    defined key type. *)
Theorem batch_roundtrip client logid payloads offsets lens bufs compression level attrs_len keytypes
    keyvals d :
  batch_of (fun i => p ← payloads !! i; off ← offsets !! i; len ← lens !! i; slice p off len)
    (Z.of_nat (length bufs)) bufs ->
  keys_ok keytypes keyvals (Z.to_nat attrs_len) ->
  exists client' a attrs,
    logdevice_append_batch client logid payloads offsets lens (Z.of_nat (length bufs)) compression level
      attrs_len keytypes keyvals (Some d) = Some (client', a) /\
    (forall k v, optional_keys attrs !! k = Some v <->
       last_write (defined_key keytypes) (array_string keyvals) (Z.to_nat attrs_len) k v) /\
    (forall r, LdCall.wakeups a = 1%nat -> LdCall.out a = Some r -> a_st r = E_OK ->
       a_logid r = logid /\
       records client' logid = records client logid ++ [(a_lsn r, attrs, bufs)]).
Proof. apply append_batch_stored. Qed.

(** A single append stores the slice it is given: the synchronous call returns
    success with the LSN under which readers get it, or the error with the LSN
    left as it was; the asynchronous call reports the LSN to its callback. *)
Theorem append_stores_slice client logid payload offset length p ts lsn d :
  slice payload offset length = Some p ->
  (exists client' result timestamp err st lsn',
     appendSync client logid p empty_attributes = (client', (result, timestamp, err)) /\
     logdevice_append_sync client logid payload offset length ts lsn =
       Some (client', (st, (fun _ => timestamp) <$> ts, lsn')) /\
     (result = LSN_INVALID -> st = err /\ lsn' = lsn) /\
     (result <> LSN_INVALID -> st = E_OK /\
        records client' logid = records client logid ++ [(lsn', empty_attributes, [p])])) /\
  (exists client' a,
     logdevice_append_async client logid payload offset length (Some d) = Some (client', a) /\
     forall r, LdCall.wakeups a = 1%nat -> LdCall.out a = Some r -> a_st r = E_OK ->
       a_logid r = logid /\
       records client' logid = records client logid ++ [(a_lsn r, empty_attributes, [p])]).
Proof.
  intros Hs. unfold logdevice_append_sync, logdevice_append_async, _append_payload_sync,
    _append_payload_async. rewrite Hs. cbn [mbind option_bind]. split.
  - destruct (appendSync _ _ _ _) as [client' [[result timestamp] err]] eqn:E.
    destruct (Z.eqb_spec result LSN_INVALID) as [->|Hne]; eexists _, _, _, _, _, _;
      (split; [done|]); (split; [done|]); (split; [done|]); intros ?; [done|].
    split; [done|]. by eapply appendSync_stored.
  - destruct (append _ _ _ _) as [client' posted] eqn:E. eexists _, _. split; [done|].
    destruct posted as [[[[st logid'] lsn'] ts']|e]; [|done]. simpl. intros r _ [= <-]. simpl.
    eapply append_stored in E as [Hr Hst]. rewrite status_range by done. intros ->. by apply Hst.
Qed.
End writer.
End Writer.

(** ** A log *)

Module WriterWitness.
Import Writer.

#[refine] Instance codes : LdCodes := {| E_OK := 0; E_LOGS_SECTION_MISSING := 1; LSN_INVALID := 0 |}.
Proof. lia. Defined.

(** A blob is the payloads with their lengths in front, *)
Definition encode_list (bufs : list bytes) : bytes :=
  bufs ≫= (fun b => Z.of_nat (length b) :: b).

Fixpoint decode_list (fuel : nat) (blob : bytes) : option (list bytes) :=
  match fuel, blob with
  | _, [] => Some []
  | O, _ => None
  | S fuel, n :: blob =>
      (fun bufs => take (Z.to_nat n) blob :: bufs) <$> decode_list fuel (drop (Z.to_nat n) blob)
  end.

Lemma decode_encode_list bufs fuel :
  (length bufs <= fuel)%nat -> decode_list fuel (encode_list bufs) = Some bufs.
Proof.
  revert fuel. induction bufs as [|b bufs IH]; intros [|fuel] Hl; simpl in *; [done|done|lia|].
  rewrite Nat2Z.id, take_app_length, drop_app_length. unfold encode_list in IH. by rewrite IH by lia.
Qed.

(** the first of them being preceded by their number. *)
Definition decode_blob (blob : bytes) : option (list bytes) :=
  match blob with n :: blob => decode_list (Z.to_nat n) blob | [] => None end.

Notation MemLog := (gmap Z (list (Z * AppendAttributes * list bytes))).
Definition stored (l : MemLog) (logid : Z) := default [] (l !! logid).
Definition add (l : MemLog) (logid : Z) (attrs : AppendAttributes) (bufs : list bytes)
    : MemLog * LdCall.posted (Z * Z * Z * Z) :=
  let lsn := 1 + Z.of_nat (length (stored l logid)) in
  (<[logid := stored l logid ++ [(lsn, attrs, bufs)]]> l, LdCall.Posted (0, logid, lsn, 5)).

Lemma stored_insert (l : MemLog) logid x : stored (<[logid := x]> l) logid = x.
Proof. unfold stored. by rewrite lookup_insert_eq. Qed.

#[refine] Instance mem_log : WriterLib := {|
  KeyType_UNDEFINED := 255;
  Log := MemLog;
  records := stored;
  append l logid p attrs := add l logid attrs [p];
  appendSync l logid p attrs :=
    let '(l', _) := add l logid attrs [p] in (l', (1 + Z.of_nat (length (stored l logid)), 5, 0));
  appendBatched l logid blob attrs := add l logid attrs (default [] (decode_blob blob));
  calculateSize bufs := Z.of_nat (length (encode_list bufs));
  encode n size bufs compression level := n :: encode_list bufs;
  decode := decode_blob;
|}.
Proof.
  - intros bufs _ _. simpl. rewrite Nat2Z.id. by apply decode_encode_list.
  - intros l logid p attrs l' st logid' lsn ts. unfold add. intros [= <- <- <- <- _].
    rewrite stored_insert. split; [lia|done].
  - intros l logid p attrs l' lsn ts err. unfold add. intros [= <- <- _ _] _.
    by rewrite stored_insert.
  - intros l logid blob attrs l' st logid' lsn ts bufs. unfold add. intros [= <- <- <- <- _] Hd.
    rewrite Hd. rewrite stored_insert. split; [lia|done].
Defined.

Definition no_data : logdevice_append_cb_data :=
  {| a_st := 9; a_logid := 0; a_lsn := 0; a_timestamp := 0 |}.

Lemma append_attributes_exact_witness :
  exists attrs, ld_new_append_attributes [0; 0] [[107; 0]; [108; 0]] 2 [] [] 0 = Some attrs /\
    optional_keys attrs !! 0 = Some [108].
Proof.
  destruct (append_attributes_exact [0; 0] [[107; 0]; [108; 0]] 2 [] [] 0) as (attrs & Ha & Hk & _).
  - split; [simpl; lia|]. intros [|[|i]] Hi; simpl in *; [eauto..|lia].
  - split; [simpl; lia|]. intros [|[|i]] Hi; simpl in *; [eauto..|lia].
  - split; [simpl; lia|]. simpl. intros; lia.
  - split; [simpl; lia|]. simpl. intros; lia.
  - exists attrs. split; [exact Ha|]. apply Hk. exists 1%nat. simpl. split_and!; [lia|done|done|].
    intros; lia.
Defined.

Lemma batch_roundtrip_witness :
  exists (client' : Log) a, logdevice_append_batch (∅ : Log) 7 [[1; 2; 3]; [4]] [1; 0] [2; 1] 2 0 0 0 [] []
      (Some no_data) = Some (client', a) /\ LdCall.wakeups a = 1%nat /\
    exists lsn attrs, records client' 7 = [(lsn, attrs, [[2; 3]; [4]])].
Proof.
  destruct (batch_roundtrip (∅ : Log) 7 [[1; 2; 3]; [4]] [1; 0] [2; 1] [[2; 3]; [4]] 0 0 0 [] [] no_data)
    as (client' & a & attrs & E & _ & Hr).
  - split_and!; [done|simpl; lia|]. intros [|[|i]] Hi; simpl in *; [done..|lia].
  - split; [split; [simpl; lia|]|]; simpl; intros; lia.
  - exists client', a. split; [exact E|]. cbv in E. injection E as <- <-. split; [done|].
    destruct (Hr _ eq_refl eq_refl eq_refl) as [_ Hrec]. eauto.
Defined.

Lemma append_stores_slice_witness :
  exists (client' : Log) st lsn, logdevice_append_sync (∅ : Log) 7 [1; 2; 3] 1 2 None 0 =
      Some (client', (st, None, lsn)) /\
    records client' 7 = [(lsn, empty_attributes, [[2; 3]])].
Proof.
  destruct (append_stores_slice (∅ : Log) 7 [1; 2; 3] 1 2 [2; 3] None 0 no_data eq_refl)
    as [(client' & result & ts & err & st & lsn & Ea & E & _ & Hok) _].
  exists client', st, lsn. split; [exact E|]. apply Hok. cbv in Ea. injection Ea as _ <- _ _. done.
Defined.
End WriterWitness.
