(* ===== verification/LdClient.v ===== *)
(** * The LogDevice client (src/hstream-store/cbits/hs_logdevice.cpp)

    Creation of a client, its settings, and the queries on a log. *)

From stdpp Require Import base gmap list.
From Stdlib Require Import ZArith Lia.
From S2P Require Import Prelude LdCall.

(** [ClientSettings] and the queries of a client on the logs. A setting that was
    set successfully is read back; [set] returns 0 or a negative number. *)
Class ClientLib `{LdCodes} := {
  Settings : Type;
  settings_get : Settings -> list Z -> option (list Z);
  settings_set : Settings -> list Z -> list Z -> Settings * Z * Z;
  set_returned : forall s name value s' rv err, settings_set s name value = (s', rv, err) -> rv <= 0;
  set_read : forall s name value s' err,
    settings_set s name value = (s', 0, err) -> settings_get s' name = Some value;
  Logs : Type;
  isLogEmpty : Logs -> Z -> LdCall.posted (Z * bool);
  getTailLSN : Logs -> Z -> LdCall.posted (Z * Z);
  trim : Logs -> Z -> Z -> Logs * LdCall.posted Z;
  findTime : Logs -> Z -> Z -> Z -> LdCall.posted (Z * Z);
  findKey : Logs -> Z -> list Z -> Z -> LdCall.posted (Z * Z * Z);
}.

Module LdClient.
Section client.
Context `{C : ClientLib}.

(** [client]: what the factory returns, or [err]; the cell of [client_ret]. *)
Definition new_logdevice_client {A} (client : A + Z) (client_ret : option A) : Z * option A :=
  match client with inl c => (E_OK, Some c) | inr err => (err, client_ret) end.

(** The constructor of [std::string] from a [const char*], undefined on null. *)
Definition string_of_pointer (p : option (list Z)) : option (list Z) := p.

(** [maybe_value.value_or(nullptr)]. *)
Definition ld_client_get_settings (settings : Settings) (name : list Z) : option (list Z) :=
  match settings_get settings name with
  | Some value => Some value
  | None => string_of_pointer None
  end.

(** [None]: the program exits. *)
Definition ld_client_set_settings (settings : Settings) (name value : list Z)
    : option (Settings * Z) :=
  let '(settings, rv, err) := settings_set settings name value in
  if rv =? 0 then Some (settings, E_OK) else if rv <? 0 then Some (settings, err) else None.

Record is_log_empty_cb_data := { e_st : Z; e_empty : bool }.

Definition ld_client_is_log_empty (client : Logs) (logid : Z) :=
  LdCall.status_call
    (fun r => LdCall.if_data (fun _ => {| e_st := u16 r.1; e_empty := r.2 |})) (isLogEmpty client logid).

(** The lambda of [ld_client_get_tail_lsn] and [ld_client_find_time]: both cells
    are written or none. *)
Definition lsn_cb (r : Z * Z) (cells : option Z * option Z) : option Z * option Z :=
  match cells with
  | (Some _, Some _) => (Some (u16 r.1), Some r.2)
  | _ => cells
  end.

Definition ld_client_get_tail_lsn (client : Logs) (logid : Z) :=
  LdCall.int_call lsn_cb (getTailLSN client logid).

Definition ld_client_trim (client : Logs) (logid lsn : Z) (st_out : option Z) :=
  let '(client, p) := trim client logid lsn in
  (client, LdCall.int_call (fun st => LdCall.if_data (fun _ => u16 st)) p st_out).

Definition ld_client_find_time (client : Logs) (logid timestamp accuracy : Z) :=
  LdCall.int_call lsn_cb (findTime client logid timestamp accuracy).

(** The lambda of [ld_client_find_key]: the three cells are independent. *)
Definition find_key_cb (r : Z * Z * Z) (cells : option Z * option Z * option Z)
    : option Z * option Z * option Z :=
  let '(status, lo, hi) := r in
  let '(st_out, lo_lsn_out, hi_lsn_out) := cells in
  (LdCall.if_data (fun _ => u16 status) st_out, LdCall.if_data (fun _ => lo) lo_lsn_out,
   LdCall.if_data (fun _ => hi) hi_lsn_out).

Definition ld_client_find_key (client : Logs) (logid : Z) (key : list Z) (accuracy : Z) :=
  LdCall.int_call find_key_cb (findKey client logid key accuracy).

(** A setting that was set successfully is read back, the program never exits
    in [ld_client_set_settings], and reading a setting is defined exactly when
    the setting has a value: for another one a string is built from a null
    pointer. *)
Theorem settings_roundtrip (s : Settings) name value :
  exists s' st, ld_client_set_settings s name value = Some (s', st) /\
    (forall err, settings_set s name value = (s', 0, err) ->
       st = E_OK /\ ld_client_get_settings s' name = Some value) /\
    (forall n, ld_client_get_settings s n = None <-> settings_get s n = None).
Proof.
  unfold ld_client_set_settings, ld_client_get_settings.
  destruct (settings_set s name value) as [[s' rv] err] eqn:E.
  pose proof (set_returned _ _ _ _ _ _ E) as Hrv.
  assert (forall n, match settings_get s n with
    | Some value => Some value | None => string_of_pointer None end = None <->
    settings_get s n = None) as Hn by (intros n; by destruct (settings_get s n)).
  destruct (Z.eqb_spec rv 0) as [->|Hne].
  - exists s', E_OK. split_and!; [done| |done]. intros err' [= _]. split; [done|].
    by rewrite (set_read _ _ _ _ _ E).
  - destruct (Z.ltb_spec rv 0); [|lia]. exists s', err. split_and!; [done| |done].
    intros err' [= ?]. done.
Qed.
End client.
End LdClient.

Module LdClientWitness.
Import LdClient.

#[refine] Instance codes : LdCodes := {| E_OK := 0; E_LOGS_SECTION_MISSING := 1; LSN_INVALID := 0 |}.
Proof. lia. Defined.

#[refine] Instance map_client : ClientLib := {|
  Settings := gmap (list Z) (list Z);
  settings_get s name := s !! name;
  settings_set s name value := (<[name := value]> s, 0, 0);
  Logs := unit;
  isLogEmpty _ _ := LdCall.Posted (0, true);
  getTailLSN _ _ := LdCall.Posted (0, 1);
  trim l _ _ := (l, LdCall.Posted 0);
  findTime _ _ _ _ := LdCall.Posted (0, 1);
  findKey _ _ _ _ := LdCall.Posted (0, 1, 2);
|}.
Proof.
  - intros s name value s' rv err [= _ <- _]. lia.
  - intros s name value s' err [= <- _]. apply lookup_insert_eq.
Defined.

(** The setting 2 has no value before. *)
Lemma settings_roundtrip_witness :
  exists s' st, ld_client_set_settings (∅ : Settings) [1] [5] = Some (s', st) /\
    ld_client_get_settings s' [1] = Some [5] /\ ld_client_get_settings (∅ : Settings) [2] = None.
Proof.
  destruct (settings_roundtrip (∅ : Settings) [1] [5]) as (s' & st & E & Hget & Hn).
  exists s', st. split; [exact E|]. cbv in E. injection E as <- <-.
  split; [by apply (Hget 0)|by apply Hn].
Defined.
End LdClientWitness.
