(* ===== verification/AdminTables.v ===== *)
(** * The tables of admin queries (src/hstream-admin/server/cbits/query)

    The eight tables that Query registers: their columns, and the admin command
    each sends to the servers. The commands for statistics are answered by the
    server's handler (src/hstream/src/HStream/Server/Handler/Admin.hs) from the
    statistics functions of StatsApi, so that names, intervals and columns of
    the three places have to fit. *)

From stdpp Require Import base gmap strings list pretty.
From Stdlib Require Import ZArith Lia Ascii.
From S2P Require Import Prelude StatsTables Stats StatsHolder StatsApi.
From S2P Require Import NameNormalizer AdminTableData AdminTable.
Import StatsTables Stats StatsHolder StatsApi.

Module AdminTables.
Section tables.
Context {LQ : Ldquery} {FT : FollyTo} {GS : Gason} {OZ : IterOrder Z}.
Context {SC : StatsCounter} {D : Double} {TS : TimeSeries} {HB : Histograms}.
Context {LD : LdCheck} {OS : IterOrder string} {OT : IterOrder nat}.

(** ldquery's column types. *)
Context (TEXT BIGINT : DataType).

(** A class derived from AdminCommandTable. *)
Record table_def := {
  getName : string;
  getDescription : string;
  columns : list (string * DataType * string);
  command : string;
}.

Definition getFetchableColumns (t : table_def) : list (string * DataType) := (columns t).*1.

Definition AppendFailedCounter : table_def := {|
  getName := "append_failed_counter";
  getDescription := "Failed append requests.";
  columns := [("stream_name", TEXT, "The name of the stream.");
              ("append_failed", BIGINT, "Number of failed appends")];
  command := "server stats stream_counter append_failed" |}.

Definition AppendThroughput : table_def := {|
  getName := "append_throughput";
  getDescription := "For each server node, reports the estimated per-stream append throughput over various time periods.";
  columns := [("stream_name", TEXT, "The name of the stream.");
              ("appends_1min", BIGINT, "Throughput average in the past 1 minute.");
              ("appends_5min", BIGINT, "Throughput average in the past 5 minutes.");
              ("appends_10min", BIGINT, "Throughput average in the past 10 minutes.")];
  command := "server stats stream appends --intervals 1min --intervals 5min --intervals 10min" |}.

Definition AppendTotalCounter : table_def := {|
  getName := "append_total_counter";
  getDescription := "Total append requests server received.";
  columns := [("stream_name", TEXT, "The name of the stream.");
              ("append_total", BIGINT, "Number of total appends")];
  command := "server stats stream_counter append_total" |}.

Definition ReadThroughput : table_def := {|
  getName := "read_throughput";
  getDescription := "For each server node, reports the estimated per-stream read throughput over various time periods.";
  columns := [("stream_name", TEXT, "The name of the stream.");
              ("reads_15min", BIGINT, "Throughput average in the past 15 minutes.");
              ("reads_30min", BIGINT, "Throughput average in the past 30 minutes.");
              ("reads_60min", BIGINT, "Throughput average in the past 60 minutes.")];
  command := "server stats stream reads --intervals 15min --intervals 30min --intervals 60min" |}.

Definition percentile_columns : list (string * DataType * string) :=
  [("p50", BIGINT, "p50"); ("p75", BIGINT, "p75"); ("p95", BIGINT, "p95"); ("p99", BIGINT, "p99")].

Definition ServerAppendLatency : table_def := {|
  getName := "server_append_latency";
  getDescription := "For each server node, reports the estimated percentiles latency of server appends";
  columns := percentile_columns;
  command := "server stats server_histogram append_latency -p 0.5 -p 0.75 -p 0.95 -p 0.99" |}.

Definition ServerAppendRequestLatency : table_def := {|
  getName := "server_append_request_latency";
  getDescription := "For each server node, reports the estimated percentiles latency of server append request";
  columns := percentile_columns;
  command := "server stats server_histogram append_request_latency -p 0.5 -p 0.75 -p 0.95 -p 0.99" |}.

Definition Streams : table_def := {|
  getName := "streams";
  getDescription := "A table that lists the streams created in the cluster.";
  columns := [("name", TEXT, "The name of the stream.");
              ("replication_property", TEXT, "Replication property configured for this stream.")];
  command := "server stream list" |}.

Definition SubscriptionThroughput : table_def := {|
  getName := "subscription_throughput";
  getDescription := "For each server node, reports the estimated per-stream append throughput over various time periods.";
  columns := [("subscription_id", TEXT, "The id of the subscription.");
              ("sends_1min", BIGINT, "Throughput average in the past 1 minute.");
              ("sends_5min", BIGINT, "Throughput average in the past 5 minutes.");
              ("sends_10min", BIGINT, "Throughput average in the past 10 minutes.")];
  command := "server stats subscription sends --intervals 1min --intervals 5min --intervals 10min" |}.

(** [Query::registerTables]. *)
Definition registerTables : list table_def :=
  [AppendFailedCounter; AppendThroughput; AppendTotalCounter; ReadThroughput; ServerAppendLatency;
   ServerAppendRequestLatency; Streams; SubscriptionThroughput].

(** No table uses the constraints of a query in its command. *)
Definition getCommandToSend (t : table_def) (ctx : AdminTableData.QueryContext) :=
  (command t, AdminTableData.used_constraints ctx).

(** ** The server's side *)

Inductive StatsCategory :=
| PerStreamStats | PerStreamTimeSeries | PerSubscriptionStats | PerSubscriptionTimeSeries
| PerHandleTimeSeries | PerConnectorStats | PerQueryStats | PerViewStats | ServerHistogram.

Definition read_category (s : string) : option StatsCategory :=
  if bool_decide (s = "stream_counter") then Some PerStreamStats
  else if bool_decide (s = "stream") then Some PerStreamTimeSeries
  else if bool_decide (s = "subscription_counter") then Some PerSubscriptionStats
  else if bool_decide (s = "subscription") then Some PerSubscriptionTimeSeries
  else if bool_decide (s = "handle") then Some PerHandleTimeSeries
  else if bool_decide (s = "connector_counter") then Some PerConnectorStats
  else if bool_decide (s = "query_counter") then Some PerQueryStats
  else if bool_decide (s = "view_counter") then Some PerViewStats
  else if bool_decide (s = "server_histogram") then Some ServerHistogram
  else None.

(** Intervals are minutes and percentiles hundredths: the commands of the tables
    use no others. *)
Record StatsCommand := {
  statsCategory : StatsCategory; statsName : string;
  statsIntervals : list Z; statsPercentiles : list Z;
}.

Definition digit_of (c : ascii) : option Z :=
  let n := Z.of_N (N_of_ascii c) in if (48 <=? n) && (n <=? 57) then Some (n - 48) else None.

(** [15min]. *)
Fixpoint read_minutes (s : string) (acc : Z) : option Z :=
  match s with
  | EmptyString => None
  | String c s' =>
      match digit_of c with
      | Some d => read_minutes s' (10 * acc + d)
      | None => if bool_decide (s = "min") then Some acc else None
      end
  end.

(** [0.5] or [0.75]. *)
Definition read_percentile (s : string) : option Z :=
  match s with
  | String "0" (String "." (String a EmptyString)) => (fun d => 10 * d) <$> digit_of a
  | String "0" (String "." (String a (String b EmptyString))) =>
      d ← digit_of a; e ← digit_of b; Some (10 * d + e)
  | _ => None
  end.

(** The words of a command. *)
Fixpoint words_from (cur s : string) : list string :=
  match s with
  | EmptyString => [cur]
  | String c s => if bool_decide (c = " "%char) then cur :: words_from EmptyString s
                  else words_from (cur +:+ String c EmptyString) s
  end.

Fixpoint read_options (l : list string) : option (list Z * list Z) :=
  match l with
  | [] => Some ([], [])
  | flag :: arg :: l =>
      rest ← read_options l;
      if bool_decide (flag = "--intervals" \/ flag = "-i") then
        i ← read_minutes arg 0; Some (i :: rest.1, rest.2)
      else if bool_decide (flag = "--percentiles" \/ flag = "-p") then
        p ← read_percentile arg; Some (rest.1, p :: rest.2)
      else None
  | _ => None
  end.

(** [statsCmdParser], with its defaults. *)
Definition parse_stats (cmd : string) : option StatsCommand :=
  match words_from EmptyString cmd with
  | server :: stats :: cat :: name :: options =>
      if bool_decide (server = "server" /\ stats = "stats") then
        cat ← read_category cat;
        opts ← read_options options;
        Some {| statsCategory := cat; statsName := name;
                statsIntervals := match opts.1 with [] => [1; 5; 10] | l => l end;
                statsPercentiles := match opts.2 with [] => [50; 75; 95; 99] | l => l end |}
      else None
  | _ => None
  end.

Section server.
Context (chrono_string : Z -> string) (clock : nat -> Z) (percentile : Z -> double).

(** [doStats]; [None]: no table is returned. *)
Definition doStats (x : per_x) (label name : string) (h : StatsHolder) : option (list string) :=
  match stat_getall x name (Some h) with
  | Some (Some _) => Some [label; name]
  | _ => None
  end.

(** [doTimeSeries] over [stream_time_series_getall], which checks the intervals
    before it collects; how Haskell reads the vectors is not part of it (see
    [hs_time_series_getall] in Foreign). *)
Definition doTimeSeries (x : per_x) (label name : string) (intervals : list Z) (h : StatsHolder)
    : option (list string) :=
  let ms := (fun i => i * 60000) <$> intervals in
  match verify_intervals chrono_string x h name ms with
  | Some (true, _) =>
      match (time_series_getall_by_name clock x name ms h).2 with
      | Some _ => Some (label :: ((fun i => name +:+ "_" +:+ pretty i +:+ "min") <$> intervals))
      | None => None
      end
  | _ => None
  end.

Definition doServerHistogram (name : string) (percentiles : list Z) (h : StatsHolder)
    : option (list string) :=
  match server_histogram_estimatePercentiles name (percentile <$> percentiles) (Some h) with
  | Some (Some _) => Some ((fun p => "p" +:+ pretty p) <$> percentiles)
  | _ => None
  end.

(** [runStats]: the headers of the table that is returned. *)
Definition runStats (h : StatsHolder) (c : StatsCommand) : option (list string) :=
  match statsCategory c with
  | PerStreamStats => doStats per_stream "stream_name" (statsName c) h
  | PerStreamTimeSeries => doTimeSeries per_stream "stream_name" (statsName c) (statsIntervals c) h
  | PerSubscriptionStats => doStats per_subscription "subscription_id" (statsName c) h
  | PerSubscriptionTimeSeries =>
      doTimeSeries per_subscription "subscription_id" (statsName c) (statsIntervals c) h
  | PerHandleTimeSeries => doTimeSeries per_handle "handle_name" (statsName c) (statsIntervals c) h
  | PerConnectorStats => doStats per_connector "task_name" (statsName c) h
  | PerQueryStats => doStats per_query "query_name" (statsName c) h
  | PerViewStats => doStats per_view "view_name" (statsName c) h
  | ServerHistogram => doServerHistogram (statsName c) (statsPercentiles c) h
  end.

(** ** Proofs *)

(** The registered tables are well formed: their names are distinct; in each
    the node id and the columns have distinct names; and every column's name is
    its own normalised form, so that the header of a reply can match it. *)
Theorem tables_well_formed :
  NoDup (getName <$> registerTables) /\
  Forall (fun t =>
    NoDup (AdminTable.getColumnsImpl (getFetchableColumns t)).*1 /\
    Forall (fun c => NameNormalizer.normalize_string c.1 = c.1) (getFetchableColumns t))
    registerTables.
Proof.
  split; [apply (bool_decide_unpack _); by vm_compute|].
  repeat constructor; try (by vm_compute); apply (bool_decide_unpack _); by vm_compute.
Qed.

(** The tables of statistics the servers have. *)
Definition stats_tables : list table_def :=
  [AppendFailedCounter; AppendThroughput; AppendTotalCounter; ServerAppendLatency;
   ServerAppendRequestLatency; SubscriptionThroughput].

Lemma doStats_found x label name h i :
  wf_holder h -> x <> per_handle -> setPerStatsMember x name = Some i ->
  doStats x label name h = Some [label; name].
Proof.
  intros Hwf Hx Hm. pose proof (stat_getall_total x name h Hwf Hx) as Hs. rewrite Hm in Hs.
  destruct Hs as (keys & vals & E & _). unfold doStats. by rewrite E.
Qed.

Lemma doTimeSeries_found x label name intervals h b j :
  params_ h = setIsServer new_StatsParams b -> setPerTimeSeriesMember x name = Some j ->
  Forall (fun i => i <= 10) intervals ->
  doTimeSeries x label name intervals h =
    Some (label :: ((fun i => name +:+ "_" +:+ pretty i +:+ "min") <$> intervals)).
Proof.
  intros Hp Hm Hi. unfold doTimeSeries, verify_intervals. rewrite Hp, maxStatsInterval_default, Hm.
  cbn [mbind option_bind].
  destruct (verify_loop_spec chrono_string 600000 ((fun i => i * 60000) <$> intervals)) as [Hv _].
  destruct (verify_loop _ _ _) as [ok err]. simpl in Hv. assert (ok = true) as ->.
  { apply Hv, Forall_fmap. eapply Forall_impl; [exact Hi|]. simpl. lia. }
  unfold time_series_getall_by_name, perXTimeSeriesGetall. rewrite Hm.
  by destruct (runForEach _ _ _) as [h' [output n]].
Qed.

Lemma doServerHistogram_found name ps h i :
  wf_holder h -> is_server (params_ h) = true -> server_histogram_names !! i = Some name ->
  doServerHistogram name ps h = Some ((fun p => "p" +:+ pretty p) <$> ps).
Proof.
  intros Hwf Hs Hn. pose proof Hn as Hf. apply bundle_find_spec in Hf; [|apply server_histogram_names_NoDup].
  unfold doServerHistogram, server_histogram_estimatePercentiles, find_histogram.
  destruct (aggregate_nonew_sum h Hwf) as (s & -> & (_ & Hw & _) & _). cbn [mbind option_bind].
  unfold wf_hists in Hw. rewrite Hs in Hw. destruct Hw as (bs & -> & Hl). rewrite Hf.
  cbn [mbind option_bind].
  destruct (lookup_lt_is_Some_2 bs i) as [g Hg]; [rewrite Hl; by eapply lookup_lt_Some|].
  unfold ServerHistograms in *. by rewrite Hg.
Qed.

(** The server's answer to the command of a table: its headers are the columns. *)
Lemma answered_headers t h :
  t ∈ stats_tables -> wf_holder h -> params_ h = setIsServer new_StatsParams true ->
  parse_stats (command t) ≫= runStats h = Some (getFetchableColumns t).*1.
Proof.
  intros Ht Hwf Hp. assert (is_server (params_ h) = true) as Hs by by rewrite Hp.
  unfold stats_tables in Ht. rewrite !elem_of_cons, elem_of_nil in Ht.
  destruct Ht as [->|[->|[->|[->|[->|[->|[]]]]]]]; unfold mbind, option_bind;
    (match goal with |- context [parse_stats ?c] => set (p := parse_stats c); vm_compute in p; subst p end);
    cbv beta iota; unfold runStats; cbn [statsCategory statsName statsIntervals statsPercentiles].
  - by rewrite (doStats_found _ _ _ _ 1 Hwf) by done.
  - rewrite (doTimeSeries_found _ _ _ _ _ true 0 Hp) by first [done | repeat constructor; lia]. by vm_compute.
  - by rewrite (doStats_found _ _ _ _ 0 Hwf) by done.
  - rewrite (doServerHistogram_found _ _ _ 1 Hwf) by done. by vm_compute.
  - rewrite (doServerHistogram_found _ _ _ 0 Hwf) by done. by vm_compute.
  - rewrite (doTimeSeries_found _ _ _ _ _ true 0 Hp) by first [done | repeat constructor; lia]. by vm_compute.
Qed.

Lemma header_columns (cols : list (string * DataType)) :
  NoDup cols.*1 -> Forall (fun c => NameNormalizer.normalize_string c.1 = c.1) cols ->
  AdminTableData.header_column cols <$> cols.*1 = Some <$> cols.
Proof.
  intros Hnd Hn. rewrite <- list_fmap_compose. apply list_fmap_ext. intros i [name ty] Hi.
  rewrite Forall_forall in Hn. pose proof (Hn _ (list_elem_of_lookup_2 _ _ _ Hi)) as En. simpl in *.
  unfold AdminTableData.header_column. rewrite En.
  destruct (list_find _ cols) as [[k c]|] eqn:F.
  - apply list_find_Some in F as (Hk & Hc & _). simpl. assert (k = i) as ->; [|congruence].
    eapply (NoDup_lookup _ _ _ name Hnd); rewrite list_lookup_fmap, ?Hk, ?Hi; simpl; congruence.
  - apply list_find_None in F. rewrite Forall_forall in F.
    by destruct (F _ (list_elem_of_lookup_2 _ _ _ Hi)).
Qed.

Lemma known_some (cols : list (string * DataType)) : AdminTableData.known (Some <$> cols) = cols.*1.
Proof.
  unfold AdminTableData.known. induction cols as [|c cols IH]; [done|]. csimpl. by rewrite IH.
Qed.

Lemma string_row_ok (cols : list (string * DataType)) (row : list string) :
  length row = length cols -> AdminTableData.row_ok (Some <$> cols) (JSON_STRING <$> row).
Proof.
  intros Hl. split; [by rewrite !length_fmap|]. unfold AdminTableData.row_cells.
  apply Forall_forall. intros [name x] ([o v] & Hin & E)%list_elem_of_omap.
  apply elem_of_zip_r in Hin as Hv. apply list_elem_of_fmap in Hv as (w & -> & _).
  destruct o as [[n ty]|]; [|done]. simpl in E. injection E as _ <-. eauto.
Qed.

(** The parts fit: for every table of statistics but the one on reads, the
    server understands the command the table sends, knows the statistic and the
    intervals or percentiles it names, and answers with headers under which the
    client fills every column of the table, in order and for all rows. *)
Theorem stats_tables_filled t h json rows :
  t ∈ stats_tables -> wf_holder h -> params_ h = setIsServer new_StatsParams true ->
  exists headers, parse_stats (command t) ≫= runStats h = Some headers /\
    (AdminTableData.table_reply json headers (fmap JSON_STRING <$> rows) ->
     Forall (fun row => length row = length headers) rows ->
     exists td, AdminTableData.jsonToTableData (getFetchableColumns t)
         (AdminTableData.init (getFetchableColumns t)) json = Ok (AdminTableData.Success td) /\
       rectangular (length rows) td /\
       (forall name, is_Some (td !! name) <-> name ∈ (getFetchableColumns t).*1) /\
       forall c name ty, getFetchableColumns t !! c = Some (name, ty) ->
         td !! name = Some ((fun row => preprocessColumn ty (row !! c)) <$> rows)).
Proof.
  intros Ht Hwf Hp. exists (getFetchableColumns t).*1. split; [by apply answered_headers|].
  intros Hj Hr. set (cols := getFetchableColumns t) in *.
  assert (NoDup cols.*1 /\ Forall (fun c => NameNormalizer.normalize_string c.1 = c.1) cols)
    as [Hnd Hn].
  { unfold cols. clear -Ht. unfold stats_tables in Ht. rewrite !elem_of_cons, elem_of_nil in Ht.
    destruct Ht as [->|[->|[->|[->|[->|[->|[]]]]]]]; split;
      [apply (bool_decide_unpack _); by vm_compute|repeat constructor; by vm_compute|..].
    all: try (apply (bool_decide_unpack _); by vm_compute). all: repeat constructor; by vm_compute. }
  pose proof (header_columns cols Hnd Hn) as Ec.
  destruct (AdminTableData.table_reply_read cols json cols.*1 (fmap JSON_STRING <$> rows) Hj Hnd)
    as (td & E & Hrect & Hdom & Hcol).
  - by rewrite Ec, known_some.
  - rewrite Ec. apply Forall_fmap. eapply Forall_impl; [exact Hr|]. intros row Hl. simpl.
    apply string_row_ok. by rewrite Hl, length_fmap.
  - exists td. rewrite length_fmap in Hrect. rewrite Ec, known_some in Hdom. split_and!; [done..|].
    intros c name ty Hc. rewrite (Hcol c name name ty).
    + f_equal. clear -Hr Hc. rewrite Forall_forall in Hr.
      assert (c < length cols)%nat as Hlt by by eapply lookup_lt_Some.
      induction rows as [|row rows IH]; [done|]. csimpl.
      destruct (lookup_lt_is_Some_2 row c) as [v Hv].
      { rewrite (Hr row) by (by left). by rewrite length_fmap. }
      rewrite list_lookup_fmap, Hv. simpl. f_equal. apply IH. intros; apply Hr. by right.
    + by rewrite list_lookup_fmap, Hc.
    + apply (f_equal (fun l => l !! c)) in Ec. rewrite !list_lookup_fmap, Hc in Ec. simpl in Ec.
      by injection Ec.
Qed.

(** The table of read throughputs is never filled: the server has no series
    of reads, and every interval the table asks for is longer than the longest
    it keeps. *)
Theorem read_throughput_unanswered h b :
  params_ h = setIsServer new_StatsParams b ->
  parse_stats (command ReadThroughput) ≫= runStats h = None /\
  forall x j name ms, setPerTimeSeriesMember x name = Some j ->
    ms ∈ [15; 30; 60] -> doTimeSeries x "stream_name" name [ms] h = None.
Proof.
  intros Hp. split.
  - unfold mbind, option_bind.
    match goal with |- context [parse_stats ?c] => set (p := parse_stats c); vm_compute in p; subst p end.
    cbv beta iota. unfold runStats. cbn [statsCategory statsName statsIntervals].
    unfold doTimeSeries, time_series_getall_by_name, perXTimeSeriesGetall.
    assert (setPerTimeSeriesMember per_stream "reads" = None) as -> by by vm_compute. simpl.
    by destruct (verify_intervals _ _ _ _ _) as [[[] ?]|].
  - intros x j name ms Hm Hms. unfold doTimeSeries, verify_intervals.
    rewrite Hp, maxStatsInterval_default, Hm. cbn [mbind option_bind fmap list_fmap verify_loop].
    replace (600000 <? ms * 60000) with true; [done|]. symmetry. apply Z.ltb_lt. set_unfold. lia.
Qed.
End server.
End tables.
End AdminTables.

(** ** A table and its reply *)

Module AdminTablesWitness.
Import AdminTables AdminTableDataWitness StatsHolderWitness StatsWitness.

Definition text : @DataType test_Ldquery := tt.

Definition total_reply : JsonValue :=
  JSON_OBJECT [("type", JSON_STRING "table");
    ("content", JSON_OBJECT
      [("headers", JSON_ARRAY [JSON_STRING "stream_name"; JSON_STRING "append_total"]);
       ("rows", JSON_ARRAY [JSON_ARRAY [JSON_STRING "s1"; JSON_STRING "12"]])])].

Instance total_Gason : Gason := {| jsonParse _ := Some total_reply |}.

Lemma stats_tables_filled_witness :
  exists td, AdminTableData.jsonToTableData (getFetchableColumns (AppendTotalCounter text text))
      (AdminTableData.init (getFetchableColumns (AppendTotalCounter text text))) "reply" =
      Ok (AdminTableData.Success td) /\
    td !! "append_total" = Some [Some "12"].
Proof.
  destruct (stats_tables_filled text text (fun _ => "x") (fun _ => 0) (fun _ => d_zero)
    (AppendTotalCounter text text) two_threads "reply" [["s1"; "12"]]) as (headers & Eh & Hf).
  - right. right. left.
  - apply two_threads_ok.
  - reflexivity.
  - assert (headers = ["stream_name"; "append_total"]) as ->.
    { injection Eh as <-. reflexivity. }
    destruct Hf as (td & E & _ & _ & Hc).
    + eexists _, _. split; [reflexivity|]. split; [reflexivity|]. split; reflexivity.
    + by repeat constructor.
    + exists td. split; [exact E|]. exact (Hc 1%nat "append_total" text eq_refl).
Defined.

Lemma read_throughput_unanswered_witness :
  parse_stats (command (ReadThroughput text text)) ≫=
    runStats (fun _ => "x") (fun _ => 0) (fun _ => d_zero) two_threads = None.
Proof.
  apply (read_throughput_unanswered text text (fun _ => "x") (fun _ => 0) (fun _ => d_zero) two_threads true).
  reflexivity.
Defined.
End AdminTablesWitness.
