(* ===== verification/QueryFront.v ===== *)
(** * The query front ends (src/common/hstream/cbits/query.cpp and
    src/hstream-store/cbits/logdevice/hs_ldquery.cpp)

    The functions through which Haskell lists tables and columns, runs an SQL
    query on ldquery and reads the results; and the reader of the results
    (src/common/hstream/HStream/Common/Query.hs). The second file repeats the
    first for another class, with one exception less. *)

From stdpp Require Import base gmap strings list.
From Stdlib Require Import ZArith Lia.
From S2P Require Import Prelude.

(** ldquery's descriptions of tables and columns; [c_type] is what
    [type_as_string] returns. *)
Record TableColumn := { c_name : string; c_type : string; c_description : string }.
Record TableMetadata := {
  t_name : string; t_description : string; t_columns : list TableColumn;
}.

Record FailedNodeDetails := { f_address : string; f_failure_reason : string }.
Record ActiveQueryMetadata := {
  m_contacted_nodes : Z; m_latency : Z; m_failures : gmap Z FailedNodeDetails;
}.
Record QueryResult := {
  q_headers : list string; q_rows : list (list string); q_cols_max_size : list Z;
  q_metadata : ActiveQueryMetadata;
}.

Module QueryFront.

(** A vector handed to Haskell: [None] when its pointer is not written. *)
Notation vec A := (option (list A)).

(** ** Tables and columns *)

Definition query_show_tables (tables : list TableMetadata) : Z * vec string * vec string :=
  if bool_decide (tables = []) then (0, None, None)
  else
    let '(tables_name, tables_description) :=
      foldl (fun vs table => (vs.1 ++ [t_name table], vs.2 ++ [t_description table])) ([], [])
        tables in
    (Z.of_nat (length tables_name), Some tables_name, Some tables_description).

Definition query_show_table_columns (tables : list TableMetadata) (table_name : string)
    : Z * vec string * vec string * vec string :=
  match list_find (fun table => t_name table = table_name) tables with
  | Some (_, result) =>
      let '(cols_name, cols_type, cols_desc) :=
        foldl (fun vs col => (vs.1.1 ++ [c_name col], vs.1.2 ++ [c_type col],
                              vs.2 ++ [c_description col])) ([], [], []) (t_columns result) in
      (Z.of_nat (length cols_name), Some cols_name, Some cols_type, Some cols_desc)
  | None => (0, None, None, None)
  end.

(** ** Queries *)

(** How [ldq->query(query)] ends. *)
Inductive query_end :=
| Results (rs : list QueryResult)
| ToHsException (what : string)
| LDQueryError (what : string)
| OtherException.

(** [results_len], [results_val] and [exinfo]. *)
Record query_out := {
  results_len : Z; results_val : vec QueryResult; exinfo : option string;
}.

Definition returned (rs : list QueryResult) : query_out :=
  if bool_decide (rs = []) then {| results_len := 0; results_val := None; exinfo := None |}
  else {| results_len := Z.of_nat (length rs); results_val := Some rs; exinfo := None |}.

Definition failed (what : string) : query_out :=
  {| results_len := 0; results_val := None; exinfo := Some what |}.

(** [None]: the exception leaves the function, and the program. *)
Definition run_query (q : query_end) : option query_out :=
  match q with
  | Results rs => Some (returned rs)
  | ToHsException what => Some (failed what)
  | LDQueryError what => Some (failed what)
  | OtherException => None
  end.

Definition ldquery_query (q : query_end) : option query_out :=
  match q with
  | Results rs => Some (returned rs)
  | LDQueryError what => Some (failed what)
  | ToHsException _ | OtherException => None
  end.

(** ** Results *)

(** The bound is not checked: [None] outside. *)
Definition queryResults__headers (datas : list QueryResult) (index : nat) : option (Z * list string) :=
  data ← datas !! index; Some (Z.of_nat (length (q_headers data)), q_headers data).
Definition queryResults__cols_max_size (datas : list QueryResult) (index : nat)
    : option (Z * list Z) :=
  data ← datas !! index; Some (Z.of_nat (length (q_cols_max_size data)), q_cols_max_size data).
Definition queryResults__rows_len (datas : list QueryResult) (index : nat) : option Z :=
  data ← datas !! index; Some (Z.of_nat (length (q_rows data))).
Definition queryResults__rows_val (datas : list QueryResult) (index row : nat)
    : option (Z * list string) :=
  data ← datas !! index; r ← q_rows data !! row; Some (Z.of_nat (length r), r).
Definition queryResults__metadata_contacted_nodes (datas : list QueryResult) (index : nat) :=
  data ← datas !! index; Some (m_contacted_nodes (q_metadata data)).
Definition queryResults__metadata_latency (datas : list QueryResult) (index : nat) :=
  data ← datas !! index; Some (m_latency (q_metadata data)).

Section failures.
Context `{O : !IterOrder Z}.

Definition queryResults__metadata_failures (datas : list QueryResult) (index : nat)
    : option (Z * vec Z * vec string * vec string) :=
  data ← datas !! index;
  let failures := m_failures (q_metadata data) in
  Some
    (if bool_decide (failures = ∅) then (0, None, None, None)
     else
       let '(key, address, failure_reason) :=
         foldl (fun vs kv => (vs.1.1 ++ [kv.1], vs.1.2 ++ [f_address kv.2],
                              vs.2 ++ [f_failure_reason kv.2])) ([], [], []) (iter_list failures) in
       (Z.of_nat (size failures), Some key, Some address, Some failure_reason)).

(** ** The Haskell side *)

(** [forM [0..n-1]]. *)
Definition forM {A} (n : Z) (f : nat -> option A) : option (list A) :=
  mapM f (seq 0 (Z.to_nat n)).

(** [peekN len val]: the first [len] elements of a vector. *)
Definition peekN {A} (len : Z) (v : vec A) : option (list A) :=
  if 1 <=? len then
    l ← v; if len <=? Z.of_nat (length l) then Some (take (Z.to_nat len) l) else None
  else Some [].

Definition queryResultHeaders (results : list QueryResult) (idx : nat) : option (list string) :=
  '(len, val) ← queryResults__headers results idx; peekN len (Some val).

Definition queryResultRows (results : list QueryResult) (idx : nat) : option (list (list string)) :=
  n ← queryResults__rows_len results idx;
  forM n (fun row => '(len, val) ← queryResults__rows_val results idx row; peekN len (Some val)).

Definition queryResultColsMaxSize (results : list QueryResult) (idx : nat) : option (list Z) :=
  '(len, val) ← queryResults__cols_max_size results idx; peekN len (Some val).

Definition queryResultMetadata (results : list QueryResult) (idx : nat)
    : option ActiveQueryMetadata :=
  contacted_nodes ← queryResults__metadata_contacted_nodes results idx;
  latency ← queryResults__metadata_latency results idx;
  '(len, key_val, addr_val, reason_val) ← queryResults__metadata_failures results idx;
  failures ← (if 1 <=? len then
      keys ← peekN len key_val;
      addrs ← peekN len addr_val;
      reasons ← peekN len reason_val;
      Some (list_to_map (zip keys (zip_with Build_FailedNodeDetails addrs reasons)))
    else Some ∅);
  Some {| m_contacted_nodes := contacted_nodes; m_latency := latency; m_failures := failures |}.

(** [execStatement]: the results, or the description of the error. [results_ptr]
    is null when it was not written; it is not used then. *)
Definition execStatement (out : query_out) : option (string + list QueryResult) :=
  match exinfo out with
  | Some desc => Some (inl desc)
  | None =>
      if 1 <=? results_len out then
        results ← results_val out;
        inr <$> forM (results_len out) (fun i =>
          headers ← queryResultHeaders results i;
          rows ← queryResultRows results i;
          sizes ← queryResultColsMaxSize results i;
          metadata ← queryResultMetadata results i;
          Some {| q_headers := headers; q_rows := rows; q_cols_max_size := sizes;
                  q_metadata := metadata |})
      else Some (inr [])
  end.

(** ** Proofs *)

Lemma peekN_all {A} (l : list A) : peekN (Z.of_nat (length l)) (Some l) = Some l.
Proof.
  unfold peekN. destruct (Z.leb_spec 1 (Z.of_nat (length l))); simpl.
  - rewrite Z.leb_refl, Nat2Z.id. by rewrite firstn_all.
  - destruct l; [done|simpl in *; lia].
Qed.

(** Reading all elements of a list one after another. *)
Lemma forM_all {A B} (f : nat -> option B) (l : list B) (n : list A) :
  length n = length l -> (forall i x, l !! i = Some x -> f i = Some x) ->
  forM (Z.of_nat (length n)) f = Some l.
Proof.
  intros Hn Hf. unfold forM. rewrite Nat2Z.id, Hn. apply mapM_Some_2.
  apply Forall2_same_length_lookup_2; [by rewrite length_seq|].
  intros i y x [-> Hi]%lookup_seq Hx. by apply Hf.
Qed.

Lemma foldl_unzip3 {A B C D} (f : A -> B) (g : A -> C) (h : A -> D) (l : list A) bs cs ds :
  foldl (fun vs x => (vs.1.1 ++ [f x], vs.1.2 ++ [g x], vs.2 ++ [h x])) (bs, cs, ds) l =
  (bs ++ (f <$> l), cs ++ (g <$> l), ds ++ (h <$> l)).
Proof.
  revert bs cs ds. induction l as [|x l IH]; intros bs cs ds; simpl; [by rewrite !app_nil_r|].
  by rewrite IH, <- !app_assoc.
Qed.

Lemma read_failures datas i d :
  datas !! i = Some d -> queryResultMetadata datas i = Some (q_metadata d).
Proof.
  intros Hd. unfold queryResultMetadata, queryResults__metadata_contacted_nodes,
    queryResults__metadata_latency, queryResults__metadata_failures. rewrite Hd. simpl.
  case_bool_decide as He.
  - simpl. destruct (q_metadata d) as [c l fs]. simpl in *. by subst fs.
  - rewrite foldl_unzip3. simpl. set (m := m_failures (q_metadata d)) in *.
    destruct (Z.leb_spec 1 (Z.of_nat (size m))) as [Hs|Hs].
    2: { destruct He. apply map_size_empty_inv. lia. }
    assert (forall B (f : Z * FailedNodeDetails -> B),
      peekN (Z.of_nat (size m)) (Some (f <$> iter_list m)) = Some (f <$> iter_list m)) as Hp.
    { intros B f. rewrite <- (length_iter_list m), <- (length_fmap f). apply peekN_all. }
    rewrite !Hp. simpl. destruct (q_metadata d) as [c l fs]. do 2 f_equal. simpl in m.
    etrans; [|exact (iter_list_to_map m)]. f_equal.
    clear Hp. induction (iter_list m) as [|[k [a r]] es IH]; [done|]. simpl. f_equal. exact IH.
Qed.

(** A query's results reach Haskell unchanged: reading the vectors of the
    results gives back every result with its headers, rows, column widths and
    metadata, the failures of nodes included; no result gives the empty list.
    An error of ldquery or of the admin tables reaches Haskell as its text; any
    other exception ends the program. *)
Theorem query_roundtrip (q : query_end) :
  run_query q ≫= execStatement =
  match q with
  | Results rs => Some (inr rs)
  | ToHsException what | LDQueryError what => Some (inl what)
  | OtherException => None
  end.
Proof.
  destruct q as [rs| | |]; try done. simpl. unfold execStatement, returned.
  case_bool_decide as He; [by subst|]. cbn [exinfo results_len results_val].
  destruct (Z.leb_spec 1 (Z.of_nat (length rs))); [|destruct rs; [done|simpl in *; lia]].
  cbn [mbind option_bind]. rewrite (forM_all _ rs rs); [done|done|].
  intros i d Hd. unfold queryResultHeaders, queryResultRows, queryResultColsMaxSize,
    queryResults__headers, queryResults__rows_len, queryResults__cols_max_size.
  rewrite (read_failures rs i d Hd), Hd. cbn [mbind option_bind]. rewrite !peekN_all. simpl.
  rewrite (forM_all _ (q_rows d) (q_rows d)); [by destruct d|done|].
  intros j r Hj. unfold queryResults__rows_val. rewrite Hd. simpl. rewrite Hj. simpl. apply peekN_all.
Qed.
End failures.

(** ** The copies in hs_ldquery.cpp *)

Definition ldquery_show_tables := query_show_tables.
Definition ldquery_show_table_columns := query_show_table_columns.
Definition queryResults__headers_ := queryResults__headers.
Definition queryResults__cols_max_size_ := queryResults__cols_max_size.
Definition queryResults_rows_len := queryResults__rows_len.
Definition queryResults_rows_val := queryResults__rows_val.
Definition queryResults__metadata_contacted_nodes_ := queryResults__metadata_contacted_nodes.
Definition queryResults__metadata_latency_ := queryResults__metadata_latency.
Definition queryResults__metadata_failures_ `{!IterOrder Z} := queryResults__metadata_failures.

(** [ldquery_query] lets the exception of the admin tables pass. *)
Lemma ldquery_query_same q :
  ldquery_query q = match q with ToHsException _ => None | _ => run_query q end.
Proof. by destruct q. Qed.

(** The columns listed for a table are those of the first table of that name,
    column by column, with their types and descriptions; a name that no table
    has gives an empty list, and so does the list of no tables. *)
Theorem columns_listed tables name :
  (forall i t, tables !! i = Some t -> t_name t = name ->
     (forall j t', (j < i)%nat -> tables !! j = Some t' -> t_name t' <> name) ->
     query_show_table_columns tables name =
       (Z.of_nat (length (t_columns t)), Some (c_name <$> t_columns t),
        Some (c_type <$> t_columns t), Some (c_description <$> t_columns t))) /\
  (Forall (fun t => t_name t <> name) tables ->
     query_show_table_columns tables name = (0, None, None, None)) /\
  (tables <> [] -> query_show_tables tables =
     (Z.of_nat (length tables), Some (t_name <$> tables), Some (t_description <$> tables))).
Proof.
  unfold query_show_table_columns, query_show_tables. split_and!.
  - intros i t Hi Ht Hj.
    assert (list_find (fun table => t_name table = name) tables = Some (i, t)) as ->.
    { apply list_find_Some. split_and!; [done..|]. intros j t' Hj' Hlt. by eapply Hj. }
    rewrite foldl_unzip3. simpl. by rewrite length_fmap.
  - intros Hn. by rewrite (proj2 (list_find_None _ tables) Hn).
  - intros Hne. rewrite bool_decide_eq_false_2 by done.
    assert (forall l ns ds,
      foldl (fun vs table => (vs.1 ++ [t_name table], vs.2 ++ [t_description table])) (ns, ds) l =
      (ns ++ (t_name <$> l), ds ++ (t_description <$> l))) as Hf.
    { induction l as [|t l IH]; intros ns ds; simpl; [by rewrite !app_nil_r|].
      by rewrite IH, <- !app_assoc. }
    rewrite Hf. simpl. by rewrite length_fmap.
Qed.
End QueryFront.
