(* ===== verification/CheckpointedReader.v ===== *)
(** * Checkpointed readers (src/hstream-store/cbits/logdevice/hs_reader.cpp)

    The functions that start, configure and stop readers and write their
    checkpoints, over LogDevice's readers; and what they give together: a
    consumer that writes the checkpoint of what it has read and starts again
    from there reads every record of its range once. *)

From stdpp Require Import base gmap list sorting.
From Stdlib Require Import ZArith Lia.
From S2P Require Import Prelude CheckpointStore Reader.
Import Reader.

(** The records with an LSN from [s] to [u]. *)
Definition in_range (s u : Z) (l : list DataRecord) : list DataRecord :=
  filter (fun r => s <= d_lsn r /\ d_lsn r <= u) l.

Definition of_log (logid : Z) (l : list DataRecord) : list DataRecord :=
  filter (fun r => d_logid r = logid) l.

(** LogDevice's readers as documented. [log_of]: the records of a log, in the
    order of their LSNs; [range_of]: the range being read; [seen]: the records of
    the log delivered since reading was started; [checkpoint]: the LSN stored for
    the reader. A status is 0 or -1 and [err]. *)
Class ReaderLib `{ReaderCodes} := {
  Rd : Type;
  log_of : Rd -> Z -> list DataRecord;
  range_of : Rd -> Z -> option (Z * Z);
  seen : Rd -> Z -> list DataRecord;
  checkpoint : Rd -> Z -> option Z;
  startReading : Rd -> Z -> Z -> Z -> Rd * Z * Z;
  startReadingFromCheckpoint : Rd -> Z -> Z -> Rd * Z * Z;
  startReadingFromCheckpointOr : Rd -> Z -> Z -> Z -> Rd * Z * Z;
  stopReading : Rd -> Z -> Rd * Z * Z;
  isReading : Rd -> Z -> bool;
  isReadingAny : Rd -> bool;
  setTimeout : Rd -> Z -> Rd * Z;
  withoutPayload : Rd -> Rd;
  includeByteOffset : Rd -> Rd;
  waitOnlyWhenNoData : Rd -> Rd;
  read : Rd -> Z -> Rd * read_result;
  writeCheckpoints : Rd -> gmap Z Z -> Rd * Z;
  writeLastReadCheckpoints : Rd -> list Z -> Rd * Z;
  removeCheckpoints : Rd -> list Z -> Rd * Z;
  removeAllCheckpoints : Rd -> Rd * Z;
  log_sorted : forall r logid, StronglySorted (fun a b => d_lsn a <= d_lsn b) (log_of r logid);
  start_err : forall r logid s u r' ret err,
    startReading r logid s u = (r', ret, err) \/ startReadingFromCheckpointOr r logid s u = (r', ret, err) ->
    ret <> 0 -> err <> E_OK;
  started : forall r logid s u r' err,
    startReading r logid s u = (r', 0, err) ->
    range_of r' logid = Some (s, u) /\ seen r' logid = [] /\
    checkpoint r' logid = checkpoint r logid /\ log_of r' logid = log_of r logid;
  started_from_checkpoint : forall r logid s u r' err,
    startReadingFromCheckpointOr r logid s u = (r', 0, err) ->
    range_of r' logid = Some (from_option Z.succ s (checkpoint r logid), u) /\ seen r' logid = [] /\
    checkpoint r' logid = checkpoint r logid /\ log_of r' logid = log_of r logid;
  read_next : forall r maxlen r' rr logid s u,
    read r maxlen = (r', rr) -> 0 <= maxlen -> range_of r logid = Some (s, u) ->
    seen r logid `prefix_of` in_range s u (log_of r logid) ->
    range_of r' logid = Some (s, u) /\ checkpoint r' logid = checkpoint r logid /\
    log_of r' logid = log_of r logid /\
    (nread rr < 0 -> err rr = E_GAP /\ seen r' logid = seen r logid) /\
    (0 <= nread rr -> nread rr = Z.of_nat (length (data rr)) /\ nread rr <= maxlen /\
       seen r' logid = seen r logid ++ of_log logid (data rr) /\
       seen r' logid `prefix_of` in_range s u (log_of r logid));
  last_read_written : forall r logids r' logid range,
    writeLastReadCheckpoints r logids = (r', E_OK) -> logid ∈ logids -> range_of r logid = Some range ->
    checkpoint r' logid =
      match last (seen r logid) with Some x => Some (d_lsn x) | None => checkpoint r logid end /\
    log_of r' logid = log_of r logid;
}.

Module CheckpointedReader.
Section reader.
Context `{L : ReaderLib}.

(** ** The functions *)

Definition START_READING (reader : Rd) (logid start until : Z) : Rd * Z :=
  let '(reader, ret, err) := startReading reader logid start until in (reader, status_of ret err).

Definition STOP_READING (reader : Rd) (logid : Z) : Rd * Z :=
  let '(reader, ret, err) := stopReading reader logid in (reader, status_of ret err).

Definition IS_READING (reader : Rd) (logid : Z) : bool := isReading reader logid.
Definition IS_READING_ANY (reader : Rd) : bool := isReadingAny reader.
Definition SET_TIMEOUT (reader : Rd) (timeout : Z) : Rd * Z := setTimeout reader timeout.
Definition WITHOUT_PAYLOAD (reader : Rd) : Rd := withoutPayload reader.
Definition INCLUDE_BYTEOFFSET (reader : Rd) : Rd := includeByteOffset reader.
Definition WAIT_ONLY_WHEN_NO_DATA (reader : Rd) : Rd := waitOnlyWhenNoData reader.

(** [READ] on a reader. *)
Definition reader_read (asserts : bool) (malloc_ok : nat -> bool) (reader : Rd) (maxlen : Z)
    (data_out : list logdevice_data_record_t) (gap_out : bool) : Rd * option (res read_out) :=
  let '(reader, rr) := read reader maxlen in (reader, READ asserts malloc_ok rr data_out gap_out).

Definition ld_checkpointed_reader_start_reading_from_ckp (reader : Rd) (logid until : Z) : Rd * Z :=
  let '(reader, ret, err) := startReadingFromCheckpoint reader logid until in
  (reader, status_of ret err).

Definition ld_start_reading_from_ckp_or_start (reader : Rd) (logid start until : Z) : Rd * Z :=
  let '(reader, ret, err) := startReadingFromCheckpointOr reader logid start until in
  (reader, status_of ret err).

(** The lambda of the functions below on the cell of [st_out]; each also wakes
    the Haskell thread up. *)
Definition crb_cb (st : Z) (st_out : option Z) : option Z := (fun _ => st) <$> st_out.

Definition crb_write (reader : Rd) (logids lsns : list Z) (len : nat) (st_out : option Z)
    : option (Rd * option Z) :=
  checkpoints ← crb_write_checkpoints logids lsns len;
  let '(reader, st) := writeCheckpoints reader checkpoints in
  Some (reader, crb_cb st st_out).

Definition crb_write_last_read_checkpoints (reader : Rd) (logids : list Z) (len : nat)
    (st_out : option Z) : option (Rd * option Z) :=
  ids ← crb_logids logids len;
  let '(reader, st) := writeLastReadCheckpoints reader ids in
  Some (reader, crb_cb st st_out).

Definition crb_asyncRemoveCheckpoints (reader : Rd) (logids : list Z) (len : nat)
    (st_out : option Z) : option (Rd * option Z) :=
  ids ← crb_logids logids len;
  let '(reader, st) := removeCheckpoints reader ids in
  Some (reader, crb_cb st st_out).

Definition crb_asyncRemoveAllCheckpoints (reader : Rd) (st_out : option Z) : Rd * option Z :=
  let '(reader, st) := removeAllCheckpoints reader in (reader, crb_cb st st_out).

Definition sync_write_checkpoints (reader : Rd) (logids lsns : list Z) (len : nat)
    : option (Rd * Z) :=
  checkpoints ← crb_write_checkpoints logids lsns len; Some (writeCheckpoints reader checkpoints).

Definition sync_write_last_read_checkpoints (reader : Rd) (logids : list Z) (len : nat)
    : option (Rd * Z) :=
  ids ← crb_logids logids len; Some (writeLastReadCheckpoints reader ids).

(** ** A consumer *)

(** Reads with an array of [maxlen] cells each, and a place for a gap; the
    records returned are collected. *)
Fixpoint consume (cell : logdevice_data_record_t) (maxlens : list nat) (reader : Rd)
    (got : list logdevice_data_record_t) : option (Rd * list logdevice_data_record_t) :=
  match maxlens with
  | [] => Some (reader, got)
  | maxlen :: maxlens =>
      let '(reader, out) := reader_read true (fun _ => true) reader (Z.of_nat maxlen)
                              (replicate maxlen cell) true in
      match out with
      | Some (Ok o) => consume cell maxlens reader (got ++ take (Z.to_nat (o_len o)) (o_data o))
      | _ => None
      end
  end.

(** ** Proofs *)

(** The records of a log among those collected. *)
Definition got_of (logid0 : Z) (got : list logdevice_data_record_t) :=
  filter (fun r => logid r = logid0) got.

Lemma got_of_delivered logid0 l : got_of logid0 (delivered <$> l) = delivered <$> of_log logid0 l.
Proof.
  induction l as [|r l IH]; [done|]. unfold got_of, of_log in *. csimpl. rewrite !filter_cons.
  simpl. destruct (decide (d_logid r = logid0)); csimpl; by rewrite IH.
Qed.

(** What is collected is what LogDevice delivered, in order. *)
Lemma consume_seen cell maxlens reader got logid0 s u :
  range_of reader logid0 = Some (s, u) ->
  seen reader logid0 `prefix_of` in_range s u (log_of reader logid0) ->
  exists reader' got', consume cell maxlens reader got = Some (reader', got ++ got') /\
    range_of reader' logid0 = Some (s, u) /\ checkpoint reader' logid0 = checkpoint reader logid0 /\
    log_of reader' logid0 = log_of reader logid0 /\
    delivered <$> seen reader' logid0 = (delivered <$> seen reader logid0) ++ got_of logid0 got' /\
    seen reader' logid0 `prefix_of` in_range s u (log_of reader logid0).
Proof.
  revert reader got. induction maxlens as [|n ns IH]; intros reader got Hr Hp; cbn [consume].
  { exists reader, []. rewrite app_nil_r. unfold got_of. simpl. by rewrite app_nil_r. }
  unfold reader_read. destruct (read reader (Z.of_nat n)) as [r1 rr] eqn:E.
  destruct (read_next _ _ _ _ _ _ _ E ltac:(lia) Hr Hp) as (Hr1 & Hc1 & Hl1 & Hneg & Hpos).
  destruct (Z.ltb_spec (nread rr) 0) as [Hlt|Hge].
  - destruct (Hneg Hlt) as [He Hs]. unfold READ. rewrite (proj2 (Z.leb_gt _ _)) by done.
    rewrite He, Z.eqb_refl. cbn [negb andb o_len o_data].
    rewrite Z2Nat.nonpos, take_0, app_nil_r by lia. rewrite <- Hs, <- Hc1, <- Hl1.
    apply IH; [done|]. by rewrite Hs, Hl1.
  - destruct (Hpos Hge) as (Hn & Hm & Hs & Hpre).
    rewrite READ_records; [|done|rewrite length_replicate; lia|done|done].
    cbn [o_len o_data]. rewrite Nat2Z.id, take_app_length' by (by rewrite length_fmap).
    destruct (IH r1 (got ++ (delivered <$> data rr)) Hr1) as (r' & got' & Ec & Hr' & Hc' & Hl' & Hs' & Hp').
    { by rewrite Hl1. }
    exists r', ((delivered <$> data rr) ++ got'). rewrite Ec, app_assoc.
    split_and!; [done|done|by rewrite Hc', Hc1|by rewrite Hl', Hl1| |by rewrite <- Hl1].
    rewrite Hs', Hs, fmap_app, <- app_assoc. f_equal. unfold got_of at 2.
    rewrite filter_app. f_equal. by rewrite <- got_of_delivered.
Qed.

Lemma sorted_last_le (p : list DataRecord) x :
  StronglySorted (fun a b => d_lsn a <= d_lsn b) p -> last p = Some x ->
  Forall (fun r => d_lsn r <= d_lsn x) p.
Proof.
  intros Hs (p' & ->)%last_Some. apply Forall_app. split; [|by repeat constructor].
  apply Forall_forall. intros r Hr. induction p' as [|y p' IH]; [by apply elem_of_nil in Hr|].
  simpl in Hs. apply StronglySorted_inv in Hs as [Hs Hy]. apply elem_of_cons in Hr as [->|Hr]; [|auto].
  rewrite Forall_forall in Hy. apply Hy. set_solver.
Qed.

Lemma StronglySorted_app_l {A} (R : relation A) (l k : list A) :
  StronglySorted R (l ++ k) -> StronglySorted R l.
Proof.
  induction l as [|x l IH]; intros Hs; [constructor|]. simpl in Hs.
  apply StronglySorted_inv in Hs as [Hs Hx]. constructor; [auto|]. by apply Forall_app in Hx as [? _].
Qed.

Lemma StronglySorted_filter {A} (R : relation A) (P : A -> Prop) `{!forall x, Decision (P x)} (l : list A) :
  StronglySorted R l -> StronglySorted R (filter P l).
Proof.
  induction 1 as [|x l Hs IH Hx]; [constructor|]. rewrite filter_cons. case_decide; [|done].
  constructor; [done|]. rewrite Forall_forall in Hx |- *. intros y [_ Hy]%list_elem_of_filter. auto.
Qed.

Lemma filter_keeps {A} (P : A -> Prop) `{!forall x, Decision (P x)} (l : list A) :
  Forall P l -> filter P l = l.
Proof. induction 1 as [|x l Hx _ IH]; [done|]. by rewrite filter_cons_True, IH. Qed.

Lemma filter_drops {A} (P : A -> Prop) `{!forall x, Decision (P x)} (l : list A) :
  Forall (fun x => ~ P x) l -> filter P l = [].
Proof. induction 1 as [|x l Hx _ IH]; [done|]. by rewrite filter_cons_False. Qed.

(** Reading on after the last record that was read. *)
Lemma in_range_after s u l p rest x :
  StronglySorted (fun a b => d_lsn a <= d_lsn b) l -> in_range s u l = p ++ rest ->
  last p = Some x -> Forall (fun r => d_lsn x < d_lsn r) rest ->
  in_range (Z.succ (d_lsn x)) u l = rest.
Proof.
  intros Hs E Hx Hrest. pose proof (StronglySorted_filter _ (fun r => s <= d_lsn r /\ d_lsn r <= u) _ Hs) as Hf.
  change (StronglySorted (fun a b => d_lsn a <= d_lsn b) (in_range s u l)) in Hf.
  rewrite E in Hf. apply StronglySorted_app_l in Hf. pose proof (sorted_last_le p x Hf Hx) as Hle.
  assert (s <= d_lsn x) as Hsx.
  { assert (x ∈ in_range s u l) as Hin by (rewrite E; apply last_Some in Hx as [p' ->]; set_solver).
    apply list_elem_of_filter in Hin. lia. }
  assert (in_range (Z.succ (d_lsn x)) u l = filter (fun r => Z.succ (d_lsn x) <= d_lsn r) (in_range s u l)) as ->.
  { unfold in_range. rewrite list_filter_filter. apply list_filter_iff. intros r. lia. }
  rewrite E, filter_app. rewrite (filter_keeps _ rest).
  - rewrite (filter_drops _ p); [done|]. eapply Forall_impl; [exact Hle|]. simpl. lia.
  - eapply Forall_impl; [exact Hrest|]. simpl. lia.
Qed.

Lemma status_ok ret err : (ret <> 0 -> err <> E_OK) -> status_of ret err = E_OK -> ret = 0.
Proof. unfold status_of. destruct (Z.eqb_spec ret 0); naive_solver. Qed.

Lemma last_read_call r r' logids old st :
  crb_write_last_read_checkpoints r logids (length logids) (Some old) = Some (r', Some st) ->
  writeLastReadCheckpoints r logids = (r', st).
Proof.
  unfold crb_write_last_read_checkpoints, crb_logids.
  rewrite bool_decide_eq_true_2, take_ge by lia. simpl.
  destruct (writeLastReadCheckpoints r logids). naive_solver.
Qed.

(** What is left to read after the checkpoint of what was read was written. *)
Lemma rest_after_checkpoint r r' logids logid0 s u :
  writeLastReadCheckpoints r logids = (r', E_OK) -> logid0 ∈ logids ->
  range_of r logid0 = Some (s, u) -> checkpoint r logid0 = None ->
  seen r logid0 `prefix_of` in_range s u (log_of r logid0) ->
  (forall x, last (seen r logid0) = Some x ->
     Forall (fun y => d_lsn x < d_lsn y)
       (drop (length (seen r logid0)) (in_range s u (log_of r logid0)))) ->
  in_range s u (log_of r logid0) =
    seen r logid0 ++ in_range (from_option Z.succ s (checkpoint r' logid0)) u (log_of r' logid0).
Proof.
  intros Hw Hin Hrng Hck [rest Hrest] Hlast.
  destruct (last_read_written _ _ _ _ _ Hw Hin Hrng) as [-> ->].
  destruct (last (seen r logid0)) as [x|] eqn:Ex.
  - specialize (Hlast x eq_refl). rewrite Hrest, drop_app_length in Hlast. simpl.
    by rewrite (in_range_after s u _ _ rest x (log_sorted r logid0) Hrest Ex Hlast).
  - apply last_None in Ex. rewrite Hck, Ex. done.
Qed.

End reader.
End CheckpointedReader.

Module CheckpointedReaderWitness.
Import Reader CheckpointedReader.

#[local] Instance codes : ReaderCodes :=
  {| E_OK := 0; E_GAP := 5; E_DATALOSS := 6; GapType_DATALOSS := 2 |}.

(** A reader of log 1, which holds four records, two of them in one batch. *)
Definition rec (n off : Z) (p : list Z) : DataRecord :=
  {| d_logid := 1; d_lsn := n; d_timestamp := 0; d_batch_offset := off; d_payload := p;
     d_byte_offset := 0 |}.
Definition records : list DataRecord := [rec 7 0 [1; 2]; rec 8 0 []; rec 8 1 [3]; rec 12 0 [4]].

Record mem := { m_range : option (Z * Z); m_seen : list DataRecord; m_ckp : option Z }.
Definition m_log (_ : mem) (logid : Z) : list DataRecord := if logid =? 1 then records else [].
Definition m_start (r : mem) (logid s u : Z) : mem * Z * Z :=
  if logid =? 1 then ({| m_range := Some (s, u); m_seen := []; m_ckp := m_ckp r |}, 0, 0)
  else (r, -1, 3).
Definition m_from (r : mem) (logid s u : Z) : mem * Z * Z :=
  m_start r logid (from_option Z.succ s (m_ckp r)) u.
Definition m_read (r : mem) (n : Z) : mem * read_result :=
  let new := match m_range r with
             | Some (s, u) => take (Z.to_nat n) (drop (length (m_seen r)) (in_range s u records))
             | None => []
             end in
  ({| m_range := m_range r; m_seen := m_seen r ++ new; m_ckp := m_ckp r |},
   {| nread := Z.of_nat (length new); data := new;
      gap := {| g_logid := 0; g_type := 0; g_lo := 0; g_hi := 0 |}; err := 0 |}).
Definition m_last_read (r : mem) (logids : list Z) : mem * Z :=
  match m_range r, last (m_seen r) with
  | Some _, Some x =>
      if bool_decide (1 ∈ logids)
      then ({| m_range := m_range r; m_seen := m_seen r; m_ckp := Some (d_lsn x) |}, 0) else (r, 0)
  | _, _ => (r, 0)
  end.

Lemma records_of_log n k s u : of_log 1 (take n (drop k (in_range s u records))) = take n (drop k (in_range s u records)).
Proof.
  apply filter_keeps. apply Forall_take, Forall_drop. apply Forall_forall.
  intros r [_ Hr]%list_elem_of_filter. unfold records in Hr.
  repeat (apply elem_of_cons in Hr as [->|Hr]; [done|]). by apply elem_of_nil in Hr.
Qed.

#[local] Program Instance memory_reader : ReaderLib := {|
  Rd := mem;
  log_of := m_log;
  range_of r logid := if logid =? 1 then m_range r else None;
  seen r logid := m_seen r;
  checkpoint r logid := m_ckp r;
  startReading := m_start;
  startReadingFromCheckpoint r logid u := m_from r logid 1 u;
  startReadingFromCheckpointOr := m_from;
  stopReading r logid := ({| m_range := None; m_seen := []; m_ckp := m_ckp r |}, 0, 0);
  isReading r logid := (logid =? 1) && bool_decide (is_Some (m_range r));
  isReadingAny r := bool_decide (is_Some (m_range r));
  setTimeout r _ := (r, 0);
  withoutPayload r := r;
  includeByteOffset r := r;
  waitOnlyWhenNoData r := r;
  read := m_read;
  writeCheckpoints r m := ({| m_range := m_range r; m_seen := m_seen r; m_ckp := m !! 1 |}, 0);
  writeLastReadCheckpoints := m_last_read;
  removeCheckpoints r _ := ({| m_range := m_range r; m_seen := m_seen r; m_ckp := None |}, 0);
  removeAllCheckpoints r := ({| m_range := m_range r; m_seen := m_seen r; m_ckp := None |}, 0);
|}.
Next Obligation.
  intros r logid. unfold m_log. destruct (logid =? 1); repeat constructor; simpl; lia.
Qed.
Next Obligation.
  intros r logid s u r' ret err H. unfold m_from, m_start in H.
  destruct (logid =? 1), H; simplify_eq; simpl; lia.
Qed.
Next Obligation.
  intros r logid s u r' err H. unfold m_start in H. destruct (logid =? 1) eqn:E; simplify_eq/=.
  by rewrite E.
Qed.
Next Obligation.
  intros r logid s u r' err H. unfold m_from, m_start in H.
  destruct (logid =? 1) eqn:E; simplify_eq/=. by rewrite E.
Qed.
Next Obligation.
  intros r maxlen r' rr logid s u H Hm Hr [k Hk]. unfold m_log in *. simpl in *.
  destruct (Z.eqb_spec logid 1) as [->|]; [|done]. unfold m_read in H. simplify_eq. rewrite Hr. simpl.
  do 3 (split; [done|]). split; [lia|]. intros _. split; [done|]. split.
  { rewrite length_take. lia. }
  rewrite records_of_log. split; [done|]. rewrite Hk, drop_app_length.
  apply prefix_app, prefix_take.
Qed.
Next Obligation.
  intros r logids r' logid range H Hin Hr. simpl in *.
  destruct (Z.eqb_spec logid 1) as [->|]; [|done]. unfold m_last_read in H. rewrite Hr in H.
  destruct (last (m_seen r)); [rewrite bool_decide_eq_true_2 in H by done|]; by simplify_eq.
Qed.

Definition cell : logdevice_data_record_t :=
  {| logid := 0; lsn := 0; timestamp := 0; batch_offset := 0; payload := None;
     payload_len := 0; byte_offset := 0 |}.

End CheckpointedReaderWitness.
