(* ===== verification/Foreign.v ===== *)
(** * Data from C++ to Haskell

    The helpers of hs_struct.cpp, utils.cpp and hs_cpp_lib.h that hand vectors,
    strings and maps to Haskell, the Haskell side that reads them
    (src/common/base/HStream/Foreign.hs), and how Haskell waits for a call and
    repeats it (src/hstream-store/HStream/Store/Internal/Foreign.hs). With them
    the statistics and the checkpoints are followed from a Haskell caller to the
    C++ runtime and back (Stats.hs, Checkpoint.hs). *)

From stdpp Require Import base gmap strings list relations.
From Stdlib Require Import ZArith Lia.
From S2P Require Import Prelude StatsTables Stats StatsHolder StatsApi CheckpointStore.
Import StatsTables Stats StatsHolder StatsApi CheckpointStore.

(** A string without zero bytes. *)
Definition nul_free (s : string) : Prop := Ascii.zero ∉ String.list_ascii_of_string s.

(** [CBytes] of Z-Data: [fromMutablePrimArray] cuts at the first zero byte. *)
Class CBytesLib := {
  fromMutablePrimArray : string -> string;
  fromMutablePrimArray_id : forall s, nul_free s -> fromMutablePrimArray s = s;
}.

Module Foreign.

(** ** hs_struct.cpp *)

Section structs.
Context {A : Type}.

(** Memory for 8-byte elements: its size in bytes and the elements written. *)
Record buffer := { bytes : Z; cells : gmap Z A }.

(** Access to element [i] outside of the memory is undefined, and so is reading
    what was not written. *)
Definition inside (b : buffer) (i : Z) : bool := (0 <=? i) && (8 * (i + 1) <=? bytes b).
Definition pokeElemOff (b : buffer) (i : Z) (v : A) : option buffer :=
  if inside b i then Some {| bytes := bytes b; cells := <[i := v]> (cells b) |} else None.
Definition peekElemOff (b : buffer) (i : Z) : option A := if inside b i then cells b !! i else None.

(** The loop of PEEK_VECTOR, whose counter is an [int]. *)
Fixpoint peek_loop (vec : list A) (n i : nat) (vals : buffer) : option buffer :=
  match n with
  | O => Some vals
  | S n =>
      v ← vec !! i;
      vals ← pokeElemOff vals (Z.of_nat i) v;
      if bool_decide (Z.of_nat i = 2 ^ 31 - 1) then None else peek_loop vec n (S i) vals
  end.

(** [asserts]: the program is built with assertions. *)
Definition PEEK_VECTOR (asserts : bool) (vec : list A) (vals_len : Z) (vals : buffer)
    : option buffer :=
  if asserts && negb (u64 vals_len =? Z.of_nat (length vec)) then None
  else peek_loop vec (Z.to_nat vals_len) 0 vals.

Definition GET_SIZE (v : list A) : Z := Z.of_nat (length v).

(** [current + offset]: an array from its element [offset] on. *)
Definition CAL_OFFSET (current : list A) (offset : Z) : option (list A) :=
  if (0 <=? offset) && (offset <=? Z.of_nat (length current))
  then Some (drop (Z.to_nat offset) current) else None.
End structs.
Arguments buffer : clear implicits.

(** ** Foreign.hs *)

(** [forM [0..len-1] elem] for a pointer that is not null, as in [peekN],
    [peekStdStringToCBytesN] and the functions of HS_PEEK. *)
Definition peekWith {P B} (elem : P -> Z -> option B) (len : Z) (ptr : option P)
    : option (list B) :=
  match ptr with
  | None => Some []
  | Some p => if len <=? 0 then Some [] else mapM (elem p) (seqZ 0 len)
  end.

(** Element [i] of an array of C++'s. *)
Definition array_elem {A} (a : list A) (i : Z) : option A :=
  if 0 <=? i then a !! Z.to_nat i else None.

Definition peekN {A} : Z -> option (list A) -> option (list A) := peekWith array_elem.

Section hs.
Context {CB : CBytesLib}.

(** The string is copied, with a zero byte after it. *)
Definition peekStdStringToCBytesIdx (p : list string) (offset : Z) : option string :=
  ptr ← CAL_OFFSET p offset; s ← head ptr; Some (fromMutablePrimArray s).

Definition peekStdStringToCBytesN : Z -> option (list string) -> option (list string) :=
  peekWith peekStdStringToCBytesIdx.

(** [peekVectorStringToCBytes]. *)
Definition peekVectorStringToCBytes (v : list string) : option (list string) :=
  peekStdStringToCBytesN (GET_SIZE v) (Some v).

(** HS_PEEK, with the number of bytes that is allocated for [size] elements. *)
Definition peekVectorOff_alloc {A} (alloc : Z -> Z) (asserts : bool) (ptr : list (list A))
    (offset : Z) : option (list A) :=
  ptr' ← CAL_OFFSET ptr offset;
  vec ← head ptr';
  let size := GET_SIZE vec in
  data ← PEEK_VECTOR asserts vec size {| bytes := alloc size; cells := ∅ |};
  peekWith peekElemOff size (Some data).

(** [mallocForeignPtrBytes size]. *)
Definition peekVectorOff {A} : bool -> list (list A) -> Z -> option (list A) :=
  peekVectorOff_alloc id.

Definition peekVector {A} (asserts : bool) (ptr : list (list A)) : option (list A) :=
  peekVectorOff asserts ptr 0.

Definition peekVectorN {A} (asserts : bool) : Z -> option (list (list A)) -> option (list (list A)) :=
  peekWith (peekVectorOff asserts).

Definition Map_fromList {K V} `{Countable K} (l : list (K * V)) : gmap K V :=
  foldl (fun m kv => <[kv.1 := kv.2]> m) ∅ l.

(** The cells of a map function hold 0 and null unless it writes them. *)
Definition map_cells {PK PV} (out : option (Z * list PK * list PV))
    : Z * option (list PK) * option (list PV) :=
  match out with
  | Some (len, keys, values) => (len, Some keys, Some values)
  | None => (0, None, None)
  end.

Definition peekCppMap {K PK V PV} `{Countable K} (out : option (Z * list PK * list PV))
    (peekKey : Z -> option (list PK) -> option (list K))
    (peekVal : Z -> option (list PV) -> option (list V)) : option (gmap K V) :=
  let '(len, keys_ptr, values_ptr) := map_cells out in
  keys ← peekKey len keys_ptr;
  values ← peekVal len values_ptr;
  Some (Map_fromList (zip keys values)).

(** ** Stats.hs *)

Context {SC : StatsCounter} {D : Double} {TS : TimeSeries} {HB : Histograms}.
Context {LD : LdCheck} {OS : IterOrder string} {OT : IterOrder nat}.

(** [stream_stat_getall] and the like. *)
Definition hs_stat_getall (x : per_x) (stat_name : string) (h : StatsHolder)
    : option (gmap string Z) :=
  out ← stat_getall x stat_name (Some h);
  statMap ← peekCppMap out peekStdStringToCBytesN peekN;
  Some (if out is Some _ then statMap else ∅).

(** [stream_time_series_getall_by_name] and the like. *)
Definition hs_time_series_getall (asserts : bool) (clock : nat -> Z) (x : per_x) (name : string)
    (intervals : list Z) (h : StatsHolder) : option (gmap string (list double)) :=
  let out := (time_series_getall_by_name clock x name intervals h).2 in
  statMap ← peekCppMap out peekStdStringToCBytesN (peekVectorN asserts);
  Some (if out is Some _ then statMap else ∅).
End hs.

(** ** Waiting and repeating (Store/Internal/Foreign.hs) *)

(** What an action of Haskell's gives: a value or an exception with a status. *)
Inductive hs_result (A : Type) := Returns (a : A) | Throws (errno : Z).
Arguments Returns {A}.
Arguments Throws {A}.

(** [withAsyncPrimUnsafe]: the cell holds [a] before the call; [takeMVar] waits
    for ever when it is not woken up. *)
Definition withAsyncPrimUnsafe {A} (a : Z) (r : Reply A) : option Z :=
  if (r_wakeups r =? 0)%nat then None else Some (default a (r_st r)).

Definition withAsyncPrimUnsafe2 (a b : Z) (r : Reply Z) : option (Z * Z) :=
  if (r_wakeups r =? 0)%nat then None else Some (default a (r_st r), default b (r_val r)).

(** [withAsyncPrimMapUnsafe] with [peekN] for keys and values. *)
Definition withAsyncPrimMapUnsafe (p : Z) (r : Reply (Z * list Z * list Z))
    : option (Z * list (Z * Z)) :=
  if (r_wakeups r =? 0)%nat then None
  else
    let '(len, keys_, values_) := map_cells (r_val r) in
    ret_keys ← peekN len keys_;
    ret_values ← peekN len values_;
    Some (default p (r_st r), zip ret_keys ret_values).

(** The loop that repeats an action while it answers [C_AGAIN]: [f] is the
    action on the state of the store, [None] an action that never ends or is
    undefined; [accepts] are the statuses whose result is returned; [fuel] bounds
    the number of calls. *)
Fixpoint retry_loop {S R} (accepts : Z -> bool) (C_AGAIN : Z) (fuel : nat)
    (f : S -> option (Z * R * S)) (retries : Z) (s : S) : option (hs_result R * S) :=
  match fuel with
  | O => None
  | Datatypes.S fuel =>
      '(errno, r, s) ← f s;
      if accepts errno then Some (Returns r, s)
      else if errno =? C_AGAIN then
        if retries =? 0 then Some (Throws errno, s)
        else if retries <? 0 then retry_loop accepts C_AGAIN fuel f (-1) s
        else retry_loop accepts C_AGAIN fuel f (retries - 1) s
      else Some (Throws errno, s)
  end.

Definition retryWhileAgain {S R} (C_OK : Z) :=
  @retry_loop S R (fun errno => errno =? C_OK).

(** ** Checkpoint.hs *)

Section checkpoints.
Context {St : Type} `{!CheckpointStoreLib St} (C_AGAIN LSN_INVALID : Z).
Implicit Types (s : St) (c : string).

Definition throwStreamErrorIfNotOK' {A} (code : Z) (a : A) : hs_result A :=
  if code =? st_OK then Returns a else Throws code.

Definition ckpStoreGetLSN s c (logid : Z) : option (hs_result Z) :=
  '(errno, lsn) ← withAsyncPrimUnsafe2 0 LSN_INVALID (checkpoint_store_get_lsn true true s c logid);
  Some (throwStreamErrorIfNotOK' errno lsn).

Definition ckpStoreGetAllCheckpoints' s c : option (hs_result (list (Z * Z))) :=
  '(errno, ret) ← withAsyncPrimMapUnsafe st_OK (checkpoint_store_get_all_checkpoints true s c);
  Some (throwStreamErrorIfNotOK' errno ret).

Definition ckpStoreGetAllCheckpoints s c : option (hs_result (gmap Z Z)) :=
  r ← ckpStoreGetAllCheckpoints' s c;
  Some (match r with Returns ret => Returns (Map_fromList ret) | Throws e => Throws e end).

Definition ckpStoreUpdateLSN' (fuel : nat) (retries : Z) s c (logid sn : Z)
    : option (hs_result unit * St) :=
  retryWhileAgain st_OK C_AGAIN fuel
    (fun s => let '(r, s) := checkpoint_store_update_lsn true s c logid sn in
              errno ← withAsyncPrimUnsafe 0 r; Some (errno, tt, s))
    retries s.

(** One attempt of [ckpStoreUpdateMultiLSN']; [Map.toList] is ascending. *)
Definition update_multi_once c (sns : gmap Z Z) s : option (Z * unit * St) :=
  let xs := std_map_list sns in
  '(r, s) ← checkpoint_store_update_multi_lsn true s c xs.*1 xs.*2 (length xs);
  errno ← withAsyncPrimUnsafe 0 r;
  Some (errno, tt, s).

Definition ckpStoreUpdateMultiLSN' (fuel : nat) (retries : Z) s c (sns : gmap Z Z)
    : option (hs_result unit * St) :=
  retryWhileAgain st_OK C_AGAIN fuel (update_multi_once c sns) retries s.

Definition ckpStoreRemoveCheckpoints s c (logids : list Z) (offset len : Z)
    : option (res (hs_result unit * St)) :=
  r ← checkpoint_store_remove_checkpoints true s c logids offset len;
  match r with
  | Err e => Some (Err e)
  | Ok (r, s) => errno ← withAsyncPrimUnsafe 0 r; Some (Ok (throwStreamErrorIfNotOK' errno tt, s))
  end.

Definition ckpStoreRemoveAllCheckpoints s c : option (hs_result unit * St) :=
  let '(r, s) := checkpoint_store_remove_all_checkpoints true s c in
  errno ← withAsyncPrimUnsafe 0 r; Some (throwStreamErrorIfNotOK' errno tt, s).
End checkpoints.

(** ** Proofs: reading *)

Lemma mapM_seqZ {A} (f : Z -> option A) (l : list A) k :
  (forall i a, l !! i = Some a -> f (k + Z.of_nat i) = Some a) ->
  mapM f (seqZ k (Z.of_nat (length l))) = Some l.
Proof.
  revert k. induction l as [|a l IH]; intros k Hf; [done|].
  rewrite seqZ_cons by (simpl; lia). cbn [mapM]. pose proof (Hf 0%nat a eq_refl) as H0.
  rewrite Z.add_0_r in H0. rewrite H0. cbn [mbind option_bind].
  replace (Z.pred (Z.of_nat (length (a :: l)))) with (Z.of_nat (length l)) by (simpl; lia).
  rewrite IH; [done|]. intros i b Hi. rewrite <- (Hf (S i) b Hi). f_equal. lia.
Qed.

Lemma peekWith_spec {P B} (elem : P -> Z -> option B) (p : P) (l : list B) :
  (forall i b, l !! i = Some b -> elem p (Z.of_nat i) = Some b) ->
  peekWith elem (Z.of_nat (length l)) (Some p) = Some l.
Proof.
  intros He. simpl. destruct l as [|b l]; [done|].
  rewrite (proj2 (Z.leb_gt _ 0)) by (simpl; lia). by apply mapM_seqZ.
Qed.

Lemma peekN_spec {A} (l : list A) : peekN (Z.of_nat (length l)) (Some l) = Some l.
Proof.
  apply peekWith_spec. intros i a Hi. unfold array_elem.
  rewrite (proj2 (Z.leb_le 0 _)) by lia. by rewrite Nat2Z.id.
Qed.

Lemma CAL_OFFSET_head {A} (l : list A) i a :
  l !! i = Some a -> exists l', CAL_OFFSET l (Z.of_nat i) = Some l' /\ head l' = Some a.
Proof.
  intros Hi. pose proof (lookup_lt_Some _ _ _ Hi). exists (drop i l). split.
  - unfold CAL_OFFSET. rewrite (proj2 (Z.leb_le _ _)), (proj2 (Z.leb_le _ _)) by lia. by rewrite Nat2Z.id.
  - by rewrite (drop_S _ _ _ Hi).
Qed.

Lemma peekStrings_spec `{CBytesLib} (l : list string) :
  Forall nul_free l -> peekStdStringToCBytesN (Z.of_nat (length l)) (Some l) = Some l.
Proof.
  intros Hl. apply peekWith_spec. intros i s Hi. unfold peekStdStringToCBytesIdx.
  destruct (CAL_OFFSET_head l i s Hi) as (l' & -> & Hh). simpl. rewrite Hh. simpl.
  rewrite fromMutablePrimArray_id; [done|]. rewrite Forall_lookup in Hl. eauto.
Qed.

Lemma Map_fromList_NoDup {K V} `{Countable K} (l : list (K * V)) :
  NoDup l.*1 -> Map_fromList l = list_to_map l.
Proof.
  unfold Map_fromList. rewrite <- (map_union_empty (list_to_map l)). generalize (∅ : gmap K V).
  induction l as [|[k v] l IH]; intros m Hnd; simpl; [by rewrite map_empty_union|].
  apply NoDup_cons in Hnd as [Hk Hnd]. rewrite IH by done.
  rewrite <- insert_union_r, insert_union_l; [done|]. by apply not_elem_of_list_to_map_1.
Qed.

Lemma zip_fmap_fst {K V} (ks : list K) (vs : list V) :
  length ks = length vs -> (zip ks vs).*1 = ks.
Proof. revert vs. induction ks as [|k ks IH]; intros [|v vs] Hl; simplify_eq/=; f_equal; auto. Qed.

(** ** Proofs: vectors *)

Lemma inside_ge {A} (b : buffer A) i : 0 <= i -> 8 * (i + 1) <= bytes b -> inside b i = true.
Proof. intros. unfold inside. apply andb_true_intro. split; apply Z.leb_le; lia. Qed.

(** With enough memory the loop copies the rest of the vector. *)
Lemma peek_loop_copies {A} (vec : list A) n i (vals : buffer A) :
  (i + n = length vec)%nat -> Z.of_nat (length vec) < 2 ^ 31 -> 8 * Z.of_nat (length vec) <= bytes vals ->
  (forall j, (j < i)%nat -> cells vals !! Z.of_nat j = vec !! j) ->
  exists vals', peek_loop vec n i vals = Some vals' /\ bytes vals' = bytes vals /\
    forall j, (j < length vec)%nat -> cells vals' !! Z.of_nat j = vec !! j.
Proof.
  intros Hn Hlen. revert i vals Hn. induction n as [|n IH]; intros i vals Hn Hb Hc.
  { exists vals. split_and!; [done..|]. intros j Hj. apply Hc. lia. }
  cbn [peek_loop]. destruct (lookup_lt_is_Some_2 vec i) as [v Hv]; [lia|]. rewrite Hv.
  unfold pokeElemOff. rewrite inside_ge by lia. cbn [mbind option_bind].
  rewrite bool_decide_eq_false_2 by lia.
  destruct (IH (S i) {| bytes := bytes vals; cells := <[Z.of_nat i := v]> (cells vals) |})
    as (vals' & E & Hb' & Hc'); [lia|done| |eauto].
  intros j Hj. simpl. destruct (decide (j = i)) as [->|Hne]; [by rewrite lookup_insert_eq|].
  rewrite lookup_insert_ne by lia. apply Hc. lia.
Qed.

(** The loop writes all its elements inside of the memory, or is undefined. *)
Lemma peek_loop_inside {A} (vec : list A) n i (vals vals' : buffer A) :
  peek_loop vec (S n) i vals = Some vals' -> 8 * Z.of_nat (i + S n) <= bytes vals.
Proof.
  revert i vals. induction n as [|n IH]; intros i vals E; cbn [peek_loop] in E;
    destruct (vec !! i) as [v|]; simplify_eq/=; unfold pokeElemOff in E;
    destruct (inside vals (Z.of_nat i)) eqn:Ei; simplify_eq/=;
    unfold inside in Ei; apply andb_prop in Ei as [_ Ei]; apply Z.leb_le in Ei; [lia|].
  case_bool_decide; [done|]. apply IH in E. simpl in E. lia.
Qed.

Lemma PEEK_VECTOR_spec {A} asserts (vec : list A) vals :
  is_u64 (GET_SIZE vec) ->
  PEEK_VECTOR asserts vec (GET_SIZE vec) vals = peek_loop vec (length vec) 0 vals.
Proof.
  intros Hs. unfold PEEK_VECTOR. rewrite u64_id by done. unfold GET_SIZE at 1.
  rewrite Z.eqb_refl, andb_false_r. unfold GET_SIZE. by rewrite Nat2Z.id.
Qed.

Lemma vector_size_u64 {A} (vec : list A) : Z.of_nat (length vec) < 2 ^ 31 -> is_u64 (GET_SIZE vec).
Proof. unfold GET_SIZE, is_u64. lia. Qed.

Lemma peekVectorOff_enough {A} alloc asserts (vecs : list (list A)) i vec :
  vecs !! i = Some vec -> Z.of_nat (length vec) < 2 ^ 31 -> 8 * GET_SIZE vec <= alloc (GET_SIZE vec) ->
  peekVectorOff_alloc alloc asserts vecs (Z.of_nat i) = Some vec.
Proof.
  intros Hi Hl Ha. unfold peekVectorOff_alloc.
  destruct (CAL_OFFSET_head vecs i vec Hi) as (p & -> & Hh). cbn [mbind option_bind]. rewrite Hh.
  cbn [mbind option_bind]. rewrite PEEK_VECTOR_spec by by apply vector_size_u64.
  destruct (peek_loop_copies vec (length vec) 0 {| bytes := alloc (GET_SIZE vec); cells := ∅ |})
    as (vals & -> & Hb & Hc); [lia|done|done|intros; lia|]. cbn [mbind option_bind].
  apply peekWith_spec. intros j a Hj. pose proof (lookup_lt_Some _ _ _ Hj). unfold peekElemOff.
  unfold GET_SIZE in *. cbn [bytes] in Hb. rewrite inside_ge by lia. by rewrite Hc.
Qed.

Lemma peekVectorOff_overflow {A} asserts (vecs : list (list A)) i vec :
  vecs !! i = Some vec -> vec <> [] -> Z.of_nat (length vec) < 2 ^ 31 ->
  peekVectorOff asserts vecs (Z.of_nat i) = None.
Proof.
  intros Hi Hne Hl. unfold peekVectorOff, peekVectorOff_alloc.
  destruct (CAL_OFFSET_head vecs i vec Hi) as (p & -> & Hh). cbn [mbind option_bind]. rewrite Hh.
  cbn [mbind option_bind]. rewrite PEEK_VECTOR_spec by by apply vector_size_u64.
  destruct (peek_loop _ _ _ _) as [vals|] eqn:E; [|done]. destruct vec as [|a vec]; [done|].
  apply peek_loop_inside in E. change (8 * Z.of_nat (0 + S (length vec)) <= Z.of_nat (S (length vec))) in E. lia.
Qed.

(** C38: [peekStdVectorWord64N] and [peekFollySmallVectorDoubleN], which read the
    vectors of time series, allocate one byte per element while [peek_vec...]
    writes eight: as soon as one vector is not empty memory outside of the
    buffer is written. Only empty vectors are read. With eight bytes per element
    the same code reads all vectors. *)
Theorem peek_vectors_overflow {A} asserts (vecs : list (list A)) :
  Forall (fun v => Z.of_nat (length v) < 2 ^ 31) vecs ->
  (Exists (fun v => v <> []) vecs ->
   peekVectorN asserts (Z.of_nat (length vecs)) (Some vecs) = None) /\
  (Forall (fun v => v = []) vecs ->
   peekVectorN asserts (Z.of_nat (length vecs)) (Some vecs) = Some vecs) /\
  peekWith (peekVectorOff_alloc (fun size => 8 * size) asserts) (Z.of_nat (length vecs)) (Some vecs) =
    Some vecs.
Proof.
  intros Hl. rewrite Forall_lookup in Hl. split_and!.
  - intros (vec & Hin & Hne)%Exists_exists. apply list_elem_of_lookup in Hin as [i Hi].
    pose proof (lookup_lt_Some _ _ _ Hi). unfold peekVectorN, peekWith.
    rewrite (proj2 (Z.leb_gt _ 0)) by lia. apply mapM_None, Exists_exists. exists (Z.of_nat i).
    split; [apply elem_of_seqZ; lia|]. eapply peekVectorOff_overflow; eauto.
  - intros He. rewrite Forall_lookup in He. apply peekWith_spec. intros i v Hi.
    apply peekVectorOff_enough; [done|eauto|]. by rewrite (He _ _ Hi).
  - apply peekWith_spec. intros i v Hi. apply peekVectorOff_enough; [done|eauto|]. lia.
Qed.

(** ** Proofs: statistics *)

Section stats_proofs.
Context {CB : CBytesLib}.
Context {SC : StatsCounter} {D : Double} {TS : TimeSeries} {HB : Histograms}.
Context {LD : LdCheck} {OS : IterOrder string} {OT : IterOrder nat}.

(** Vectors that were handed over are read back as a map. *)
Lemma peekCppMap_vectors {A} (ks : list string) (vs : list A) peekVal :
  Forall nul_free ks -> NoDup ks -> length ks = length vs ->
  peekVal (Z.of_nat (length ks)) (Some vs) = Some vs ->
  peekCppMap (Some (Z.of_nat (length ks), ks, vs)) peekStdStringToCBytesN peekVal =
    Some (list_to_map (zip ks vs)).
Proof.
  intros Hk Hnd Hl Hv. unfold peekCppMap. cbn [map_cells].
  rewrite peekStrings_spec by done. cbn [mbind option_bind]. rewrite Hv. cbn [mbind option_bind].
  by rewrite Map_fromList_NoDup by by rewrite zip_fmap_fst.
Qed.

(** The keys of a history are given by Haskell as C strings. *)
Definition op_key_ok (o : op) : Prop :=
  match o with Add _ _ _ key _ => nul_free key | _ => True end.

Lemma spec_op_keys o m :
  op_key_ok o -> (forall x k, is_Some (m x !! k) -> nul_free k) ->
  forall x k, is_Some (spec_op m o x !! k) -> nul_free k.
Proof.
  intros Ho Hm x k. destruct o as [tid y i key val|tid|tid|y key|]; simpl in *; eauto.
  - destruct (decide (x = y)) as [->|]; [|eauto]. unfold spec_add.
    destruct (decide (k = key)) as [->|Hne]; [done|]. rewrite lookup_insert_ne by done. eauto.
  - destruct (decide (x = y)) as [->|]; [|eauto]. rewrite lookup_delete. case_decide; [by intros []|eauto].
  - intros Hs. by apply is_Some_None in Hs.
Qed.

Lemma spec_run_keys ops m :
  Forall op_key_ok ops -> (forall x k, is_Some (m x !! k) -> nul_free k) ->
  forall x k, is_Some (spec_run m ops x !! k) -> nul_free k.
Proof.
  intros Hops. revert m. induction Hops as [|o ops Ho Hops IH]; intros m Hm; [done|].
  apply IH. by apply spec_op_keys.
Qed.

Lemma vector_key {A B} (ks : list string) (vs : list B) (f : A -> B) (m : gmap string A) k :
  list_to_map (zip ks vs) = f <$> m -> length vs = length ks -> k ∈ ks -> is_Some (m !! k).
Proof.
  intros Em Hl Hk. apply (fmap_is_Some f). rewrite <- lookup_fmap, <- Em.
  destruct (list_to_map (zip ks vs) !! k) as [v|] eqn:E; [eauto|].
  apply not_elem_of_list_to_map in E. by rewrite zip_fmap_fst in E.
Qed.

(** C11: from Haskell to Haskell: after any history of additions on any threads,
    thread starts and exits, erasures and resets, [stream_stat_getall] and the
    like return, for every counter of the tables, the map that holds for each
    key the sum of what was added since the last erase or reset. The keys are C
    strings. *)
Theorem hs_stat_getall_exact prm ops x stat_name i :
  Forall op_ok ops -> Forall op_key_ok ops -> x <> per_handle ->
  setPerStatsMember x stat_name = Some i ->
  exists h, run (new_StatsHolder prm) ops = Some h /\
    hs_stat_getall x stat_name h =
      Some ((fun v => default 0 (v !! i)) <$> spec_run (fun _ => ∅) ops x).
Proof.
  intros Hops Hkeys Hx Hi. destruct (run_simulates ops (new_StatsHolder prm) (fun _ => ∅))
    as (h & E & Hwf & _ & Ht); auto using wf_new_StatsHolder, alive_new, total_new.
  exists h. split; [done|]. pose proof (stat_getall_total x stat_name h Hwf Hx) as Hg.
  rewrite Hi in Hg. destruct Hg as (ks & vs & Eg & Hl & Hnd & Em).
  rewrite Ht in Em by done. unfold hs_stat_getall. rewrite Eg. cbn [mbind option_bind].
  rewrite peekCppMap_vectors; [|..|rewrite <- Hl; apply peekN_spec]; [by rewrite Em| |done|done].
  apply Forall_forall. intros k Hk. apply (spec_run_keys ops (fun _ => ∅) Hkeys) with (x := x).
  { intros y k' Hs. by apply is_Some_None in Hs. }
  eapply vector_key; eauto.
Qed.
End stats_proofs.

(** ** Proofs: repeating *)

Section retry.
Context {S R : Type} (accepts : Z -> bool) (C_AGAIN : Z) (f : S -> option (Z * R * S)).
Hypothesis codes : accepts C_AGAIN = false.

(** A call that is answered with [C_AGAIN]. *)
Definition again (s s' : S) : Prop := exists r, f s = Some (C_AGAIN, r, s').

(** A negative number of retries does not end; another one allows that many. *)
Lemma retry_answers n s s1 st r s2 retries fuel :
  nsteps again n s s1 -> f s1 = Some (st, r, s2) -> st <> C_AGAIN ->
  (retries < 0 \/ Z.of_nat n <= retries) -> (n < fuel)%nat ->
  retry_loop accepts C_AGAIN fuel f retries s =
    Some (if accepts st then Returns r else Throws st, s2).
Proof.
  intros Hs Hf Hst. revert retries fuel.
  induction Hs as [s|n s s' s'' [r' Ha] Hs IH]; intros retries [|fuel] Hr Hfuel; try lia;
    cbn [retry_loop].
  - rewrite Hf. cbn [mbind option_bind]. destruct (accepts st); [done|].
    by rewrite (proj2 (Z.eqb_neq _ _) Hst).
  - rewrite Ha. cbn [mbind option_bind]. rewrite Z.eqb_refl, codes.
    rewrite (proj2 (Z.eqb_neq retries 0)) by lia.
    destruct (Z.ltb_spec retries 0); apply IH; auto; lia.
Qed.

Lemma retry_exhausted n s s2 fuel :
  nsteps again (Datatypes.S n) s s2 -> (n < fuel)%nat ->
  retry_loop accepts C_AGAIN fuel f (Z.of_nat n) s = Some (Throws C_AGAIN, s2).
Proof.
  revert s fuel. induction n as [|n IH]; intros s [|fuel] Hs Hfuel; try lia;
    inversion Hs as [|? ? s' ? [r Ha] Hs']; subst; cbn [retry_loop]; rewrite Ha;
    cbn [mbind option_bind]; rewrite Z.eqb_refl, codes.
  - inversion Hs'. by subst.
  - rewrite (proj2 (Z.eqb_neq _ 0)), (proj2 (Z.ltb_ge _ 0)) by lia.
    replace (Z.of_nat (Datatypes.S n) - 1) with (Z.of_nat n) by lia. apply IH; [done|lia].
Qed.
End retry.

(** ** Proofs: checkpoints *)

Lemma build_checkpoints_pairs (l : list (Z * Z)) :
  NoDup l.*1 -> Z.of_nat (length l) < 2 ^ 31 ->
  build_checkpoints l.*1 l.*2 (length l) = Some (list_to_map l).
Proof.
  intros Hnd Hl. destruct (build_checkpoints_spec l.*1 l.*2 (length l)) as (m & -> & Hm);
    [by rewrite length_fmap..|done|]. f_equal. apply map_eq. intros k. apply option_eq. intros v.
  rewrite (Hm k v), <- elem_of_list_to_map, list_elem_of_lookup by done. split.
  - intros (i & _ & Hk & Hv & _). exists i. rewrite list_lookup_fmap in Hk, Hv.
    destruct (l !! i) as [[]|]; simplify_eq/=. done.
  - intros [i Hi]. exists i. rewrite !list_lookup_fmap, Hi. split_and!; [by eapply lookup_lt_Some|done..|].
    intros j Hj Hkj. assert (j = i); [|lia]. eapply NoDup_lookup; [done|exact Hkj|].
    by rewrite list_lookup_fmap, Hi.
Qed.

Lemma std_map_list_to_map {A} (m : gmap Z A) : list_to_map (std_map_list m) = m.
Proof.
  rewrite <- (list_to_map_to_list m) at 2. apply list_to_map_proper; [|apply std_map_list_perm].
  rewrite std_map_list_perm. apply NoDup_fst_map_to_list.
Qed.

Section checkpoint_proofs.
Context {St : Type} `{!CheckpointStoreLib St} (C_AGAIN LSN_INVALID : Z).
Implicit Types (s : St) (c : string).

Lemma update_multi_once_spec c (sns : gmap Z Z) s :
  Z.of_nat (size sns) < 2 ^ 31 ->
  update_multi_once c sns s = Some ((updateLSN s c sns).1, tt, (updateLSN s c sns).2).
Proof.
  intros Hl. unfold update_multi_once, checkpoint_store_update_multi_lsn.
  rewrite build_checkpoints_pairs, std_map_list_to_map; cbn [mbind option_bind].
  - by destruct (updateLSN s c sns).
  - rewrite std_map_list_perm. apply NoDup_fst_map_to_list.
  - by rewrite std_map_list_perm, length_map_to_list.
Qed.

Lemma get_all_spec s c :
  (getAllCheckpoints s c).1 = st_OK ->
  ckpStoreGetAllCheckpoints s c = Some (Returns (contents s c)).
Proof.
  intros Hst. pose proof (getAll_OK s c Hst) as Hm. unfold ckpStoreGetAllCheckpoints,
    ckpStoreGetAllCheckpoints', checkpoint_store_get_all_checkpoints, withAsyncPrimMapUnsafe.
  destruct (getAllCheckpoints s c) as [st m]. simpl in Hst, Hm. subst.
  cbn [r_wakeups r_st r_val Nat.eqb]. rewrite Z.eqb_refl, foldl_unzip. cbn [app map_cells].
  rewrite peekN_spec. cbn [mbind option_bind].
  replace (length (std_map_list (contents s c)).*1) with (length (std_map_list (contents s c)).*2)
    by by rewrite !length_fmap.
  rewrite peekN_spec. cbn [mbind option_bind]. unfold throwStreamErrorIfNotOK'. simpl.
  rewrite Z.eqb_refl, zip_fst_snd, Map_fromList_NoDup, std_map_list_to_map; [done|].
  rewrite std_map_list_perm. apply NoDup_fst_map_to_list.
Qed.

Lemma get_lsn_spec s c logid v :
  contents s c !! logid = Some v -> (getLSN s c logid).1 = st_OK ->
  ckpStoreGetLSN LSN_INVALID s c logid = Some (Returns v).
Proof.
  intros Hv Hst. pose proof (getLSN_OK s c logid Hst) as Hg. unfold ckpStoreGetLSN,
    checkpoint_store_get_lsn, throwStreamErrorIfNotOK'.
  destruct (getLSN s c logid) as [st lsn]. simpl in *. subst. rewrite Z.eqb_refl. congruence.
Qed.

(** Haskell's [ckpStoreUpdateMultiLSN'] with a map of checkpoints, on a store
    that answers AGAIN some times, as often as retries are allowed (a negative
    number allows any), and then accepts: it returns after that many repetitions
    and one more call; every checkpoint of the map is then stored, is what
    [ckpStoreGetLSN] returns, and is in the map [ckpStoreGetAllCheckpoints]
    returns, when the store answers them; and with no AGAIN the others are
    kept. *)
Theorem hs_checkpoints_roundtrip c (sns : gmap Z Z) s s1 n retries fuel :
  C_AGAIN <> st_OK -> Z.of_nat (size sns) < 2 ^ 31 ->
  nsteps (fun s s' => updateLSN s c sns = (C_AGAIN, s')) n s s1 -> (updateLSN s1 c sns).1 = st_OK ->
  (retries < 0 \/ Z.of_nat n <= retries) -> (n < fuel)%nat ->
  exists s', ckpStoreUpdateMultiLSN' C_AGAIN fuel retries s c sns = Some (Returns tt, s') /\
    (forall k v, sns !! k = Some v -> (getLSN s' c k).1 = st_OK ->
       ckpStoreGetLSN LSN_INVALID s' c k = Some (Returns v)) /\
    ((getAllCheckpoints s' c).1 = st_OK ->
     exists m, ckpStoreGetAllCheckpoints s' c = Some (Returns m) /\ sns ⊆ m /\
       (n = 0%nat -> m = sns ∪ contents s c)).
Proof.
  intros Hne Hl Hs Hok Hr Hfuel. exists (updateLSN s1 c sns).2.
  pose proof (updateLSN_OK s1 c sns c Hok) as Hc. rewrite decide_True in Hc by done. split_and!.
  - unfold ckpStoreUpdateMultiLSN', retryWhileAgain.
    rewrite (retry_answers (fun e => e =? st_OK) C_AGAIN _ (proj2 (Z.eqb_neq _ _) Hne) n s s1 st_OK tt (updateLSN s1 c sns).2); auto.
    + by rewrite Z.eqb_refl.
    + eapply nsteps_congruence with (f := id); [|exact Hs]. intros x y Hxy. exists tt. unfold id.
      by rewrite update_multi_once_spec, Hxy.
    + by rewrite update_multi_once_spec, Hok.
  - intros k v Hk Hst. apply get_lsn_spec; [|done]. rewrite Hc. by apply lookup_union_Some_l.
  - intros Hst. eexists. split; [by apply get_all_spec|]. rewrite Hc. split; [apply map_union_subseteq_l|].
    intros ->. inversion Hs. by subst.
Qed.
End checkpoint_proofs.
End Foreign.

Module ForeignWitness.
Import Foreign StatsWitness StatsHolderWitness CheckpointStoreWitness.

(** The characters before the first zero. *)
Fixpoint before_nul (l : list Ascii.ascii) : list Ascii.ascii :=
  match l with
  | [] => []
  | a :: l => if decide (a = Ascii.zero) then [] else a :: before_nul l
  end.

Lemma before_nul_id l : Ascii.zero ∉ l -> before_nul l = l.
Proof.
  induction l as [|a l IH]; intros Hl; simpl; [done|].
  rewrite decide_False by set_solver. rewrite IH by set_solver. done.
Qed.

#[refine] Instance cbytes : CBytesLib := {|
  fromMutablePrimArray s :=
    String.string_of_list_ascii (before_nul (String.list_ascii_of_string s));
|}.
Proof. intros s Hs. rewrite before_nul_id by done. apply String.string_of_list_ascii_of_string. Defined.

Lemma s1_nul_free : nul_free "s1".
Proof. unfold nul_free. simpl. rewrite !elem_of_cons, elem_of_nil. naive_solver. Qed.
Lemma s2_nul_free : nul_free "s2".
Proof. unfold nul_free. simpl. rewrite !elem_of_cons, elem_of_nil. naive_solver. Qed.

Lemma hs_stat_getall_exact_witness :
  exists h, run (new_StatsHolder server_params) history = Some h /\
    hs_stat_getall per_stream "append_total" h = Some {[ "s1" := 12 ]}.
Proof.
  destruct (hs_stat_getall_exact server_params history per_stream "append_total" 0) as (h & E & H);
    [repeat constructor|repeat constructor; first [exact s1_nul_free | exact s2_nul_free]|done|done|].
  exists h. split; [exact E|]. rewrite H. reflexivity.
Defined.

Lemma peek_vectors_overflow_witness :
  peekVectorN true 2 (Some [[]; [5; 6]]) = None.
Proof.
  destruct (peek_vectors_overflow true [[]; [5; 6]]) as [H _]; [repeat constructor|].
  apply H. apply Exists_cons_tl, Exists_cons_hd. done.
Defined.

(** A store that answers the first updates with AGAIN, here status 9. *)
Definition flaky_update (s : nat * MemStore) (c : string) (m : gmap Z Z) : Z * (nat * MemStore) :=
  match s.1 with
  | O => (0, (O, <[c := m ∪ mem_contents s.2 c]> s.2))
  | S n => (9, (n, s.2))
  end.

#[refine] Instance flaky_store : CheckpointStoreLib (nat * MemStore) :=
  {| st_OK := 0;
     contents s := mem_contents s.2;
     getLSN s c l := match mem_contents s.2 c !! l with Some v => (0, v) | None => (1, 0) end;
     getAllCheckpoints s c := (0, mem_contents s.2 c);
     updateLSN_one s c l v := (0, (s.1, <[c := <[l := v]> (mem_contents s.2 c)]> s.2));
     updateLSN := flaky_update;
     removeCheckpoints s c ls := (0, (s.1, <[c := foldr delete (mem_contents s.2 c) ls]> s.2));
     removeAllCheckpoints s c := (0, (s.1, <[c := ∅]> s.2)) |}.
Proof.
  - intros s c l. by destruct (mem_contents s.2 c !! l).
  - done.
  - intros. apply mem_insert.
  - intros [[|n] s] c m c' Hst; [|done]. apply mem_insert.
  - intros. apply mem_insert.
  - intros. apply mem_insert.
Defined.

Lemma hs_checkpoints_roundtrip_witness :
  exists s', ckpStoreUpdateMultiLSN' 9 3 1 (1%nat, ∅ : MemStore) "c" {[ 7 := 10; 2 := 20 ]} =
      Some (Returns tt, s') /\
    ckpStoreGetLSN 0 s' "c" 7 = Some (Returns 10).
Proof.
  destruct (hs_checkpoints_roundtrip 9 0 "c" {[ 7 := 10; 2 := 20 ]} (1%nat, ∅ : MemStore)
    (O, ∅ : MemStore) 1 1 3) as (s' & E & H & _); [done|by vm_compute| |done|lia|lia|].
  - by apply nsteps_once.
  - exists s'. split; [exact E|]. vm_compute in E. injection E as <-. apply H; by vm_compute.
Defined.
End ForeignWitness.
