(* ===== verification/ConfigClient.v ===== *)
(** * Clients of the versioned configuration store

    The calls of hs_versioned_config_store.cpp into LogDevice's store and the
    Haskell functions on top of them (VersionedConfigStore.hs, Types.hsc):
    conditional updates, and what they promise to clients that update the same
    key. *)

From stdpp Require Import base gmap list relations.
From Stdlib Require Import ZArith Lia.
From S2P Require Import Prelude ConfigStore Foreign.
Import ConfigStore Foreign.

Notation bytes := (list Z).

(** The condition of an update, on the value stored. *)
Definition condition_holds (old : option bytes) (cond : Condition) : Prop :=
  match cond with
  | overwrite => True
  | createIfNotExists => old = None
  | version_is v => exists val, old = Some val /\ extract_function val = Some v
  end.

(** LogDevice's [VersionedConfigStore] with [extract_function], as the comment
    on [logdevice_vcs_update_config] documents it: an update is done only when
    its condition holds; success comes with the version of the new value, a
    mismatch with the existing value and its version, or with [EMPTY_VERSION]
    when it is not available. [config] is what a store holds. *)
Class VcsLib (St : Type) `{StatusCodes} := {
  EMPTY_VERSION : Z;
  config : St -> bytes -> option bytes;
  getConfig : St -> bytes -> option Z -> Z * bytes * St;
  getLatestConfig : St -> bytes -> Z * bytes * St;
  updateConfig : St -> bytes -> bytes -> Condition -> Z * Z * bytes * St;
  getLatestConfig_OK : forall s k val s', getLatestConfig s k = (OK, val, s') ->
    config s k = Some val /\ config s' = config s;
  updateConfig_OK : forall s k new cond ver val s', updateConfig s k new cond = (OK, ver, val, s') ->
    condition_holds (config s k) cond /\ extract_function new = Some ver /\
    config s' k = Some new /\ forall k', k' <> k -> config s' k' = config s k';
  updateConfig_mismatch : forall s k new cond ver val s',
    updateConfig s k new cond = (VERSION_MISMATCH, ver, val, s') ->
    ~ condition_holds (config s k) cond /\ config s' = config s /\
    forall old, config s k = Some old ->
      ver = EMPTY_VERSION \/ (val = old /\ extract_function old = Some ver);
}.

Module ConfigClient.
Section client.
Context {St : Type} `{V : VcsLib St} (C_AGAIN : Z).
Implicit Types (s : St) (key : bytes).

(** ** hs_versioned_config_store.cpp *)

(** What a call leaves in the memory of Haskell's; [hs_try_putmvar] is called
    once in every case. *)
Definition logdevice_vcs_get_config s key (base_version_ : option Z) (cb_data : option value_cb_data)
    : option value_cb_data * St :=
  let '(st, val, s) := getConfig s key base_version_ in (value_cb st val cb_data, s).

Definition logdevice_vcs_get_latest_config s key (cb_data : option value_cb_data)
    : option value_cb_data * St :=
  let '(st, val, s) := getLatestConfig s key in (value_cb st val cb_data, s).

(** [std::string(value + offset, val_len)]. *)
Definition value_string (value : bytes) (offset val_len : Z) : option bytes :=
  if (0 <=? offset) && (0 <=? val_len) && (offset + val_len <=? Z.of_nat (length value))
  then Some (take (Z.to_nat val_len) (drop (Z.to_nat offset) value)) else None.

Definition logdevice_vcs_update_config s key (value : bytes) (offset val_len : Z)
    (condition_mode version : Z) (cb_data : option write_cb_data)
    : option (option write_cb_data * St) :=
  new ← value_string value offset val_len;
  let '(st, ver, val, s) := updateConfig s key new (update_condition condition_mode version) in
  Some (write_cb st ver val cb_data, s).

(** ** Types.hsc *)

(** The data is read where the status says that there is some; reading what
    was not written is undefined. *)
Definition peekVcsValueCallbackData (d : value_cb_data) : option (Z * bytes) :=
  if v_st d =? OK then value ← v_val d; Some (v_st d, value) else Some (v_st d, []).

Definition peekVcsWriteCallbackData (d : write_cb_data) : option (Z * (Z * bytes)) :=
  if (w_st d =? OK) || (w_st d =? VERSION_MISMATCH)
  then value ← w_val d; Some (w_st d, (w_version d, value))
  else Some (w_st d, (EMPTY_VERSION, [])).

(** ** VersionedConfigStore.hs *)

Inductive VcsCondition := VcsCondVersion (v : Z) | VcsCondOverwrite | VcsCondIfNotExists.

Definition toCVcsConditionMode (cond : VcsCondition) : Z * Z :=
  match cond with
  | VcsCondVersion ver => (1, ver)
  | VcsCondOverwrite => (2, 0)
  | VcsCondIfNotExists => (3, 0)
  end.

(** Memory that [mallocForeignPtrBytes] gives. *)
Definition fresh_value : value_cb_data := {| v_st := 0; v_val := None |}.
Definition fresh_write : write_cb_data := {| w_st := 0; w_version := 0; w_val := None |}.

Definition vcsGetConfig (fuel : nat) s key (m_base_version : option Z) (auto_retries : Z)
    : option (hs_result bytes * St) :=
  retry_loop (fun st => st =? OK) C_AGAIN fuel
    (fun s => let '(d, s) := logdevice_vcs_get_config s key m_base_version (Some fresh_value) in
              d ← d; '(st, val) ← peekVcsValueCallbackData d; Some (st, val, s))
    auto_retries s.

Definition ldVcsGetLatestConfig (fuel : nat) s key (auto_retries : Z)
    : option (hs_result bytes * St) :=
  retry_loop (fun st => st =? OK) C_AGAIN fuel
    (fun s => let '(d, s) := logdevice_vcs_get_latest_config s key (Some fresh_value) in
              d ← d; '(st, val) ← peekVcsValueCallbackData d; Some (st, val, s))
    auto_retries s.

(** One attempt of [ldVcsUpdateConfig]; [val] is an array with an offset and a
    length. *)
Definition update_once key (val : bytes) (offset len : Z) (cond : VcsCondition) s
    : option (Z * (Z * bytes) * St) :=
  let '(cond_mode, cond_ver_) := toCVcsConditionMode cond in
  '(d, s) ← logdevice_vcs_update_config s key val offset len cond_mode cond_ver_ (Some fresh_write);
  d ← d;
  '(st, r) ← peekVcsWriteCallbackData d;
  Some (st, r, s).

Definition ldVcsUpdateConfig (fuel : nat) s key (val : bytes) (offset len : Z)
    (cond : VcsCondition) (auto_retries : Z) : option (hs_result (Z * bytes) * St) :=
  retry_loop (fun st => (st =? OK) || (st =? VERSION_MISMATCH)) C_AGAIN fuel
    (update_once key val offset len cond) auto_retries s.

(** ** Proofs *)

Definition condition_of (cond : VcsCondition) : Condition :=
  match cond with
  | VcsCondVersion v => version_is v
  | VcsCondOverwrite => overwrite
  | VcsCondIfNotExists => createIfNotExists
  end.

Lemma toCVcsConditionMode_spec cond :
  let '(mode, ver) := toCVcsConditionMode cond in update_condition mode ver = condition_of cond.
Proof. by destruct cond. Qed.

(** Reading the latest configuration gives what the store holds. *)
Lemma get_latest_answers key n s s1 val s2 retries fuel :
  C_AGAIN <> OK ->
  nsteps (fun x y => exists v, getLatestConfig x key = (C_AGAIN, v, y)) n s s1 ->
  getLatestConfig s1 key = (OK, val, s2) ->
  (retries < 0 \/ Z.of_nat n <= retries) -> (n < fuel)%nat ->
  ldVcsGetLatestConfig fuel s key retries = Some (Returns val, s2) /\ config s1 key = Some val.
Proof.
  intros Hne Hs Hg Hr Hfuel. split; [|by apply (getLatestConfig_OK _ _ _ _ Hg)].
  pose proof (proj2 (Z.eqb_neq _ _) Hne) as Eag. unfold ldVcsGetLatestConfig.
  rewrite (retry_answers (fun st => st =? OK) C_AGAIN _ Eag n s s1 OK val s2); auto.
  - by rewrite Z.eqb_refl.
  - eapply nsteps_congruence with (f := id); [|exact Hs]. intros x y [v Hxy]. exists []. unfold id,
      logdevice_vcs_get_latest_config, peekVcsValueCallbackData, value_cb. rewrite Hxy. cbn. rewrite Eag. cbn.
    by rewrite Eag.
  - unfold logdevice_vcs_get_latest_config, peekVcsValueCallbackData, value_cb. rewrite Hg. cbn.
    rewrite Z.eqb_refl. cbn. by rewrite Z.eqb_refl.
Qed.

(** The store answers an update with AGAIN. *)
Definition again_update key new cond s s' : Prop :=
  exists ver val, updateConfig s key new (condition_of cond) = (C_AGAIN, ver, val, s').

Lemma update_once_spec key arr off len cond new s :
  value_string arr off len = Some new ->
  update_once key arr off len cond s =
    let '(st, ver, val, s') := updateConfig s key new (condition_of cond) in
    Some (st, if (st =? OK) || (st =? VERSION_MISMATCH) then (ver, val) else (EMPTY_VERSION, []), s').
Proof.
  intros Hv. pose proof (toCVcsConditionMode_spec cond) as Hc. unfold update_once.
  destruct (toCVcsConditionMode cond) as [mode v]. unfold logdevice_vcs_update_config. rewrite Hv, Hc.
  cbn [mbind option_bind]. destruct (updateConfig s key new (condition_of cond)) as [[[st ver] val] s'].
  unfold write_cb, peekVcsWriteCallbackData. cbn. destruct ((st =? OK) || (st =? VERSION_MISMATCH)) eqn:E;
    cbn; by rewrite E.
Qed.

(** An update that is answered after some AGAINs, with success or a mismatch,
    gives the caller the version and the value of the answer. *)
Lemma update_answers key arr off len cond new n s s1 st ver val s2 retries fuel :
  C_AGAIN <> OK -> C_AGAIN <> VERSION_MISMATCH ->
  value_string arr off len = Some new ->
  nsteps (again_update key new cond) n s s1 ->
  updateConfig s1 key new (condition_of cond) = (st, ver, val, s2) ->
  st = OK \/ st = VERSION_MISMATCH ->
  (retries < 0 \/ Z.of_nat n <= retries) -> (n < fuel)%nat ->
  ldVcsUpdateConfig fuel s key arr off len cond retries = Some (Returns (ver, val), s2).
Proof.
  intros H1 H2 Hv Hs Hu Hst Hr Hfuel. unfold ldVcsUpdateConfig.
  assert ((st =? OK) || (st =? VERSION_MISMATCH) = true) as Eacc
    by (destruct Hst as [->| ->]; rewrite Z.eqb_refl, ?orb_true_r; done).
  assert ((C_AGAIN =? OK) || (C_AGAIN =? VERSION_MISMATCH) = false) as Eag
    by by rewrite (proj2 (Z.eqb_neq _ _) H1), (proj2 (Z.eqb_neq _ _) H2).
  rewrite (retry_answers (fun st => (st =? OK) || (st =? VERSION_MISMATCH)) C_AGAIN _ Eag
    n s s1 st (ver, val) s2); auto; [by rewrite Eacc| | |].
  - eapply nsteps_congruence with (f := id); [|exact Hs]. intros x y (w & b & Hxy). eexists.
    unfold id. by rewrite (update_once_spec _ _ _ _ _ new), Hxy, Eag.
  - by rewrite (update_once_spec _ _ _ _ _ new), Hu, Eacc.
  - intros ->. rewrite Eag in Eacc. done.
Qed.

Lemma nsteps_config key new cond n s s' :
  (forall x y, again_update key new cond x y -> config y = config x) ->
  nsteps (again_update key new cond) n s s' -> config s' = config s.
Proof. intros Ha. induction 1 as [|n x y z Hxy Hs IH]; [done|]. rewrite IH. by apply Ha. Qed.

End client.
End ConfigClient.

Module ConfigClientWitness.
Import ConfigClient.

#[refine] Instance codes : StatusCodes := {| OK := 0; VERSION_MISMATCH := 1 |}.
Proof. done. Defined.

Definition holds_b (old : option bytes) (cond : Condition) : bool :=
  match cond with
  | overwrite => true
  | createIfNotExists => bool_decide (old = None)
  | version_is v => bool_decide (old ≫= extract_function = Some v)
  end.

Lemma holds_b_spec old cond : holds_b old cond = true <-> condition_holds old cond.
Proof.
  destruct cond as [| |v]; simpl; [done|apply bool_decide_eq_true|].
  rewrite bool_decide_eq_true. destruct old; simpl; naive_solver.
Qed.

(** A store that answers the first updates with AGAIN, here status 9. *)
Notation mem_vcs := (nat * gmap bytes bytes)%type.
Definition mem_update (s : mem_vcs) (k new : bytes) (cond : Condition) : Z * Z * bytes * mem_vcs :=
  match s.1, extract_function new with
  | S n, _ => (9, 0, [], (n, s.2))
  | O, None => (4, 0, [], s)
  | O, Some ver =>
      if holds_b (s.2 !! k) cond then (0, ver, new, (O, <[k := new]> s.2))
      else (1, default 0 (s.2 !! k ≫= extract_function), default [] (s.2 !! k), s)
  end.
Definition mem_get (s : mem_vcs) (k : bytes) : Z * bytes * mem_vcs :=
  match s.2 !! k with Some val => (0, val, s) | None => (2, [], s) end.

#[refine] Instance memory_vcs : VcsLib mem_vcs := {|
  EMPTY_VERSION := 0;
  config s k := s.2 !! k;
  getConfig s k _ := mem_get s k;
  getLatestConfig := mem_get;
  updateConfig := mem_update;
|}.
Proof.
  - intros s k val s'. unfold mem_get. destruct (s.2 !! k); naive_solver.
  - intros [[|n] m] k new cond ver val s'; unfold mem_update; simpl; [|done].
    destruct (extract_function new) as [v|] eqn:E; [|done].
    destruct (holds_b (m !! k) cond) eqn:Eh; [|done]. intros [= -> -> <-]. apply holds_b_spec in Eh.
    split_and!; [done..| |]; simpl; [by rewrite lookup_insert_eq|intros; by rewrite lookup_insert_ne].
  - intros [[|n] m] k new cond ver val s'; unfold mem_update; simpl; [|done].
    destruct (extract_function new) as [v|] eqn:E; [|done].
    destruct (holds_b (m !! k) cond) eqn:Eh; [done|]. intros [= <- <- <-].
    split; [rewrite <- holds_b_spec, Eh; done|]. split; [done|]. intros old Hold. rewrite Hold. simpl.
    destruct (extract_function old) as [w|]; simpl; eauto.
Defined.

End ConfigClientWitness.
