(* ===== verification/KafkaRendezvous.v ===== *)
(** * A request between C++ and Haskell (hs_kafka_server.cpp, Network.hs)

    KafkaServer describes a session as if the Haskell handler were a function.
    Here is why it may: the session's coroutine passes pointers to its own frame
    (the request, the response and a lock) to Haskell, waits for the lock, and
    ends the frame; a Haskell thread reads the request, writes the response and
    releases the lock (src/hstream-kafka/HStream/Kafka/Network.hs, Network/Cxx.hsc).
    The two run concurrently: a connection is a transition system, one action at a
    time in any order. *)

From stdpp Require Import base gmap list relations.
From Stdlib Require Import ZArith Lia.
From S2P Require Import Prelude.

Module KafkaRendezvous.

Notation bytes := (list Z).

(** What [handleKafkaMsg] does with a request: it returns a response, it throws
    under [E.catch], or it returns a value that is not evaluated yet and throws
    when it is. *)
Inductive outcome := Replies (data : bytes) | Fails | FailsLater.

(** ** State *)

(** The locals of one round of [ServerHandler::handler]: [msg_bytes_], the
    [response], whose [data] is null or not, and the messages in [coro_lock],
    a channel. *)
Record frame := { payload : bytes; response : option bytes; channel : nat }.

(** The coroutine: before a read, waiting for the lock, woken up, or ended. *)
Inductive phase := Reading | Waiting | Received | Closed.

(** The thread [processorCallback] forks: before it reads the request, before it
    handles it, before it writes the response, before it releases the lock,
    waiting for the wake-up of [release_lock]; ended, or ended by an exception. *)
Inductive hs_thread :=
| Forked | Peeked (request : bytes) | Handled (respBs : outcome) | Poked | Releasing | Done | Died.

(** A connection. Thread [i] was forked in round [i]; its pointers are valid
    while that round's frame is. [fault]: a dead pointer was used. *)
Record conn := {
  to_read : list bytes;
  round : nat;
  session : phase;
  frame_ : option frame;
  threads : gmap nat hs_thread;
  sent : list bytes;
  stable_ptr : bool;
  fault : bool;
}.

(** A connection of a client that sends [requests]. *)
Definition connect (requests : list bytes) : conn :=
  {| to_read := requests; round := 0; session := Reading; frame_ := None; threads := ∅;
     sent := []; stable_ptr := true; fault := false |}.

Definition with_frame (c : conn) (f : option frame) (s : phase) : conn :=
  {| to_read := to_read c; round := round c; session := s; frame_ := f; threads := threads c;
     sent := sent c; stable_ptr := stable_ptr c; fault := fault c |}.
Definition with_thread (c : conn) (i : nat) (t : hs_thread) : conn :=
  {| to_read := to_read c; round := round c; session := session c; frame_ := frame_ c;
     threads := <[i := t]> (threads c); sent := sent c; stable_ptr := stable_ptr c;
     fault := fault c |}.
Definition faulty (c : conn) : conn :=
  {| to_read := to_read c; round := round c; session := session c; frame_ := frame_ c;
     threads := threads c; sent := sent c; stable_ptr := stable_ptr c; fault := true |}.

(** ** The coroutine *)

(** A request has arrived: the frame is set up and [callback_] called, which
    forks a thread and returns. *)
Definition session_read (c : conn) : option conn :=
  match session c, to_read c with
  | Reading, r :: rest =>
      Some {| to_read := rest; round := round c; session := Waiting;
              frame_ := Some {| payload := r; response := None; channel := 0 |};
              threads := <[round c := Forked]> (threads c); sent := sent c;
              stable_ptr := stable_ptr c; fault := fault c |}
  | _, _ => None
  end.

(** The coroutine ends: its frame is gone, and with the last reference to the
    handler its destructor frees the stable pointer. *)
Definition session_end (c : conn) : conn :=
  {| to_read := to_read c; round := round c; session := Closed; frame_ := None;
     threads := threads c; sent := sent c; stable_ptr := false; fault := fault c |}.

(** The read fails. *)
Definition session_eof (c : conn) : option conn :=
  if session c is Reading then Some (session_end c) else None.

(** [co_await coro_lock.async_receive(...)]. *)
Definition session_receive (c : conn) : option conn :=
  match session c, frame_ c with
  | Waiting, Some fr =>
      match channel fr with
      | S n => Some (with_frame c (Some {| payload := payload fr; response := response fr;
                                           channel := n |}) Received)
      | O => None
      end
  | _, _ => None
  end.

(** The rest of the round; [ok]: the socket is open and the write does not
    fail. *)
Definition session_respond (ok : bool) (c : conn) : option conn :=
  match session c, frame_ c with
  | Received, Some fr =>
      match response fr, ok with
      | Some data, true =>
          Some {| to_read := to_read c; round := S (round c); session := Reading; frame_ := None;
                  threads := threads c; sent := sent c ++ [data]; stable_ptr := stable_ptr c;
                  fault := fault c |}
      | _, _ => Some (session_end c)
      end
  | _, _ => None
  end.

(** ** The Haskell threads *)

Section haskell.
Context (handle : bytes -> outcome).

(** The frame thread [i] has pointers to. *)
Definition frame_of (c : conn) (i : nat) : option frame :=
  if bool_decide (i = round c) then frame_ c else None.

(** [deRefStablePtr] and [peek request_ptr]. *)
Definition hs_peek (c : conn) (i : nat) : conn :=
  match frame_of c i, stable_ptr c with
  | Some fr, true => with_thread c i (Peeked (payload fr))
  | _, _ => faulty c
  end.

(** [handleKafkaMsg] under [E.catch]; the bytes it reads are the frame's. *)
Definition hs_handle (c : conn) (i : nat) (request : bytes) : conn :=
  match frame_of c i with
  | Some _ => with_thread c i (Handled (handle request))
  | None => faulty c
  end.

(** [poke response_ptr]: [mallocFromMaybeByteString] evaluates the bytes. *)
Definition hs_poke (c : conn) (i : nat) (respBs : outcome) : conn :=
  match frame_of c i with
  | Some fr =>
      let poke data := with_thread (with_frame c (Some {| payload := payload fr; response := data;
                                                          channel := channel fr |}) (session c)) i Poked in
      match respBs with
      | Replies data => poke (Some data)
      | Fails => poke None
      | FailsLater => with_thread c i Died
      end
  | None => faulty c
  end.

(** [ka_release_lock]: one message into the channel. *)
Definition ka_release_lock (c : conn) (i : nat) : conn :=
  match frame_of c i with
  | Some fr => with_thread (with_frame c (Some {| payload := payload fr; response := response fr;
                                                  channel := S (channel fr) |}) (session c)) i Releasing
  | None => faulty c
  end.

Definition hs_step (i : nat) (c : conn) : option conn :=
  t ← threads c !! i;
  match t with
  | Forked => Some (hs_peek c i)
  | Peeked request => Some (hs_handle c i request)
  | Handled respBs => Some (hs_poke c i respBs)
  | Poked => Some (ka_release_lock c i)
  | Releasing => Some (with_thread c i Done)
  | Done | Died => None
  end.

(** ** Interleavings *)

(** [served]: the network does not end the connection. *)
Inductive served : conn -> conn -> Prop :=
| step_read c c' : session_read c = Some c' -> served c c'
| step_receive c c' : session_receive c = Some c' -> served c c'
| step_respond c c' : session_respond true c = Some c' -> served c c'
| step_hs i c c' : hs_step i c = Some c' -> served c c'.

Inductive step : conn -> conn -> Prop :=
| step_served c c' : served c c' -> step c c'
| step_eof c c' : session_eof c = Some c' -> step c c'
| step_failed c c' : session_respond false c = Some c' -> step c c'.

(** ** Proofs *)

Definition reply_of (o : outcome) : option bytes := if o is Replies d then Some d else None.

(** A thread that uses no pointer any more. *)
Definition released (t : hs_thread) : Prop := t = Releasing \/ t = Done.

(** Where the thread of the current round may be, and what it has left in the
    frame. *)
Definition thread_ok (fr : frame) (t : hs_thread) : Prop :=
  match t with
  | Forked => response fr = None /\ channel fr = 0%nat
  | Peeked r => r = payload fr /\ channel fr = 0%nat
  | Handled o => o = handle (payload fr) /\ channel fr = 0%nat
  | Poked => handle (payload fr) <> FailsLater /\ response fr = reply_of (handle (payload fr)) /\
             channel fr = 0%nat
  | Releasing | Done => response fr = reply_of (handle (payload fr)) /\ channel fr = 1%nat
  | Died => handle (payload fr) = FailsLater /\ channel fr = 0%nat
  end.

Record good (requests : list bytes) (c : conn) : Prop := {
  good_fault : fault c = false;
  good_old : forall i t, threads c !! i = Some t -> i <> round c -> (i < round c)%nat /\ released t;
  good_sent : Forall2 (fun r d => handle r = Replies d) (take (round c) requests) (sent c);
  good_session :
    match session c with
    | Reading => frame_ c = None /\ stable_ptr c = true /\ threads c !! round c = None /\
                 drop (round c) requests = to_read c
    | Waiting => stable_ptr c = true /\ exists fr t, frame_ c = Some fr /\
                 threads c !! round c = Some t /\ thread_ok fr t /\
                 drop (round c) requests = payload fr :: to_read c
    | Received => stable_ptr c = true /\ exists fr t, frame_ c = Some fr /\
                 threads c !! round c = Some t /\ released t /\
                 response fr = reply_of (handle (payload fr)) /\
                 drop (round c) requests = payload fr :: to_read c
    | Closed => forall t, threads c !! round c = Some t -> released t
    end;
}.

Lemma good_connect requests : good requests (connect requests).
Proof. constructor; simpl; [done| |constructor|done]. intros i t Hi. by rewrite lookup_empty in Hi. Qed.

Lemma session_read_good requests c c' : session_read c = Some c' -> good requests c -> good requests c'.
Proof.
  unfold session_read. intros E [Hf Ho Hs Hp]. destruct (session c), (to_read c) as [|r rest] eqn:Er; simplify_eq/=.
  destruct Hp as (_ & Hsp & Hn & Hd). constructor; simpl; [done| |done|].
  - intros i t Hi Hne. rewrite lookup_insert_ne in Hi by done. eauto.
  - split; [done|]. eexists _, _. split; [done|]. rewrite lookup_insert_eq. split; [done|]. by rewrite Hd.
Qed.

Lemma session_end_good requests c :
  good requests c -> (forall t, threads c !! round c = Some t -> released t) ->
  good requests (session_end c).
Proof. intros [Hf Ho Hs Hp] Ht. by constructor. Qed.

Lemma session_receive_good requests c c' :
  session_receive c = Some c' -> good requests c -> good requests c'.
Proof.
  unfold session_receive. intros E [Hf Ho Hs Hp]. destruct (session c), (frame_ c) as [fr|] eqn:Ef; simplify_eq/=.
  destruct (channel fr) as [|n] eqn:Ec; simplify_eq/=. destruct Hp as (Hsp & fr' & t & [= <-] & Ht & Hok & Hd).
  constructor; simpl; [done..|]. split; [done|]. eexists _, t. split; [done|]. split; [done|].
  simpl. unfold released. destruct t; simpl in Hok; destruct_and?; simplify_eq; try lia; auto.
Qed.

Lemma take_S_Forall2 requests c r d :
  Forall2 (fun r d => handle r = Replies d) (take (round c) requests) (sent c) ->
  requests !! round c = Some r -> handle r = Replies d ->
  Forall2 (fun r d => handle r = Replies d) (take (S (round c)) requests) (sent c ++ [d]).
Proof. intros Hs Hr Hd. rewrite (take_S_r _ _ r) by done. apply Forall2_app; [done|]. by repeat constructor. Qed.

Lemma session_respond_good requests ok c c' :
  session_respond ok c = Some c' -> good requests c -> good requests c'.
Proof.
  unfold session_respond. intros E G. pose proof G as [Hf Ho Hs Hp].
  destruct (session c), (frame_ c) as [fr|] eqn:Ef; simplify_eq/=.
  destruct Hp as (Hsp & fr' & t & [= <-] & Ht & Hrel & Hr & Hd).
  assert (good requests (session_end c)) as Hend by (apply session_end_good; [done|]; naive_solver).
  destruct (response fr) as [d|] eqn:Ed, ok; simplify_eq; try done.
  assert (handle (payload fr) = Replies d) as Hh by (unfold reply_of in Hr; by destruct (handle _); simplify_eq).
  assert (requests !! round c = Some (payload fr)) as Hreq.
  { rewrite <- (Nat.add_0_r (round c)), <- lookup_drop, Hd. done. }
  constructor; simpl; [done| |by eapply take_S_Forall2; eauto|].
  - intros i u Hi Hne. destruct (decide (i = round c)) as [->|]; [split; [lia|congruence]|].
    destruct (Ho i u Hi); [done|]. split; [lia|done].
  - split; [done|]. split; [done|]. split.
    + destruct (threads c !! S (round c)) as [u|] eqn:Eu; [|done]. destruct (Ho _ _ Eu); lia.
    + rewrite (drop_S _ _ _ Hreq) in Hd. congruence.
Qed.

(** A thread that was released only waits for its wake-up. *)
Lemma hs_done_good requests i c :
  threads c !! i = Some Releasing -> good requests c -> good requests (with_thread c i Done).
Proof.
  intros Ht [Hf Ho Hs Hp]. constructor; simpl; [done| |done|].
  - intros j t Hj Hne. destruct (decide (i = j)) as [->|Hij]; [|rewrite lookup_insert_ne in Hj by done; eauto].
    rewrite lookup_insert_eq in Hj. destruct (Ho _ _ Ht Hne). simplify_eq. split; [done|by right].
  - destruct (decide (i = round c)) as [->|Hij].
    + rewrite lookup_insert_eq. destruct (session c).
      * naive_solver.
      * destruct Hp as (? & fr & t & ? & ? & Hok & ?). simplify_eq. split; [done|]. by exists fr, Done.
      * destruct Hp as (? & fr & t & ? & ? & ? & ? & ?). split; [done|]. exists fr, Done. unfold released. auto.
      * intros t [= <-]. by right.
    + by rewrite lookup_insert_ne.
Qed.

(** The thread of the current round while the session waits for it. *)
Lemma hs_waiting_good requests c c' fr t :
  good requests c -> session c = Waiting -> frame_ c = Some fr -> threads c !! round c = Some t ->
  hs_step (round c) c = Some c' -> good requests c'.
Proof.
  intros [Hf Ho Hs Hp] Ew Ef Et E. rewrite Ew in Hp. destruct Hp as (Hsp & fr' & t' & Ef' & Et' & Hok & Hd).
  assert (fr' = fr) as -> by congruence. assert (t' = t) as -> by congruence. clear Ef' Et'.
  unfold hs_step, hs_peek, hs_handle, hs_poke, ka_release_lock, frame_of in E.
  rewrite Et, bool_decide_eq_true_2, Ef, Hsp in E by done. cbn [mbind option_bind] in E.
  assert (forall fr' t', thread_ok fr' t' -> payload fr' = payload fr ->
    good requests (with_thread (with_frame c (Some fr') Waiting) (round c) t')) as Hgood.
  { intros fr' t' Hok' Hp. constructor; simpl; [done| |done|].
    - intros j u Hj Hne. rewrite lookup_insert_ne in Hj by done. eauto.
    - rewrite Hsp. split; [done|]. exists fr', t'. rewrite lookup_insert_eq, Hp. done. }
  assert (forall t', with_thread c (round c) t' = with_thread (with_frame c (Some fr) Waiting) (round c) t') as Hsame
    by (intros; unfold with_thread, with_frame; simpl; by rewrite Ew, Ef).
  destruct t as [|r|o| | | |]; simpl in Hok; destruct_and?; simplify_eq; rewrite ?Ew, ?Hsame.
  - by apply Hgood.
  - by apply Hgood.
  - destruct (handle (payload fr)) as [d| |] eqn:Eh; rewrite ?Ew, ?Hsame; apply Hgood; simpl; rewrite ?Eh; done.
  - apply Hgood; simpl; [split; [done|lia]|done].
  - by apply Hgood.
Qed.

Lemma hs_step_good requests i c c' : hs_step i c = Some c' -> good requests c -> good requests c'.
Proof.
  intros E G. pose proof G as [Hf Ho Hs Hp]. destruct (threads c !! i) as [t|] eqn:Et; [|unfold hs_step in E; by rewrite Et in E].
  assert (released t -> good requests c') as Hrel.
  { intros [->| ->]; unfold hs_step in E; rewrite Et in E; simplify_eq/=. by apply hs_done_good. }
  destruct (decide (i = round c)) as [->|Hne]; [|by apply Hrel, (Ho i t)].
  destruct (session c) eqn:Es.
  - naive_solver.
  - destruct Hp as (_ & fr & t' & ? & ? & _). simplify_eq. by eapply hs_waiting_good.
  - destruct Hp as (_ & fr & t' & ? & ? & ? & _). simplify_eq. by apply Hrel.
  - by apply Hrel, Hp.
Qed.

Lemma served_good requests c c' : served c c' -> good requests c -> good requests c'.
Proof.
  intros [? ? E|? ? E|? ? E|i ? ? E]; [by apply session_read_good|by apply session_receive_good|
    by eapply session_respond_good|by eapply hs_step_good].
Qed.

Lemma step_good requests c c' : step c c' -> good requests c -> good requests c'.
Proof.
  intros [? ? E|? ? E|? ? E] G; [by eapply served_good| |by eapply session_respond_good].
  unfold session_eof in E. destruct (session c0) eqn:Es; simplify_eq. apply session_end_good; [done|].
  destruct G as [_ _ _ Hp]. rewrite Es in Hp. naive_solver.
Qed.

Lemma rtc_good requests c c' : rtc step c c' -> good requests c -> good requests c'.
Proof. induction 1 as [|x y z Hxy Hyz IH]; [done|]. intros G. apply IH. by eapply step_good. Qed.

Lemma reachable_good requests c : rtc step (connect requests) c -> good requests c.
Proof. intros H. eapply rtc_good; [done|apply good_connect]. Qed.

(** *** Termination *)

Definition weight (t : hs_thread) : nat :=
  match t with
  | Forked => 5 | Peeked _ => 4 | Handled _ => 3 | Poked => 2 | Releasing => 1 | Done | Died => 0
  end.

Definition phase_weight (s : phase) : nat :=
  match s with Reading => 1 | Waiting => 3 | Received => 2 | Closed => 0 end.

(** How much can still happen on a connection. *)
Definition measure (c : conn) : nat :=
  (10 * length (to_read c) + phase_weight (session c) + msum Nat.add weight 0%nat (threads c))%nat.

Lemma msum_thread (m : gmap nat hs_thread) i t t' :
  m !! i = Some t -> (weight t' < weight t)%nat ->
  (msum Nat.add weight 0%nat (<[i := t']> m) < msum Nat.add weight 0%nat m)%nat.
Proof.
  intros Hi Hw. rewrite (msum_delete Nat.add weight m i t) by (done || apply _).
  rewrite <- insert_delete_eq, msum_insert by (apply _ || apply lookup_delete_eq). lia.
Qed.

Lemma hs_step_measure i c c' :
  hs_step i c = Some c' -> fault c' = false -> (measure c' < measure c)%nat.
Proof.
  intros E Hf. unfold hs_step in E. destruct (threads c !! i) as [t|] eqn:Et; [|done].
  assert (forall f t', (weight t' < weight t)%nat ->
    (measure (with_thread (with_frame c f (session c)) i t') < measure c)%nat) as Hm.
  { intros f t' Hw. unfold measure. simpl. pose proof (msum_thread _ _ _ t' Et Hw). lia. }
  assert (forall t', with_thread c i t' = with_thread (with_frame c (frame_ c) (session c)) i t') as Hsame by done.
  destruct t as [|r|o| | | |]; simplify_eq/=;
    unfold hs_peek, hs_handle, hs_poke, ka_release_lock in *; rewrite ?Hsame; [..|apply Hm; simpl; lia];
    destruct (frame_of c i) as [fr|]; try done; try destruct (stable_ptr c); try destruct o; try done;
    rewrite ?Hsame; apply Hm; simpl; lia.
Qed.

Lemma session_end_measure c : session c <> Closed -> (measure (session_end c) < measure c)%nat.
Proof. intros Hs. unfold measure. simpl. destruct (session c); simpl; [lia..|done]. Qed.

Lemma session_respond_measure ok c c' : session_respond ok c = Some c' -> (measure c' < measure c)%nat.
Proof.
  unfold session_respond. intros E. destruct (session c) eqn:Es, (frame_ c) as [fr|]; simplify_eq.
  assert (measure (session_end c) < measure c)%nat by (apply session_end_measure; by rewrite Es).
  destruct (response fr), ok; simplify_eq; try done. unfold measure. simpl. rewrite Es. simpl. lia.
Qed.

Lemma session_read_measure requests c c' :
  session_read c = Some c' -> good requests c -> (measure c' < measure c)%nat.
Proof.
  unfold session_read. intros E [_ _ _ Hp]. destruct (session c) eqn:Es, (to_read c) eqn:Er; simplify_eq.
  destruct Hp as (_ & _ & Hn & _). unfold measure. simpl. rewrite Es, Er, msum_insert by (done || apply _). simpl. lia.
Qed.

Lemma served_measure requests c c' :
  served c c' -> good requests c -> (measure c' < measure c)%nat.
Proof.
  intros Hst G. pose proof (served_good requests c c' Hst G) as G'. destruct Hst as [? ? E|? ? E|? ? E|i ? ? E].
  - by eapply session_read_measure.
  - unfold session_receive in E. destruct (session c) eqn:Es, (frame_ c) as [fr|]; simplify_eq.
    destruct (channel fr); simplify_eq. unfold measure. simpl. rewrite Es. simpl. lia.
  - by eapply session_respond_measure.
  - eapply hs_step_measure; [done|apply G'].
Qed.

Lemma step_measure requests c c' : step c c' -> good requests c -> (measure c' < measure c)%nat.
Proof.
  intros [? ? Hst|? ? E|? ? E] G; [by eapply served_measure| |by eapply session_respond_measure].
  unfold session_eof in E. destruct (session c0) eqn:Es; simplify_eq. apply session_end_measure. by rewrite Es.
Qed.

Lemma good_sn requests c : good requests c -> sn step c.
Proof.
  remember (measure c) as n eqn:En. revert c En. induction (lt_wf n) as [n _ IH]. intros c -> G.
  constructor. intros c' Hst. eapply IH; [by eapply step_measure|done|by eapply step_good].
Qed.

(** *** Properties *)

Lemma good_answers requests c :
  good requests c -> Forall2 (fun r d => handle r = Replies d) (take (length (sent c)) requests) (sent c).
Proof.
  intros [_ _ Hs _]. pose proof (Forall2_length _ _ _ Hs) as Hl. rewrite length_take in Hl.
  destruct (decide (round c <= length requests)%nat).
  - by replace (length (sent c)) with (round c) by lia.
  - rewrite take_ge in Hs by lia. by rewrite take_ge by lia.
Qed.

(** When all handlers reply and the network does not end it, a connection stays
    open. *)
Lemma served_open requests c c' :
  Forall (fun r => exists d, handle r = Replies d) requests ->
  served c c' -> good requests c -> session c <> Closed -> session c' <> Closed.
Proof.
  intros Hall Hst [_ _ _ Hp] Ho. destruct Hst as [? ? E|? ? E|? ? E|i ? ? E].
  - unfold session_read in E. by destruct (session c), (to_read c); simplify_eq.
  - unfold session_receive in E. destruct (session c), (frame_ c) as [fr|]; simplify_eq.
    by destruct (channel fr); simplify_eq.
  - unfold session_respond in E. destruct (session c), (frame_ c) as [fr|]; simplify_eq.
    destruct Hp as (_ & fr' & t & [= <-] & _ & _ & Hr & Hd).
    assert (payload fr ∈ requests) as Hin by (rewrite <- (take_drop (round c) requests), Hd; set_solver).
    rewrite Forall_forall in Hall. destruct (Hall _ Hin) as [d Hh]. rewrite Hr, Hh in E. by simplify_eq/=.
  - unfold hs_step in E. destruct (threads c !! i) as [t|]; simplify_eq/=.
    destruct t as [|r|o| | | |]; simplify_eq/=; unfold hs_peek, hs_handle, hs_poke, ka_release_lock;
      destruct (frame_of c i); try destruct (stable_ptr c); try destruct o; done.
Qed.

(** A state in which a session waits for its thread is not at rest unless the
    thread died. *)
Lemma waiting_moves requests c :
  good requests c -> session c = Waiting -> (forall c', ~ served c c') ->
  exists fr, frame_ c = Some fr /\ threads c !! round c = Some Died /\ handle (payload fr) = FailsLater /\
    requests !! round c = Some (payload fr).
Proof.
  intros [_ _ _ Hp] Es Hnf. rewrite Es in Hp. destruct Hp as (_ & fr & t & Ef & Et & Hok & Hd).
  assert (forall c', hs_step (round c) c = Some c' -> False) as Hhs by (intros c' E; eapply Hnf; by eapply step_hs).
  assert (forall c', session_receive c = Some c' -> False) as Hrc by (intros c' E; eapply Hnf; by eapply step_receive).
  unfold hs_step in Hhs. rewrite Et in Hhs. unfold session_receive in Hrc. rewrite Es, Ef in Hrc.
  assert (requests !! round c = Some (payload fr)) as Hreq
    by (rewrite <- (Nat.add_0_r (round c)), <- lookup_drop, Hd; done).
  destruct t as [|r|o| | | |]; simpl in Hok; try (by edestruct Hhs); destruct Hok as [Hh Hc].
  - rewrite Hc in Hrc. by edestruct Hrc.
  - by exists fr.
Qed.

(** C15: the session and the Haskell threads use no dead pointer (request,
    response, lock or stable pointer) in any interleaving, and what is sent are
    the handler's replies to the first requests, in order; a connection always
    comes to rest. When every handler replies and the client keeps the
    connection, all requests are answered then. *)
Theorem rendezvous_exact requests c :
  rtc step (connect requests) c ->
  fault c = false /\
  Forall2 (fun r d => handle r = Replies d) (take (length (sent c)) requests) (sent c) /\
  sn step c /\
  (Forall (fun r => exists d, handle r = Replies d) requests ->
   rtc served (connect requests) c -> (forall c', ~ served c c') ->
   Forall2 (fun r d => handle r = Replies d) requests (sent c)).
Proof.
  intros Hr. pose proof (reachable_good _ _ Hr) as G. split_and!; [apply G|by apply good_answers|by eapply good_sn|].
  intros Hall Hsv Hnf.
  assert (session c <> Closed) as Ho.
  { clear Hr G Hnf. revert Hsv. generalize (good_connect requests). assert (session (connect requests) <> Closed) as H0 by done.
    revert H0. generalize (connect requests). intros c0 H0 G0 Hsv. induction Hsv as [|x y z Hxy _ IH]; [done|].
    apply IH; [by eapply served_open|by eapply served_good]. }
  pose proof G as [_ _ Hs Hp]. destruct (session c) eqn:Es; [| | |done].
  - destruct Hp as (_ & _ & _ & Hd). destruct (to_read c) eqn:Er.
    + rewrite <- (take_drop (round c) requests), Hd, app_nil_r. done.
    + edestruct Hnf. apply step_read. unfold session_read. by rewrite Es, Er.
  - destruct (waiting_moves requests c G Es Hnf) as (fr & _ & _ & Hl & Hreq).
    rewrite Forall_forall in Hall. destruct (Hall _ (list_elem_of_lookup_2 _ _ _ Hreq)) as [d Hd]. congruence.
  - destruct Hp as (_ & fr & t & Ef & _ & _ & _ & _). destruct (response fr) eqn:Ed;
      edestruct Hnf; apply step_respond; unfold session_respond; by rewrite Es, Ef, Ed.
Qed.

(** A session whose thread died waits for ever. *)
Lemma died_stuck requests c c' :
  good requests c -> session c = Waiting -> threads c !! round c = Some Died -> step c c' ->
  session c' = Waiting /\ threads c' !! round c' = Some Died /\ sent c' = sent c.
Proof.
  intros [_ Ho _ Hp] Es Ed Hst. rewrite Es in Hp. destruct Hp as (_ & fr & t & Ef & Et & Hok & _).
  assert (t = Died) as -> by congruence. destruct Hok as [_ Hc].
  inversion Hst as [? ? Hsv|? ? E|? ? E]; subst;
    [inversion Hsv as [? ? E|? ? E|? ? E|i ? ? E]; subst|..];
    unfold session_read, session_receive, session_respond, session_eof in E; rewrite ?Es, ?Ef, ?Hc in E; try done.
  unfold hs_step in E. destruct (threads c !! i) as [t|] eqn:Eti; [|done].
  destruct (decide (i = round c)) as [->|Hne]; [assert (t = Died) as -> by congruence; done|].
  destruct (Ho _ _ Eti Hne) as [_ [->| ->]]; simplify_eq/=. split_and!; [done| |done]. by rewrite lookup_insert_ne.
Qed.

End haskell.
End KafkaRendezvous.

Module KafkaRendezvousWitness.
Import KafkaRendezvous.

(** A handler that replies, and one whose reply cannot be evaluated. *)
Definition echo (r : list Z) : outcome := Replies (r ++ [0]).
Definition late (r : list Z) : outcome := FailsLater.

Definition answered : conn :=
  {| to_read := []; round := 1; session := Reading; frame_ := None; threads := {[ 0%nat := Done ]};
     sent := [[7; 0]]; stable_ptr := true; fault := false |}.
Definition hung : conn :=
  {| to_read := [[8]]; round := 0; session := Waiting;
     frame_ := Some {| payload := [7]; response := None; channel := 0 |};
     threads := {[ 0%nat := Died ]}; sent := []; stable_ptr := true; fault := false |}.

Ltac run_step tac := eapply rtc_l; [tac; reflexivity|].

Lemma answered_reached : rtc (served echo) (connect [[7]]) answered.
Proof.
  run_step ltac:(apply step_read). do 4 run_step ltac:(apply (step_hs _ 0)).
  run_step ltac:(apply step_receive). run_step ltac:(apply step_respond).
  run_step ltac:(apply (step_hs _ 0)). exact (rtc_refl _ _).
Qed.

Lemma hung_reached : rtc (step late) (connect [[7]; [8]]) hung.
Proof.
  run_step ltac:(apply step_served, step_read).
  do 3 run_step ltac:(apply step_served, (step_hs _ 0)). exact (rtc_refl _ _).
Qed.

Lemma answered_rests c' : ~ served echo answered c'.
Proof.
  intros H. inversion H as [? ? E|? ? E|? ? E|i ? ? E]; subst; try done.
  unfold hs_step in E. simpl in E. destruct i as [|i]; [done|].
  by rewrite lookup_singleton_ne in E.
Qed.

Lemma rendezvous_exact_witness :
  fault answered = false /\ Forall2 (fun r d => echo r = Replies d) [[7]] (sent answered).
Proof.
  destruct (rendezvous_exact echo [[7]] answered) as (Hf & _ & _ & H).
  - eapply rtc_subrel; [|exact answered_reached]. intros x y. apply step_served.
  - split; [exact Hf|]. apply H; [|exact answered_reached|exact answered_rests].
    repeat constructor. by eexists.
Defined.

End KafkaRendezvousWitness.
