(* ===== verification/StoreBench.v ===== *)
(** * The store's benchmarks (src/hstream-store/bench)

    checkpoint_store.cpp writes many checkpoints through LogDevice's checkpoint
    store; create_log_config_types.cpp makes many log groups. The measured times
    are left out of what the programs print. *)

From stdpp Require Import base gmap strings list pretty.
From Stdlib Require Import ZArith Lia Ascii.
From S2P Require Import Prelude ConfigStore CheckpointStore LogAttributes LdCall LogConfig.

Module StoreBench.

(** What the programs print. *)
Inductive event :=
| PrintRetry (n : Z)
| PrintFailed (status : Z)
| PrintRound (i : Z)
| PrintReason (reason : list Z)
| PrintUsage
| PrintNoClient.

(** Whether the program goes on, has called [exit] or died of an exception. *)
Inductive ending := Running | Exit (code : Z) | Terminated (e : exn).

(** ** Loops over [int] *)

(** Signed arithmetic: overflow is undefined. *)
Definition checked_int (x : Z) : option Z :=
  if (- 2 ^ 31 <=? x) && (x <? 2 ^ 31) then Some x else None.

Section loops.
Context {S : Type} (body : Z -> S -> option (S * ending)).

Fixpoint for_loop (n : nat) (i : Z) (s : S) : option (S * ending) :=
  match n with
  | O => Some (s, Running)
  | Datatypes.S n =>
      '(s, e) ← body i s;
      match e with
      | Running => i ← checked_int (i + 1); for_loop n i s
      | _ => Some (s, e)
      end
  end.

(** [for (int i = 1; i <= hi; ++i)]. *)
Definition for_upto (hi : Z) (s : S) : option (S * ending) := for_loop (Z.to_nat hi) 1 s.
End loops.

(** [i * 1000 + j]. *)
Definition log_of (i j : Z) : option Z := k ← checked_int (i * 1000); checked_int (k + j).

(** [std::stoi]: as [std::stoll], with the range of [int]. *)
Definition stoi (s : string) : res Z :=
  v ← ConfigStore.stoll (char_codes s);
  if checked_int v is Some v then Ok v else Err (StdExn "stoi: out_of_range").

(** ** checkpoint_store.cpp *)

Section checkpoints.
Context {St : Type} `{!CheckpointStoreLib St}.
Context (AGAIN : Z).

(** The [while (retry)] loop; [fuel] bounds the number of calls. *)
Fixpoint update_until (fuel : nat) (logid retry : Z) (s : St * list event)
    : option (St * list event * ending) :=
  match fuel with
  | O => None
  | S fuel =>
      let '(status, store) := updateLSN_one s.1 "x" logid 1 in
      if status =? st_OK then Some (store, s.2, Running)
      else if status =? AGAIN then
        retry ← checked_int (retry + 1);
        update_until fuel logid retry (store, s.2 ++ [PrintRetry retry])
      else Some (store, s.2 ++ [PrintFailed status], Exit 1)
  end.

Definition bench_round (fuel : nat) (y i : Z) (s : St * list event)
    : option (St * list event * ending) :=
  '(s, e) ← for_upto (fun j s => logid ← log_of i j; update_until fuel (u64 logid) 1 s) y s;
  match e with
  | Running => Some (s.1, s.2 ++ [PrintRound i], Running)
  | _ => Some (s, e)
  end.

Definition bench_checkpoint_store (fuel : nat) (x y : Z) (s : St * list event)
    : option (St * list event * ending) :=
  for_upto (bench_round fuel y) x s.

(** LogDevice's client and factories. *)
Context {Client : Type} (trimSync : Client -> Z -> Z -> Client) (LSN_OLDEST : Z).
Context (createRSMBasedCheckpointStore : Client -> Z -> Z -> St).
Context (createZookeeperBasedCheckpointStore : Client -> St).
Context (ClientFactory_create : string -> option Client).

Definition rsm_based (fuel : nat) (client : Client) (logid : Z) :=
  let client := trimSync client logid LSN_OLDEST in
  bench_checkpoint_store fuel 1000 1000 (createRSMBasedCheckpointStore client logid 5000, []).

Definition zk_based (fuel : nat) (client : Client) :=
  bench_checkpoint_store fuel 1000 1000 (createZookeeperBasedCheckpointStore client, []).

(** [return 0] after a benchmark that ended. *)
Definition return_0 (r : option (St * list event * ending)) : option (list event * ending) :=
  '(s, e) ← r; Some (s.2, if e is Running then Exit 0 else e).

(** [argv] holds the [argc] arguments; the pointer after them is null, and
    [std::stoi] of it is undefined. *)
Definition main (fuel : nat) (argv : list string) : option (list event * ending) :=
  match argv with
  | _ :: config_path :: ckp_type :: rest =>
      match ClientFactory_create config_path with
      | None => Some ([PrintNoClient], Exit 1)
      | Some client =>
          if bool_decide (ckp_type = "rsm") then
            arg ← head rest;
            match stoi arg with
            | Ok logid => return_0 (rsm_based fuel client (u64 logid))
            | Err e => Some ([], Terminated e)
            end
          else if bool_decide (ckp_type = "zk") then return_0 (zk_based fuel client)
          else Some ([PrintUsage], Exit 1)
      end
  | _ => Some ([PrintUsage], Exit 1)
  end.
End checkpoints.

(** ** create_log_config_types.cpp *)

Section groups.
Context `{C : LogsConfigLib}.

Definition path_of (i j : Z) : string := "/tmp/cpp/" +:+ pretty i +:+ "_" +:+ pretty j.

Definition make_one (i j : Z) (s : LC * list event) : option (LC * list event * ending) :=
  logid ← log_of i j;
  let '(client, r) :=
    makeLogGroupSync s.1 (char_codes (path_of i j)) (u64 logid, u64 logid)
      (with_ replicationFactor new_LogAttributes (Attribute_of (1 : ty replicationFactor))) true in
  match r with
  | inl _ => Some (client, s.2, Running)
  | inr (failure_reason, _) => Some (client, s.2 ++ [PrintReason failure_reason], Exit 1)
  end.

Definition create_round (y i : Z) (s : LC * list event) : option (LC * list event * ending) :=
  '(s, e) ← for_upto (make_one i) y s;
  match e with
  | Running => Some (s.1, s.2 ++ [PrintRound i], Running)
  | _ => Some (s, e)
  end.

Definition create_groups (x y : Z) : LC * list event -> option (LC * list event * ending) :=
  for_upto (create_round y) x.

(** [main]: the client of the factory, if any. *)
Definition create_main (client : option LC) : option (list event * ending) :=
  match client with
  | None => Some ([PrintNoClient], Exit 1)
  | Some client =>
      '(s, e) ← create_groups 1000 1000 (client, []);
      Some (s.2, if e is Running then Exit 0 else e)
  end.
End groups.

(** ** Proofs *)

Lemma checked_int_id x : is_i32 x -> checked_int x = Some x.
Proof.
  unfold is_i32, checked_int. intros [??].
  by rewrite (proj2 (Z.leb_le _ _)), (proj2 (Z.ltb_lt _ _)).
Qed.

Lemma log_of_eq i j :
  0 <= i <= 2 ^ 21 -> 0 <= j <= 2 ^ 20 -> log_of i j = Some (i * 1000 + j).
Proof.
  intros. unfold log_of. rewrite checked_int_id by (unfold is_i32; lia).
  apply checked_int_id. unfold is_i32. lia.
Qed.

(** A loop whose every round goes on keeps its invariant to the end. *)
Lemma for_loop_inv {S} (body : Z -> S -> option (S * ending)) (P : Z -> S -> Prop) n : forall lo s,
  (forall i s, lo <= i < lo + Z.of_nat n -> P i s ->
     exists s', body i s = Some (s', Running) /\ P (i + 1) s') ->
  P lo s -> - 2 ^ 31 <= lo -> lo + Z.of_nat n < 2 ^ 31 ->
  exists s', for_loop body n lo s = Some (s', Running) /\ P (lo + Z.of_nat n) s'.
Proof.
  induction n as [|n IH]; intros lo s Hbody Hs Hlo Hhi; cbn [for_loop].
  - exists s. rewrite Z.add_0_r. done.
  - destruct (Hbody lo s) as (s1 & -> & H1); [lia|done|]. cbn [mbind option_bind].
    rewrite checked_int_id by (unfold is_i32; lia). cbn [mbind option_bind].
    destruct (IH (lo + 1) s1) as (s2 & -> & H2); [|done|lia..|].
    { intros. apply Hbody; [lia|done]. }
    exists s2. by replace (lo + Z.of_nat (Datatypes.S n)) with (lo + 1 + Z.of_nat n) by lia.
Qed.

Lemma for_upto_inv {S} (body : Z -> S -> option (S * ending)) (P : Z -> S -> Prop) hi s :
  (forall i s, 1 <= i <= hi -> P i s -> exists s', body i s = Some (s', Running) /\ P (i + 1) s') ->
  P 1 s -> 0 <= hi < 2 ^ 31 - 1 ->
  exists s', for_upto body hi s = Some (s', Running) /\ P (hi + 1) s'.
Proof.
  intros Hbody Hs Hhi. destruct (for_loop_inv body P (Z.to_nat hi) 1 s) as (s' & E & HP); [|done|lia..|].
  { intros. apply Hbody; [lia|done]. }
  exists s'. split; [done|]. by replace (hi + 1) with (1 + Z.of_nat (Z.to_nat hi)) by lia.
Qed.

(** The pairs of rounds before round [j] of round [i]. *)
Definition before (y i j a b : Z) : Prop := 1 <= b <= y /\ 1 <= a /\ (a < i \/ (a = i /\ b < j)).

Lemma before_next y i j a b : 1 <= j <= y -> 1 <= i ->
  before y i (j + 1) a b <-> before y i j a b \/ (a = i /\ b = j).
Proof. unfold before. lia. Qed.

Lemma before_round y i a b : 0 <= y -> before y i (y + 1) a b <-> before y (i + 1) 1 a b.
Proof. unfold before. lia. Qed.

Section checkpoint_proofs.
Context {St : Type} `{!CheckpointStoreLib St} (AGAIN : Z) (N : nat).
Hypothesis AGAIN_OK : AGAIN <> st_OK.

(** A call answered with [AGAIN]. *)
Definition told_again (l : Z) (s s' : St) : Prop := updateLSN_one s "x" l 1 = (AGAIN, s').

(** The store asks less than [N] times in a row to try again, and changes
    nothing then. *)
Hypothesis settles : forall s l, exists n s1 s2, (n < N)%nat /\
  nsteps (told_again l) n s s1 /\ updateLSN_one s1 "x" l 1 = (st_OK, s2).
Hypothesis again_keeps : forall l s s' c, told_again l s s' -> contents s' c = contents s c.

Lemma update_until_stores l n s s1 s2 : nsteps (told_again l) n s s1 ->
  updateLSN_one s1 "x" l 1 = (st_OK, s2) -> forall fuel retry out,
  (n < fuel)%nat -> 0 <= retry -> retry + Z.of_nat n < 2 ^ 31 ->
  exists out', update_until AGAIN fuel l retry (s, out) = Some (s2, out', Running) /\
    forall c, contents s2 c = if decide (c = "x") then <[l := 1]> (contents s c) else contents s c.
Proof.
  induction 1 as [s|n s s' s'' Ha Hs IH]; intros Hok [|fuel] retry out Hf Hr Hb; try lia;
    cbn [update_until fst snd].
  - rewrite Hok, Z.eqb_refl. exists out. split; [done|]. intros c.
    pose proof (updateLSN_one_OK s "x" l 1 c) as Hc. rewrite Hok in Hc. cbn [fst snd] in Hc. rewrite (Hc eq_refl).
    by case_decide; subst.
  - pose proof Ha as Ha'. unfold told_again in Ha'. rewrite Ha', Z.eqb_refl.
    rewrite (proj2 (Z.eqb_neq _ _) AGAIN_OK), checked_int_id by (unfold is_i32; lia).
    destruct (IH Hok fuel (retry + 1) (out ++ [PrintRetry (retry + 1)])) as (out' & E & Hc); [lia..|].
    exists out'. split; [done|]. intros c. by rewrite Hc, (again_keeps _ _ _ _ Ha).
Qed.

(** The store [s] differs from [s0] in the logs of the rounds done. *)
Definition stored (s0 : St) (y i j : Z) (s : St * list event) : Prop :=
  (forall a b, before y i j a b -> contents s.1 "x" !! (a * 1000 + b) = Some 1) /\
  (forall c l, (c <> "x" \/ forall a b, before y i j a b -> l <> a * 1000 + b) ->
     contents s.1 c !! l = contents s0 c !! l).

Lemma stored_step s0 y i j fuel s : 1 <= i <= 2 ^ 21 -> 1 <= j <= y -> y <= 1000 ->
  (N <= fuel)%nat -> Z.of_nat N < 2 ^ 30 -> stored s0 y i j s ->
  exists s', (logid ← log_of i j; update_until AGAIN fuel (u64 logid) 1 s) = Some (s', Running) /\
    stored s0 y i (j + 1) s'.
Proof.
  intros Hi Hj Hy HN HN' [H1 H2]. destruct s as [s out]. rewrite log_of_eq by lia.
  cbn [mbind option_bind]. rewrite u64_id by (unfold is_u64; lia).
  destruct (settles s (i * 1000 + j)) as (n & s1 & s2 & Hn & Hs & Hok).
  destruct (update_until_stores _ _ _ _ _ Hs Hok fuel 1 out) as (out' & -> & Hc); [lia..|].
  exists (s2, out'). split; [done|]. cbn [fst snd] in *. split.
  - intros a b Hab%before_next; [|lia..]. cbn [fst]. rewrite Hc, decide_True by done.
    destruct Hab as [Hab|[-> ->]]; [|by rewrite lookup_insert_eq].
    destruct (decide (i * 1000 + j = a * 1000 + b)) as [->|Hne]; [by rewrite lookup_insert_eq|].
    rewrite lookup_insert_ne by done. by apply H1.
  - intros c l Hl. cbn [fst]. rewrite Hc. rewrite <- (H2 c l).
    2: { destruct Hl as [?|Hl]; [by left|right]. intros a b Hab. apply Hl, before_next; [lia..|by left]. }
    case_decide as Hx; [|done]. destruct Hl as [?|Hl]; [done|].
    rewrite lookup_insert_ne; [done|]. intros <-. apply (Hl i j); [|done].
    apply before_next; [lia..|by right].
Qed.

(** The benchmark ends, whatever the store's answers were on the way, when each
    call is accepted after less than [N] tries: every log of its [x] times [y]
    rounds then has the checkpoint 1, and nothing else has changed. *)
Theorem bench_stores_all (s0 : St) (x y : Z) fuel out :
  0 <= x <= 1000 -> 0 <= y <= 1000 -> (N <= fuel)%nat -> Z.of_nat N < 2 ^ 30 ->
  exists s out', bench_checkpoint_store AGAIN fuel x y (s0, out) = Some (s, out', Running) /\
    (forall i j, 1 <= i <= x -> 1 <= j <= y -> contents s "x" !! (i * 1000 + j) = Some 1) /\
    (forall c l, (c <> "x" \/ forall i j, 1 <= i <= x -> 1 <= j <= y -> l <> i * 1000 + j) ->
       contents s c !! l = contents s0 c !! l).
Proof.
  intros Hx Hy HN HN'.
  destruct (for_upto_inv (bench_round AGAIN fuel y) (fun i => stored s0 y i 1) x (s0, out))
    as ([s out'] & E & H1 & H2); [| |lia|].
  - intros i s Hi Hs. unfold bench_round.
    destruct (for_upto_inv (fun j s => logid ← log_of i j; update_until AGAIN fuel (u64 logid) 1 s)
                (stored s0 y i) y s) as (s' & -> & H1 & H2); [|done|lia|].
    { intros j s' Hj Hs'. apply stored_step; [lia..|done|done|done]. }
    eexists. split; [done|]. split; cbn [fst].
    + intros a b Hab. by apply H1, before_round; [lia|].
    + intros c l Hl. apply H2. destruct Hl as [?|Hl]; [by left|right]. intros a b Hab.
      apply Hl. apply before_round; [lia|done].
  - split; [|done]. unfold before. lia.
  - exists s, out'. split_and!; [done| |].
    + intros i j Hi Hj. apply H1. unfold before. lia.
    + intros c l Hl. apply H2. destruct Hl as [?|Hl]; [by left|right]. intros a b Hab.
      apply Hl; unfold before in Hab; lia.
Qed.
End checkpoint_proofs.

(** A character list is cut in one way at a separator the left part lacks. *)
Lemma cut_inj {A} (x : A) (a b a' b' : list A) :
  x ∉ a -> x ∉ a' -> a ++ x :: b = a' ++ x :: b' -> a = a' /\ b = b'.
Proof.
  revert a'. induction a as [|c a IH]; intros [|c' a'] Ha Ha' E; simplify_eq/=.
  - done.
  - set_solver.
  - set_solver.
  - destruct (IH a') as [-> ->]; [set_solver..|done|done].
Qed.

Definition no_underscore (s : string) : Prop := "_"%char ∉ String.list_ascii_of_string s.

Lemma pretty_N_go_no_underscore n : forall s,
  no_underscore s -> no_underscore (pretty_N_go n s).
Proof.
  induction n as [n IH] using (well_founded_induction N.lt_wf_0). intros s Hs.
  destruct (decide (0 < n)%N) as [Hn|Hn].
  - rewrite pretty_N_go_step by done. apply IH; [by apply N.div_lt|].
    unfold no_underscore in *. cbn. apply not_elem_of_cons. split; [|done].
    unfold pretty_N_char. by repeat case_match.
  - replace n with 0%N by lia. by rewrite pretty_N_go_0.
Qed.

Lemma pretty_no_underscore i : 0 <= i -> no_underscore (pretty i).
Proof.
  intros Hi. destruct i as [|p|p]; [| |lia].
  - apply not_elem_of_cons. split; [done|apply not_elem_of_nil].
  - apply pretty_N_go_no_underscore, not_elem_of_nil.
Qed.

Lemma list_ascii_app s t :
  String.list_ascii_of_string (s +:+ t) =
  String.list_ascii_of_string s ++ String.list_ascii_of_string t.
Proof. induction s as [|c s IH]; [done|]. simpl. by rewrite IH. Qed.

#[global] Instance list_ascii_inj : Inj (=) (=) String.list_ascii_of_string.
Proof.
  intros s t E. by rewrite <- (String.string_of_list_ascii_of_string s), E,
    String.string_of_list_ascii_of_string.
Qed.

Lemma char_codes_inj s t : char_codes s = char_codes t -> s = t.
Proof.
  unfold char_codes. intros E. apply (inj String.list_ascii_of_string).
  eapply (list_fmap_eq_inj _); [|exact E].
  intros a b Hab%N2Z.inj. by rewrite <- (ascii_N_embedding a), Hab, ascii_N_embedding.
Qed.

(** No two rounds make a log group of the same path. *)
Lemma path_of_inj i j i' j' : 0 <= i -> 0 <= i' -> path_of i j = path_of i' j' -> i = i' /\ j = j'.
Proof.
  intros Hi Hi' E%(f_equal String.list_ascii_of_string). unfold path_of in E.
  rewrite !list_ascii_app in E. apply (inj (app _)) in E.
  apply cut_inj in E as [E1 E2]; [|by apply pretty_no_underscore..].
  apply (inj _) in E1. apply (inj _) in E2. by apply (inj _) in E1; apply (inj _) in E2.
Qed.

Section group_proofs.
Context `{C : LogsConfigLib}.

(** The log groups of a configuration, by path. A group of a path that is not
    in use and of a range no group intersects can be made. *)
Context (groups : LC -> gmap (list Z) (Z * Z)).
Hypothesis make_fresh : forall lc path range attrs,
  groups lc !! path = None ->
  (forall p r, groups lc !! p = Some r -> r.2 < range.1 \/ range.2 < r.1) ->
  exists lc' g, makeLogGroupSync lc path range attrs true = (lc', inl g) /\
    groups lc' = <[path := range]> (groups lc).

Definition group_of (a b : Z) : list Z * (Z * Z) :=
  (char_codes (path_of a b), (a * 1000 + b, a * 1000 + b)).

Lemma group_of_inj a b a' b' : 0 <= a -> 0 <= a' ->
  (group_of a b).1 = (group_of a' b').1 -> a = a' /\ b = b'.
Proof. intros Ha Ha' E%char_codes_inj. by apply path_of_inj. Qed.

(** The groups of [lc0] and of the rounds done. *)
Definition made (lc0 : LC) (y i j : Z) (s : LC * list event) : Prop :=
  forall p r, groups s.1 !! p = Some r <->
    (exists a b, before y i j a b /\ (p, r) = group_of a b) \/ groups lc0 !! p = Some r.

Lemma made_step lc0 x y i j s : 1 <= i <= x -> x <= 1000 -> 1 <= j <= y -> y <= 1000 ->
  (forall a b, 1 <= a <= x -> 1 <= b <= y -> groups lc0 !! (group_of a b).1 = None) ->
  (forall p r, groups lc0 !! p = Some r -> r.2 < 1001 \/ x * 1000 + y < r.1) ->
  made lc0 y i j s ->
  exists s', make_one i j s = Some (s', Running) /\ made lc0 y i (j + 1) s'.
Proof.
  intros Hi Hx Hj Hy Hfree Hranges Hs. destruct s as [lc out]. unfold made in Hs. cbn [fst] in Hs.
  assert (Hnew : groups lc !! (group_of i j).1 = None).
  { apply eq_None_not_Some. intros [r Hr]. apply Hs in Hr as [(a & b & Hab & E)|Hr].
    - unfold before in Hab. assert ((group_of i j).1 = (group_of a b).1) as Hk by (by rewrite <- E).
      apply group_of_inj in Hk; lia.
    - rewrite Hfree in Hr by lia. done. }
  unfold make_one. rewrite log_of_eq by lia. cbn [mbind option_bind fst].
  rewrite u64_id by (unfold is_u64; lia).
  edestruct (make_fresh lc (group_of i j).1 (group_of i j).2) as (lc' & g & E & Hg); [done| |].
  { intros p r [(a & b & Hab & E)|Hp]%Hs.
    - injection E as -> ->. unfold before in Hab. cbn. lia.
    - apply Hranges in Hp. cbn. lia. }
  cbn [group_of fst snd] in E. rewrite E. eexists. split; [done|]. intros p r. cbn [fst].
  rewrite Hg, lookup_insert_Some, Hs. split.
  - intros [[<- <-]|[Hne [(a & b & Hab & E')|Hp]]]; [|left; exists a, b|by right].
    + left. exists i, j. by split; [apply before_next; [lia..|right]|].
    + by split; [apply before_next; [lia..|left]|].
  - intros [(a & b & Hab & E')|Hp]; [apply before_next in Hab as [Hab|[-> ->]]; [| |lia..]|].
    + right. split; [|left; eauto]. injection E' as -> ->. intros Hk%group_of_inj;
        unfold before in Hab; lia.
    + left. by injection E' as -> ->.
    + right. split; [|by right]. intros <-. rewrite Hfree in Hp by lia. done.
Qed.

(** In a configuration that uses none of the paths and none of the log ids the
    program makes every group: it ends normally, having added exactly one group
    per pair, with the id [i * 1000 + j], and no other one. *)
Theorem create_makes_all lc0 x y out : 0 <= x <= 1000 -> 0 <= y <= 1000 ->
  (forall a b, 1 <= a <= x -> 1 <= b <= y -> groups lc0 !! (group_of a b).1 = None) ->
  (forall p r, groups lc0 !! p = Some r -> r.2 < 1001 \/ x * 1000 + y < r.1) ->
  exists lc out', create_groups x y (lc0, out) = Some (lc, out', Running) /\
    forall p r, groups lc !! p = Some r <->
      (exists a b, (1 <= a <= x /\ 1 <= b <= y) /\ (p, r) = group_of a b) \/ groups lc0 !! p = Some r.
Proof.
  intros Hx Hy Hfree Hranges.
  destruct (for_upto_inv (create_round y) (fun i => made lc0 y i 1) x (lc0, out))
    as ([lc out'] & E & Hm); [| |lia|].
  - intros i s Hi Hs. unfold create_round.
    destruct (for_upto_inv (make_one i) (made lc0 y i) y s) as (s' & -> & Hm); [|done|lia|].
    { intros j s' Hj Hs'. apply (made_step _ x); [lia..|exact Hfree|exact Hranges|exact Hs']. }
    eexists. split; [done|]. intros p r. cbn [fst]. rewrite (Hm p r).
    assert (forall a b, before y i (y + 1) a b <-> before y (i + 1) 1 a b) as Hb
      by (intros; apply before_round; lia). by setoid_rewrite Hb.
  - intros p r. cbn [fst]. split; [by right|]. intros [(a & b & Hab & _)|?]; [|done].
    unfold before in Hab. lia.
  - exists lc, out'. split; [done|]. intros p r. rewrite (Hm p r).
    enough (forall a b, before y (x + 1) 1 a b <-> 1 <= a <= x /\ 1 <= b <= y) as Hb
      by (by setoid_rewrite Hb). unfold before. lia.
Qed.
End group_proofs.
End StoreBench.
