(* ===== verification/KafkaProducer.v ===== *)
(** * The life of a Kafka producer (src/hstream-kafka/cbits/hs_kafka_client.cpp)

    Producing, the delivery reports librdkafka hands back while it is polled or
    flushed, flushing and deletion. The retry loop of a single message over the
    answers of librdkafka is in KafkaClient.v; here the answers come from a
    producer with a queue. *)

From stdpp Require Import base gmap strings list pretty.
From Stdlib Require Import ZArith Lia.
From S2P Require Import Prelude KafkaClient.

(** The [RdKafka::Message] of a delivery report: [r_err] is its error text when
    the delivery failed. *)
Record report := { r_err : option string; r_topic : string; r_partition : Z; r_offset : Z }.

(** librdkafka's producer. [outq_len] is the number of messages that wait to be
    sent, to be acknowledged or to have their report served; [poll] and [flush]
    run the delivery-report callback once for each message they take out. *)
Class ProducerLib (P : Type) := {
  produce : P -> KafkaClient.produce_call -> KafkaClient.ErrorCode * P;
  poll : P -> Z -> list report * P;
  flush : P -> Z -> list report * P;
  outq_len : P -> Z;
  outq_nonneg : forall p, 0 <= outq_len p;
  produce_queues : forall p c,
    outq_len (produce p c).2 =
      outq_len p + if bool_decide ((produce p c).1 = KafkaClient.ERR_NO_ERROR) then 1 else 0;
  poll_serves : forall p t, outq_len (poll p t).2 + Z.of_nat (length (poll p t).1) = outq_len p;
  flush_serves : forall p t, outq_len (flush p t).2 + Z.of_nat (length (flush p t).1) = outq_len p;
}.

Module KafkaProducer.
Import KafkaClient.

(** What is printed on standard error: by the callback for a delivery report, and
    by a flush that leaves [n] messages. *)
Inductive output := Report (message : report) | Undelivered (n : Z).

(** [HsDeliveryReportCb::dr_cb]: the line it prints. *)
Definition dr_cb (message : report) : string :=
  match r_err message with
  | Some errstr => "Message delivery failed: " +:+ errstr
  | None => "Message delivered to topic " +:+ r_topic message +:+ " [" +:+ pretty (r_partition message)
            +:+ "] at offset " +:+ pretty (r_offset message)
  end.

Definition line (o : output) : string :=
  match o with
  | Report message => dr_cb message
  | Undelivered n => pretty n +:+ " message(s) were not delivered"
  end.

(** [HsRebalanceCb::part_list_print]. *)
Definition part_list_print (partitions : list TopicPartition) : string :=
  foldl (fun s p => s +:+ p.1 +:+ "[" +:+ pretty p.2 +:+ "], ") EmptyString partitions
    +:+ String (Ascii.ascii_of_nat 10) EmptyString.

(** ** [splitOn] of src/common/hstream/HStream/Utils/Common.hs *)

Section split.
Context {A : Type} `{!EqDecision A}.

(** [BS.breakSubstring]: cut before the first occurrence of [pat]. *)
Fixpoint breakSubstring (pat s : list A) : list A * list A :=
  if bool_decide (take (length pat) s = pat) then ([], s)
  else match s with
       | [] => ([], [])
       | c :: s => let '(pre, post) := breakSubstring pat s in (c :: pre, post)
       end.

(** [go]; every piece is shorter than what it is cut from. *)
Fixpoint split_go (fuel : nat) (delimiter s : list A) : option (list (list A)) :=
  match fuel with
  | O => None
  | S fuel =>
      let '(pre, post) := breakSubstring delimiter s in
      if bool_decide (post = []) then Some [pre]
      else (cons pre) <$> split_go fuel delimiter (drop (length delimiter) post)
  end.

(** [None]: the call of [error] for an empty delimiter. *)
Definition splitOn (delimiter s : list A) : option (list (list A)) :=
  if bool_decide (delimiter = []) then None else split_go (S (length s)) delimiter s.

Fixpoint join (delimiter : list A) (pieces : list (list A)) : list A :=
  match pieces with
  | [] => []
  | [p] => p
  | p :: ps => p ++ delimiter ++ join delimiter ps
  end.

Lemma breakSubstring_app pat s : let '(pre, post) := breakSubstring pat s in
  s = pre ++ post /\ (post <> [] -> exists t, post = pat ++ t).
Proof.
  induction s as [|c s IH]; cbn [breakSubstring].
  - case_bool_decide; done.
  - case_bool_decide as E.
    + split; [done|]. intros _. exists (drop (length pat) (c :: s)).
      by rewrite <- E at 1; rewrite take_drop.
    + destruct (breakSubstring pat s) as [pre post]. destruct IH as [-> IH]. done.
Qed.

Lemma split_go_join fuel delimiter s : delimiter <> [] -> (length s < fuel)%nat ->
  exists ps, split_go fuel delimiter s = Some ps /\ ps <> [] /\ join delimiter ps = s.
Proof.
  intros Hd. revert s. induction fuel as [|fuel IH]; intros s Hf; [lia|]. cbn [split_go].
  pose proof (breakSubstring_app delimiter s) as Hb.
  destruct (breakSubstring delimiter s) as [pre post]. destruct Hb as [-> Hb].
  case_bool_decide as E; [exists [pre]; by subst; rewrite app_nil_r|].
  destruct (Hb E) as [t ->]. rewrite drop_app_length.
  destruct (IH t) as (ps & -> & Hne & <-).
  { destruct delimiter; [done|]. rewrite !length_app in Hf. cbn in Hf. lia. }
  exists (pre :: ps). destruct ps; [done|]. done.
Qed.

(** [splitOn] loses nothing: the pieces joined with the delimiter are the input. *)
Lemma splitOn_join delimiter s : delimiter <> [] ->
  exists ps, splitOn delimiter s = Some ps /\ ps <> [] /\ join delimiter ps = s.
Proof.
  intros Hd. unfold splitOn. rewrite bool_decide_eq_false_2 by done.
  apply split_go_join; [done|lia].
Qed.

Lemma breakSubstring_first (x : A) s t : x ∉ s -> breakSubstring [x] (s ++ x :: t) = (s, x :: t).
Proof.
  induction s as [|c s IH]; intros Hx; cbn [app breakSubstring length take].
  - by rewrite bool_decide_eq_true_2.
  - rewrite bool_decide_eq_false_2 by (intros [= ->]; set_solver). rewrite IH by set_solver. done.
Qed.

Lemma breakSubstring_none (x : A) s : x ∉ s -> breakSubstring [x] s = (s, []).
Proof.
  induction s as [|c s IH]; intros Hx; cbn [breakSubstring length take]; [done|].
  rewrite bool_decide_eq_false_2 by (intros [= ->]; set_solver). rewrite IH by set_solver. done.
Qed.
End split.

Section producer.
Context {P : Type} `{!ProducerLib P} (PARTITION_UA : Z) (err2str : ErrorCode -> string).

(** A producer and what was printed on standard error. *)
Record state := { producer : P; printed : list output }.

(** [poll]: the reports served are printed. *)
Definition do_poll (timeout : Z) (s : state) : state :=
  let '(reports, p) := poll (producer s) timeout in
  {| producer := p; printed := printed s ++ (Report <$> reports) |}.

(** The label [retry]; [fuel] bounds the number of calls of [produce]. *)
Fixpoint produce_retry (fuel : nat) (call : produce_call) (s : state)
    : option (Z * option string * state) :=
  match fuel with
  | O => None
  | S fuel =>
      let '(err, p) := produce (producer s) call in
      let s := {| producer := p; printed := printed s |} in
      if bool_decide (err = ERR_NO_ERROR) then Some (0, None, do_poll 0 s)
      else if bool_decide (err = ERR__QUEUE_FULL) then produce_retry fuel call (do_poll 1000 s)
      else Some (1, Some (err2str err), s)
  end.

Definition producer_produce (fuel : nat) (topic : string) (partition : Z) (payload key : string)
    : state -> option (Z * option string * state) :=
  produce_retry fuel (produce_args PARTITION_UA topic partition payload key).

Definition hs_producer_flush (s : state) : state :=
  let '(reports, p) := flush (producer s) (10 * 1000) in
  {| producer := p;
     printed := printed s ++ (Report <$> reports) ++
       (if 0 <? outq_len p then [Undelivered (outq_len p)] else []) |}.

(** ** The command line client (src/hstream-kafka/HStream/Kafka/Client/Cli.hs) *)

Inductive cli_error :=
| CreateFailed (msg : string)
| ProduceFailed (msg : string)
| DelimiterEmpty
| InvalidInput (input sep : string).

Definition splitKeyValue (sep input : string) : cli_error + string * string :=
  match splitOn (String.list_ascii_of_string sep) (String.list_ascii_of_string input) with
  | None => inl DelimiterEmpty
  | Some [payload] => inr (EmptyString, String.string_of_list_ascii payload)
  | Some [key; payload] =>
      inr (String.string_of_list_ascii key, String.string_of_list_ascii payload)
  | Some _ => inl (InvalidInput input sep)
  end.

(** Whether the command goes on, ends with an error, or is still in the retry
    loop ([None]). *)
Notation outcome := (option (cli_error + unit)).

(** [doProduce]: an error ends the command with its text, before the flush. *)
Definition doProduce (fuel : nat) (topic : string) (partition : Z) (key payload : string) (s : state)
    : outcome * state :=
  match producer_produce fuel topic partition payload key s with
  | None => (None, s)
  | Some (ret, errmsg, s) =>
      if negb (ret =? 0) then (Some (inl (ProduceFailed (default EmptyString errmsg))), s)
      else (Some (inr tt), hs_producer_flush s)
  end.

Definition produce_line (fuel : nat) (sep topic : string) (partition : Z) (input : string) (s : state)
    : outcome * state :=
  match splitKeyValue sep input with
  | inl e => (Some (inl e), s)
  | inr (k, v) => doProduce fuel topic partition k v s
  end.

(** [loopReadLine]: [lines] are the lines typed before the end of the input. *)
Fixpoint loopReadLine (fuel : nat) (sep topic : string) (partition : Z) (lines : list string)
    (s : state) : outcome * state :=
  match lines with
  | [] => (Some (inr tt), s)
  | input :: lines =>
      match produce_line fuel sep topic partition input s with
      | (Some (inr _), s) => loopReadLine fuel sep topic partition lines s
      | r => r
      end
  end.
End producer.
Arguments state : clear implicits.
Arguments Build_state {P}.

(** ** Deletion *)

(** The members of [HsProducer] and [HsConsumer]. *)
Inductive member := MProducer | MConsumer | MCallback (o : object).

(** The destructors, in the order of their statements. *)
Definition HsProducer_delete : list member := [MProducer; MCallback ODeliveryReportCb].
Definition HsConsumer_delete : list member :=
  [MConsumer; MCallback ORebalanceCb; MCallback OEventCb].

Definition hs_delete_producer : list member := HsProducer_delete.

Inductive ProduceData := ProduceInteractive (lines : list string) | ProduceOne (d : string).

Section command.
Context {P : Type} `{!ProducerLib P} (PARTITION_UA : Z) (err2str : ErrorCode -> string).

(** [handleProduceCommand]; [created] is what [hs_new_producer] returns. The
    last component are the members [hs_delete_producer] has deleted, by
    [finally] also after an error. *)
Definition handleProduceCommand (fuel : nat) (sep topic : string) (partition : option Z)
    (data : ProduceData) (created : string + P)
    : option ((cli_error + unit) * list output * list member) :=
  match created with
  | inl errmsg => Some (inl (CreateFailed errmsg), [], [])
  | inr p =>
      let s := {| producer := p; printed := [] |} in
      let '(r, s) :=
        match data with
        | ProduceOne d => produce_line PARTITION_UA err2str fuel sep topic (default (-1) partition) d s
        | ProduceInteractive lines =>
            loopReadLine PARTITION_UA err2str fuel sep topic (default (-1) partition) lines s
        end in
      r ← r; Some (r, printed s, hs_delete_producer)
  end.
End command.

(** ** Proofs *)

Fixpoint reports (l : list output) : Z :=
  match l with
  | [] => 0
  | Report _ :: l => 1 + reports l
  | Undelivered _ :: l => reports l
  end.

Lemma reports_app l k : reports (l ++ k) = reports l + reports k.
Proof. induction l as [|[] l IH]; cbn [app reports]; lia. Qed.

Lemma reports_all (l : list report) : reports (Report <$> l) = Z.of_nat (length l).
Proof. induction l as [|r l IH]; [done|]. cbn -[Z.of_nat] in *. lia. Qed.

Section proofs.
Context {P : Type} `{!ProducerLib P} (PARTITION_UA : Z) (err2str : ErrorCode -> string).
Implicit Types s : state P.

(** Messages queued and messages reported. *)
Definition held s : Z := outq_len (producer s) + reports (printed s).

Lemma do_poll_held t s : held (do_poll t s) = held s.
Proof.
  unfold held, do_poll. pose proof (poll_serves (producer s) t) as Hp.
  destruct (poll (producer s) t) as [rs p]. cbn in *. rewrite reports_app, reports_all. lia.
Qed.

Lemma flush_held s : held (hs_producer_flush s) = held s.
Proof.
  unfold held, hs_producer_flush. pose proof (flush_serves (producer s) (10 * 1000)) as Hp.
  destruct (flush (producer s) (10 * 1000)) as [rs p]. cbn in *.
  rewrite !reports_app, reports_all. case_match; cbn [reports]; lia.
Qed.

Lemma produce_held fuel call s r e s' :
  produce_retry err2str fuel call s = Some (r, e, s') ->
  held s' = held s + (if r =? 0 then 1 else 0) /\ (r = 0 \/ r = 1).
Proof.
  revert s. induction fuel as [|fuel IH]; intros s; cbn [produce_retry]; [done|].
  pose proof (produce_queues (producer s) call) as Hq.
  destruct (produce (producer s) call) as [err p]. cbn [fst snd] in Hq.
  case_bool_decide as E1; [|case_bool_decide as E2].
  - intros [= <- <- <-]. rewrite do_poll_held. unfold held. cbn. lia.
  - intros [-> Hr]%IH. rewrite do_poll_held. unfold held. cbn. lia.
  - intros [= <- <- <-]. unfold held. cbn. lia.
Qed.

Lemma produce_prints fuel call s r e s' :
  produce_retry err2str fuel call s = Some (r, e, s') ->
  exists rs, printed s' = printed s ++ (Report <$> rs).
Proof.
  revert s. induction fuel as [|fuel IH]; intros s; cbn [produce_retry]; [done|].
  destruct (produce (producer s) call) as [err p]. case_bool_decide; [|case_bool_decide].
  - intros [= _ _ <-]. unfold do_poll. cbn. destruct (poll p 0) as [rs p']. by exists rs.
  - intros [rs ->]%IH. unfold do_poll. cbn. destruct (poll p 1000) as [rs' p']. cbn.
    exists (rs' ++ rs). by rewrite fmap_app, app_assoc.
  - intros [= _ _ <-]. exists []. by rewrite app_nil_r.
Qed.

(** The number the last flush printed, if it printed one last. *)
Definition undelivered (l : list output) : Z :=
  match last l with Some (Undelivered n) => n | _ => 0 end.

(** After a flush the messages still queued are the ones it printed. *)
Lemma flush_undelivered s l rs :
  printed s = l ++ (Report <$> rs) ->
  outq_len (producer s) + Z.of_nat (length rs) > 0 ->
  outq_len (producer (hs_producer_flush s)) = undelivered (printed (hs_producer_flush s)).
Proof.
  intros Hs Hq. unfold hs_producer_flush. pose proof (flush_serves (producer s) (10 * 1000)) as Hf.
  destruct (flush (producer s) (10 * 1000)) as [rs' p] eqn:E. cbn [fst snd producer printed] in *.
  unfold undelivered. pose proof (outq_nonneg p).
  destruct (Z.ltb_spec 0 (outq_len p)); [by rewrite !last_app|].
  rewrite app_nil_r, Hs, <- app_assoc, <- fmap_app, last_app, fmap_last.
  destruct (last (rs ++ rs')) eqn:El; cbn; [lia|].
  apply last_None in El. apply app_eq_nil in El as [-> ->]. cbn in *. lia.
Qed.

(** A full queue is polled and empties before [fuel] tries. *)
Definition full (call : produce_call) (p p' : P) : Prop :=
  (produce p call).1 = ERR__QUEUE_FULL /\ p' = (poll (produce p call).2 1000).2.

Definition serviced (fuel : nat) : Prop :=
  forall p call, exists n p1, (n < fuel)%nat /\ nsteps (full call) n p p1 /\
    (produce p1 call).1 <> ERR__QUEUE_FULL.

Lemma produce_returns call n p p1 : nsteps (full call) n p p1 ->
  (produce p1 call).1 <> ERR__QUEUE_FULL -> forall fuel l, (n < fuel)%nat ->
  is_Some (produce_retry err2str fuel call {| producer := p; printed := l |}).
Proof.
  induction 1 as [p|n p p' p'' [Hf ->] Hs IH]; intros Hp [|fuel] l Hn; try lia;
    cbn [produce_retry producer].
  - destruct (produce p call) as [err q]. cbn in Hp. repeat case_bool_decide; done.
  - destruct (produce p call) as [err q]. cbn [fst snd] in *. subst err.
    cbn -[do_poll]. unfold do_poll. cbn [producer]. destruct (poll q 1000) as [rs q'].
    apply IH; [done|lia].
Qed.

Lemma doProduce_accounts fuel topic partition k v s :
  serviced fuel -> outq_len (producer s) = undelivered (printed s) ->
  exists r s', doProduce PARTITION_UA err2str fuel topic partition k v s = (Some r, s') /\
    held s' = held s + (if r then 0 else 1) /\
    (r = inr tt -> outq_len (producer s') = undelivered (printed s')).
Proof.
  intros Hsv Hs. unfold doProduce, producer_produce. set (call := produce_args _ _ _ _ _).
  destruct (Hsv (producer s) call) as (n & p1 & Hn & Hst & Hp).
  destruct (produce_returns _ _ _ _ Hst Hp fuel (printed s) Hn) as [[[r e] s'] E].
  destruct s as [p l]. cbn [producer printed] in *. rewrite E.
  pose proof (produce_held _ _ _ _ _ _ E) as [Hh Hr].
  destruct (produce_prints _ _ _ _ _ _ E) as [rs Hrs]. cbn [printed] in Hrs.
  destruct (Z.eqb_spec r 0) as [->|Hne]; cbn [negb].
  - eexists _, _. split; [done|]. rewrite flush_held. split; [lia|]. intros _.
    eapply flush_undelivered; [exact Hrs|]. unfold held in Hh. cbn [producer printed] in Hh.
    rewrite Hrs, reports_app, reports_all in Hh. pose proof (outq_nonneg p). lia.
  - eexists _, _. split; [done|]. split; [|done]. lia.
Qed.

Lemma session_accounts fuel sep topic partition lines : serviced fuel -> forall s,
  outq_len (producer s) = undelivered (printed s) ->
  exists r s' n, loopReadLine PARTITION_UA err2str fuel sep topic partition lines s = (Some r, s') /\
    held s' = held s + Z.of_nat n /\ (n <= length lines)%nat /\
    (r = inr tt -> n = length lines /\ outq_len (producer s') = undelivered (printed s')).
Proof.
  intros Hsv. induction lines as [|input lines IH]; intros s Hs; cbn [loopReadLine].
  - exists (inr tt), s, 0%nat. split_and!; [done|lia|cbn; lia|done].
  - unfold produce_line. destruct (splitKeyValue sep input) as [e|[k v]].
    { exists (inl e), s, 0%nat. split_and!; [done|lia|lia|done]. }
    destruct (doProduce_accounts fuel topic partition k v s Hsv Hs) as ([e|[]] & s1 & -> & Hh & Hq).
    + exists (inl e), s1, 0%nat. split_and!; [done|lia|lia|done].
    + destruct (IH s1 (Hq eq_refl)) as (r & s' & n & -> & Hh' & Hn & Hr).
      exists r, s', (S n). split_and!; [done|lia|cbn; lia|].
      intros ->. destruct (Hr eq_refl) as [-> Hu]. done.
Qed.

(** C30: An interactive session of the command line producer, on a producer that
    starts empty and whose full queue always empties: the session ends, after
    all lines or at the first one that cannot be parsed or is refused; every
    message that was accepted has been reported exactly once or is still
    queued, and when all lines were accepted the number of those still queued
    is the one the last flush printed. *)
Theorem producer_session_accounts fuel sep topic partition lines (p : P) :
  serviced fuel -> outq_len p = 0 ->
  exists r s n,
    loopReadLine PARTITION_UA err2str fuel sep topic partition lines
      {| producer := p; printed := [] |} = (Some r, s) /\
    reports (printed s) + outq_len (producer s) = Z.of_nat n /\ (n <= length lines)%nat /\
    (r = inr tt -> reports (printed s) + undelivered (printed s) = Z.of_nat (length lines)).
Proof.
  intros Hsv Hp.
  destruct (session_accounts fuel sep topic partition lines Hsv {| producer := p; printed := [] |})
    as (r & s & n & E & Hh & Hn & Hr); [done|].
  exists r, s, n. unfold held in Hh. cbn in Hh. split_and!; [done|lia|done|].
  intros [-> <-]%Hr. lia.
Qed.
End proofs.
End KafkaProducer.

(** A producer whose queue holds one message; polling with no timeout serves
    nothing, and flushing serves nothing either. *)
Module KafkaProducerWitness.
Import KafkaClient KafkaProducer.

Definition delivered : report :=
  {| r_err := None; r_topic := "t"; r_partition := 0; r_offset := 7 |}.

#[refine] Instance slow_producer : ProducerLib nat := {|
  produce q _ := if decide (q < 1)%nat then (ERR_NO_ERROR, S q) else (ERR__QUEUE_FULL, q);
  poll q t := if t =? 0 then ([], q) else (replicate q delivered, 0%nat);
  flush q _ := ([], q);
  outq_len q := Z.of_nat q;
|}.
Proof.
  - intros; lia.
  - intros q c. case_decide; cbn -[Z.of_nat bool_decide];
      [rewrite bool_decide_eq_true_2 by done|rewrite bool_decide_eq_false_2 by done]; lia.
  - intros q t. case_match; cbn -[Z.of_nat]; rewrite ?length_replicate; lia.
  - intros q t. cbn -[Z.of_nat]. lia.
Defined.

Lemma slow_serviced : serviced (P := nat) 2.
Proof.
  intros q call. destruct (decide (q < 1)%nat) as [Hq|Hq].
  - exists 0%nat, q. split_and!; [lia|constructor|]. cbn. by rewrite decide_True.
  - exists 1%nat, 0%nat. split_and!; [lia| |done]. apply nsteps_once.
    unfold full. cbn [produce poll slow_producer]. by rewrite !decide_False by done.
Qed.

(** Two messages, with and without a key; the third line has two keys. *)
Lemma producer_session_accounts_witness :
  let run lines := loopReadLine (-1) (fun _ => "error") 2 "@" "t" 0 lines
                     {| producer := 0%nat; printed := [] |} in
  (exists s, run ["v"; "k@v"] =
     (Some (inr tt), {| producer := s;
                        printed := [Undelivered 1; Report delivered; Undelivered 1] |})) /\
  (exists r s n, run ["v"; "k@v"; "a@b@c"] = (Some r, s) /\
     reports (printed s) + outq_len (producer s) = Z.of_nat n /\ (n <= 3)%nat /\
     (r = inr tt -> reports (printed s) + undelivered (printed s) = 3)).
Proof.
  split; [eexists; vm_compute; reflexivity|].
  apply (producer_session_accounts (-1) (fun _ => "error") 2 "@" "t" 0 ["v"; "k@v"; "a@b@c"] 0%nat).
  - apply slow_serviced.
  - reflexivity.
Defined.
End KafkaProducerWitness.
