(* ===== verification/KafkaParser.v ===== *)
(** * The parser and the builder of the Kafka protocol
      (src/hstream-kafka/protocol/Kafka/Protocol/Encoding)

    Parser.hs: a parser in continuation-passing style over a chunk of input,
    which can stop for more input; Encode.hs: a builder that carries the length
    of its output; Internal.hs: integers in network byte order; and the
    primitive types of the protocol. A byte string is a list of bytes. *)

From stdpp Require Import base strings list pretty.
From Stdlib Require Import ZArith Lia.
From S2P Require Import Prelude.

Notation bytes := (list Z).

Module KafkaParser.

(** ** Results and parsers *)

(** [Result]. [Undefined]: memory outside of the input was read. *)
Inductive Result (r : Type) : Type :=
| Done (rest : bytes) (x : r)
| Fail (rest : bytes) (err : string)
| More (k : bytes -> Result r)
| Undefined.
Arguments Done {r}.
Arguments Fail {r}.
Arguments More {r}.
Arguments Undefined {r}.

(** [Parser a]: the input and what to do next with the rest and the value. *)
Definition Next (A r : Type) : Type := bytes -> A -> Result r.
Definition Parser (A : Type) : Type := forall r, bytes -> Next A r -> Result r.

Definition pure {A} (a : A) : Parser A := fun r bs next => next bs a.
Definition bind {A B} (s1 : Parser A) (s2 : A -> Parser B) : Parser B :=
  fun r bs next => s1 r bs (fun bs' a => s2 a r bs' next).
Definition pfmap {A B} (f : A -> B) (s : Parser A) : Parser B :=
  fun r bs next => s r bs (fun bs' a => next bs' (f a)).
Definition fail {A} (err : string) : Parser A := fun r bs next => Fail bs err.

Definition runParser {r} (s : Parser r) (bs : bytes) : Result r := s r bs (fun b x => Done b x).

Declare Scope parser_scope.
Delimit Scope parser_scope with parser.
Notation "x <-- p ;; q" := (bind p (fun x => q))
  (at level 100, p at next level, right associativity) : parser_scope.
Open Scope parser_scope.

(** [fromIO]: [None] is a read outside of the input. *)
Definition fromIO {A} (io : option A) : Parser A :=
  fun r bs next => match io with Some x => next bs x | None => Undefined end.

Definition no_more : string := "No more input".

Definition anyWord8 : Parser Z := fun r bs next =>
  match bs with
  | c :: bs' => next bs' c
  | [] => More (fun bs => match bs with c :: bs' => next bs' c | [] => Fail [] no_more end)
  end.

(** [BS.splitAt], which cuts nothing off for a negative number. *)
Definition splitAt (n : Z) (bs : bytes) : bytes * bytes :=
  (take (Z.to_nat n) bs, drop (Z.to_nat n) bs).

(** The loop [go] of [takeBytes]: every chunk but the last one is used up, so
    the number of bytes missing decreases; [fuel] bounds the number of chunks. *)
Fixpoint take_go (fuel : nat) (res : list bytes) (i : Z) : Parser bytes :=
  match fuel with
  | O => fun r bs next => Undefined
  | S fuel =>
      if i =? 0 then pure (concat (rev res))
      else fun r bs next =>
        let len := Z.of_nat (length bs) in
        if i <=? len then let '(l, r) := splitAt i bs in next r (concat (rev (l :: res)))
        else More (fun bs' =>
          match bs' with
          | [] => Fail [] no_more
          | _ => take_go fuel (bs :: res) (i - len) r bs' next
          end)
  end.

Definition takeBytes (n : Z) : Parser bytes :=
  if n =? 0 then pure []
  else fun r bs next =>
    let len := Z.of_nat (length bs) in
    if n <=? len then let '(l, r) := splitAt n bs in next r l
    else More (fun bs' =>
      match bs' with
      | [] => Fail [] no_more
      | _ => take_go (S (Z.to_nat n)) [bs] (n - len) r bs' next
      end).

Definition dropBytes (n : Z) : Parser unit := pfmap (fun _ => tt) (takeBytes n).

Definition directDropBytes (n : Z) : Parser unit :=
  fun r bs next => next (drop (Z.to_nat n) bs) tt.

(** ** Feeding input *)

(** Results that cannot be told apart by feeding input to them. *)
Inductive Result_equiv {r} : Equiv (Result r) :=
| Done_equiv rest x : Done rest x ≡ Done rest x
| Fail_equiv rest err : Fail rest err ≡ Fail rest err
| More_equiv k k' : (forall bs, k bs ≡ k' bs) -> More k ≡ More k'
| Undefined_equiv : Undefined ≡ Undefined.
#[global] Existing Instance Result_equiv.

#[global] Instance Result_equivalence {r} : Equivalence (≡@{Result r}).
Proof.
  split.
  - intros x. induction x; by constructor.
  - intros x y. induction 1; by constructor.
  - intros x y z Hxy. revert z. induction Hxy as [| |k k' Hk IH|]; intros z Hz; [done|done| |done].
    inversion Hz as [| |? k'' Hk'|]; subst. constructor. intros bs. by apply (IH bs).
Qed.

(** More input after a result. *)
Definition feed {r} (x : Result r) (bs : bytes) : Result r :=
  match x with
  | Done rest x => Done (rest ++ bs) x
  | Fail rest err => Fail (rest ++ bs) err
  | More k => k bs
  | Undefined => Undefined
  end.

(** A continuation for which a chunk may as well come later. *)
Definition patient {A r} (next : Next A r) : Prop :=
  forall bs a more, more <> [] -> feed (next bs a) more ≡ next (bs ++ more) a.

(** A parser is resumable when parsing a chunk and feeding another one is
    parsing both at once. *)
Class Resumable {A} (p : Parser A) : Prop := {
  resume_proper : forall r bs (next next' : Next A r),
    (forall rest a, next rest a ≡ next' rest a) -> p r bs next ≡ p r bs next';
  resume_feed : forall r bs more (next : Next A r), patient next -> more <> [] ->
    feed (p r bs next) more ≡ p r (bs ++ more) next;
}.

#[global] Instance pure_resumable {A} (a : A) : Resumable (pure a).
Proof. split; unfold pure; [done|]. intros r bs more next Hn Hm. by apply Hn. Qed.

#[global] Instance fail_resumable {A} err : Resumable (@fail A err).
Proof. by split. Qed.

#[global] Instance bind_resumable {A B} (p : Parser A) (f : A -> Parser B) :
  Resumable p -> (forall a, Resumable (f a)) -> Resumable (bind p f).
Proof.
  intros Hp Hf. split; unfold bind.
  - intros r bs next next' Hn. apply resume_proper. intros rest a. by apply resume_proper.
  - intros r bs more next Hn Hm. apply (resume_feed (p := p)); [|done].
    intros bs' a more' Hm'. by apply resume_feed.
Qed.

#[global] Instance pfmap_resumable {A B} (f : A -> B) (p : Parser A) :
  Resumable p -> Resumable (pfmap f p).
Proof.
  intros Hp. apply (bind_resumable p (fun a => pure (f a)) _ _).
Qed.

#[global] Instance fromIO_resumable {A} (io : option A) : Resumable (fromIO io).
Proof. split; destruct io; cbn; try done. intros r bs more next Hn Hm. by apply Hn. Qed.

#[global] Instance if_resumable {A} (b : bool) (p q : Parser A) :
  Resumable p -> Resumable q -> Resumable (if b then p else q).
Proof. by destruct b. Qed.

#[global] Instance anyWord8_resumable : Resumable anyWord8.
Proof.
  split.
  - intros r [|c bs] next next' Hn; [|apply Hn]. constructor. intros [|c bs]; [done|apply Hn].
  - intros r [|c bs] more next Hn Hm; [by destruct more|]. by apply Hn.
Qed.

Lemma splitAt_app i bs more : i <= Z.of_nat (length bs) ->
  splitAt i (bs ++ more) = ((splitAt i bs).1, (splitAt i bs).2 ++ more).
Proof. intros Hi. unfold splitAt. cbn. f_equal; [by rewrite take_app_le by lia|by rewrite drop_app_le by lia]. Qed.

Lemma concat_rev_cons (l : bytes) res : concat (rev (l :: res)) = concat (rev res) ++ l.
Proof. cbn. rewrite concat_app. cbn. by rewrite app_nil_r. Qed.

(** The state of the loop is the bytes taken so far and the number missing. *)
Lemma take_go_equiv fuel : forall fuel' res res' bs i r (next next' : Next bytes r),
  concat (rev res) = concat (rev res') -> 0 < i -> bs <> [] ->
  (Z.to_nat i < fuel)%nat -> (Z.to_nat i < fuel')%nat ->
  (forall rest a, next rest a ≡ next' rest a) ->
  take_go fuel res i r bs next ≡ take_go fuel' res' i r bs next'.
Proof.
  induction fuel as [|fuel IH]; intros [|fuel'] res res' bs i r next next' Hres Hi Hbs Hf Hf' Hn; try lia.
  cbn [take_go]. rewrite (proj2 (Z.eqb_neq i 0)) by lia.
  destruct (Z.leb_spec i (Z.of_nat (length bs))) as [Hl|Hl].
  - unfold splitAt. rewrite !concat_rev_cons, Hres. apply Hn.
  - assert (0 < length bs)%nat by (destruct bs; [done|cbn; lia]).
    constructor. intros [|c more]; [done|]. apply IH; [|lia|done|lia|lia|done].
    by rewrite !concat_rev_cons, Hres.
Qed.

(** Enough input at once, or what is missing comes with the next chunk. *)
Lemma take_go_first fuel res i bs r (next : Next bytes r) :
  0 < i -> (Z.to_nat i < fuel)%nat -> bs <> [] ->
  take_go fuel res i r bs next ≡
    takeBytes (i + Z.of_nat (length (concat (rev res)))) r (concat (rev res) ++ bs) next.
Proof.
  intros Hi Hf Hbs. destruct fuel as [|fuel]; [lia|]. cbn [take_go]. unfold takeBytes.
  set (pre := concat (rev res)). rewrite !(proj2 (Z.eqb_neq _ 0)) by lia.
  rewrite length_app. assert (0 < length bs)%nat by (destruct bs; [done|cbn; lia]).
  destruct (Z.leb_spec i (Z.of_nat (length bs))) as [Hl|Hl].
  - rewrite (proj2 (Z.leb_le _ _)) by lia. unfold splitAt. rewrite concat_rev_cons.
    fold pre. replace (Z.to_nat (i + _)) with (length pre + Z.to_nat i)%nat by lia.
    by rewrite take_app_add, drop_app_add.
  - rewrite (proj2 (Z.leb_gt _ _)) by lia. constructor. intros [|c more]; [done|].
    replace (i + Z.of_nat (length pre) - Z.of_nat (length pre + length bs))
      with (i - Z.of_nat (length bs)) by lia.
    apply take_go_equiv; [|lia|done|lia|lia|done]. rewrite concat_rev_cons. cbn. by rewrite app_nil_r.
Qed.

#[global] Instance takeBytes_resumable n : Resumable (takeBytes n).
Proof.
  destruct (decide (n = 0)) as [->|Hn0]; [apply pure_resumable|].
  split; unfold takeBytes; rewrite (proj2 (Z.eqb_neq n 0)) by done.
  - intros r bs next next' Hn. destruct (Z.leb_spec n (Z.of_nat (length bs))); [apply Hn|].
    constructor. intros [|c more]; [done|]. apply take_go_equiv; (done || lia).
  - intros r bs more next Hn Hm. rewrite length_app.
    destruct (Z.leb_spec n (Z.of_nat (length bs))) as [Hl|Hl].
    + rewrite (proj2 (Z.leb_le _ _)) by lia. rewrite splitAt_app by done.
      destruct (splitAt n bs) as [l rest]. by apply Hn.
    + cbn [feed]. destruct more as [|c more']; [done|]. set (more := c :: more') in *.
      rewrite take_go_first by (done || lia). cbn [rev app concat]. rewrite app_nil_r.
      unfold takeBytes. rewrite (proj2 (Z.eqb_neq _ 0)) by lia.
      replace (n - Z.of_nat (length bs) + Z.of_nat (length bs)) with n by lia.
      by rewrite length_app.
Qed.

#[global] Instance dropBytes_resumable n : Resumable (dropBytes n).
Proof. apply _. Qed.

(** ** Termination and safety *)

(** The parser has stopped without reading outside of its input. *)
Definition stopped {r} (x : Result r) : Prop :=
  match x with Fail _ _ | More _ => True | _ => False end.

(** A parser either goes on, having consumed at least [n] bytes of the chunk, or
    stops; it is never undefined by itself. *)
Class Consumes {A} (n : nat) (p : Parser A) : Prop :=
  consumes : forall r bs (next : Next A r),
    (exists rest a, (length rest + n <= length bs)%nat /\ p r bs next = next rest a) \/
    stopped (p r bs next).

#[global] Instance pure_consumes {A} (a : A) : Consumes 0 (pure a).
Proof. intros r bs next. left. exists bs, a. split; [lia|done]. Qed.

#[global] Instance fail_consumes {A} err n : Consumes n (@fail A err).
Proof. intros r bs next. by right. Qed.

Lemma bind_consumes_n {A B} n m (p : Parser A) (f : A -> Parser B) :
  Consumes n p -> (forall a, Consumes m (f a)) -> Consumes (n + m) (bind p f).
Proof.
  intros Hp Hf r bs next. unfold bind.
  destruct (Hp r bs (fun bs' a => f a r bs' next)) as [(rest & a & Hl & ->)|Hs]; [|by right].
  destruct (Hf a r rest next) as [(rest' & b & Hl' & ->)|Hs]; [|by right].
  left. exists rest', b. split; [lia|done].
Qed.

Lemma consumes_weaken {A} n m (p : Parser A) : (m <= n)%nat -> Consumes n p -> Consumes m p.
Proof.
  intros Hm Hp r bs next. destruct (Hp r bs next) as [(rest & a & Hl & E)|Hs]; [|by right].
  left. exists rest, a. split; [lia|done].
Qed.

#[global] Instance bind_consumes {A B} (p : Parser A) (f : A -> Parser B) :
  Consumes 0 p -> (forall a, Consumes 0 (f a)) -> Consumes 0 (bind p f).
Proof. apply bind_consumes_n. Qed.

#[global] Instance pfmap_consumes {A B} (f : A -> B) n (p : Parser A) :
  Consumes n p -> Consumes n (pfmap f p).
Proof.
  intros Hp r bs next. destruct (Hp r bs (fun bs a => next bs (f a))) as [(rest & a & Hl & E)|Hs].
  - left. exists rest, (f a). done.
  - by right.
Qed.

#[global] Instance if_consumes {A} n (b : bool) (p q : Parser A) :
  Consumes n p -> Consumes n q -> Consumes n (if b then p else q).
Proof. by destruct b. Qed.

#[global] Instance anyWord8_consumes_1 : Consumes 1 anyWord8 | 1.
Proof. intros r [|c bs] next; [by right|]. left. exists bs, c. cbn. split; [lia|done]. Qed.

#[global] Instance anyWord8_consumes : Consumes 0 anyWord8.
Proof. apply (consumes_weaken 1); [lia|apply _]. Qed.

(** What [takeBytes] takes has the length asked for. *)
Lemma takeBytes_cases n r bs (next : Next bytes r) : 0 <= n ->
  (exists taken rest, bs = taken ++ rest /\ Z.of_nat (length taken) = n /\
     takeBytes n r bs next = next rest taken) \/
  stopped (takeBytes n r bs next).
Proof.
  intros Hn. unfold takeBytes. destruct (Z.eqb_spec n 0) as [->|H0].
  - left. exists [], bs. done.
  - destruct (Z.leb_spec n (Z.of_nat (length bs))); [|by right]. left.
    exists (take (Z.to_nat n) bs), (drop (Z.to_nat n) bs).
    rewrite take_drop, length_take. split_and!; [done|lia|done].
Qed.

#[global] Instance takeBytes_consumes n : Consumes 0 (takeBytes n).
Proof.
  intros r bs next. destruct (decide (0 <= n)) as [Hn|Hn].
  - destruct (takeBytes_cases n r bs next Hn) as [(t & rest & -> & Hl & ->)|Hs]; [|by right].
    left. exists rest, t. rewrite length_app. split; [lia|done].
  - unfold takeBytes. rewrite (proj2 (Z.eqb_neq n 0)), (proj2 (Z.leb_le n _)) by lia. left.
    unfold splitAt. replace (Z.to_nat n) with 0%nat by lia. exists bs, []. split; [lia|done].
Qed.

#[global] Instance dropBytes_consumes n : Consumes 0 (dropBytes n).
Proof. apply _. Qed.

(** Reading all of a number of bytes that were taken. *)
Lemma peek_consumes {A} (n : nat) (peek : bytes -> option A) :
  (forall bs, length bs = n -> is_Some (peek bs)) ->
  Consumes n (bs <-- takeBytes (Z.of_nat n);; fromIO (peek bs)).
Proof.
  intros Hp r bs next. unfold bind.
  match goal with |- _ \/ stopped (takeBytes _ _ _ ?k) =>
    destruct (takeBytes_cases (Z.of_nat n) r bs k) as [(t & rest & -> & Hl & ->)|Hs]; [lia| |by right]
  end.
  destruct (Hp t ltac:(lia)) as [a Ha]. unfold fromIO. rewrite Ha. left.
  exists rest, a. rewrite length_app. split; [lia|done].
Qed.
End KafkaParser.
