(* ===== verification/KafkaPrim.v ===== *)
(** * The primitive types of the Kafka protocol
      (src/hstream-kafka/protocol/Kafka/Protocol/Encoding/Parser.hs, Encode.hs
      and Internal.hs)

    For every primitive type its parser [get...] and its builder [put...], and
    that parsing what was put gives the value back. *)

From stdpp Require Import base strings list pretty.
From Stdlib Require Import ZArith Lia.
From S2P Require Import Prelude KafkaParser.

(** The text package: texts and their UTF-8 encoding. *)
Class TextLib := {
  Text : Type;
  encodeUtf8 : Text -> bytes;
  decodeUtf8' : bytes -> string + Text;
  decode_encode : forall t, decodeUtf8' (encodeUtf8 t) = inr t;
}.

Module KafkaPrim.
Import KafkaParser.

(** ** Builders *)

(** [Builder]: the length, of type [Word], and the bytes. *)
Record Builder := { builderLen : Z; builderBS : bytes }.

Definition builderLength (b : Builder) : Z := builderLen b.
Definition toLazyByteString (b : Builder) : bytes := builderBS b.

Definition mempty : Builder := {| builderLen := 0; builderBS := [] |}.
Definition mappend (b1 b2 : Builder) : Builder :=
  {| builderLen := u64 (builderLen b1 + builderLen b2); builderBS := builderBS b1 ++ builderBS b2 |}.
Infix "<+>" := mappend (at level 50, left associativity).

(** A chunk of bytes that are copied, with their length. *)
Definition byteStringCopy (bs : bytes) : Builder :=
  {| builderLen := u64 (Z.of_nat (length bs)); builderBS := bs |}.

(** ** Network byte order (Internal.hs) *)

Definition poke16BE (y : Z) : bytes := [u8 (Z.shiftr y 8); u8 y].
Definition poke32BE (y : Z) : bytes :=
  [u8 (Z.shiftr y 24); u8 (Z.shiftr y 16); u8 (Z.shiftr y 8); u8 y].
Definition poke64BE (y : Z) : bytes :=
  [u8 (Z.shiftr y 56); u8 (Z.shiftr y 48); u8 (Z.shiftr y 40); u8 (Z.shiftr y 32);
   u8 (Z.shiftr y 24); u8 (Z.shiftr y 16); u8 (Z.shiftr y 8); u8 y].

(** [None]: fewer bytes than are read. *)
Definition peek16BE (p : bytes) : option Z :=
  match p with
  | x0 :: x1 :: _ => Some (Z.lor (u16 (Z.shiftl x0 8)) x1)
  | _ => None
  end.

Definition peek32BE (p : bytes) : option Z :=
  match p with
  | x0 :: x1 :: x2 :: x3 :: _ =>
      Some (Z.lor (Z.lor (Z.lor (u32 (Z.shiftl x0 24)) (u32 (Z.shiftl x1 16)))
                         (u32 (Z.shiftl x2 8))) x3)
  | _ => None
  end.

Definition peek64BE (p : bytes) : option Z :=
  match p with
  | x0 :: x1 :: x2 :: x3 :: x4 :: x5 :: x6 :: x7 :: _ =>
      Some (Z.lor (Z.lor (Z.lor (Z.lor (Z.lor (Z.lor (Z.lor
        (u64 (Z.shiftl x0 56)) (u64 (Z.shiftl x1 48))) (u64 (Z.shiftl x2 40)))
        (u64 (Z.shiftl x3 32))) (u64 (Z.shiftl x4 24))) (u64 (Z.shiftl x5 16)))
        (u64 (Z.shiftl x6 8))) x7)
  | _ => None
  end.

(** ** Builders of the primitive types (Encode.hs) *)

Definition putWord8 (w : Z) : Builder := {| builderLen := 1; builderBS := [w] |}.
Definition putBool (b : bool) : Builder := if b then putWord8 1 else putWord8 0.
Definition putInt8 (i : Z) : Builder := {| builderLen := 1; builderBS := [u8 i] |}.
Definition putInt16 (i : Z) : Builder := {| builderLen := 2; builderBS := poke16BE (u16 i) |}.
Definition putInt32 (i : Z) : Builder := {| builderLen := 4; builderBS := poke32BE (u32 i) |}.
Definition putInt64 (i : Z) : Builder := {| builderLen := 8; builderBS := poke64BE (u64 i) |}.
Definition putWord32 (w : Z) : Builder := {| builderLen := 4; builderBS := poke32BE w |}.
(** A double is its 64 bits. *)
Definition putDouble (x : Z) : Builder := {| builderLen := 8; builderBS := poke64BE x |}.

(** The loops of [putVarWord32] and [putVarWord64], which differ in their mask.
    A 64-bit value has at most ten groups of seven bits. *)
Fixpoint putVar_go (fuel : nat) (mask : Z) (ret : Builder) (value : Z) : Builder :=
  match fuel with
  | O => ret
  | S fuel =>
      if negb (Z.land value mask =? 0) then
        putVar_go fuel mask (ret <+> putWord8 (Z.lor (Z.land (u8 value) 0x7f) 0x80))
          (Z.shiftr value 7)
      else ret <+> putWord8 (u8 value)
  end.

Definition putVarWord32 (v : Z) : Builder := putVar_go 10 0xffffff80 mempty v.
Definition putVarWord64 (v : Z) : Builder := putVar_go 10 0xffffffffffffff80 mempty v.

Definition putVarInt32 (i : Z) : Builder :=
  let i' := Z.lxor (i32 (Z.shiftl i 1)) (Z.shiftr i 31) in putVarWord32 (u32 i').
Definition putVarInt64 (i : Z) : Builder :=
  let i' := Z.lxor (i64 (Z.shiftl i 1)) (Z.shiftr i 63) in putVarWord64 (u64 i').

Definition putBytes (bs : bytes) : Builder :=
  putInt32 (i32 (Z.of_nat (length bs))) <+> byteStringCopy bs.
Definition putCompactBytes (bs : bytes) : Builder :=
  putVarWord32 (u32 (u32 (Z.of_nat (length bs)) + 1)) <+> byteStringCopy bs.
Definition putNullableBytes (x : option bytes) : Builder :=
  match x with None => putInt32 (-1) | Some x => putBytes x end.
Definition putCompactNullableBytes (x : option bytes) : Builder :=
  match x with None => putVarWord32 0 | Some x => putCompactBytes x end.
Definition putVarBytesInRecord (x : option bytes) : Builder :=
  match x with
  | None => putVarInt32 (-1)
  | Some bs => putVarInt32 (i32 (Z.of_nat (length bs))) <+> byteStringCopy bs
  end.

Section texts.
Context `{TextLib}.

Definition putString (x : Text) : Builder :=
  let bs := encodeUtf8 x in putInt16 (i16 (Z.of_nat (length bs))) <+> byteStringCopy bs.
Definition putCompactString (x : Text) : Builder :=
  let bs := encodeUtf8 x in
  putVarWord32 (u32 (u32 (Z.of_nat (length bs)) + 1)) <+> byteStringCopy bs.
Definition putNullableString (x : option Text) : Builder :=
  match x with None => putInt16 (-1) | Some x => putString x end.
Definition putCompactNullableString (x : option Text) : Builder :=
  match x with None => putVarWord32 0 | Some x => putCompactString x end.
Definition putVarStringInRecord (x : Text) : Builder :=
  let bs := encodeUtf8 x in putVarInt32 (i32 (Z.of_nat (length bs))) <+> byteStringCopy bs.
End texts.

(** ** Parsers of the primitive types (Parser.hs) *)

Definition getBool : Parser bool := pfmap (fun b => negb (b =? 0)) anyWord8.
Definition getInt8 : Parser Z := pfmap i8 anyWord8.
Definition getInt16 : Parser Z := bs <-- takeBytes 2;; fromIO (i16 <$> peek16BE bs).
Definition getInt32 : Parser Z := bs <-- takeBytes 4;; fromIO (i32 <$> peek32BE bs).
Definition getInt64 : Parser Z := bs <-- takeBytes 8;; fromIO (i64 <$> peek64BE bs).
Definition getWord32 : Parser Z := bs <-- takeBytes 4;; fromIO (peek32BE bs).
Definition getDouble : Parser Z := bs <-- takeBytes 8;; fromIO (peek64BE bs).

Definition testMsb (b : Z) : bool := negb (Z.land b 0x80 =? 0).

(** The loops of [getVarWord32] and [getVarWord64]: [wrap] is the wrap-around of
    the type and [limit] the last shift. At most ten bytes are read. *)
Fixpoint getVar_loop (fuel : nat) (name : string) (wrap : Z -> Z) (limit v i : Z) : Parser Z :=
  match fuel with
  | O => fun r bs next => Undefined
  | S fuel =>
      b <-- anyWord8;;
      if testMsb b then
        let v' := Z.lor v (wrap (Z.shiftl (Z.land b 0x7f) i)) in
        let i' := i + 7 in
        if limit <? i' then fail (name +:+ " failed " +:+ pretty v')
        else getVar_loop fuel name wrap limit v' i'
      else pure (Z.lor v (wrap (Z.shiftl b i)))
  end.

Definition getVarWord32 : Parser Z := getVar_loop 10 "getVarWord32" u32 28 0 0.
Definition getVarWord64 : Parser Z := getVar_loop 10 "getVarWord64" u64 63 0 0.

Definition getVarInt32 : Parser Z :=
  v <-- getVarWord32;; pure (i32 (Z.lxor (Z.shiftr v 1) (u32 (- Z.land v 1)))).
Definition getVarInt64 : Parser Z :=
  v <-- getVarWord64;; pure (i64 (Z.lxor (Z.shiftr v 1) (u64 (- Z.land v 1)))).

Definition getBytes : Parser bytes :=
  n <-- getInt32;;
  if 0 <=? n then takeBytes n else fail ("Length of bytes must not be negative " +:+ pretty n).

Definition getCompactBytes : Parser bytes :=
  n <-- getVarWord32;;
  let n' := n - 1 in
  if 0 <=? n' then takeBytes n'
  else fail ("Length of compact bytes must not be negative " +:+ pretty n').

Definition getNullableBytes : Parser (option bytes) :=
  n <-- getInt32;;
  if 0 <=? n then pfmap Some (takeBytes n)
  else if n =? -1 then pure None
  else fail ("Length of empty nullable bytes must be -1 " +:+ pretty n).

Definition getCompactNullableBytes : Parser (option bytes) :=
  n_1 <-- getVarWord32;;
  let n := n_1 - 1 in
  if 0 <=? n then pfmap Some (takeBytes n)
  else if n =? -1 then pure None
  else fail ("Length of empty nullable compact bytes must be -1 " +:+ pretty n).

Definition getVarBytesInRecord : Parser (option bytes) :=
  n <-- getVarInt32;; if 0 <=? n then pfmap Some (takeBytes n) else pure None.

(** No check of the length of the input. *)
Definition unsafePeekInt32At (offset : Z) : Parser Z :=
  fun r bs next =>
    match peek32BE (drop (Z.to_nat offset) bs) with
    | Some x => next bs (i32 x)
    | None => Undefined
    end.

Section texts.
Context `{TextLib}.

Definition decodeUtf8 (p : Parser bytes) : Parser Text :=
  bs <-- p;;
  match decodeUtf8' bs with
  | inl e => fail ("Decode utf8 error: " +:+ e)
  | inr r => pure r
  end.

Definition decodeUtf8Just (p : Parser bytes) : Parser (option Text) := pfmap Some (decodeUtf8 p).

Definition getString : Parser Text :=
  n <-- getInt16;;
  if 0 <=? n then decodeUtf8 (takeBytes n)
  else fail ("Length of string must not be negative " +:+ pretty n).

Definition getCompactString : Parser Text :=
  n_1 <-- getVarWord32;;
  let n := n_1 - 1 in
  if 0 <=? n then decodeUtf8 (takeBytes n)
  else fail ("Length of compact string must not be negative " +:+ pretty n).

Definition getNullableString : Parser (option Text) :=
  n <-- getInt16;;
  if 0 <=? n then decodeUtf8Just (takeBytes n)
  else if n =? -1 then pure None
  else fail ("Length of empty nullable string must be -1 " +:+ pretty n).

Definition getCompactNullableString : Parser (option Text) :=
  n_1 <-- getVarWord32;;
  let n := n_1 - 1 in
  if 0 <=? n then decodeUtf8Just (takeBytes n)
  else if n =? -1 then pure None
  else fail ("Length of empty nullable compact string must be -1 " +:+ pretty n).

Definition getVarStringInRecord : Parser Text :=
  n <-- getVarInt32;;
  if 0 <=? n then decodeUtf8 (takeBytes n)
  else fail ("Length of RecordString must be -1 " +:+ pretty n).
End texts.

(** ** Parsing what was put *)

(** The parser consumes exactly [b] and gives [a], whatever follows. *)
Definition parses {A} (p : Parser A) (b : bytes) (a : A) : Prop :=
  forall r rest (next : Next A r), p r (b ++ rest) next = next rest a.

Lemma parses_pure {A} (a : A) : parses (pure a) [] a.
Proof. done. Qed.

Lemma parses_bind {A B} (p : Parser A) (f : A -> Parser B) b1 b2 a c :
  parses p b1 a -> parses (f a) b2 c -> parses (bind p f) (b1 ++ b2) c.
Proof. intros Hp Hf r rest next. unfold bind. by rewrite <- app_assoc, Hp, Hf. Qed.

(** The last step of a parser consumes all the rest. *)
Lemma parses_bind_r {A B} (p : Parser A) (f : A -> Parser B) b a c :
  parses p [] a -> parses (f a) b c -> parses (bind p f) b c.
Proof. apply (parses_bind p f []). Qed.

Lemma parses_bind_l {A B} (p : Parser A) (f : A -> Parser B) b a c :
  parses p b a -> parses (f a) [] c -> parses (bind p f) b c.
Proof. intros Hp Hf. rewrite <- (app_nil_r b). by eapply parses_bind. Qed.

Lemma parses_fmap {A B} (f : A -> B) (p : Parser A) b a :
  parses p b a -> parses (pfmap f p) b (f a).
Proof. intros Hp r rest next. unfold pfmap. by rewrite Hp. Qed.

Lemma parses_fromIO {A} (io : option A) a : io = Some a -> parses (fromIO io) [] a.
Proof. intros -> r rest next. done. Qed.

Lemma parses_anyWord8 b : parses anyWord8 [b] b.
Proof. done. Qed.

Lemma parses_takeBytes n b : Z.of_nat (length b) = n -> parses (takeBytes n) b b.
Proof.
  intros <- r rest next. unfold takeBytes. destruct (Z.eqb_spec (Z.of_nat (length b)) 0) as [E|E].
  - by destruct b.
  - rewrite (proj2 (Z.leb_le _ _)) by (rewrite length_app; lia). unfold splitAt.
    by rewrite Nat2Z.id, take_app_length, drop_app_length.
Qed.

(** A complete parse ends with the rest of the input. *)
Lemma parses_run {A} (p : Parser A) b a rest :
  parses p b a -> runParser p (b ++ rest) = Done rest a.
Proof. intros Hp. apply Hp. Qed.

(** ** Integers *)

(** One more byte below the bits from [n + 8] on. *)
Lemma lor_byte n y : 0 <= n ->
  Z.lor (Z.shiftl (Z.shiftr y (n + 8)) (n + 8)) (Z.shiftl (u8 (Z.shiftr y n)) n) =
  Z.shiftl (Z.shiftr y n) n.
Proof.
  intros Hn. rewrite !Z.shiftl_mul_pow2, !Z.shiftr_div_pow2 by lia.
  rewrite (Z.pow_add_r 2 n 8), <- Z.div_div by lia. set (q := y / 2 ^ n). unfold u8.
  assert (0 < 2 ^ n) by lia. pose proof (Z.mod_pos_bound q (2 ^ 8)).
  pose proof (Z.div_mod q (2 ^ 8)).
  rewrite (lor_disjoint (n + 8)); rewrite ?Z.pow_add_r by lia; try nia.
  by apply Z.mod_mul; nia.
Qed.

Lemma wrap_byte w n z : 0 <= n -> n + 8 <= w ->
  Z.shiftl (u8 z) n mod 2 ^ w = Z.shiftl (u8 z) n.
Proof.
  intros Hn Hw. rewrite Z.shiftl_mul_pow2 by lia. unfold u8.
  pose proof (Z.mod_pos_bound z (2 ^ 8)). apply Z.mod_small. split; [nia|].
  assert (2 ^ n * 2 ^ 8 <= 2 ^ w) by (rewrite <- Z.pow_add_r by lia; apply Z.pow_le_mono_r; lia). nia.
Qed.

Lemma byte_small y n : 0 <= y < 2 ^ (n + 8) -> 0 <= n -> u8 (Z.shiftr y n) = Z.shiftr y n.
Proof.
  intros Hy Hn. unfold u8. rewrite Z.shiftr_div_pow2 by lia. apply Z.mod_small.
  rewrite Z.pow_add_r in Hy by lia. split; [apply Z.div_pos; lia|apply Z.div_lt_upper_bound; lia].
Qed.

Lemma byte_0 y : u8 y = Z.shiftl (u8 (Z.shiftr y 0)) 0.
Proof. by rewrite Z.shiftr_0_r, Z.shiftl_0_r. Qed.

Ltac peek_poke :=
  cbn [app peek16BE peek32BE peek64BE poke16BE poke32BE poke64BE]; unfold u16, u32, u64; f_equal;
  rewrite !wrap_byte by lia.

Lemma peek_poke16 y : 0 <= y < 2 ^ 16 -> peek16BE (poke16BE y) = Some y.
Proof.
  intros Hy. peek_poke. rewrite (byte_small y 8), (byte_0 y) by (cbn; lia).
  rewrite (lor_byte 0) by lia. apply Z.shiftl_0_r.
Qed.

Lemma peek_poke32 y : 0 <= y < 2 ^ 32 -> peek32BE (poke32BE y) = Some y.
Proof.
  intros Hy. peek_poke. rewrite (byte_small y 24), (byte_0 y) by (cbn; lia).
  rewrite (lor_byte 16), (lor_byte 8), (lor_byte 0) by lia. apply Z.shiftl_0_r.
Qed.

Lemma peek_poke64 y : 0 <= y < 2 ^ 64 -> peek64BE (poke64BE y) = Some y.
Proof.
  intros Hy. peek_poke. rewrite (byte_small y 56), (byte_0 y) by (cbn; lia).
  rewrite (lor_byte 48), (lor_byte 40), (lor_byte 32), (lor_byte 24), (lor_byte 16), (lor_byte 8),
    (lor_byte 0) by lia. apply Z.shiftl_0_r.
Qed.

Lemma i16_id x : is_i16 x -> i16 x = x. Proof. int_solve. Qed.
Lemma wrap_signed16 i : is_i16 i -> i16 (u16 i) = i. Proof. int_solve. Qed.
Lemma wrap_signed32 i : is_i32 i -> i32 (u32 i) = i. Proof. int_solve. Qed.
Lemma wrap_signed64 i : is_i64 i -> i64 (u64 i) = i. Proof. int_solve. Qed.
Lemma wrap_signed8 i : is_i8 i -> i8 (u8 i) = i. Proof. int_solve. Qed.

Create HintDb kafka.

Lemma parses_Bool b : parses getBool (builderBS (putBool b)) b.
Proof. by destruct b. Qed.

Lemma parses_Int8 i : is_i8 i -> parses getInt8 (builderBS (putInt8 i)) i.
Proof.
  intros Hi. unfold getInt8. rewrite <- (wrap_signed8 i Hi) at 2. apply parses_fmap, parses_anyWord8.
Qed.

(** The parsers that take [n] bytes and read them. *)
Lemma parses_peek (n : Z) (peek : bytes -> option Z) b v :
  Z.of_nat (length b) = n -> peek b = Some v ->
  parses (bs <-- takeBytes n;; fromIO (peek bs)) b v.
Proof. intros Hn Hp. eapply parses_bind_l; [by apply parses_takeBytes|by apply parses_fromIO]. Qed.

Lemma parses_Int16 i : is_i16 i -> parses getInt16 (builderBS (putInt16 i)) i.
Proof.
  intros Hi. apply (parses_peek 2 (fun bs => i16 <$> peek16BE bs)); [done|].
  cbn [builderBS putInt16]. rewrite peek_poke16; [|unfold_int; Z.div_mod_to_equations; lia].
  cbn. by rewrite wrap_signed16.
Qed.

Lemma parses_Int32 i : is_i32 i -> parses getInt32 (builderBS (putInt32 i)) i.
Proof.
  intros Hi. apply (parses_peek 4 (fun bs => i32 <$> peek32BE bs)); [done|].
  cbn [builderBS putInt32]. rewrite peek_poke32 by apply u32_range. cbn. by rewrite wrap_signed32.
Qed.

Lemma parses_Int64 i : is_i64 i -> parses getInt64 (builderBS (putInt64 i)) i.
Proof.
  intros Hi. apply (parses_peek 8 (fun bs => i64 <$> peek64BE bs)); [done|].
  cbn [builderBS putInt64]. rewrite peek_poke64 by apply u64_range. cbn. by rewrite wrap_signed64.
Qed.

Lemma parses_Word32 w : is_u32 w -> parses getWord32 (builderBS (putWord32 w)) w.
Proof. intros Hw. apply (parses_peek 4 peek32BE); [done|by apply peek_poke32]. Qed.

Lemma parses_Double x : is_u64 x -> parses getDouble (builderBS (putDouble x)) x.
Proof. intros Hx. apply (parses_peek 8 peek64BE); [done|by apply peek_poke64]. Qed.

(** ** Variable-length integers *)

(** Seven bits per byte, the lowest first; all bytes but the last have the
    highest bit set. *)
Fixpoint var_bytes (n : nat) (v : Z) : bytes :=
  match n with
  | O => []
  | S n => if 128 <=? v then (v mod 128 + 128) :: var_bytes n (v / 128) else [v]
  end.

Lemma land_7f v : Z.land v 0x7f = v mod 128.
Proof. apply (Z.land_ones v 7). lia. Qed.

Lemma land_mask w v : 7 <= w -> 0 <= v < 2 ^ w ->
  Z.land v (Z.shiftl (Z.ones (w - 7)) 7) = 128 * (v / 128).
Proof.
  intros Hw Hv. rewrite Z.mul_comm. change 128 with (2 ^ 7).
  rewrite <- Z.shiftr_div_pow2, <- (Z.shiftl_mul_pow2 _ 7) by lia.
  apply Z.bits_inj'. intros k Hk. rewrite Z.land_spec, !Z.shiftl_spec by lia.
  destruct (Z.ltb_spec k 7) as [Hlt|Hge].
  - rewrite !(Z.testbit_neg_r _ (k - 7)) by lia. by rewrite andb_false_r.
  - rewrite Z.shiftr_spec, Z.testbit_ones_nonneg by lia. replace (k - 7 + 7) with k by lia.
    destruct (Z.ltb_spec (k - 7) (w - 7)); [by rewrite andb_true_r|].
    rewrite <- (Z.mod_small v (2 ^ w)), Z.mod_pow2_bits_high by lia. done.
Qed.

(** A property of all bytes. *)
Lemma all_bytes (P : Z -> bool) :
  forallb P (seqZ 0 256) = true -> forall b, 0 <= b < 256 -> P b = true.
Proof. intros HP b Hb. apply (proj1 (forallb_forall P _) HP), list_elem_of_In, elem_of_seqZ. lia. Qed.

Lemma testMsb_byte b : 0 <= b < 256 -> testMsb b = (128 <=? b).
Proof.
  intros Hb. apply eqb_prop. revert b Hb.
  apply (all_bytes (fun b => eqb (testMsb b) (128 <=? b))). vm_compute. reflexivity.
Qed.

Lemma putVar_go_bytes w fuel ret v : 8 <= w -> 0 <= v < 2 ^ w ->
  builderBS (putVar_go fuel (Z.shiftl (Z.ones (w - 7)) 7) ret v) =
  builderBS ret ++ var_bytes fuel v.
Proof.
  intros Hw. revert ret v. induction fuel as [|fuel IH]; intros ret v Hv; cbn [putVar_go var_bytes].
  - by rewrite app_nil_r.
  - rewrite land_mask, land_7f by lia. unfold u8. destruct (Z.leb_spec 128 v) as [Hge|Hlt].
    + rewrite (proj2 (Z.eqb_neq _ 0)) by (Z.div_mod_to_equations; lia). cbn [negb].
      rewrite Z.shiftr_div_pow2 by lia. change (2 ^ 7) with 128.
      rewrite IH by (Z.div_mod_to_equations; lia). cbn [builderBS mappend putWord8].
      rewrite <- app_assoc. cbn [app]. do 2 f_equal.
      rewrite Z.lor_comm, (lor_disjoint 7) by (Z.div_mod_to_equations; lia).
      Z.div_mod_to_equations; lia.
    + rewrite Z.div_small, Z.mul_0_r by lia. cbn [Z.eqb negb builderBS mappend putWord8].
      by rewrite Z.mod_small by lia.
Qed.

Lemma getVar_parses name w limit fuel :
  (forall i, i mod 7 = 0 -> i < w -> i <= limit) -> forall v acc i,
  0 <= v -> 0 <= i < w -> i mod 7 = 0 -> 0 <= acc < 2 ^ i -> acc + v * 2 ^ i < 2 ^ w ->
  w <= i + 7 * Z.of_nat fuel ->
  parses (getVar_loop fuel name (fun x => x mod 2 ^ w) limit acc i) (var_bytes fuel v)
    (acc + v * 2 ^ i).
Proof.
  intros Hlim. induction fuel as [|fuel IH]; intros v acc i Hv Hi Hi7 Hacc Hw Hf; [lia|].
  cbn [getVar_loop var_bytes]. assert (0 < 2 ^ i) by lia.
  destruct (Z.leb_spec 128 v) as [Hge|Hlt].
  - assert (Hi' : i + 7 < w).
    { apply (Z.pow_lt_mono_r_iff 2); [lia..|]. rewrite Z.pow_add_r by lia. nia. }
    apply (parses_bind _ _ [_] _ (v mod 128 + 128)); [apply parses_anyWord8|].
    pose proof (Z.mod_pos_bound v 128). rewrite testMsb_byte by lia.
    rewrite (proj2 (Z.leb_le 128 _)) by lia.
    rewrite (proj2 (Z.ltb_ge limit _)) by (apply Hlim; [|lia]; Z.div_mod_to_equations; lia).
    rewrite land_7f. replace ((v mod 128 + 128) mod 128) with (v mod 128)
      by (Z.div_mod_to_equations; lia).
    assert (2 ^ (i + 7) = 2 ^ i * 128) by (rewrite Z.pow_add_r by lia; done).
    pose proof (Z.div_mod v 128).
    rewrite Z.shiftl_mul_pow2, Z.mod_small by nia.
    rewrite Z.lor_comm, (lor_disjoint i) by first [lia | apply Z.mod_mul; lia].
    replace (acc + v * 2 ^ i) with (v mod 128 * 2 ^ i + acc + v / 128 * 2 ^ (i + 7)) by nia.
    apply IH; [apply Z.div_pos; lia|lia|Z.div_mod_to_equations; lia|nia|nia|lia].
  - eapply parses_bind_l; [apply parses_anyWord8|]. rewrite testMsb_byte by lia.
    rewrite (proj2 (Z.leb_gt 128 _)) by lia. rewrite Z.shiftl_mul_pow2, Z.mod_small by nia.
    rewrite Z.lor_comm, (lor_disjoint i) by first [lia | apply Z.mod_mul; lia].
    rewrite Z.add_comm. apply parses_pure.
Qed.

Lemma parses_VarWord32 v : is_u32 v -> parses getVarWord32 (builderBS (putVarWord32 v)) v.
Proof.
  intros Hv. unfold putVarWord32. rewrite (putVar_go_bytes 32) by (exact Hv || lia).
  replace v with (0 + v * 2 ^ 0) at 2 by lia.
  apply (getVar_parses "getVarWord32" 32); unfold is_u32 in Hv;
    first [done | lia | intros i; Z.div_mod_to_equations; lia].
Qed.

Lemma parses_VarWord64 v : is_u64 v -> parses getVarWord64 (builderBS (putVarWord64 v)) v.
Proof.
  intros Hv. unfold putVarWord64. rewrite (putVar_go_bytes 64) by (exact Hv || lia).
  replace v with (0 + v * 2 ^ 0) at 2 by lia.
  apply (getVar_parses "getVarWord64" 64); unfold is_u64 in Hv;
    first [done | lia | intros i; Z.div_mod_to_equations; lia].
Qed.

(** ** Zigzag *)

Lemma lxor_ones w x : 0 < w -> 0 <= x < 2 ^ w -> Z.lxor x (2 ^ w - 1) = 2 ^ w - 1 - x.
Proof.
  intros Hw Hx. assert (Hl : Z.log2 x < w).
  { destruct (decide (x = 0)) as [->|]; [done|]. apply Z.log2_lt_pow2; lia. }
  replace (2 ^ w - 1) with (Z.ones w) by (rewrite Z.ones_equiv; lia).
  rewrite <- Z.ldiff_ones_l_low by lia. symmetry. apply Z.sub_nocarry_ldiff.
  apply Z.ldiff_ones_r_low; lia.
Qed.

(** The encoded number is even for a number that is not negative, odd for a
    negative one. *)
Lemma zigzag_encode w i : 1 < w -> - 2 ^ (w - 1) <= i < 2 ^ (w - 1) ->
  Z.lxor ((Z.shiftl i 1 + 2 ^ (w - 1)) mod 2 ^ w - 2 ^ (w - 1)) (Z.shiftr i (w - 1)) mod 2 ^ w =
  if 0 <=? i then 2 * i else - 2 * i - 1.
Proof.
  intros Hw Hi. assert (Hp : 2 ^ w = 2 * 2 ^ (w - 1)) by (rewrite <- Z.pow_succ_r by lia; f_equal; lia).
  rewrite Z.shiftl_mul_pow2, Z.shiftr_div_pow2 by lia. change (2 ^ 1) with 2. rewrite Hp.
  generalize dependent (2 ^ (w - 1)). clear. intros P Hi _.
  destruct (Z.leb_spec 0 i).
  - rewrite Z.div_small, Z.lxor_0_r, Zminus_mod_idemp_l by lia.
    rewrite Z.mod_small; lia.
  - replace (i / P) with (-1) by (Z.div_mod_to_equations; nia).
    rewrite Z.lxor_m1_r. unfold Z.lnot, Z.pred.
    replace (- ((i * 2 + P) mod (2 * P) - P) + -1)
      with (P - 1 - (i * 2 + P) mod (2 * P)) by lia.
    rewrite Zminus_mod_idemp_r, Z.mod_small; lia.
Qed.

Lemma zigzag_decode w i : 1 < w -> - 2 ^ (w - 1) <= i < 2 ^ (w - 1) ->
  let v := if 0 <=? i then 2 * i else - 2 * i - 1 in
  (Z.lxor (Z.shiftr v 1) ((- Z.land v 1) mod 2 ^ w) + 2 ^ (w - 1)) mod 2 ^ w - 2 ^ (w - 1) = i.
Proof.
  intros Hw Hi v. assert (Hp : 2 ^ w = 2 * 2 ^ (w - 1)) by (rewrite <- Z.pow_succ_r by lia; f_equal; lia).
  assert (Hl : Z.land v 1 = v mod 2) by (apply (Z.land_ones v 1); lia).
  rewrite Hl, Z.shiftr_div_pow2 by lia. change (2 ^ 1) with 2. subst v.
  destruct (Z.leb_spec 0 i).
  - replace (2 * i mod 2) with 0 by (Z.div_mod_to_equations; lia).
    replace (2 * i / 2) with i by (Z.div_mod_to_equations; lia).
    rewrite Z.mod_0_l, Z.lxor_0_r by lia. rewrite Z.mod_small; lia.
  - replace ((-2 * i - 1) mod 2) with 1 by (Z.div_mod_to_equations; lia).
    replace ((-2 * i - 1) / 2) with (- i - 1) by (Z.div_mod_to_equations; lia).
    replace (- (1) mod 2 ^ w) with (2 ^ w - 1) by (apply (Z.mod_unique _ _ (-1)); lia).
    rewrite lxor_ones by lia. rewrite <- (Z.mod_unique _ (2 ^ w) 1 (i + 2 ^ (w - 1))); lia.
Qed.

Lemma parses_VarInt32 i : is_i32 i -> parses getVarInt32 (builderBS (putVarInt32 i)) i.
Proof.
  intros Hi. eapply parses_bind_l; [apply parses_VarWord32, u32_range|].
  assert (u32 (Z.lxor (i32 (Z.shiftl i 1)) (Z.shiftr i 31)) = if 0 <=? i then 2 * i else - 2 * i - 1)
    as -> by exact (zigzag_encode 32 i eq_refl Hi).
  intros r rest next. unfold pure. f_equal. exact (zigzag_decode 32 i eq_refl Hi).
Qed.

Lemma parses_VarInt64 i : is_i64 i -> parses getVarInt64 (builderBS (putVarInt64 i)) i.
Proof.
  intros Hi. eapply parses_bind_l; [apply parses_VarWord64, u64_range|].
  assert (u64 (Z.lxor (i64 (Z.shiftl i 1)) (Z.shiftr i 63)) = if 0 <=? i then 2 * i else - 2 * i - 1)
    as -> by exact (zigzag_encode 64 i eq_refl Hi).
  intros r rest next. unfold pure. f_equal. exact (zigzag_decode 64 i eq_refl Hi).
Qed.

(** ** Lengths followed by bytes *)

#[export] Hint Resolve parses_Bool parses_Int8 parses_Int16 parses_Int32 parses_Int64
  parses_Word32 parses_Double parses_VarWord32 parses_VarWord64 parses_VarInt32 parses_VarInt64
  parses_pure parses_anyWord8 parses_takeBytes : kafka.

(** The length of a byte string that is followed by the string. *)
Lemma parses_length {A} (get_n : Parser Z) (k : Z -> Parser A) put_n n bs a :
  parses get_n (builderBS put_n) n -> parses (k n) bs a ->
  parses (bind get_n k) (builderBS (put_n <+> byteStringCopy bs)) a.
Proof. intros. cbn [mappend builderBS byteStringCopy]. by eapply parses_bind. Qed.

Lemma compact_length (n : Z) : 0 <= n < 2 ^ 32 - 1 -> u32 (u32 n + 1) = n + 1.
Proof. intros. rewrite (u32_id n) by (unfold is_u32; lia). apply u32_id. unfold is_u32. lia. Qed.

Definition short (bs : bytes) (bits : Z) : Prop := Z.of_nat (length bs) < 2 ^ bits.
Definition compact (bs : bytes) : Prop := Z.of_nat (length bs) < 2 ^ 32 - 1.

Ltac solve_length :=
  unfold short, compact, is_i16, is_i32, is_u32 in *; first [assumption | lia].

Lemma parses_Bytes bs : short bs 31 -> parses getBytes (builderBS (putBytes bs)) bs.
Proof.
  intros Hb. eapply parses_length; [apply parses_Int32, i32_range|].
  rewrite i32_id by solve_length. rewrite (proj2 (Z.leb_le 0 _)) by lia. by apply parses_takeBytes.
Qed.

Lemma parses_CompactBytes bs : compact bs -> parses getCompactBytes (builderBS (putCompactBytes bs)) bs.
Proof.
  intros Hb. eapply parses_length; [apply parses_VarWord32, u32_range|].
  rewrite compact_length by solve_length. cbn zeta. rewrite Z.add_simpl_r.
  rewrite (proj2 (Z.leb_le 0 _)) by lia. by apply parses_takeBytes.
Qed.

Lemma parses_NullableBytes x : (forall bs, x = Some bs -> short bs 31) ->
  parses getNullableBytes (builderBS (putNullableBytes x)) x.
Proof.
  intros Hx. destruct x as [bs|]; [|by eapply parses_bind_l; [apply parses_Int32; done|]].
  specialize (Hx bs eq_refl). eapply parses_length; [apply parses_Int32, i32_range|].
  rewrite i32_id by solve_length. rewrite (proj2 (Z.leb_le 0 _)) by lia.
  apply parses_fmap. by apply parses_takeBytes.
Qed.

Lemma parses_CompactNullableBytes x : (forall bs, x = Some bs -> compact bs) ->
  parses getCompactNullableBytes (builderBS (putCompactNullableBytes x)) x.
Proof.
  intros Hx. destruct x as [bs|]; [|by eapply parses_bind_l; [apply parses_VarWord32; done|]].
  specialize (Hx bs eq_refl). eapply parses_length; [apply parses_VarWord32, u32_range|].
  rewrite compact_length by solve_length. cbn zeta. rewrite Z.add_simpl_r.
  rewrite (proj2 (Z.leb_le 0 _)) by lia. apply parses_fmap. by apply parses_takeBytes.
Qed.

Lemma parses_VarBytesInRecord x : (forall bs, x = Some bs -> short bs 31) ->
  parses getVarBytesInRecord (builderBS (putVarBytesInRecord x)) x.
Proof.
  intros Hx. destruct x as [bs|]; [|by eapply parses_bind_l; [apply parses_VarInt32; done|]].
  specialize (Hx bs eq_refl). eapply parses_length; [apply parses_VarInt32, i32_range|].
  rewrite i32_id by solve_length. rewrite (proj2 (Z.leb_le 0 _)) by lia.
  apply parses_fmap. by apply parses_takeBytes.
Qed.

Section text_proofs.
Context `{TextLib}.

Lemma parses_decodeUtf8 (p : Parser bytes) b t :
  parses p b (encodeUtf8 t) -> parses (decodeUtf8 p) b t.
Proof. intros Hp. eapply parses_bind_l; [done|]. rewrite decode_encode. apply parses_pure. Qed.

Lemma parses_String t : short (encodeUtf8 t) 15 -> parses getString (builderBS (putString t)) t.
Proof.
  intros Ht. unfold short in Ht.
  assert (E := i16_id (Z.of_nat (length (encodeUtf8 t))) ltac:(solve_length)).
  eapply parses_length; [apply parses_Int16; rewrite E; unfold is_i16; lia|].
  rewrite E, (proj2 (Z.leb_le 0 _)) by lia. by apply parses_decodeUtf8, parses_takeBytes.
Qed.

Lemma parses_NullableString x : (forall t, x = Some t -> short (encodeUtf8 t) 15) ->
  parses getNullableString (builderBS (putNullableString x)) x.
Proof.
  intros Hx. destruct x as [t|]; [|by eapply parses_bind_l; [apply parses_Int16; done|]].
  specialize (Hx t eq_refl). unfold short in Hx.
  assert (E := i16_id (Z.of_nat (length (encodeUtf8 t))) ltac:(solve_length)).
  eapply parses_length; [apply parses_Int16; rewrite E; unfold is_i16; lia|].
  rewrite E, (proj2 (Z.leb_le 0 _)) by lia. by apply parses_fmap, parses_decodeUtf8, parses_takeBytes.
Qed.

Lemma parses_CompactString t : compact (encodeUtf8 t) ->
  parses getCompactString (builderBS (putCompactString t)) t.
Proof.
  intros Hb. eapply parses_length; [apply parses_VarWord32, u32_range|].
  rewrite compact_length by solve_length. cbn zeta. rewrite Z.add_simpl_r.
  rewrite (proj2 (Z.leb_le 0 _)) by lia. by apply parses_decodeUtf8, parses_takeBytes.
Qed.

Lemma parses_CompactNullableString x : (forall t, x = Some t -> compact (encodeUtf8 t)) ->
  parses getCompactNullableString (builderBS (putCompactNullableString x)) x.
Proof.
  intros Hx. destruct x as [t|]; [|by eapply parses_bind_l; [apply parses_VarWord32; done|]].
  specialize (Hx t eq_refl). eapply parses_length; [apply parses_VarWord32, u32_range|].
  rewrite compact_length by solve_length. cbn zeta. rewrite Z.add_simpl_r.
  rewrite (proj2 (Z.leb_le 0 _)) by lia. by apply parses_fmap, parses_decodeUtf8, parses_takeBytes.
Qed.

Lemma parses_VarStringInRecord t : short (encodeUtf8 t) 31 ->
  parses getVarStringInRecord (builderBS (putVarStringInRecord t)) t.
Proof.
  intros Hx. eapply parses_length; [apply parses_VarInt32, i32_range|].
  rewrite i32_id by solve_length. rewrite (proj2 (Z.leb_le 0 _)) by lia.
  by apply parses_decodeUtf8, parses_takeBytes.
Qed.

#[global] Instance decodeUtf8_resumable p : Resumable p -> Resumable (decodeUtf8 p).
Proof. intros Hp. apply bind_resumable; [done|]. intros bs. destruct (decodeUtf8' bs); apply _. Qed.
End text_proofs.

#[global] Instance getVar_loop_resumable fuel name wrap limit v i :
  Resumable (getVar_loop fuel name wrap limit v i).
Proof.
  revert v i. induction fuel as [|fuel IH]; intros v i; cbn [getVar_loop]; [by split|].
  apply bind_resumable; [apply _|]. intros b. apply if_resumable; [|apply _].
  cbn zeta. apply if_resumable; [apply _|apply IH].
Qed.

#[export] Hint Extern 0 (Resumable (let _ := _ in _)) => cbn zeta : typeclass_instances.

(** All parsers of the primitive types can be resumed; only the one that peeks
    without a check cannot. *)
Lemma primitives_resumable `{TextLib} :
  Resumable getBool /\ Resumable getInt8 /\ Resumable getInt16 /\ Resumable getInt32 /\
  Resumable getInt64 /\ Resumable getWord32 /\ Resumable getDouble /\ Resumable getVarInt32 /\
  Resumable getVarInt64 /\ Resumable getBytes /\ Resumable getCompactBytes /\
  Resumable getNullableBytes /\ Resumable getCompactNullableBytes /\
  Resumable getVarBytesInRecord /\ Resumable getString /\ Resumable getCompactString /\
  Resumable getNullableString /\ Resumable getCompactNullableString /\
  Resumable getVarStringInRecord.
Proof. split_and!; apply _. Qed.

(** ** Lengths of builders *)

(** The length a builder carries is that of its bytes, as a [Word]. *)
Definition exact (b : Builder) : Prop :=
  builderLen b = u64 (Z.of_nat (length (builderBS b))).

Lemma exact_mempty : exact mempty.
Proof. done. Qed.

Lemma exact_mappend b1 b2 : exact b1 -> exact b2 -> exact (b1 <+> b2).
Proof.
  unfold exact, mappend. cbn [builderLen builderBS]. intros -> ->.
  rewrite length_app, Nat2Z.inj_add. unfold u64. by rewrite <- Z.add_mod by lia.
Qed.

Lemma exact_copy bs : exact (byteStringCopy bs).
Proof. done. Qed.

Lemma exact_putVar fuel mask ret v : exact ret -> exact (putVar_go fuel mask ret v).
Proof.
  revert ret v. induction fuel as [|fuel IH]; intros ret v Hr; cbn [putVar_go]; [done|].
  case_match; [apply IH|]; by apply exact_mappend.
Qed.

#[export] Hint Resolve exact_mempty exact_mappend exact_copy exact_putVar : kafka.

Lemma exact_putVarWord32 v : exact (putVarWord32 v).
Proof. by apply exact_putVar. Qed.
Lemma exact_putVarWord64 v : exact (putVarWord64 v).
Proof. by apply exact_putVar. Qed.
#[export] Hint Resolve exact_putVarWord32 exact_putVarWord64 : kafka.

Lemma exact_putInt32 i : exact (putInt32 i). Proof. done. Qed.
Lemma exact_putInt16 i : exact (putInt16 i). Proof. done. Qed.
Lemma exact_putVarInt32 i : exact (putVarInt32 i). Proof. apply exact_putVarWord32. Qed.
Lemma exact_putVarInt64 i : exact (putVarInt64 i). Proof. apply exact_putVarWord64. Qed.
#[export] Hint Resolve exact_putInt32 exact_putInt16 exact_putVarInt32 exact_putVarInt64 : kafka.

(** ** Consumption *)

Ltac peek_total := intros bs Hbs; repeat (destruct bs as [|? bs]; [discriminate Hbs|]); by eexists.

#[global] Instance getInt16_consumes_n : Consumes 2 getInt16 | 1.
Proof. apply (peek_consumes 2 (fun bs => i16 <$> peek16BE bs)). peek_total. Qed.
#[global] Instance getInt32_consumes_n : Consumes 4 getInt32 | 1.
Proof. apply (peek_consumes 4 (fun bs => i32 <$> peek32BE bs)). peek_total. Qed.
#[global] Instance getInt64_consumes_n : Consumes 8 getInt64 | 1.
Proof. apply (peek_consumes 8 (fun bs => i64 <$> peek64BE bs)). peek_total. Qed.
#[global] Instance getWord32_consumes_n : Consumes 4 getWord32 | 1.
Proof. apply (peek_consumes 4 peek32BE). peek_total. Qed.
#[global] Instance getDouble_consumes_n : Consumes 8 getDouble | 1.
Proof. apply (peek_consumes 8 peek64BE). peek_total. Qed.

#[global] Instance getInt16_consumes : Consumes 0 getInt16.
Proof. apply (consumes_weaken 2); [lia|apply _]. Qed.
#[global] Instance getInt32_consumes : Consumes 0 getInt32.
Proof. apply (consumes_weaken 4); [lia|apply _]. Qed.
#[global] Instance getInt64_consumes : Consumes 0 getInt64.
Proof. apply (consumes_weaken 8); [lia|apply _]. Qed.
#[global] Instance getWord32_consumes : Consumes 0 getWord32.
Proof. apply (consumes_weaken 4); [lia|apply _]. Qed.
#[global] Instance getDouble_consumes : Consumes 0 getDouble.
Proof. apply (consumes_weaken 8); [lia|apply _]. Qed.

Lemma getVar_loop_consumes fuel name wrap limit v i : limit < i + 7 * Z.of_nat fuel ->
  (0 < fuel)%nat -> Consumes 0 (getVar_loop fuel name wrap limit v i).
Proof.
  revert v i. induction fuel as [|fuel IH]; intros v i Hi Hf; [lia|]. cbn [getVar_loop].
  apply bind_consumes; [apply _|]. intros b. apply if_consumes; [|apply _]. cbn zeta.
  destruct (Z.ltb_spec limit (i + 7)); [apply _|]. apply IH; lia.
Qed.

#[global] Instance getVarWord32_consumes : Consumes 0 getVarWord32.
Proof. apply getVar_loop_consumes; lia. Qed.
#[global] Instance getVarWord64_consumes : Consumes 0 getVarWord64.
Proof. apply getVar_loop_consumes; lia. Qed.

#[export] Hint Extern 0 (Consumes _ (let _ := _ in _)) => cbn zeta : typeclass_instances.

#[global] Instance decodeUtf8_consumes `{TextLib} p : Consumes 0 p -> Consumes 0 (decodeUtf8 p).
Proof. intros Hp. apply bind_consumes; [done|]. intros bs. destruct (decodeUtf8' bs); apply _. Qed.

(** ** Parsing what some bytes hold *)

Definition is_byte (b : Z) : Prop := 0 <= b < 256.

(** The parser's value is the one its bytes encode. *)
Definition inverts {A} (p : Parser A) (enc : A -> bytes) (ok : A -> Prop) : Prop :=
  forall r bs (next : Next A r), Forall is_byte bs ->
    (exists rest a, bs = enc a ++ rest /\ ok a /\ p r bs next = next rest a) \/
    stopped (p r bs next).

Lemma inverts_peek {A} (n : nat) (peek : bytes -> option A) enc ok :
  (forall bs, length bs = n -> Forall is_byte bs ->
     exists a, peek bs = Some a /\ bs = enc a /\ ok a) ->
  inverts (bs <-- takeBytes (Z.of_nat n);; fromIO (peek bs)) enc ok.
Proof.
  intros Hp r bs next Hb. unfold bind.
  match goal with |- _ \/ stopped (takeBytes _ _ _ ?k) =>
    destruct (takeBytes_cases (Z.of_nat n) r bs k) as [(t & rest & -> & Hl & ->)|Hs]; [lia| |by right]
  end.
  apply Forall_app in Hb as [Hb _]. destruct (Hp t ltac:(lia) Hb) as (a & Ha & -> & Hok).
  unfold fromIO. rewrite Ha. left. eauto.
Qed.

(** The value of a list of bytes, as a sum. *)
Ltac peek_value :=
  cbn [peek16BE peek32BE peek64BE]; unfold u16, u32, u64; rewrite !Z.shiftl_mul_pow2 by lia;
  rewrite !Z.mod_small by lia.
Ltac split_bytes bs Hl Hb :=
  repeat (destruct bs as [|? bs]; [discriminate Hl|]);
  destruct bs; [|discriminate Hl]; rewrite !Forall_cons in Hb; unfold is_byte in Hb;
  destruct_and! Hb; eexists; split; [reflexivity|]; peek_value.
Ltac same_bytes :=
  unfold poke16BE, poke32BE, poke64BE, u8; rewrite !Z.shiftr_div_pow2 by lia;
  repeat (f_equal; [Z.div_mod_to_equations; lia|]); f_equal; Z.div_mod_to_equations; lia.

Lemma poke_peek16 bs : length bs = 2%nat -> Forall is_byte bs ->
  exists v, peek16BE bs = Some v /\ bs = poke16BE v /\ 0 <= v < 2 ^ 16.
Proof.
  intros Hl Hb. split_bytes bs Hl Hb. rewrite (lor_disjoint 8) by (Z.div_mod_to_equations; lia).
  split; [same_bytes|lia].
Qed.

Lemma poke_peek32 bs : length bs = 4%nat -> Forall is_byte bs ->
  exists v, peek32BE bs = Some v /\ bs = poke32BE v /\ 0 <= v < 2 ^ 32.
Proof.
  intros Hl Hb. split_bytes bs Hl Hb.
  rewrite (lor_disjoint 24 (_ * _)), (lor_disjoint 16 (_ + _)), (lor_disjoint 8 (_ + _))
    by (Z.div_mod_to_equations; lia).
  split; [same_bytes|lia].
Qed.

Lemma poke_peek64 bs : length bs = 8%nat -> Forall is_byte bs ->
  exists v, peek64BE bs = Some v /\ bs = poke64BE v /\ 0 <= v < 2 ^ 64.
Proof.
  intros Hl Hb. split_bytes bs Hl Hb.
  rewrite (lor_disjoint 56 (_ * _)), (lor_disjoint 48 (_ + _)), (lor_disjoint 40 (_ + _)),
    (lor_disjoint 32 (_ + _)), (lor_disjoint 24 (_ + _)), (lor_disjoint 16 (_ + _)),
    (lor_disjoint 8 (_ + _)) by (Z.div_mod_to_equations; lia).
  split; [same_bytes|lia].
Qed.

Lemma inverts_Int8 : inverts getInt8 (fun i => builderBS (putInt8 i)) is_i8.
Proof.
  intros r [|b bs] next Hb; [by right|]. apply Forall_cons in Hb as [Hb _]. left. exists bs, (i8 b).
  unfold is_byte in Hb. cbn [builderBS putInt8 app]. split_and!; [|int_solve|done].
  f_equal. int_solve.
Qed.

Lemma inverts_Int16 : inverts getInt16 (fun i => builderBS (putInt16 i)) is_i16.
Proof.
  apply (inverts_peek 2 (fun bs => i16 <$> peek16BE bs)). intros bs Hl Hb.
  destruct (poke_peek16 bs Hl Hb) as (v & -> & -> & Hv). exists (i16 v).
  split_and!; [done| |int_solve]. cbn [builderBS putInt16]. f_equal. int_solve.
Qed.

Lemma inverts_Int32 : inverts getInt32 (fun i => builderBS (putInt32 i)) is_i32.
Proof.
  apply (inverts_peek 4 (fun bs => i32 <$> peek32BE bs)). intros bs Hl Hb.
  destruct (poke_peek32 bs Hl Hb) as (v & -> & -> & Hv). exists (i32 v).
  split_and!; [done| |apply i32_range]. cbn [builderBS putInt32]. f_equal. int_solve.
Qed.

Lemma inverts_Int64 : inverts getInt64 (fun i => builderBS (putInt64 i)) is_i64.
Proof.
  apply (inverts_peek 8 (fun bs => i64 <$> peek64BE bs)). intros bs Hl Hb.
  destruct (poke_peek64 bs Hl Hb) as (v & -> & -> & Hv). exists (i64 v).
  split_and!; [done| |apply i64_range]. cbn [builderBS putInt64]. f_equal. int_solve.
Qed.
End KafkaPrim.
