(* ===== verification/KafkaTypes.v ===== *)
(** * Serializable types of the Kafka protocol
      (src/hstream-kafka/protocol/Kafka/Protocol/Encoding/Types.hs)

    The class [Serializable] with its instances, the instances derived for
    products, arrays and tagged fields, and what the instances promise: parsing
    what was put gives it back, a builder's length is exact, and input may come
    in pieces. *)

From stdpp Require Import base strings list pretty.
From Stdlib Require Import ZArith Lia.
From S2P Require Import Prelude KafkaParser KafkaPrim.

Module KafkaTypes.
Import KafkaParser KafkaPrim.

Class Serializable (A : Type) := { get : Parser A; put : A -> Builder }.

(** What an instance promises for the values that fit the format. *)
Class Lawful (A : Type) `{!Serializable A} := {
  valid : A -> Prop;
  get_put : forall x, valid x -> parses get (builderBS (put x)) x;
  put_exact : forall x, exact (put x);
  get_resumable : Resumable (get (A := A));
  get_consumes : Consumes 0 (get (A := A));
}.
#[global] Existing Instance get_resumable.
#[global] Existing Instance get_consumes.

(** ** Newtypes *)

Record Int8 := mk8 { int8 : Z }.
Record Int16 := mk16 { int16 : Z }.
Record Int32 := mk32 { int32 : Z }.
Record Int64 := mk64 { int64 : Z }.
Record Word32 := mkw32 { word32 : Z }.
Record Double := mkDouble { double_bits : Z }.
Record VarInt32 := mkVarInt32 { unVarInt32 : Z }.
Record VarInt64 := mkVarInt64 { unVarInt64 : Z }.
Record CompactBytes := mkCompactBytes { unCompactBytes : bytes }.
Record CompactNullableBytes := mkCompactNullableBytes { unCompactNullableBytes : option bytes }.
Record RecordBytes := mkRecordBytes { unRecordBytes : option bytes }.
Record RecordCompactBytes := mkRecordCompactBytes { unRecordCompactBytes : option bytes }.
Record RecordKey := mkRecordKey { unRecordKey : option bytes }.
Record RecordValue := mkRecordValue { unRecordValue : option bytes }.
Record RecordHeaderValue := mkRecordHeaderValue { unRecordHeaderValue : option bytes }.
Record KaArray (A : Type) := mkKaArray { unKaArray : option (list A) }.
Record CompactKaArray (A : Type) := mkCompactKaArray { unCompactKaArray : option (list A) }.
Record RecordArray (A : Type) := mkRecordArray { unRecordArray : list A }.
Inductive TaggedFields := EmptyTaggedFields.
Arguments mkKaArray {A}.
Arguments unKaArray {A}.
Arguments mkCompactKaArray {A}.
Arguments unCompactKaArray {A}.
Arguments mkRecordArray {A}.
Arguments unRecordArray {A}.

(** [INSTANCE(ty, n, getfun, patmt, pat)]. *)
Definition instance {A B} (wrap : A -> B) (unwrap : B -> A) (get_n : Parser A) (put_n : A -> Builder)
    : Serializable B :=
  {| get := pfmap wrap get_n; put x := put_n (unwrap x) |}.

Definition lawful {A B} (wrap : A -> B) (unwrap : B -> A) (get_n : Parser A)
    (put_n : A -> Builder) (ok : A -> Prop)
    (Hwrap : forall x, wrap (unwrap x) = x)
    (Hparse : forall a, ok a -> parses get_n (builderBS (put_n a)) a)
    (Hexact : forall a, exact (put_n a)) (Hres : Resumable get_n) (Hcon : Consumes 0 get_n)
    : Lawful B (Serializable0 := instance wrap unwrap get_n put_n).
Proof.
  refine (Build_Lawful B _ (fun x => ok (unwrap x)) _ _ _ _).
  - intros x Hx. cbn [get put instance]. rewrite <- (Hwrap x) at 2. by apply parses_fmap, Hparse.
  - intros x. apply Hexact.
Defined.

#[global] Instance Bool_ser : Serializable bool := {| get := getBool; put := putBool |}.
#[global] Instance Int8_ser : Serializable Int8 := instance mk8 int8 getInt8 putInt8.
#[global] Instance Int16_ser : Serializable Int16 := instance mk16 int16 getInt16 putInt16.
#[global] Instance Int32_ser : Serializable Int32 := instance mk32 int32 getInt32 putInt32.
#[global] Instance Int64_ser : Serializable Int64 := instance mk64 int64 getInt64 putInt64.
#[global] Instance Word32_ser : Serializable Word32 := instance mkw32 word32 getWord32 putWord32.
#[global] Instance Double_ser : Serializable Double := instance mkDouble double_bits getDouble putDouble.
#[global] Instance VarInt32_ser : Serializable VarInt32 :=
  instance mkVarInt32 unVarInt32 getVarInt32 putVarInt32.
#[global] Instance VarInt64_ser : Serializable VarInt64 :=
  instance mkVarInt64 unVarInt64 getVarInt64 putVarInt64.
#[global] Instance Bytes_ser : Serializable bytes := {| get := getBytes; put := putBytes |}.
#[global] Instance NullableBytes_ser : Serializable (option bytes) :=
  {| get := getNullableBytes; put := putNullableBytes |}.
#[global] Instance CompactBytes_ser : Serializable CompactBytes :=
  instance mkCompactBytes unCompactBytes getCompactBytes putCompactBytes.
#[global] Instance CompactNullableBytes_ser : Serializable CompactNullableBytes :=
  instance mkCompactNullableBytes unCompactNullableBytes getCompactNullableBytes putCompactNullableBytes.
#[global] Instance RecordBytes_ser : Serializable RecordBytes :=
  instance mkRecordBytes unRecordBytes getNullableBytes putNullableBytes.
#[global] Instance RecordCompactBytes_ser : Serializable RecordCompactBytes :=
  instance mkRecordCompactBytes unRecordCompactBytes getCompactNullableBytes putCompactNullableBytes.
#[global] Instance RecordKey_ser : Serializable RecordKey :=
  instance mkRecordKey unRecordKey getVarBytesInRecord putVarBytesInRecord.
#[global] Instance RecordValue_ser : Serializable RecordValue :=
  instance mkRecordValue unRecordValue getVarBytesInRecord putVarBytesInRecord.
#[global] Instance RecordHeaderValue_ser : Serializable RecordHeaderValue :=
  instance mkRecordHeaderValue unRecordHeaderValue getVarBytesInRecord putVarBytesInRecord.

Section texts.
Context `{TextLib}.
Record CompactString := mkCompactString { unCompactString : Text }.
Record CompactNullableString := mkCompactNullableString { unCompactNullableString : option Text }.
Record RecordHeaderKey := mkRecordHeaderKey { unRecordHeaderKey : Text }.

#[global] Instance String_ser : Serializable Text := {| get := getString; put := putString |}.
#[global] Instance NullableString_ser : Serializable (option Text) :=
  {| get := getNullableString; put := putNullableString |}.
#[global] Instance CompactString_ser : Serializable CompactString :=
  instance mkCompactString unCompactString getCompactString putCompactString.
#[global] Instance CompactNullableString_ser : Serializable CompactNullableString :=
  instance mkCompactNullableString unCompactNullableString
    getCompactNullableString putCompactNullableString.
#[global] Instance RecordHeaderKey_ser : Serializable RecordHeaderKey :=
  instance mkRecordHeaderKey unRecordHeaderKey getVarStringInRecord putVarStringInRecord.
End texts.

(** ** Products *)

(** [GSerializable]: the fields in order. *)
#[global] Instance pair_ser {A B} `{!Serializable A, !Serializable B} : Serializable (A * B) := {|
  get := (a <-- get;; b <-- get;; pure (a, b));
  put x := put x.1 <+> put x.2;
|}.

(** An instance derived for a record: [to] and [from] are the conversions
    between the record and the tuple of its fields. *)
Definition generic {R T} `{!Serializable T} (from : R -> T) (to : T -> R) : Serializable R :=
  instance to from get put.

(** ** Sums *)

Section sums.
Context {A B : Type} `{!Serializable A, !Serializable B}.

Definition putEither (x : A + B) : Builder := match x with inl x => put x | inr x => put x end.
Definition getEither (right : bool) : Parser (A + B) :=
  if right then pfmap inr get else pfmap inl get.
Definition putMaybe (x : option A) : Builder := match x with Some x => put x | None => mempty end.
Definition getMaybe (just : bool) : Parser (option A) := if just then pfmap Some get else pure None.
End sums.

(** ** Arrays *)

Fixpoint replicateM {A} (n : nat) (p : Parser A) : Parser (list A) :=
  match n with
  | O => pure []
  | S n => a <-- p;; xs <-- replicateM n p;; pure (a :: xs)
  end.

Section arrays.
Context {A : Type} `{!Serializable A}.

Definition getArray : Parser (KaArray A) :=
  n <-- getInt32;;
  if 0 <=? n then pfmap (fun xs => mkKaArray (Some xs)) (replicateM (Z.to_nat n) get)
  else if n =? -1 then pure (mkKaArray None)
  else fail ("Length of null array must be -1 " +:+ pretty n).

Definition getCompactArray : Parser (option (list A)) :=
  n_1 <-- getVarWord32;;
  let n := n_1 - 1 in
  if 0 <=? n then pfmap Some (replicateM (Z.to_nat n) get)
  else if n =? -1 then pure None
  else fail ("Length of null compact array must be -1 " +:+ pretty n).

(** [V.foldl' (\s x -> s <> put x) mempty xs]. *)
Definition put_elements (xs : list A) : Builder := foldl (fun s x => s <+> put x) mempty xs.

Definition putArray (a : KaArray A) : Builder :=
  match unKaArray a with
  | Some xs => putInt32 (i32 (Z.of_nat (length xs))) <+> put_elements xs
  | None => putInt32 (-1)
  end.

Definition putCompactArray (a : option (list A)) : Builder :=
  match a with
  | Some xs => putVarWord32 (u32 (u32 (Z.of_nat (length xs)) + 1)) <+> put_elements xs
  | None => putVarWord32 0
  end.

Definition getRecordArray : Parser (list A) :=
  n <-- getVarInt32;;
  if 0 <? n then replicateM (Z.to_nat n) get
  else if n =? 0 then pure []
  else fail ("Length of RecordArray must not be negative " +:+ pretty n).

Definition putRecordArray (xs : list A) : Builder :=
  putVarInt32 (i32 (Z.of_nat (length xs))) <+> put_elements xs.
End arrays.

#[global] Instance KaArray_ser {A} `{!Serializable A} : Serializable (KaArray A) :=
  {| get := getArray; put := putArray |}.
#[global] Instance CompactKaArray_ser {A} `{!Serializable A} : Serializable (CompactKaArray A) :=
  instance mkCompactKaArray unCompactKaArray getCompactArray putCompactArray.
#[global] Instance RecordArray_ser {A} `{!Serializable A} : Serializable (RecordArray A) :=
  instance mkRecordArray unRecordArray getRecordArray putRecordArray.

(** Tagged fields are skipped, and none are put. *)
Definition skip_tag : Parser (Z * bytes) :=
  tag <-- getVarWord32;; dataLen <-- getVarWord32;; val <-- takeBytes dataLen;; pure (tag, val).

#[global] Instance TaggedFields_ser : Serializable TaggedFields := {|
  get := (n <-- getVarWord32;; _ <-- replicateM (Z.to_nat n) skip_tag;; pure EmptyTaggedFields);
  put _ := putVarWord32 0;
|}.

(** ** The laws *)

#[global] Instance Bool_law : Lawful bool.
Proof. refine (Build_Lawful _ _ (fun _ => True) _ _ _ _); [intros b _; apply parses_Bool|by intros []]. Defined.
#[global] Instance Int8_law : Lawful Int8 := lawful mk8 int8 getInt8 putInt8 is_i8
  (fun '(mk8 _) => eq_refl) parses_Int8 (fun _ => eq_refl) _ _.
#[global] Instance Int16_law : Lawful Int16 := lawful mk16 int16 getInt16 putInt16 is_i16
  (fun '(mk16 _) => eq_refl) parses_Int16 (fun _ => eq_refl) _ _.
#[global] Instance Int32_law : Lawful Int32 := lawful mk32 int32 getInt32 putInt32 is_i32
  (fun '(mk32 _) => eq_refl) parses_Int32 (fun _ => eq_refl) _ _.
#[global] Instance Int64_law : Lawful Int64 := lawful mk64 int64 getInt64 putInt64 is_i64
  (fun '(mk64 _) => eq_refl) parses_Int64 (fun _ => eq_refl) _ _.
#[global] Instance Word32_law : Lawful Word32 := lawful mkw32 word32 getWord32 putWord32 is_u32
  (fun '(mkw32 _) => eq_refl) parses_Word32 (fun _ => eq_refl) _ _.
#[global] Instance Double_law : Lawful Double :=
  lawful mkDouble double_bits getDouble putDouble is_u64
    (fun '(mkDouble _) => eq_refl) parses_Double (fun _ => eq_refl) _ _.
#[global] Instance VarInt32_law : Lawful VarInt32 :=
  lawful mkVarInt32 unVarInt32 getVarInt32 putVarInt32 is_i32
    (fun '(mkVarInt32 _) => eq_refl) parses_VarInt32 exact_putVarInt32 _ _.
#[global] Instance VarInt64_law : Lawful VarInt64 :=
  lawful mkVarInt64 unVarInt64 getVarInt64 putVarInt64 is_i64
    (fun '(mkVarInt64 _) => eq_refl) parses_VarInt64 exact_putVarInt64 _ _.

(** The bytes, if any, whose length fits. *)
Definition opt_short (bits : Z) (x : option bytes) : Prop := forall bs, x = Some bs -> short bs bits.
Definition opt_compact (x : option bytes) : Prop := forall bs, x = Some bs -> compact bs.

Lemma exact_putBytes bs : exact (putBytes bs).
Proof. unfold putBytes. auto with kafka. Qed.
Lemma exact_putCompactBytes bs : exact (putCompactBytes bs).
Proof. unfold putCompactBytes. auto with kafka. Qed.
Lemma exact_putNullableBytes x : exact (putNullableBytes x).
Proof. destruct x; [apply exact_putBytes|done]. Qed.
Lemma exact_putCompactNullableBytes x : exact (putCompactNullableBytes x).
Proof. destruct x; [apply exact_putCompactBytes|done]. Qed.
Lemma exact_putVarBytesInRecord x : exact (putVarBytesInRecord x).
Proof. destruct x; unfold putVarBytesInRecord; auto with kafka. Qed.

#[global] Instance Bytes_law : Lawful bytes.
Proof. refine (Build_Lawful _ _ (fun bs => short bs 31) _ _ _ _); [apply parses_Bytes|apply exact_putBytes]. Defined.
#[global] Instance NullableBytes_law : Lawful (option bytes).
Proof.
  refine (Build_Lawful _ _ (opt_short 31) _ _ _ _); [apply parses_NullableBytes|apply exact_putNullableBytes].
Defined.
#[global] Instance CompactBytes_law : Lawful CompactBytes :=
  lawful mkCompactBytes unCompactBytes getCompactBytes putCompactBytes compact
    (fun '(mkCompactBytes _) => eq_refl) parses_CompactBytes exact_putCompactBytes _ _.
#[global] Instance CompactNullableBytes_law : Lawful CompactNullableBytes :=
  lawful mkCompactNullableBytes unCompactNullableBytes getCompactNullableBytes
    putCompactNullableBytes opt_compact (fun '(mkCompactNullableBytes _) => eq_refl)
    parses_CompactNullableBytes exact_putCompactNullableBytes _ _.
#[global] Instance RecordBytes_law : Lawful RecordBytes :=
  lawful mkRecordBytes unRecordBytes getNullableBytes putNullableBytes (opt_short 31)
    (fun '(mkRecordBytes _) => eq_refl) parses_NullableBytes exact_putNullableBytes _ _.
#[global] Instance RecordCompactBytes_law : Lawful RecordCompactBytes :=
  lawful mkRecordCompactBytes unRecordCompactBytes getCompactNullableBytes
    putCompactNullableBytes opt_compact (fun '(mkRecordCompactBytes _) => eq_refl)
    parses_CompactNullableBytes exact_putCompactNullableBytes _ _.
#[global] Instance RecordKey_law : Lawful RecordKey :=
  lawful mkRecordKey unRecordKey getVarBytesInRecord putVarBytesInRecord (opt_short 31)
    (fun '(mkRecordKey _) => eq_refl) parses_VarBytesInRecord exact_putVarBytesInRecord _ _.
#[global] Instance RecordValue_law : Lawful RecordValue :=
  lawful mkRecordValue unRecordValue getVarBytesInRecord putVarBytesInRecord (opt_short 31)
    (fun '(mkRecordValue _) => eq_refl) parses_VarBytesInRecord exact_putVarBytesInRecord _ _.
#[global] Instance RecordHeaderValue_law : Lawful RecordHeaderValue :=
  lawful mkRecordHeaderValue unRecordHeaderValue getVarBytesInRecord putVarBytesInRecord
    (opt_short 31) (fun '(mkRecordHeaderValue _) => eq_refl) parses_VarBytesInRecord
    exact_putVarBytesInRecord _ _.

Section text_laws.
Context `{TextLib}.

Definition opt_text (P : bytes -> Prop) (x : option Text) : Prop :=
  forall t, x = Some t -> P (encodeUtf8 t).

Lemma exact_putString t : exact (putString t).
Proof. unfold putString. auto with kafka. Qed.
Lemma exact_putCompactString t : exact (putCompactString t).
Proof. unfold putCompactString. auto with kafka. Qed.
Lemma exact_putCompactNullableString x : exact (putCompactNullableString x).
Proof. destruct x; [apply exact_putCompactString|done]. Qed.
Lemma exact_putVarStringInRecord t : exact (putVarStringInRecord t).
Proof. unfold putVarStringInRecord. auto with kafka. Qed.

#[global] Instance String_law : Lawful Text.
Proof.
  refine (Build_Lawful _ _ (fun t => short (encodeUtf8 t) 15) _ _ _ _);
    [apply parses_String|apply exact_putString].
Defined.
#[global] Instance NullableString_law : Lawful (option Text).
Proof.
  refine (Build_Lawful _ _ (opt_text (fun bs => short bs 15)) _ _ _ _); [apply parses_NullableString|].
  intros [t|]; [apply exact_putString|done].
Defined.
#[global] Instance CompactString_law : Lawful CompactString :=
  lawful mkCompactString unCompactString getCompactString putCompactString
    (fun t => compact (encodeUtf8 t)) (fun '(mkCompactString _) => eq_refl)
    parses_CompactString exact_putCompactString _ _.
#[global] Instance CompactNullableString_law : Lawful CompactNullableString :=
  lawful mkCompactNullableString unCompactNullableString getCompactNullableString
    putCompactNullableString (opt_text compact) (fun '(mkCompactNullableString _) => eq_refl)
    parses_CompactNullableString exact_putCompactNullableString _ _.
#[global] Instance RecordHeaderKey_law : Lawful RecordHeaderKey :=
  lawful mkRecordHeaderKey unRecordHeaderKey getVarStringInRecord putVarStringInRecord
    (fun t => short (encodeUtf8 t) 31) (fun '(mkRecordHeaderKey _) => eq_refl)
    parses_VarStringInRecord exact_putVarStringInRecord _ _.
End text_laws.

#[global] Instance pair_law {A B} `{Lawful A, Lawful B} : Lawful (A * B).
Proof.
  refine (Build_Lawful _ _ (fun x => valid x.1 /\ valid x.2) _ _ _ _).
  - intros [a b] [Ha Hb]. cbn [get put pair_ser fst snd] in *. eapply parses_bind; [by apply get_put|].
    eapply parses_bind_l; [by apply get_put|apply parses_pure].
  - intros [a b]. apply exact_mappend; apply put_exact.
Defined.

Definition generic_law {R T} `{Lawful T} (from : R -> T) (to : T -> R)
    (Hto : forall x, to (from x) = x) : Lawful R (Serializable0 := generic from to) :=
  lawful to from get put valid Hto get_put put_exact _ _.

Lemma parses_replicateM {A} `{Lawful A} (xs : list A) :
  Forall valid xs -> parses (replicateM (length xs) get) (concat ((fun x => builderBS (put x)) <$> xs)) xs.
Proof.
  induction 1 as [|x xs Hx Hxs IH]; [apply parses_pure|].
  cbn [replicateM length list_fmap concat]. eapply parses_bind; [by apply get_put|].
  eapply parses_bind_l; [exact IH|apply parses_pure].
Qed.

#[global] Instance replicateM_resumable {A} n (p : Parser A) : Resumable p -> Resumable (replicateM n p).
Proof. intros Hp. induction n as [|n IH]; cbn [replicateM]; apply _. Qed.

#[global] Instance replicateM_consumes {A} n (p : Parser A) :
  Consumes 0 p -> Consumes 0 (replicateM n p).
Proof. intros Hp. induction n as [|n IH]; cbn [replicateM]; apply _. Qed.

Lemma put_elements_from {A} `{Serializable A} (xs : list A) s :
  builderBS (foldl (fun s x => s <+> put x) s xs) =
  builderBS s ++ concat ((fun x => builderBS (put x)) <$> xs).
Proof.
  revert s. induction xs as [|x xs IH]; intros s; [by rewrite app_nil_r|].
  cbn [foldl fmap list_fmap concat]. by rewrite IH, app_assoc.
Qed.

Lemma put_elements_bytes {A} `{Serializable A} (xs : list A) :
  builderBS (put_elements xs) = concat ((fun x => builderBS (put x)) <$> xs).
Proof. apply (put_elements_from xs mempty). Qed.

Lemma exact_put_elements {A} `{Lawful A} (xs : list A) : exact (put_elements xs).
Proof.
  unfold put_elements. generalize exact_mempty. generalize mempty.
  induction xs as [|x xs IH]; intros s Hs; [done|]. apply IH, exact_mappend; [done|apply put_exact].
Qed.
#[export] Hint Resolve exact_put_elements : kafka.

Definition valid_elements {A} `{Lawful A} (limit : Z) (xs : list A) : Prop :=
  Forall valid xs /\ Z.of_nat (length xs) < limit.

Section array_laws.
Context {A : Type} `{Lawful A}.

(** A length and that many elements. *)
Lemma parses_elements {B} (get_n : Parser Z) (k : Z -> Parser B) put_n n (xs : list A) (f : list A -> B) :
  parses get_n (builderBS put_n) n -> Forall valid xs ->
  k n = pfmap f (replicateM (length xs) get) ->
  parses (bind get_n k) (builderBS (put_n <+> put_elements xs)) (f xs).
Proof.
  intros Hn Hxs Hk. cbn [mappend builderBS]. rewrite put_elements_bytes.
  eapply parses_bind; [done|]. rewrite Hk. by apply parses_fmap, parses_replicateM.
Qed.

#[global] Instance KaArray_law : Lawful (KaArray A).
Proof.
  refine (Build_Lawful _ _ (fun a => forall xs, unKaArray a = Some xs -> valid_elements (2 ^ 31) xs) _ _ _ _).
  - intros [[xs|]] Hv; [|by eapply parses_bind_l; [apply parses_Int32; done|]].
    destruct (Hv xs eq_refl) as [Hxs Hl].
    eapply (parses_elements _ _ _ _ _ (fun xs => mkKaArray (Some xs)));
      [apply parses_Int32, i32_range|done|].
    cbn beta. rewrite i32_id by (unfold is_i32; lia).
    by rewrite (proj2 (Z.leb_le 0 _)), Nat2Z.id by lia.
  - intros [[xs|]]; cbn [put KaArray_ser putArray unKaArray]; auto with kafka.
Defined.

#[global] Instance CompactKaArray_law : Lawful (CompactKaArray A).
Proof.
  refine (lawful mkCompactKaArray unCompactKaArray getCompactArray putCompactArray
    (fun a => forall xs, a = Some xs -> valid_elements (2 ^ 32 - 1) xs)
    (fun '(mkCompactKaArray _) => eq_refl) _ _ _ _).
  - intros [xs|] Hv; [|by eapply parses_bind_l; [apply parses_VarWord32; done|]].
    destruct (Hv xs eq_refl) as [Hxs Hl].
    eapply (parses_elements _ _ _ _ _ Some); [apply parses_VarWord32, u32_range|done|].
    cbn beta zeta. rewrite compact_length, Z.add_simpl_r by lia.
    by rewrite (proj2 (Z.leb_le 0 _)), Nat2Z.id by lia.
  - intros [xs|]; cbn [putCompactArray]; auto with kafka.
Defined.

#[global] Instance RecordArray_law : Lawful (RecordArray A).
Proof.
  refine (lawful mkRecordArray unRecordArray getRecordArray putRecordArray (valid_elements (2 ^ 31))
    (fun '(mkRecordArray _) => eq_refl) _ _ _ _).
  - intros xs [Hxs Hl]. unfold putRecordArray. cbn [mappend builderBS]. rewrite put_elements_bytes.
    eapply parses_bind; [apply parses_VarInt32, i32_range|]. cbn beta.
    rewrite i32_id, Nat2Z.id by (unfold is_i32; lia).
    destruct xs as [|x xs]; [done|]. rewrite (proj2 (Z.ltb_lt 0 _)) by (cbn; lia).
    by apply (parses_replicateM (x :: xs)).
  - intros xs. unfold putRecordArray. auto with kafka.
Defined.
End array_laws.

#[global] Instance TaggedFields_law : Lawful TaggedFields.
Proof.
  refine (Build_Lawful _ _ (fun _ => True) _ _ _ _); [|intros; apply exact_putVarWord32].
  intros [] _. eapply parses_bind_l; [by apply parses_VarWord32|]. done.
Defined.

(** ** Running parsers and builders (Encoding.hs) *)

(** The codes of Error.hs that the decoders use. *)
Inductive ErrorCode := CORRUPT_MESSAGE | INVALID_RECORD.

(** An action: it returns, throws a [DecodeError], or reads memory outside of
    its input. *)
Inductive IO (A : Type) := Ret (a : A) | DecodeError (code : ErrorCode) (msg : string) | UB.
Arguments Ret {A}.
Arguments DecodeError {A}.
Arguments UB {A}.

Definition io_bind {A B} (m : IO A) (f : A -> IO B) : IO B :=
  match m with Ret a => f a | DecodeError c s => DecodeError c s | UB => UB end.
Notation "x <~ m ;; f" := (io_bind m (fun x => f))
  (at level 100, m at next level, right associativity) : parser_scope.
Notation "' p <~ m ;; f" := (io_bind m (fun p => f))
  (at level 100, p pattern, m at next level, right associativity) : parser_scope.

(** The name of the type is left out of the last message. *)
Definition runParser' {r} (parser : Parser r) (bs : bytes) : IO (r * bytes) :=
  match runParser parser bs with
  | Done l r => Ret (r, l)
  | Fail _ err => DecodeError CORRUPT_MESSAGE ("Fail, " +:+ err)
  | More _ => DecodeError CORRUPT_MESSAGE ", need more"
  | Undefined => UB
  end.

Section running.
Context {A : Type} `{!Serializable A}.

Definition runGet' (bs : bytes) : IO (A * bytes) := runParser' get bs.

(** The bytes that are left are not put into the message. *)
Definition runGet (bs : bytes) : IO A :=
  '(r, l) <~ runGet' bs;;
  match l with [] => Ret r | _ => DecodeError CORRUPT_MESSAGE "runGet done, but left " end.

Definition runPut (x : A) : bytes := toLazyByteString (put x).
End running.

(** A value that fits is read back from its bytes, followed by anything. *)
Lemma runGet'_runPut `{Lawful A} (x : A) rest :
  valid x -> runGet' (runPut x ++ rest) = Ret (x, rest).
Proof. intros Hx. unfold runGet', runParser', runPut. by rewrite (parses_run _ _ _ _ (get_put x Hx)). Qed.

Lemma runGet_runPut `{Lawful A} (x : A) : valid x -> runGet (runPut x) = Ret x.
Proof. intros Hx. unfold runGet. rewrite <- (app_nil_r (runPut x)), runGet'_runPut by done. done. Qed.

(** What a parser that consumes leaves, and that it reads only its input. *)
Lemma runParser'_consumes {A} n (p : Parser A) bs : Consumes n p ->
  match runParser' p bs with
  | Ret (_, rest) => (length rest + n <= length bs)%nat
  | DecodeError _ _ => True
  | UB => False
  end.
Proof.
  intros Hp. unfold runParser', runParser.
  destruct (Hp A bs (fun b x => Done b x)) as [(rest & a & Hl & ->)|Hs]; [done|].
  by destruct (p A bs _).
Qed.

(** ** Types whose bytes are determined by the value *)

Class Canonical (A : Type) `{Lawful A} : Prop :=
  get_inverts : inverts get (fun x : A => builderBS (put x)) valid.

Lemma canonical_instance {A B} (wrap : A -> B) (unwrap : B -> A) get_n put_n ok Hwrap Hp He Hr Hc :
  (forall a, unwrap (wrap a) = a) -> inverts get_n (fun a => builderBS (put_n a)) ok ->
  Canonical B (H := lawful wrap unwrap get_n put_n ok Hwrap Hp He Hr Hc).
Proof.
  intros Hu Hi r bs next Hb.
  destruct (Hi r bs (fun bs a => next bs (wrap a)) Hb) as [(rest & a & -> & Hok & E)|Hs]; [|by right].
  left. exists rest, (wrap a). cbn. rewrite Hu. done.
Qed.

#[global] Instance Int8_canonical : Canonical Int8.
Proof. apply canonical_instance; [done|apply inverts_Int8]. Qed.
#[global] Instance Int16_canonical : Canonical Int16.
Proof. apply canonical_instance; [done|apply inverts_Int16]. Qed.
#[global] Instance Int32_canonical : Canonical Int32.
Proof. apply canonical_instance; [done|apply inverts_Int32]. Qed.
#[global] Instance Int64_canonical : Canonical Int64.
Proof. apply canonical_instance; [done|apply inverts_Int64]. Qed.

#[global] Instance pair_canonical {A B} `{Canonical A, Canonical B} : Canonical (A * B).
Proof.
  intros r bs next Hb. cbn [get pair_ser]. unfold bind.
  match goal with |- _ \/ stopped (get _ _ ?k) =>
    destruct (get_inverts r bs k Hb) as [(rest & a & -> & Ha & ->)|Hs]; [|by right] end.
  apply Forall_app in Hb as [_ Hb].
  match goal with |- _ \/ stopped (get _ _ ?k) =>
    destruct (get_inverts r rest k Hb) as [(rest' & b & -> & Hb' & ->)|Hs]; [|by right] end.
  left. exists rest', (a, b). cbn. by rewrite app_assoc.
Qed.

Lemma generic_canonical {R T} `{Canonical T} (from : R -> T) (to : T -> R) Hto :
  (forall x, from (to x) = x) -> Canonical R (H := generic_law from to Hto).
Proof. intros Hf. apply canonical_instance; [done|apply get_inverts]. Qed.

(** What was read is what the bytes start with. *)
Lemma runGet'_inverts `{Canonical A} bs (x : A) rest :
  Forall is_byte bs -> runGet' bs = Ret (x, rest) -> bs = runPut x ++ rest /\ valid x.
Proof.
  intros Hb E. unfold runGet', runParser', runParser in E.
  destruct (get_inverts A bs (fun b x => Done b x) Hb) as [(rest' & a & -> & Ha & Ea)|Hs].
  - rewrite Ea in E. by simplify_eq.
  - by destruct (get A bs _).
Qed.
End KafkaTypes.
