(* ===== verification/KafkaRecords.v ===== *)
(** * Records of the Kafka protocol
      (src/hstream-kafka/protocol/Kafka/Protocol/Encoding.hs)

    The record formats of the three versions, their encoding and the decoder of
    a sequence of records. The checksum functions are parameters. *)

From stdpp Require Import base strings list pretty.
From Stdlib Require Import ZArith Lia.
From S2P Require Import Prelude KafkaParser KafkaPrim KafkaTypes.

Module KafkaRecords.
Import KafkaParser KafkaPrim KafkaTypes.

(** ** Formats *)

Record RecordBase := {
  base_baseOffset : Int64; base_batchLength : Int32;
  base_partitionLeaderEpochOrCrc : Int32; base_magic : Int8;
}.
#[global] Instance RecordBase_ser : Serializable RecordBase := generic
  (fun x => (base_baseOffset x, (base_batchLength x, (base_partitionLeaderEpochOrCrc x, base_magic x))))
  (fun '(a, (b, (c, d))) => Build_RecordBase a b c d).
#[global] Instance RecordBase_law : Lawful RecordBase.
Proof. apply generic_law. by intros []. Defined.

(** Versions 0 and 1. *)

Record RecordBodyV0 := {
  body0_attributes : Int8; body0_key : option bytes; body0_value : option bytes;
}.
#[global] Instance RecordBodyV0_ser : Serializable RecordBodyV0 := generic
  (fun x => (body0_attributes x, (body0_key x, body0_value x)))
  (fun '(a, (b, c)) => Build_RecordBodyV0 a b c).
#[global] Instance RecordBodyV0_law : Lawful RecordBodyV0.
Proof. apply generic_law. by intros []. Defined.

Record RecordV0 := {
  v0_baseOffset : Int64; v0_messageSize : Int32; v0_crc : Int32; v0_magic : Int8;
  v0_attributes : Int8; v0_key : option bytes; v0_value : option bytes;
}.
#[global] Instance RecordV0_ser : Serializable RecordV0 := generic
  (fun x => (v0_baseOffset x, (v0_messageSize x, (v0_crc x, (v0_magic x,
            (v0_attributes x, (v0_key x, v0_value x)))))))
  (fun '(a, (b, (c, (d, (e, (f, g)))))) => Build_RecordV0 a b c d e f g).
#[global] Instance RecordV0_law : Lawful RecordV0.
Proof. apply generic_law. by intros []. Defined.

Definition minRecordSizeV0 : Z := 4 + 1 + 1 + 4 + 4.

Record RecordBodyV1 := {
  body1_attributes : Int8; body1_timestamp : Int64;
  body1_key : option bytes; body1_value : option bytes;
}.
#[global] Instance RecordBodyV1_ser : Serializable RecordBodyV1 := generic
  (fun x => (body1_attributes x, (body1_timestamp x, (body1_key x, body1_value x))))
  (fun '(a, (b, (c, d))) => Build_RecordBodyV1 a b c d).
#[global] Instance RecordBodyV1_law : Lawful RecordBodyV1.
Proof. apply generic_law. by intros []. Defined.

Record RecordV1 := {
  v1_baseOffset : Int64; v1_messageSize : Int32; v1_crc : Int32; v1_magic : Int8;
  v1_attributes : Int8; v1_timestamp : Int64; v1_key : option bytes; v1_value : option bytes;
}.
#[global] Instance RecordV1_ser : Serializable RecordV1 := generic
  (fun x => (v1_baseOffset x, (v1_messageSize x, (v1_crc x, (v1_magic x,
            (v1_attributes x, (v1_timestamp x, (v1_key x, v1_value x))))))))
  (fun '(a, (b, (c, (d, (e, (f, (g, h))))))) => Build_RecordV1 a b c d e f g h).
#[global] Instance RecordV1_law : Lawful RecordV1.
Proof. apply generic_law. by intros []. Defined.

Definition minRecordSizeV1 : Z := 4 + 1 + 1 + 8 + 4 + 4.

(** Version 2. *)

Section version2.
Context `{TextLib}.

Definition RecordHeader : Type := RecordHeaderKey * RecordHeaderValue.

Record RecordV2 := {
  v2_length : VarInt32; v2_attributes : Int8; v2_timestampDelta : VarInt64;
  v2_offsetDelta : VarInt32; v2_key : RecordKey; v2_value : RecordValue;
  v2_headers : RecordArray RecordHeader;
}.
#[global] Instance RecordV2_ser : Serializable RecordV2 := generic
  (fun x => (v2_length x, (v2_attributes x, (v2_timestampDelta x, (v2_offsetDelta x,
            (v2_key x, (v2_value x, v2_headers x)))))))
  (fun '(a, (b, (c, (d, (e, (f, g)))))) => Build_RecordV2 a b c d e f g).
#[global] Instance RecordV2_law : Lawful RecordV2.
Proof. apply generic_law. by intros []. Defined.

Record RecordV2_ := {
  v2'_attributes : Int8; v2'_timestampDelta : VarInt64; v2'_offsetDelta : VarInt32;
  v2'_key : RecordKey; v2'_value : RecordValue; v2'_headers : RecordArray RecordHeader;
}.
#[global] Instance RecordV2'_ser : Serializable RecordV2_ := generic
  (fun x => (v2'_attributes x, (v2'_timestampDelta x, (v2'_offsetDelta x,
            (v2'_key x, (v2'_value x, v2'_headers x))))))
  (fun '(b, (c, (d, (e, (f, g))))) => Build_RecordV2_ b c d e f g).
#[global] Instance RecordV2'_law : Lawful RecordV2_.
Proof. apply generic_law. by intros []. Defined.

Record RecordBodyV2 := {
  body2_attributes : Int16; body2_lastOffsetDelta : Int32; body2_baseTimestamp : Int64;
  body2_maxTimestamp : Int64; body2_producerId : Int64; body2_producerEpoch : Int16;
  body2_baseSequence : Int32; body2_records : KaArray RecordV2;
}.
#[global] Instance RecordBodyV2_ser : Serializable RecordBodyV2 := generic
  (fun x => (body2_attributes x, (body2_lastOffsetDelta x, (body2_baseTimestamp x,
            (body2_maxTimestamp x, (body2_producerId x, (body2_producerEpoch x,
            (body2_baseSequence x, body2_records x))))))))
  (fun '(a, (b, (c, (d, (e, (f, (g, h))))))) => Build_RecordBodyV2 a b c d e f g h).
#[global] Instance RecordBodyV2_law : Lawful RecordBodyV2.
Proof. apply generic_law. by intros []. Defined.

Record RecordBatch1 := {
  b1_baseOffset : Int64; b1_batchLength : Int32; b1_partitionLeaderEpoch : Int32;
  b1_magic : Int8; b1_crc : Int32; b1_attributes : Int16; b1_lastOffsetDelta : Int32;
  b1_baseTimestamp : Int64; b1_maxTimestamp : Int64; b1_producerId : Int64;
  b1_producerEpoch : Int16; b1_baseSequence : Int32; b1_records : KaArray RecordV2;
}.
#[global] Instance RecordBatch1_ser : Serializable RecordBatch1 := generic
  (fun x => (b1_baseOffset x, (b1_batchLength x, (b1_partitionLeaderEpoch x, (b1_magic x,
            (b1_crc x, (b1_attributes x, (b1_lastOffsetDelta x, (b1_baseTimestamp x,
            (b1_maxTimestamp x, (b1_producerId x, (b1_producerEpoch x, (b1_baseSequence x,
             b1_records x)))))))))))))
  (fun '(a, (b, (c, (d, (e, (f, (g, (h, (i, (j, (k, (l, m)))))))))))) =>
     Build_RecordBatch1 a b c d e f g h i j k l m).
#[global] Instance RecordBatch1_law : Lawful RecordBatch1.
Proof. apply generic_law. by intros []. Defined.

Inductive BatchRecord :=
| BatchRecordV0 (r : RecordV0)
| BatchRecordV1 (r : RecordV1)
| BatchRecordV2 (r : RecordBatch1).

Definition putBatchRecord (r : BatchRecord) : Builder :=
  match r with
  | BatchRecordV0 r => put r
  | BatchRecordV1 r => put r
  | BatchRecordV2 r => put r
  end.

Definition encodeBatchRecords (rs : list BatchRecord) : bytes :=
  toLazyByteString (foldl (fun s x => s <+> putBatchRecord x) mempty rs).

Definition modify_offset (f : Z -> Z) (r : BatchRecord) : BatchRecord :=
  match r with
  | BatchRecordV0 (Build_RecordV0 o b c d e k v) =>
      BatchRecordV0 (Build_RecordV0 (mk64 (f (int64 o))) b c d e k v)
  | BatchRecordV1 (Build_RecordV1 o b c d e t k v) =>
      BatchRecordV1 (Build_RecordV1 (mk64 (f (int64 o))) b c d e t k v)
  | BatchRecordV2 (Build_RecordBatch1 o b c d e g h i j k l m n) =>
      BatchRecordV2 (Build_RecordBatch1 (mk64 (f (int64 o))) b c d e g h i j k l m n)
  end.

Definition modifyBatchRecordsOffset (f : Z -> Z) (rs : list BatchRecord) : list BatchRecord :=
  modify_offset f <$> rs.

(** ** Decoding *)

(** The digest package's [crc32] and [crc32c]. *)
Context (crc32 crc32c : bytes -> Z).

Definition getLegacyCrcPayload (msgSize : Z) (bs : bytes) : IO bytes :=
  '(payload, _) <~ runParser' (_ <-- takeBytes 16;; takeBytes (msgSize - 4)) bs;; Ret payload.

Definition invalid_crc {A} : IO A := DecodeError CORRUPT_MESSAGE "Invalid CRC32".

Definition validLegacyCrc (batchLength crc : Z) (bs : bytes) : IO unit :=
  crcPayload <~ getLegacyCrcPayload batchLength bs;;
  if negb (i32 (crc32 crcPayload) =? crc) then invalid_crc else Ret tt.

(** The checks of versions 0 and 1, on the input from the start of the record. *)
Definition check_legacy (shouldValidateCrc : bool) (minRecordSize : Z) (base : RecordBase) (bs : bytes)
    : IO unit :=
  if int32 (base_batchLength base) <? minRecordSize then
    DecodeError CORRUPT_MESSAGE "Invalid messageSize"
  else if shouldValidateCrc then
    validLegacyCrc (int32 (base_batchLength base)) (int32 (base_partitionLeaderEpochOrCrc base)) bs
  else Ret tt.

(** The checksum of version 2 is over what follows it in the batch. *)
Definition check_crc32c (shouldValidateCrc : bool) (batchLength crc : Z) (bs : bytes) : IO unit :=
  if shouldValidateCrc && negb (i32 (crc32c (take (Z.to_nat (batchLength - 9)) bs)) =? crc)
  then invalid_crc else Ret tt.

Definition invalid_magic {A} (magic : Int8) : IO A :=
  DecodeError CORRUPT_MESSAGE ("Invalid magic " +:+ pretty (int8 magic)).

(** One record: the record, the number of records it counts for and the rest of
    the input. *)
Definition decode_one (shouldValidateCrc : bool) (bs : bytes) : IO (BatchRecord * Z * bytes) :=
  '(base, bs') <~ runGet' bs;;
  let '(Build_RecordBase baseOffset batchLength epochOrCrc magic) := base in
  if int8 magic =? 0 then
    _ <~ check_legacy shouldValidateCrc minRecordSizeV0 base bs;;
    '(body, remainder) <~ runGet' bs';;
    let '(Build_RecordBodyV0 attributes key value) := body in
    Ret (BatchRecordV0 (Build_RecordV0 baseOffset batchLength epochOrCrc magic attributes key value),
         1, remainder)
  else if int8 magic =? 1 then
    _ <~ check_legacy shouldValidateCrc minRecordSizeV1 base bs;;
    '(body, remainder) <~ runGet' bs';;
    let '(Build_RecordBodyV1 attributes timestamp key value) := body in
    Ret (BatchRecordV1 (Build_RecordV1 baseOffset batchLength epochOrCrc magic attributes timestamp
                          key value), 1, remainder)
  else if int8 magic =? 2 then
    '(crc, bs'') <~ runGet' (A := Int32) bs';;
    _ <~ check_crc32c shouldValidateCrc (int32 batchLength) (int32 crc) bs'';;
    '(body, remainder) <~ runGet' bs'';;
    let '(Build_RecordBodyV2 a b c d e f g records) := body in
    Ret (BatchRecordV2 (Build_RecordBatch1 baseOffset batchLength epochOrCrc magic crc a b c d e f g
                          records),
         default 0 ((fun xs => Z.of_nat (length xs)) <$> unKaArray records), remainder)
  else invalid_magic magic.

(** [decode]: every round consumes input, so that [fuel] is enough when it is
    more than the number of bytes. *)
Fixpoint decode_loop (fuel : nat) (shouldValidateCrc : bool) (len : Z) (bs : bytes)
    (v : list BatchRecord) : IO (list BatchRecord * Z) :=
  match bs with
  | [] => Ret (v, len)
  | _ =>
      match fuel with
      | O => UB
      | S fuel =>
          '(r, n, remainder) <~ decode_one shouldValidateCrc bs;;
          decode_loop fuel shouldValidateCrc (len + n) remainder (v ++ [r])
      end
  end.

Definition decodeBatchRecords' (shouldValidateCrc : bool) (batchBs : bytes)
    : IO (list BatchRecord * Z) :=
  decode_loop (S (length batchBs)) shouldValidateCrc 0 batchBs [].

Definition decodeBatchRecords (shouldValidateCrc : bool) (batchBs : bytes) : IO (list BatchRecord) :=
  '(rs, _) <~ decodeBatchRecords' shouldValidateCrc batchBs;; Ret rs.

(** [decodeLegacyRecordBatch], for either version. *)
Fixpoint decodeLegacyRecordBatch {A} `{!Serializable A} (fuel : nat) (bs : bytes) (v : list A)
    : IO (list A) :=
  match bs with
  | [] => Ret v
  | _ =>
      match fuel with
      | O => UB
      | S fuel => '(r, l) <~ runGet' bs;; decodeLegacyRecordBatch fuel l (v ++ [r])
      end
  end.

Definition decodeRecordMagic (bs : bytes) : IO Z :=
  '(magic, _) <~ runParser' (_ <-- dropBytes 16;; getInt8) bs;; Ret magic.

(** ** Proofs: what was encoded is decoded *)

Definition record_bytes (r : BatchRecord) : bytes := builderBS (putBatchRecord r).

Lemma encode_from rs s :
  builderBS (foldl (fun s x => s <+> putBatchRecord x) s rs) =
  builderBS s ++ concat (record_bytes <$> rs).
Proof.
  revert s. induction rs as [|r rs IH]; intros s; [by rewrite app_nil_r|].
  cbn [foldl fmap list_fmap concat]. rewrite IH. cbn [builderBS mappend]. by rewrite app_assoc.
Qed.

Lemma encode_concat rs : encodeBatchRecords rs = concat (record_bytes <$> rs).
Proof. apply (encode_from rs mempty). Qed.

(** The part all versions share, and the part after it. *)
Definition base_of (r : BatchRecord) : RecordBase :=
  match r with
  | BatchRecordV0 (Build_RecordV0 a b c d _ _ _) => Build_RecordBase a b c d
  | BatchRecordV1 (Build_RecordV1 a b c d _ _ _ _) => Build_RecordBase a b c d
  | BatchRecordV2 (Build_RecordBatch1 a b c d _ _ _ _ _ _ _ _ _) => Build_RecordBase a b c d
  end.

Definition body_bytes (r : BatchRecord) : bytes :=
  match r with
  | BatchRecordV0 (Build_RecordV0 _ _ _ _ e k v) => runPut (Build_RecordBodyV0 e k v)
  | BatchRecordV1 (Build_RecordV1 _ _ _ _ e t k v) => runPut (Build_RecordBodyV1 e t k v)
  | BatchRecordV2 (Build_RecordBatch1 _ _ _ _ e f g h i j k l m) =>
      runPut e ++ runPut (Build_RecordBodyV2 f g h i j k l m)
  end.

Lemma record_bytes_split r : record_bytes r = runPut (base_of r) ++ body_bytes r.
Proof.
  destruct r as [[]|[]|[]]; cbn -[app put_elements putInt8 putInt16 putInt32 putInt64
    putNullableBytes putArray]; by rewrite <- ?app_assoc.
Qed.

Lemma base_length (b : RecordBase) : length (runPut b) = 17%nat.
Proof. by destruct b as [[] [] [] []]. Qed.

(** The version a record is tagged with. *)
Definition version (r : BatchRecord) : Z :=
  match r with BatchRecordV0 _ => 0 | BatchRecordV1 _ => 1 | BatchRecordV2 _ => 2 end.

Definition valid_record (r : BatchRecord) : Prop :=
  match r with BatchRecordV0 r => valid r | BatchRecordV1 r => valid r | BatchRecordV2 r => valid r end.

(** How many records a record counts for. *)
Definition record_count (r : BatchRecord) : Z :=
  match r with
  | BatchRecordV2 r => default 0 ((fun xs => Z.of_nat (length xs)) <$> unKaArray (b1_records r))
  | _ => 1
  end.

(** The size field holds the number of bytes after it. *)
Definition sized (r : BatchRecord) : Prop :=
  int32 (base_batchLength (base_of r)) = Z.of_nat (length (record_bytes r)) - 12.

(** The checksum is that of the bytes it covers. *)
Definition crc_ok (r : BatchRecord) : Prop :=
  match r with
  | BatchRecordV2 b => i32 (crc32c (drop 21 (record_bytes r))) = int32 (b1_crc b)
  | _ => i32 (crc32 (drop 16 (record_bytes r))) = int32 (base_partitionLeaderEpochOrCrc (base_of r))
  end.

Definition min_size (r : BatchRecord) : Z :=
  match r with BatchRecordV0 _ => minRecordSizeV0 | BatchRecordV1 _ => minRecordSizeV1 | _ => 0 end.

(** A record the decoder accepts: tagged with its version, long enough, and,
    when checksums are validated, with the right size and checksum. *)
Definition acceptable (shouldValidateCrc : bool) (r : BatchRecord) : Prop :=
  valid_record r /\ int8 (base_magic (base_of r)) = version r /\
  min_size r <= int32 (base_batchLength (base_of r)) /\
  (shouldValidateCrc = true -> sized r /\ crc_ok r).

Lemma valid_base r : valid_record r -> valid (base_of r).
Proof. destruct r as [[]|[]|[]]; cbn; naive_solver. Qed.

Lemma legacy_payload r rest : sized r -> (16 <= length (record_bytes r))%nat ->
  getLegacyCrcPayload (int32 (base_batchLength (base_of r))) (record_bytes r ++ rest) =
  Ret (drop 16 (record_bytes r)).
Proof.
  intros Hs Hl. unfold getLegacyCrcPayload, runParser'.
  rewrite <- (take_drop 16 (record_bytes r)) at 1. rewrite <- app_assoc, app_assoc.
  rewrite (parses_run _ _ (drop 16 (record_bytes r))); [done|].
  eapply parses_bind; [apply parses_takeBytes; rewrite length_take; lia|].
  apply parses_takeBytes. rewrite Hs, length_drop. lia.
Qed.

Lemma check_legacy_ok v m r rest :
  acceptable v r -> m = min_size r -> version r <> 2 ->
  check_legacy v m (base_of r) (record_bytes r ++ rest) = Ret tt.
Proof.
  intros (_ & _ & Hm & Hc) -> Hv. unfold check_legacy. rewrite (proj2 (Z.ltb_ge _ _)) by done.
  destruct v; [|done]. destruct (Hc eq_refl) as [Hs Hcrc]. unfold validLegacyCrc.
  rewrite legacy_payload; [|done|rewrite record_bytes_split, length_app, base_length; lia].
  cbn [io_bind]. destruct r; try done; cbn [crc_ok] in Hcrc; rewrite Hcrc, Z.eqb_refl; done.
Qed.

Lemma check_crc32c_ok v (b : RecordBatch1) rest : acceptable v (BatchRecordV2 b) ->
  check_crc32c v (int32 (b1_batchLength b)) (int32 (b1_crc b))
    (drop 21 (record_bytes (BatchRecordV2 b)) ++ rest) = Ret tt.
Proof.
  intros (_ & _ & _ & Hc). unfold check_crc32c. destruct v; [|done]. destruct (Hc eq_refl) as [Hs Hcrc].
  unfold sized in Hs. assert (base_batchLength (base_of (BatchRecordV2 b)) = b1_batchLength b) as Hb
    by (by destruct b). rewrite Hb in Hs. cbn [crc_ok] in Hcrc.
  rewrite take_app_length', Hcrc, Z.eqb_refl by (rewrite length_drop; lia). done.
Qed.

Lemma decode_one_exact v r rest : acceptable v r ->
  decode_one v (record_bytes r ++ rest) = Ret (r, record_count r, rest).
Proof.
  intros Hr. pose proof Hr as (Hv & Hm & _ & _). unfold decode_one.
  rewrite record_bytes_split at 1. rewrite <- app_assoc, runGet'_runPut by (by apply valid_base).
  cbn [io_bind]. destruct r as [r|r|b].
  - pose proof (check_legacy_ok v _ _ rest Hr eq_refl) as Hc. destruct r as [o l c m e k u].
    cbn [base_of base_magic version min_size body_bytes] in *. rewrite Hm, Hc by done. cbn [Z.eqb io_bind].
    cbn in Hv. rewrite runGet'_runPut by (cbn; tauto). done.
  - pose proof (check_legacy_ok v _ _ rest Hr eq_refl) as Hc. destruct r as [o l c m e t k u].
    cbn [base_of base_magic version min_size body_bytes] in *. rewrite Hm, Hc by done. cbn [Z.eqb io_bind].
    cbn in Hv. rewrite runGet'_runPut by (cbn; tauto). done.
  - pose proof (check_crc32c_ok v b rest Hr) as Hc. destruct b as [o l c m e f g h i j k n x].
    cbn [base_of base_magic version body_bytes b1_batchLength b1_crc] in *. rewrite Hm. cbn [Z.eqb].
    cbn in Hv. rewrite <- app_assoc, runGet'_runPut by tauto. cbn [io_bind].
    rewrite record_bytes_split in Hc. cbn [body_bytes base_of] in Hc.
    rewrite app_assoc, drop_app_length' in Hc by (rewrite length_app, base_length; by destruct e).
    rewrite Hc. cbn [io_bind]. rewrite runGet'_runPut by (cbn; tauto). done.
Qed.

Lemma decode_loop_exact v rs : Forall (acceptable v) rs -> forall fuel len acc,
  (length (concat (record_bytes <$> rs)) < fuel)%nat ->
  decode_loop fuel v len (concat (record_bytes <$> rs)) acc =
  Ret (acc ++ rs, len + foldr (fun r n => record_count r + n) 0 rs).
Proof.
  induction 1 as [|r rs Hr Hrs IH]; intros fuel len acc Hf.
  - rewrite app_nil_r, Z.add_0_r. by destruct fuel.
  - cbn [fmap list_fmap concat] in *. rewrite length_app in Hf.
    assert (17 <= length (record_bytes r))%nat as Hl
      by (rewrite record_bytes_split, length_app, base_length; lia).
    destruct fuel as [|fuel]; [lia|].
    assert (exists c bs, record_bytes r ++ concat (record_bytes <$> rs) = c :: bs) as (c & bs & E)
      by (destruct (record_bytes r); [cbn in Hl; lia|cbn; eauto]).
    cbn [decode_loop]. rewrite E, <- E, decode_one_exact by done. cbn [io_bind].
    rewrite IH by lia. cbn [foldr]. rewrite <- app_assoc. cbn [app]. do 2 f_equal. lia.
Qed.

(** ** Proofs: any input *)

(** An action that reads only its input and leaves at most [k] bytes of it. *)
Definition leaves {A} (rest : A -> bytes) (k : nat) (m : IO A) : Prop :=
  match m with
  | Ret x => (length (rest x) <= k)%nat
  | DecodeError _ _ => True
  | UB => False
  end.

Lemma leaves_bind {A B} (ra : A -> bytes) (rb : B -> bytes) j k m (f : A -> IO B) :
  leaves ra j m -> (forall a, (length (ra a) <= j)%nat -> leaves rb k (f a)) ->
  leaves rb k (io_bind m f).
Proof. destruct m; cbn; auto. Qed.

Lemma base_consumes : Consumes 8 (get (A := RecordBase)).
Proof.
  apply pfmap_consumes. apply (bind_consumes_n 8 0); [apply pfmap_consumes, _|apply _].
Qed.

Lemma leaves_runParser' {A} n (p : Parser A) bs k : Consumes n p -> (length bs <= k + n)%nat ->
  leaves snd k (runParser' p bs).
Proof.
  intros Hp Hk. pose proof (runParser'_consumes n p bs Hp) as Hc. unfold leaves.
  destruct (runParser' p bs) as [[x rest]| |]; cbn in *; [lia|done|done].
Qed.

Lemma leaves_runGet' {A} `{Lawful A} bs k : (length bs <= k)%nat ->
  leaves snd k (runGet' (A := A) bs).
Proof. intros Hk. apply (leaves_runParser' 0); [apply _|lia]. Qed.

(** A check leaves nothing. *)
Lemma check_legacy_defined v m base bs : leaves (fun _ => []) 0 (check_legacy v m base bs).
Proof.
  unfold check_legacy, validLegacyCrc, getLegacyCrcPayload. case_match; [done|]. destruct v; [|cbn; lia].
  apply (leaves_bind (fun _ => []) _ 0); [|intros payload _; case_match; cbn; lia].
  eapply leaves_bind; [apply (leaves_runParser' 0 _ _ (length bs)); [apply _|lia]|].
  intros [payload rest] _. cbn. lia.
Qed.

Lemma check_crc32c_defined v l c bs : leaves (fun _ => []) 0 (check_crc32c v l c bs).
Proof. unfold check_crc32c. case_match; cbn; lia. Qed.

(** One round is defined and consumes input. *)
Lemma decode_one_leaves v bs k : (length bs <= S k)%nat -> leaves snd k (decode_one v bs).
Proof.
  intros Hk. unfold decode_one.
  eapply leaves_bind; [apply (leaves_runParser' 8 _ _ k base_consumes); lia|].
  intros [base bs'] Hl. cbn [snd] in Hl. destruct base as [o l c m] eqn:Eb. rewrite <- Eb.
  repeat case_match; try (by cbn); (eapply leaves_bind;
    [first [apply check_legacy_defined | by apply leaves_runGet']|]).
  - intros _ _. eapply leaves_bind; [by apply leaves_runGet'|].
    intros [[] rest] Hr. cbn in *. lia.
  - intros _ _. eapply leaves_bind; [by apply leaves_runGet'|].
    intros [[] rest] Hr. cbn in *. lia.
  - intros [crc bs''] Hc. cbn [snd] in Hc. eapply leaves_bind; [apply check_crc32c_defined|].
    intros _ _. eapply leaves_bind; [by apply leaves_runGet'|].
    intros [[] rest] Hr. cbn in *. lia.
Qed.

Lemma decode_loop_defined fuel v len bs acc : (length bs < fuel)%nat ->
  leaves (fun _ => []) 0 (decode_loop fuel v len bs acc).
Proof.
  revert len bs acc. induction fuel as [|fuel IH]; intros len bs acc Hf; [lia|].
  destruct bs as [|c bs]; [cbn; lia|]. cbn [decode_loop].
  eapply leaves_bind; [apply (decode_one_leaves v (c :: bs) (length bs)); done|].
  intros [[r n] rest] Hr. cbn in *. apply IH. lia.
Qed.

(** C31: The decoder of a sequence of records ends on every input, with records or
    an error, and reads nothing outside of its input. *)
Theorem decode_records_total v bs : decodeBatchRecords' v bs <> UB.
Proof.
  intros E. pose proof (decode_loop_defined (S (length bs)) v 0 bs [] ltac:(lia)) as Hd.
  unfold decodeBatchRecords' in E. by rewrite E in Hd.
Qed.

(** C22: Decoding a sequence of records that was encoded gives the records back, of
    any mixture of the three versions, and counts them; with validation on, for
    records whose size and checksum fields are right. *)
Theorem batch_records_roundtrip v rs : Forall (acceptable v) rs ->
  decodeBatchRecords' v (encodeBatchRecords rs) =
  Ret (rs, foldr (fun r n => record_count r + n) 0 rs).
Proof.
  intros Hrs. unfold decodeBatchRecords'. rewrite encode_concat.
  by rewrite (decode_loop_exact v rs Hrs) by lia.
Qed.
End version2.

(** ** An example *)

Module KafkaRecordsWitness.
(** Texts as their bytes. *)
Definition byte_text : TextLib :=
  {| Text := bytes; encodeUtf8 := fun t => t; decodeUtf8' := inr; decode_encode := fun _ => eq_refl |}.
#[local] Existing Instance byte_text.

Definition sum_crc (bs : bytes) : Z := Z.of_nat (length bs).

(** A record of version 0 and a batch of version 2 with one record. *)
Definition old_record : BatchRecord :=
  BatchRecordV0 (Build_RecordV0 (mk64 4) (mk32 16) (mk32 12) (mk8 0) (mk8 0) None (Some [7; 8])).
Definition inner : RecordV2 :=
  Build_RecordV2 (mkVarInt32 10) (mk8 0) (mkVarInt64 0) (mkVarInt32 0)
    (mkRecordKey (Some [9])) (mkRecordValue (Some [10; 11; 12])) (mkRecordArray []).
Definition new_record : BatchRecord :=
  BatchRecordV2 (Build_RecordBatch1 (mk64 5) (mk32 60) (mk32 (-1)) (mk8 2) (mk32 51) (mk16 0) (mk32 0)
    (mk64 17) (mk64 17) (mk64 (-1)) (mk16 (-1)) (mk32 (-1))
    (mkKaArray (Some [inner]))).

Lemma old_acceptable : acceptable sum_crc sum_crc true old_record.
Proof.
  split; [|by vm_compute].
  change (is_i64 4 /\ is_i32 16 /\ is_i32 12 /\ is_i8 0 /\ is_i8 0 /\ opt_short 31 None /\
    opt_short 31 (Some [7; 8])).
  split_and!; try done; by intros ? [= <-].
Qed.
Lemma new_acceptable : acceptable sum_crc sum_crc true new_record.
Proof.
  split; [|by vm_compute].
  change (is_i64 5 /\ is_i32 60 /\ is_i32 (-1) /\ is_i8 2 /\ is_i32 51 /\ is_i16 0 /\ is_i32 0 /\
    is_i64 17 /\ is_i64 17 /\ is_i64 (-1) /\ is_i16 (-1) /\ is_i32 (-1) /\
    (forall xs, Some [inner] = Some xs -> valid_elements (2 ^ 31) xs)).
  split_and!; try done. intros xs [= <-]. split; [|done]. apply Forall_singleton.
  change (is_i32 10 /\ is_i8 0 /\ is_i64 0 /\ is_i32 0 /\ opt_short 31 (Some [9]) /\
    opt_short 31 (Some [10; 11; 12]) /\ valid_elements (2 ^ 31) (@nil RecordHeader)).
  split_and!; try done; by intros ? [= <-].
Qed.

Lemma batch_records_roundtrip_witness :
  decodeBatchRecords' sum_crc sum_crc true (encodeBatchRecords [old_record; new_record]) =
  Ret ([old_record; new_record], 2).
Proof.
  apply (batch_records_roundtrip sum_crc sum_crc true [old_record; new_record]).
  apply Forall_cons; split; [apply old_acceptable|]. apply Forall_singleton, new_acceptable.
Defined.
End KafkaRecordsWitness.
End KafkaRecords.
