(* ===== verification/KafkaBatches.v ===== *)
(** * Record batches on the produce and fetch paths
      (src/hstream-kafka/protocol/Kafka/Protocol/Encoding.hs)

    The decoder the produce handler uses, the header decoder the fetch handler
    uses, the update of a batch's base offset, and the attributes. *)

From stdpp Require Import base strings list pretty.
From Stdlib Require Import ZArith Lia.
From S2P Require Import Prelude KafkaParser KafkaPrim KafkaTypes KafkaRecords.

Module KafkaBatches.
Import KafkaParser KafkaPrim KafkaTypes KafkaRecords.

Record Attributes := mkAttributes { attributes_bits : Z }.
#[global] Instance Attributes_ser : Serializable Attributes :=
  instance mkAttributes attributes_bits getInt16 putInt16.
#[global] Instance Attributes_law : Lawful Attributes :=
  lawful mkAttributes attributes_bits getInt16 putInt16 is_i16
    (fun '(mkAttributes _) => eq_refl) parses_Int16 (fun _ => eq_refl) _ _.

Record RecordBatchHead := {
  h_attributes : Attributes; h_lastOffsetDelta : Int32; h_baseTimestamp : Int64;
  h_maxTimestamp : Int64; h_producerId : Int64; h_producerEpoch : Int16; h_baseSequence : Int32;
}.
#[global] Instance RecordBatchHead_ser : Serializable RecordBatchHead := generic
  (fun x => (h_attributes x, (h_lastOffsetDelta x, (h_baseTimestamp x, (h_maxTimestamp x,
            (h_producerId x, (h_producerEpoch x, h_baseSequence x)))))))
  (fun '(a, (b, (c, (d, (e, (f, g)))))) => Build_RecordBatchHead a b c d e f g).
#[global] Instance RecordBatchHead_law : Lawful RecordBatchHead.
Proof. apply generic_law. by intros []. Defined.

#[global] Instance RecordBase_canonical : Canonical RecordBase.
Proof. apply generic_canonical. by intros (? & ? & ? & ?). Qed.
#[global] Instance Attributes_canonical : Canonical Attributes.
Proof. apply canonical_instance; [done|apply inverts_Int16]. Qed.
#[global] Instance RecordBatchHead_canonical : Canonical RecordBatchHead.
Proof. apply generic_canonical. by intros (? & ? & ? & ? & ? & ? & ?). Qed.

Record RecordBatch := {
  baseOffset : Int64; batchLength : Int32; partitionLeaderEpoch : Int32; magic : Int8;
  crc : Int32; attributes : Attributes; lastOffsetDelta : Int32; baseTimestamp : Int64;
  maxTimestamp : Int64; producerId : Int64; producerEpoch : Int16; baseSequence : Int32;
  recordsCount : Int32; recordsData : bytes;
}.

Definition sizeOfPartitionLeaderEpochToRecordCount : Z := 49.

(** ** Attributes *)

Definition compressionCodecMask : Z := 0x07.
Definition timestampTypeMask : Z := 0x08.

Inductive CompressionType :=
| CompressionTypeNone | CompressionTypeGzip | CompressionTypeSnappy
| CompressionTypeLz4 | CompressionTypeZstd.

Inductive TimestampType :=
| TimestampTypeCreateTime | TimestampTypeLogAppendTime | TimestampTypeNone.

(** The [toEnum] of the two types; [None] is a call of [error]. *)
Definition toCompressionType (x : Z) : option CompressionType :=
  if x =? 0 then Some CompressionTypeNone else if x =? 1 then Some CompressionTypeGzip
  else if x =? 2 then Some CompressionTypeSnappy else if x =? 3 then Some CompressionTypeLz4
  else if x =? 4 then Some CompressionTypeZstd else None.

Definition toTimestampType (x : Z) : option TimestampType :=
  if x =? 0 then Some TimestampTypeCreateTime else if x =? 1 then Some TimestampTypeLogAppendTime
  else if x =? -1 then Some TimestampTypeNone else None.

Definition fromCompressionType (t : CompressionType) : Z :=
  match t with
  | CompressionTypeNone => 0 | CompressionTypeGzip => 1 | CompressionTypeSnappy => 2
  | CompressionTypeLz4 => 3 | CompressionTypeZstd => 4
  end.

Definition compressionType (a : Attributes) : option CompressionType :=
  toCompressionType (Z.land (attributes_bits a) compressionCodecMask).
Definition timestampType (a : Attributes) : option TimestampType :=
  toTimestampType (Z.land (attributes_bits a) timestampTypeMask).

(** ** One batch *)

Section batches.
Context (crc32 crc32c : bytes -> Z).

Definition decodeRecordBatch (shouldValidateCrc : bool) (bs : bytes) : IO RecordBatch :=
  '(base, bs') <~ runGet' (A := RecordBase) bs;;
  if int8 (base_magic base) =? 2 then
    '(crc, bs'') <~ runGet' (A := Int32) bs';;
    _ <~ check_crc32c crc32c shouldValidateCrc (int32 (base_batchLength base)) (int32 crc) bs'';;
    '(head, recordBs) <~ runGet' (A := RecordBatchHead) bs'';;
    '(recordsCount, recordsData) <~ runGet' (A := Int32) recordBs;;
    if Z.of_nat (length recordsData) =?
       int32 (base_batchLength base) - sizeOfPartitionLeaderEpochToRecordCount
    then Ret {| baseOffset := base_baseOffset base; batchLength := base_batchLength base;
                partitionLeaderEpoch := base_partitionLeaderEpochOrCrc base;
                magic := base_magic base; crc := crc; attributes := h_attributes head;
                lastOffsetDelta := h_lastOffsetDelta head; baseTimestamp := h_baseTimestamp head;
                maxTimestamp := h_maxTimestamp head; producerId := h_producerId head;
                producerEpoch := h_producerEpoch head; baseSequence := h_baseSequence head;
                recordsCount := recordsCount; recordsData := recordsData |}
    else DecodeError INVALID_RECORD "There are some bytes left"
  else invalid_magic (base_magic base).

(** [decodeRecordBatchOffset]; the lengths are [Int32]. *)
Definition offset_parser (totalLen : Z) : Parser (option (Z * Z)) :=
  if totalLen <=? 12 then pure None
  else
    baseOffset <-- getInt64;;
    batchLength <-- getInt32;;
    let remainingLen := i32 (i32 totalLen - 12 - batchLength) in
    if negb (remainingLen =? 0) then pure None
    else
      _ <-- directDropBytes 4;;
      magic <-- getInt8;;
      if magic =? 2 then
        _ <-- directDropBytes 40;;
        batchRecordsLen <-- getInt32;;
        pure (Some (baseOffset, batchRecordsLen))
      else fail ("Invalid magic " +:+ pretty magic).

Definition decodeRecordBatchOffset (bs : bytes) : IO (option (Z * Z)) :=
  '(r, _) <~ runParser' (offset_parser (Z.of_nat (length bs))) bs;; Ret r.

(** The bytes at the front are not checked to be there. *)
Definition updateRecordBatchBaseOffset (bs : bytes) (f : Z -> Z) : IO bytes :=
  match peek64BE (take 8 bs) with
  | Some x => Ret (runPut (mk64 (f (i64 x))) ++ drop 8 bs)
  | None => UB
  end.

(** In place: the bytes after the update. *)
Definition unsafeUpdateRecordBatchBaseOffset (bs : bytes) (f : Z -> Z) : IO bytes :=
  match peek64BE bs with
  | Some origin => Ret (poke64BE (u64 (f (i64 origin))) ++ drop 8 bs)
  | None => UB
  end.

(** ** Proofs *)

(** The bytes of a batch. *)
Definition base_part (b : RecordBatch) : RecordBase :=
  Build_RecordBase (baseOffset b) (batchLength b) (partitionLeaderEpoch b) (magic b).
Definition head_part (b : RecordBatch) : RecordBatchHead :=
  Build_RecordBatchHead (attributes b) (lastOffsetDelta b) (baseTimestamp b) (maxTimestamp b)
    (producerId b) (producerEpoch b) (baseSequence b).
Definition crc_part (b : RecordBatch) : bytes :=
  runPut (head_part b) ++ runPut (recordsCount b) ++ recordsData b.
Definition batch_bytes (b : RecordBatch) : bytes :=
  runPut (base_part b) ++ runPut (crc b) ++ crc_part b.

(** A batch whose fields fit, of version 2, with the right size and, when it is
    validated, the right checksum. *)
Definition proper (v : bool) (b : RecordBatch) : Prop :=
  valid (base_part b) /\ valid (crc b) /\ valid (head_part b) /\ valid (recordsCount b) /\
  int8 (magic b) = 2 /\ int32 (batchLength b) = 49 + Z.of_nat (length (recordsData b)) /\
  (v = true -> i32 (crc32c (crc_part b)) = int32 (crc b)).

Lemma int32_length (x : Int32) : length (runPut x) = 4%nat.
Proof. by destruct x. Qed.
Lemma head_length (h : RecordBatchHead) : length (runPut h) = 36%nat.
Proof. by destruct h as [[] [] [] [] [] [] []]. Qed.

Lemma crc_part_length b : proper false b \/ proper true b ->
  Z.of_nat (length (crc_part b)) = int32 (batchLength b) - 9.
Proof.
  intros Hb. assert (int32 (batchLength b) = 49 + Z.of_nat (length (recordsData b))) as ->
    by (unfold proper in Hb; tauto).
  unfold crc_part. rewrite !length_app, head_length, int32_length. lia.
Qed.

Lemma proper_weaken v b : proper v b -> proper false b.
Proof. unfold proper. naive_solver. Qed.

Lemma decode_proper v b : proper v b -> decodeRecordBatch v (batch_bytes b) = Ret b.
Proof.
  intros Hb. pose proof (crc_part_length b (or_introl (proper_weaken v b Hb))) as Hl.
  destruct Hb as (H1 & H2 & H3 & H4 & Hm & Hs & Hc). unfold decodeRecordBatch, batch_bytes.
  rewrite runGet'_runPut by done. cbn [io_bind base_part base_magic base_batchLength]. rewrite Hm.
  cbn [Z.eqb Pos.eqb]. rewrite runGet'_runPut by done. cbn [io_bind].
  assert (check_crc32c crc32c v (int32 (batchLength b)) (int32 (crc b)) (crc_part b) = Ret tt) as ->.
  { unfold check_crc32c. destruct v; [|done]. rewrite take_ge by lia.
    by rewrite (Hc eq_refl), Z.eqb_refl. }
  cbn [io_bind]. unfold crc_part. rewrite runGet'_runPut by done. cbn [io_bind].
  rewrite runGet'_runPut by done. cbn [io_bind]. unfold sizeOfPartitionLeaderEpochToRecordCount.
  rewrite Hs, (proj2 (Z.eqb_eq _ _)) by lia. by destruct b.
Qed.

(** One field read in a decoder that succeeds. *)
Lemma bind_runGet' {A B} `{Canonical A} bs (f : A * bytes -> IO B) b :
  Forall is_byte bs -> io_bind (runGet' bs) f = Ret b ->
  exists x rest, bs = runPut x ++ rest /\ valid x /\ Forall is_byte rest /\ f (x, rest) = Ret b.
Proof.
  intros Hb E. destruct (runGet' bs) as [[x rest]| |] eqn:E'; try done. cbn [io_bind] in E.
  destruct (runGet'_inverts bs x rest Hb E') as [-> Hx]. apply Forall_app in Hb as [_ Hb].
  by exists x, rest.
Qed.

Lemma decode_inverts v bs b : Forall is_byte bs ->
  decodeRecordBatch v bs = Ret b -> bs = batch_bytes b /\ proper v b.
Proof.
  intros Hb E. unfold decodeRecordBatch in E.
  apply bind_runGet' in E as (base & bs1 & -> & Hv1 & Hb1 & E); [|done].
  destruct (Z.eqb_spec (int8 (base_magic base)) 2) as [Hm|]; [|done].
  apply bind_runGet' in E as (c & bs2 & -> & Hv2 & Hb2 & E); [|done].
  destruct (check_crc32c crc32c v (int32 (base_batchLength base)) (int32 c) bs2) as [[]| |] eqn:Ec;
    try done. cbn [io_bind] in E.
  apply bind_runGet' in E as (h & bs3 & -> & Hv3 & Hb3 & E); [|done].
  apply bind_runGet' in E as (n & dat & -> & Hv4 & Hb4 & E); [|done].
  destruct (Z.eqb_spec (Z.of_nat (length dat))
    (int32 (base_batchLength base) - sizeOfPartitionLeaderEpochToRecordCount)) as [Hs|]; [|done].
  unfold sizeOfPartitionLeaderEpochToRecordCount in Hs. injection E as <-.
  destruct base as [o l p m], h as [a1 a2 a3 a4 a5 a6 a7]. cbn in Hs, Hm |- *.
  split; [done|].
  refine (conj Hv1 (conj Hv2 (conj Hv3 (conj Hv4 (conj Hm (conj _ _)))))); [cbn; lia|].
  intros ->. unfold check_crc32c in Ec.
  cbn [base_batchLength andb] in Ec. rewrite take_ge in Ec.
  - destruct (Z.eqb_spec (i32 (crc32c (runPut (Build_RecordBatchHead a1 a2 a3 a4 a5 a6 a7) ++
      runPut n ++ dat))) (int32 c)) as [Hc|]; done.
  - rewrite !length_app, head_length, int32_length. lia.
Qed.

(** C23: The decoder of the produce handler accepts exactly the encodings of
    version-2 batches whose size field is right and, when it validates, whose
    checksum is that of the bytes it covers, and returns the batch encoded. *)
Theorem decodeRecordBatch_exact v bs b : Forall is_byte bs ->
  decodeRecordBatch v bs = Ret b <-> bs = batch_bytes b /\ proper v b.
Proof.
  intros Hb. split; [by apply decode_inverts|]. intros [-> Hp]. by apply decode_proper.
Qed.

Definition with_baseOffset (f : Z -> Z) (b : RecordBatch) : RecordBatch :=
  let '(Build_RecordBatch o l p m c a d bt mt pid pe s n x) := b in
  Build_RecordBatch (mk64 (f (int64 o))) l p m c a d bt mt pid pe s n x.

Lemma batch_bytes_base b : batch_bytes b = runPut (baseOffset b) ++ drop 8 (batch_bytes b).
Proof. destruct b as [[o] [] [] []]. done. Qed.

Lemma peek_base (b : RecordBatch) rest : is_i64 (int64 (baseOffset b)) ->
  i64 <$> peek64BE (runPut (baseOffset b) ++ rest) = Some (int64 (baseOffset b)).
Proof.
  intros Ho. destruct (baseOffset b) as [o]. cbn [int64] in *.
  change (runPut (mk64 o)) with (poke64BE (u64 o)).
  assert (peek64BE (poke64BE (u64 o) ++ rest) = peek64BE (poke64BE (u64 o))) as -> by done.
  rewrite peek_poke64 by apply u64_range. cbn. by rewrite wrap_signed64.
Qed.

(** Both updates write the new base offset in front of the other bytes. *)
Lemma update_bytes b f : is_i64 (int64 (baseOffset b)) ->
  unsafeUpdateRecordBatchBaseOffset (batch_bytes b) f = Ret (batch_bytes (with_baseOffset f b)) /\
  updateRecordBatchBaseOffset (batch_bytes b) f = Ret (batch_bytes (with_baseOffset f b)).
Proof.
  intros Ho.
  assert (batch_bytes (with_baseOffset f b) =
    runPut (mk64 (f (int64 (baseOffset b)))) ++ drop 8 (batch_bytes b)) as -> by (by destruct b as [[] [] [] []]).
  pose proof (peek_base b (drop 8 (batch_bytes b)) Ho) as H1. rewrite <- batch_bytes_base in H1.
  pose proof (peek_base b [] Ho) as H2. rewrite app_nil_r in H2.
  unfold unsafeUpdateRecordBatchBaseOffset, updateRecordBatchBaseOffset.
  assert (take 8 (batch_bytes b) = runPut (baseOffset b)) as -> by (by destruct b as [[] [] [] []]).
  destruct (peek64BE (batch_bytes b)) as [x|]; [|done].
  destruct (peek64BE (runPut (baseOffset b))) as [y|]; [|done]. cbn in H1, H2. simplify_eq.
  rewrite H1, H2. done.
Qed.

(** The first two fields of a batch, and the others. *)
Definition after_length (b : RecordBatch) : bytes := drop 12 (batch_bytes b).

Lemma batch_bytes_lead b :
  batch_bytes b = builderBS (putInt64 (int64 (baseOffset b))) ++
    builderBS (putInt32 (int32 (batchLength b))) ++ after_length b.
Proof. by destruct b as [[] [] [] []]. Qed.

Lemma after_length_parts b : after_length b =
  builderBS (putInt32 (int32 (partitionLeaderEpoch b))) ++ builderBS (putInt8 (int8 (magic b))) ++
  (runPut (crc b) ++ runPut (head_part b)) ++ builderBS (putInt32 (int32 (recordsCount b))) ++
  recordsData b.
Proof.
  destruct b as [[] [] [] [] [] ? ? ? ? ? ? ? []]. unfold after_length, batch_bytes, crc_part.
  cbn [recordsCount int32 recordsData]. rewrite <- !app_assoc. done.
Qed.

Lemma batch_length b : proper false b ->
  Z.of_nat (length (batch_bytes b)) = int32 (batchLength b) + 12.
Proof.
  intros Hb. pose proof (crc_part_length b (or_introl Hb)). unfold batch_bytes.
  rewrite !length_app, base_length, int32_length. lia.
Qed.

(** The lead of the parser, on a batch or a part of one. *)
Lemma offset_lead b n rest : proper false b -> 12 < n ->
  offset_parser n _ (builderBS (putInt64 (int64 (baseOffset b))) ++
    builderBS (putInt32 (int32 (batchLength b))) ++ rest) (fun b x => Done b x) =
  (if negb (i32 (i32 n - 12 - int32 (batchLength b)) =? 0) then pure None
   else _ <-- directDropBytes 4;; magic <-- getInt8;;
        if magic =? 2 then
          _ <-- directDropBytes 40;; count <-- getInt32;; pure (Some (int64 (baseOffset b), count))
        else fail ("Invalid magic " +:+ pretty magic)) _ rest (fun b x => Done b x).
Proof.
  intros (Hv & _) Hn. destruct Hv as (Ho & Hl & _). unfold offset_parser.
  rewrite (proj2 (Z.leb_gt _ _)) by lia. unfold bind at 1. rewrite (parses_Int64 _ Ho).
  unfold bind at 1. by rewrite (parses_Int32 _ Hl).
Qed.

(** The fetch handler reads the base offset and the number of records of a
    complete batch from its header, and nothing from any shorter part of it. *)
Theorem batch_offset_exact b : proper false b ->
  decodeRecordBatchOffset (batch_bytes b) =
    Ret (Some (int64 (baseOffset b), int32 (recordsCount b))) /\
  (forall n, (n < length (batch_bytes b))%nat ->
     decodeRecordBatchOffset (take n (batch_bytes b)) = Ret None).
Proof.
  intros Hb. pose proof (batch_length b Hb) as Hlen. pose proof Hb as Hb'.
  destruct Hb' as ((Ho & Hl & _) & _ & _ & Hn & Hm & Hs & _). cbn in Ho, Hl, Hn.
  unfold decodeRecordBatchOffset, runParser', runParser. split.
  - rewrite batch_bytes_lead at 2. rewrite offset_lead by (done || lia).
    rewrite Hlen. replace (i32 (i32 (int32 (batchLength b) + 12) - 12 - int32 (batchLength b))) with 0
      by (unfold_int; Z.div_mod_to_equations; lia).
    cbn [Z.eqb negb]. rewrite after_length_parts. unfold bind, directDropBytes.
    rewrite drop_app_length' by done. rewrite (parses_Int8 (int8 (magic b))) by (by rewrite Hm).
    rewrite Hm. cbn [Z.eqb Pos.eqb].
    rewrite drop_app_length' by (by rewrite length_app, head_length, int32_length).
    by rewrite (parses_Int32 _ Hn).
  - intros n Hlt. rewrite length_take, Nat.min_l by lia.
    destruct (decide (12 < Z.of_nat n)) as [H12|H12].
    + rewrite batch_bytes_lead, !take_app_ge by (cbn; lia). rewrite offset_lead by (done || lia).
      rewrite (proj2 (Z.eqb_neq _ 0)) by (unfold_int; Z.div_mod_to_equations; lia). done.
    + unfold offset_parser. by rewrite (proj2 (Z.leb_le _ _)) by lia.
Qed.

Lemma with_baseOffset_proper v b f :
  proper v b -> is_i64 (f (int64 (baseOffset b))) -> proper v (with_baseOffset f b).
Proof.
  intros Hp Hf. destruct b as [[o] [] [] []]. destruct Hp as ((Ho & Hr) & Hp).
  split; [split; [exact Hf|exact Hr]|exact Hp].
Qed.

(** Updating the base offset of a batch in place changes its base offset and
    nothing else: the decoder accepts the updated bytes with the same fields,
    also when it validates the checksum. *)
Theorem update_baseOffset_exact v bs b f : Forall is_byte bs ->
  decodeRecordBatch v bs = Ret b -> is_i64 (f (int64 (baseOffset b))) ->
  exists bs', unsafeUpdateRecordBatchBaseOffset bs f = Ret bs' /\
    decodeRecordBatch v bs' = Ret (with_baseOffset f b).
Proof.
  intros Hb [-> Hp]%decode_inverts Hf; [|done]. eexists. split.
  - apply update_bytes. by destruct Hp as ((? & _) & _).
  - by apply decode_proper, with_baseOffset_proper.
Qed.

(** ** Attributes *)

Lemma land_pow2 a i : 0 <= i ->
  Z.land a (2 ^ i) = if Z.testbit a i then 2 ^ i else 0.
Proof.
  intros Hi. apply Z.bits_inj'. intros j Hj. rewrite Z.land_spec, Z.pow2_bits_eqb by done.
  destruct (Z.eqb_spec i j) as [<-|Hij]; destruct (Z.testbit a i) eqn:E;
    rewrite ?Z.pow2_bits_eqb, ?Z.bits_0, ?Z.eqb_refl, ?E, ?(proj2 (Z.eqb_neq i j) Hij), ?andb_false_r by done;
    done.
Qed.

(** The codec that was stored in the lowest bits of the attributes is read
    back. The timestamp type is read when it is the creation time; when it is the
    log append time (bit 3), reading it is an error, because the bit is not
    shifted down. *)
Theorem attributes_read a t :
  (Z.land a 7 = fromCompressionType t -> compressionType (mkAttributes a) = Some t) /\
  timestampType (mkAttributes a) =
    (if Z.testbit a 3 then None else Some TimestampTypeCreateTime).
Proof.
  unfold compressionType, timestampType, compressionCodecMask, timestampTypeMask. cbn [attributes_bits].
  split; [intros ->; by destruct t|]. change 8 with (2 ^ 3). rewrite land_pow2 by done.
  by destruct (Z.testbit a 3).
Qed.
End batches.

(** ** An example *)

Module KafkaBatchesWitness.
(** A batch of two records' worth of data, with base offset 0. *)
Definition sample : RecordBatch :=
  {| baseOffset := mk64 0; batchLength := mk32 52; partitionLeaderEpoch := mk32 (-1);
     magic := mk8 2; crc := mk32 3; attributes := mkAttributes 1; lastOffsetDelta := mk32 1;
     baseTimestamp := mk64 1700000000000; maxTimestamp := mk64 1700000000001;
     producerId := mk64 (-1); producerEpoch := mk16 (-1); baseSequence := mk32 (-1);
     recordsCount := mk32 2; recordsData := [1; 2; 3] |}.

(** A checksum for the examples. *)
Definition sum_crc (bs : bytes) : Z := Z.of_nat (length bs) - 40.

Lemma sample_proper : proper sum_crc true sample.
Proof. vm_compute. repeat split; intros; discriminate. Qed.

Lemma is_bytes_dec bs : forallb (fun b => (0 <=? b) && (b <? 256)) bs = true -> Forall is_byte bs.
Proof.
  induction bs as [|b bs IH]; cbn; [constructor|]. intros [Hb%andb_prop Hr]%andb_prop.
  constructor; [|by apply IH]. unfold is_byte. lia.
Qed.

Lemma decodeRecordBatch_exact_witness :
  decodeRecordBatch sum_crc true (batch_bytes sample) = Ret sample.
Proof.
  apply (decodeRecordBatch_exact sum_crc true (batch_bytes sample) sample).
  - by apply is_bytes_dec.
  - split; [done|apply sample_proper].
Defined.

Lemma batch_offset_exact_witness :
  decodeRecordBatchOffset (batch_bytes sample) = Ret (Some (0, 2)) /\
  decodeRecordBatchOffset (take 40 (batch_bytes sample)) = Ret None.
Proof.
  destruct (batch_offset_exact sum_crc sample) as [H1 H2].
  - eapply proper_weaken, sample_proper.
  - split; [exact H1|]. apply H2. vm_compute. repeat constructor.
Defined.

Lemma update_baseOffset_exact_witness :
  exists bs', unsafeUpdateRecordBatchBaseOffset (batch_bytes sample) (fun x => i64 (x + 70)) = Ret bs' /\
    decodeRecordBatch sum_crc true bs' = Ret (with_baseOffset (fun x => i64 (x + 70)) sample).
Proof.
  apply (update_baseOffset_exact sum_crc true (batch_bytes sample) sample (fun x => i64 (x + 70))).
  - by apply is_bytes_dec.
  - vm_compute. reflexivity.
  - apply i64_range.
Defined.

Lemma attributes_read_witness :
  compressionType (mkAttributes 12) = Some CompressionTypeZstd /\ timestampType (mkAttributes 12) = None.
Proof. split; [apply (attributes_read 12 CompressionTypeZstd)|apply (attributes_read 12 CompressionTypeNone)]; done. Defined.
End KafkaBatchesWitness.
End KafkaBatches.
