(* ===== verification/KafkaOffsets.v ===== *)
(** * Offsets of the Kafka server
      (src/hstream-kafka/HStream/Kafka/Common/OffsetManager.hs, RecordFormat.hs
      and Read.hs, and Server/Handler/Produce.hs and Consume.hs)

    A produced batch gets the next offsets of its log, is stored with its last
    offset as key, and a fetch finds the record that holds an offset by that key.
    With sparse offsets the offset is computed from the log sequence number
    instead. The calls for one log are serialised by the [MVar] of its offset, so
    that a run is a sequence of calls. *)

From stdpp Require Import base gmap strings list sorting pretty.
From Stdlib Require Import ZArith Lia.
From S2P Require Import Prelude KafkaParser KafkaPrim KafkaTypes KafkaRecords KafkaBatches.

(** ** Keys *)

(** Keys are compared byte by byte. *)
Fixpoint key_leb (a b : bytes) : bool :=
  match a, b with
  | [], _ => true
  | _ :: _, [] => false
  | x :: a, y :: b => if x <? y then true else if y <? x then false else key_leb a b
  end.

(** A record of a log: its sequence number, its key and its payload. *)
Record entry := { e_lsn : Z; e_key : bytes; e_payload : bytes }.

(** What reading at one LSN gives: a record, a gap (of data loss or not), or
    anything else. *)
Inductive read_result := GotRecord (payload : bytes) | GotGap (dataloss : bool) | GotOther.

(** LogDevice's store, as the Kafka server uses it. [isLogEmpty] is [None] when
    the log is not found. [appendKeyed] gives the record a sequence number, or
    fails, and a failed append (one that timed out) may still have stored the
    record. The tail LSN is that of the last record, or the LSN of a gap (a bridge
    to a new epoch) after it, and then the tail attributes have the LSN of the last
    record that was released. [findKey] gives the highest LSN with a smaller key
    and the lowest LSN with an equal or greater key, in a log whose keys do not
    decrease. *)
Class LogStore (St : Type) := {
  LSN_MIN : Z;
  LSN_MAX : Z;
  LSN_INVALID : Z;
  entries : St -> Z -> list entry;
  isLogEmpty : St -> Z -> option bool;
  getTailLSN : St -> Z -> Z;
  getLogTailAttrsLSN : St -> Z -> Z;
  readAllowGap : St -> Z -> Z -> read_result;
  readerRead : St -> Z -> Z * Z -> list bytes;
  appendKeyed : St -> Z -> bytes -> bytes -> option Z * St;
  findKey : St -> Z -> bytes -> Z * Z;
  findTime : St -> Z -> Z -> Z;
  lsn_bounds : LSN_MIN <> LSN_INVALID /\ LSN_MAX <> LSN_INVALID;
  lsn_valid : forall s l e, e ∈ entries s l -> e_lsn e <> LSN_INVALID;
  isLogEmpty_exact : forall s l, isLogEmpty s l = Some (bool_decide (entries s l = [])) \/
    (isLogEmpty s l = None /\ entries s l = []);
  read_entry : forall s l e, e ∈ entries s l -> readAllowGap s l (e_lsn e) = GotRecord (e_payload e);
  tail_read : forall s l e, last (entries s l) = Some e ->
    getTailLSN s l = e_lsn e \/
    (readAllowGap s l (getTailLSN s l) = GotGap false /\ getLogTailAttrsLSN s l = e_lsn e);
  tail_valid : forall s l, entries s l <> [] -> getTailLSN s l <> LSN_INVALID;
  read_oldest : forall s l e after, entries s l = e :: after ->
    readerRead s l (LSN_MIN, LSN_MAX) = [e_payload e];
  read_from : forall s l e, e ∈ entries s l ->
    readerRead s l (e_lsn e, getTailLSN s l) = [e_payload e];
  appended : forall s l p k lsn s', appendKeyed s l p k = (Some lsn, s') ->
    entries s' l = entries s l ++ [{| e_lsn := lsn; e_key := k; e_payload := p |}];
  appended_other : forall s l p k r s' l', appendKeyed s l p k = (r, s') -> l' <> l ->
    entries s' l' = entries s l';
  append_failed : forall s l p k s', appendKeyed s l p k = (None, s') ->
    entries s' l = entries s l \/
    exists lsn, entries s' l = entries s l ++ [{| e_lsn := lsn; e_key := k; e_payload := p |}];
  findKey_hi : forall s l k before e after,
    StronglySorted (fun a b => key_leb (e_key a) (e_key b) = true) (entries s l) ->
    entries s l = before ++ e :: after ->
    Forall (fun x => key_leb k (e_key x) = false) before -> key_leb k (e_key e) = true ->
    (findKey s l k).2 = e_lsn e;
}.

Module KafkaOffsets.
Import KafkaParser KafkaPrim KafkaTypes KafkaRecords KafkaBatches.

(** [U.intToCBytesWithPadding]: twenty characters, padded with zeros. *)
Fixpoint digits (k : nat) (n : Z) : bytes :=
  match k with O => [] | S k => digits k (n / 10) ++ [48 + n mod 10] end.
Definition intToCBytesWithPadding (n : Z) : bytes :=
  if n <? 0 then 45 :: digits 19 (- n) else digits 20 n.

(** ** The format of a stored record *)

Record RecordFormat := {
  f_version : Int8; f_offset : Int64; f_batchLength : Int32; f_recordBytes : CompactBytes;
}.
#[global] Instance RecordFormat_ser : Serializable RecordFormat := generic
  (fun x => (f_version x, (f_offset x, (f_batchLength x, f_recordBytes x))))
  (fun '(a, (b, (c, d))) => Build_RecordFormat a b c d).
#[global] Instance RecordFormat_law : Lawful RecordFormat.
Proof. apply generic_law. by intros []. Defined.

Definition calOffset (f : RecordFormat) : Z :=
  i64 (i64 (int64 (f_offset f) + 1) - int32 (f_batchLength f)).

(** ** The offset manager *)

Section offsets.
Context {St : Type} `{!LogStore St} (crc32c : bytes -> Z).

(** [offsets], the cache of the last offset of each log, and the store. *)
Record manager := { offsets : gmap Z Z; store : St }.

(** What a call does: it returns, the request fails with an error code, the log
    is not found, or the handler dies: an [error] or another exception. *)
Inductive outcome (A : Type) := Returned (a : A) | Refused (code : ErrorCode) | NotFound | Died.
Arguments Returned {A}.
Arguments Refused {A}.
Arguments NotFound {A}.
Arguments Died {A}.

Definition and_then {A B} (m : outcome A) (f : A -> outcome B) : outcome B :=
  match m with
  | Returned a => f a
  | Refused c => Refused c
  | NotFound => NotFound
  | Died => Died
  end.
Definition lift {A} (m : IO A) : outcome A :=
  match m with Ret a => Returned a | DecodeError c _ => Refused c | UB => Died end.

(** [acquire] of [readLastOneRecord]; at a gap without data loss it is called again
    with the LSN of the last record that was released. *)
Fixpoint acquire (fuel : nat) (s : St) (logid lsn : Z) : outcome (Z * RecordFormat) :=
  match readAllowGap s logid lsn with
  | GotRecord recordPayload => and_then (lift (runGet recordPayload)) (fun f => Returned (lsn, f))
  | GotGap false =>
      match fuel with
      | O => Died
      | S fuel => acquire fuel s logid (getLogTailAttrsLSN s logid)
      end
  | GotGap true | GotOther => Died
  end.

Definition readLastOneRecord (s : St) (logid : Z) : outcome (option (Z * RecordFormat)) :=
  match isLogEmpty s logid with
  | None => NotFound
  | Some true => Returned None
  | Some false => and_then (acquire 1 s logid (getTailLSN s logid)) (fun r => Returned (Some r))
  end.

(** The first record from the first of the two LSNs on. *)
Definition readOneRecordBypassGap (s : St) (logid : Z) (lsns : Z * Z)
    : outcome (option RecordFormat) :=
  match isLogEmpty s logid with
  | None => NotFound
  | Some true => Returned None
  | Some false =>
      let '(start, end_) := lsns in
      if (start =? LSN_INVALID) || (end_ =? LSN_INVALID) then Returned None
      else match readerRead s logid (start, end_) with
           | [recordPayload] => and_then (lift (runGet recordPayload)) (fun f => Returned (Some f))
           | _ => Died
           end
  end.

Definition getLatestOffsetWithLsn (s : St) (logid : Z) : outcome (option (Z * Z)) :=
  and_then (readLastOneRecord s logid) (fun m =>
  Returned ((fun '(lsn, f) => (int64 (f_offset f), lsn)) <$> m)).

Definition getLatestOffset (s : St) (logid : Z) : outcome (option Z) :=
  and_then (getLatestOffsetWithLsn s logid) (fun m => Returned (fst <$> m)).

Definition getOldestOffset (s : St) (logid : Z) : outcome (option Z) :=
  and_then (readOneRecordBypassGap s logid (LSN_MIN, LSN_MAX)) (fun m => Returned (calOffset <$> m)).

Definition getOffsetByTimestamp (s : St) (logid timestamp : Z) : outcome (option Z) :=
  let lsn := findTime s logid timestamp in
  let tailLsn := getTailLSN s logid in
  let lsns := if tailLsn <? lsn then (LSN_INVALID, LSN_INVALID) else (lsn, tailLsn) in
  and_then (readOneRecordBypassGap s logid lsns) (fun m => Returned (calOffset <$> m)).

(** [withOffsetN]: the cached offset, or that of the last record, or -1, also when
    the log is not found; [f] runs with the offset [n] further, and only if it
    returns the cache is updated. *)
Definition withOffsetN {A} (logid n : Z) (f : Z -> St -> outcome A * St) (m : manager)
    : outcome A * manager :=
  let latest :=
    match offsets m !! logid with
    | Some o => Returned o
    | None =>
        match getLatestOffset (store m) logid with
        | Returned mo => Returned (default (-1) mo)
        | NotFound => Returned (-1)
        | r => and_then r (fun _ => Died)
        end
    end in
  match latest with
  | Returned o =>
      let o' := i64 (o + n) in
      match f o' (store m) with
      | (Returned a, s) => (Returned a, {| offsets := <[logid := o']> (offsets m); store := s |})
      | (r, s) => (r, {| offsets := <[logid := o]> (offsets m); store := s |})
      end
  | r => (and_then r (fun _ => Died), m)
  end.

Definition cleanOffsetCache (logid : Z) (m : manager) : manager :=
  {| offsets := delete logid (offsets m); store := store m |}.

(** ** Producing *)

(** The body of [withOffsetN] in [appendRecords]; [o] is the last offset. *)
Definition append_at (logid : Z) (bs : bytes) (batchLength o : Z) (s : St) : outcome Z * St :=
  let startOffset := i64 (i64 (o + 1) - batchLength) in
  match unsafeUpdateRecordBatchBaseOffset bs (fun x => i64 (x + startOffset)) with
  | Ret bs =>
      let storedRecord := runPut (Build_RecordFormat (mk8 0) (mk64 o) (mk32 batchLength)
                                    (mkCompactBytes bs)) in
      match appendKeyed s logid storedRecord (intToCBytesWithPadding o) with
      | (Some _, s) => (Returned startOffset, s)
      | (None, s) => (Died, s)
      end
  | DecodeError code _ => (Refused code, s)
  | UB => (Died, s)
  end.

(** The base offset that is answered. *)
Definition appendRecords (shouldValidateCrc : bool) (logid : Z) (bs : bytes) (m : manager)
    : outcome Z * manager :=
  match decodeRecordBatch crc32c shouldValidateCrc bs with
  | Ret batch =>
      let batchLength := int32 (recordsCount batch) in
      if batchLength <? 1 then (Died, m)
      else withOffsetN logid batchLength (append_at logid bs batchLength) m
  | DecodeError code _ => (Refused code, m)
  | UB => (Died, m)
  end.

(** ** Fetching *)

Inductive LsnResult := LsnData (startLsn tailLsn highwater : Z) | OffsetOutOfRange.

Definition getPartitionLsn (s : St) (logid offset : Z) : outcome LsnResult :=
  and_then (getLatestOffsetWithLsn s logid) (fun m =>
  match m with
  | Some (latestOffset, tailLsn) =>
      let highwaterOffset := i64 (latestOffset + 1) in
      if offset <? latestOffset then
        let '(_, startLsn) := findKey s logid (intToCBytesWithPadding offset) in
        Returned (LsnData startLsn tailLsn highwaterOffset)
      else if offset =? latestOffset then Returned (LsnData tailLsn tailLsn highwaterOffset)
      else if offset =? highwaterOffset then
        Returned (LsnData (u64 (tailLsn + 1)) tailLsn highwaterOffset)
      else if highwaterOffset <? offset then Returned OffsetOutOfRange
      else Died
  | None =>
      if offset =? 0 then Returned (LsnData LSN_MIN LSN_INVALID 0) else Returned OffsetOutOfRange
  end).

Definition decodeLastBatchOffset (bs : bytes) : IO (option Z) :=
  r <~ decodeRecordBatchOffset bs;;
  Ret ((fun '(baseOffset, recordsLen) => i64 (i64 (baseOffset + recordsLen) - 1)) <$> r).
End offsets.
Arguments outcome : clear implicits.
Arguments Returned {A}.
Arguments Refused {A}.
Arguments NotFound {A}.
Arguments Died {A}.

(** ** Sparse offsets *)

(** [None] is a call of [error]. *)
Definition composeSparseOffset (lsn idx : Z) : option Z :=
  let epoch := Z.shiftr lsn 32 in
  let esn := Z.land lsn 0xffffffff in
  if (2 ^ 39 - 1 <? lsn) || (2 ^ 24 - 1 <? idx) then None
  else Some (i64 (Z.lor (Z.lor (u64 (Z.shiftl epoch 44)) (u64 (Z.shiftl esn 24))) (u64 idx))).

Definition sparseOffsetToLsn (offset : Z) : Z := u64 (Z.shiftr offset 24).

Definition calNextSparseOffset (offset : Z) : option Z :=
  let lsn := Z.shiftr offset 24 in
  if lsn <? 2 ^ 39 - 1 then Some (i64 (Z.shiftl (Z.shiftr offset 24 + 1) 24)) else None.

(** ** Proofs: keys *)

Lemma digits_length k n : length (digits k n) = k.
Proof. revert n. induction k as [|k IH]; intros n; [done|]. cbn [digits]. rewrite length_app, IH. cbn. lia. Qed.

Lemma digits_inj k a b : 0 <= a < 10 ^ Z.of_nat k -> 0 <= b < 10 ^ Z.of_nat k ->
  digits k a = digits k b -> a = b.
Proof.
  revert a b. induction k as [|k IH]; intros a b Ha Hb E; [cbn in *; lia|].
  cbn [digits] in E. apply app_inj_2 in E as [E1 E2]; [|done]. injection E2 as E2.
  rewrite Nat2Z.inj_succ, Z.pow_succ_r in Ha, Hb by lia.
  apply IH in E1; [|split; [apply Z.div_pos|apply Z.div_lt_upper_bound]; lia..].
  Z.div_mod_to_equations; lia.
Qed.

Lemma key_leb_snoc x y c d : length x = length y ->
  key_leb (x ++ [c]) (y ++ [d]) = if decide (x = y) then c <=? d else key_leb x y.
Proof.
  revert y. induction x as [|u x IH]; intros [|w y] Hl; simplify_eq/=.
  - destruct (Z.ltb_spec c d), (Z.leb_spec c d), (Z.ltb_spec d c); done || lia.
  - rewrite IH by done. destruct (Z.ltb_spec u w); [by rewrite decide_False by (intros [= ? ?]; lia)|].
    destruct (Z.ltb_spec w u); [by rewrite decide_False by (intros [= ? ?]; lia)|].
    assert (u = w) as -> by lia. repeat case_decide; simplify_eq; congruence.
Qed.

(** Padded numbers are in the order of the numbers. *)
Lemma digits_leb k a b : 0 <= a < 10 ^ Z.of_nat k -> 0 <= b < 10 ^ Z.of_nat k ->
  key_leb (digits k a) (digits k b) = (a <=? b).
Proof.
  revert a b. induction k as [|k IH]; intros a b Ha Hb.
  - cbn in *. symmetry. apply Z.leb_le. lia.
  - cbn [digits]. rewrite key_leb_snoc by (by rewrite !digits_length).
    rewrite Nat2Z.inj_succ, Z.pow_succ_r in Ha, Hb by lia.
    assert (0 <= a / 10 < 10 ^ Z.of_nat k /\ 0 <= b / 10 < 10 ^ Z.of_nat k) as [Ha' Hb']
      by (split; (split; [apply Z.div_pos|apply Z.div_lt_upper_bound]); lia).
    case_decide as E.
    + apply digits_inj in E; [|done..].
      destruct (Z.leb_spec (48 + a mod 10) (48 + b mod 10)), (Z.leb_spec a b); try done;
        Z.div_mod_to_equations; lia.
    + assert (a / 10 <> b / 10) by congruence. rewrite IH by done.
      destruct (Z.leb_spec (a / 10) (b / 10)), (Z.leb_spec a b); try done;
        Z.div_mod_to_equations; lia.
Qed.

Lemma padding_leb a b : 0 <= a < 2 ^ 63 -> 0 <= b < 2 ^ 63 ->
  key_leb (intToCBytesWithPadding a) (intToCBytesWithPadding b) = (a <=? b).
Proof.
  intros Ha Hb. unfold intToCBytesWithPadding. rewrite !(proj2 (Z.ltb_ge _ 0)) by lia.
  apply digits_leb; lia.
Qed.

(** ** Proofs: contiguous offsets *)

(** The batch [b] is stored in the record [e]. *)
Definition count (b : RecordBatch) : Z := int32 (recordsCount b).
Definition first (b : RecordBatch) : Z := int64 (baseOffset b).
Definition last_of (b : RecordBatch) : Z := first b + count b - 1.

Definition stored_format (b : RecordBatch) : RecordFormat :=
  Build_RecordFormat (mk8 0) (mk64 (last_of b)) (mk32 (count b)) (mkCompactBytes (batch_bytes b)).

Record stored (e : entry) (b : RecordBatch) : Prop := {
  stored_proper : proper (fun _ => 0) false b;
  stored_first : 0 <= first b;
  stored_count : 1 <= count b;
  stored_last : last_of b < 2 ^ 63;
  stored_payload : e_payload e = runPut (stored_format b);
  stored_key : e_key e = intToCBytesWithPadding (last_of b);
}.

(** The records [es] hold the offsets from [a] up to [n], each one once and in
    order. *)
Inductive log_from (a : Z) : list entry -> Z -> Prop :=
| log_nil : log_from a [] a
| log_snoc es n e b : log_from a es n -> stored e b -> first b = n ->
    log_from a (es ++ [e]) (n + count b).

Lemma log_from_mono a es n : log_from a es n -> a <= n.
Proof. induction 1 as [|es n e b Hl IH Hs Hf]; [lia|]. destruct Hs. lia. Qed.

Lemma proper_any crc1 crc2 b : proper crc1 false b -> proper crc2 false b.
Proof. unfold proper. naive_solver. Qed.

Lemma format_valid e b : stored e b -> valid (stored_format b).
Proof.
  intros [Hp H0 H1 H2 _ _]. pose proof (batch_length (fun _ => 0) b Hp) as Hl.
  destruct Hp as ((_ & Hb & _) & _ & _ & Hc & _). cbn in Hb, Hc.
  change (is_i8 0 /\ is_i64 (last_of b) /\ is_i32 (count b) /\ compact (batch_bytes b)).
  unfold is_i8, is_i64, is_i32, compact, last_of, count in *. split_and!; lia.
Qed.

Lemma stored_read e b : stored e b -> runGet (e_payload e) = Ret (stored_format b).
Proof. intros Hs. rewrite (stored_payload _ _ Hs). by apply runGet_runPut, (format_valid e). Qed.

(** The record that holds an offset; the records before it have smaller keys. *)
Lemma log_from_find a es n o : log_from a es n -> a <= o < n ->
  exists before e after b, es = before ++ e :: after /\ stored e b /\ first b <= o <= last_of b /\
    Forall (fun x => exists b', stored x b' /\ last_of b' < o) before.
Proof.
  induction 1 as [|es n e b Hl IH Hs Hf]; [lia|]. intros Ho. destruct (decide (o < n)) as [Hlt|Hge].
  - destruct IH as (before & e' & after & b' & -> & Hs' & Ho' & Hb); [lia|].
    exists before, e', (after ++ [e]), b'. by rewrite <- app_assoc.
  - exists es, e, [], b. split_and!; [done|done|unfold last_of; lia|unfold last_of; lia|].
    clear -Hl Hge. revert Hge. induction Hl as [|es n' e' b' Hl IH Hs Hf]; intros Hge; [done|].
    apply Forall_app. split; [apply IH; destruct Hs; lia|]. constructor; [|done].
    exists b'. split; [done|]. unfold last_of. lia.
Qed.

Lemma log_from_keys a es n : log_from a es n -> forall m, n <= m ->
  Forall (fun x => exists b, stored x b /\ last_of b < m) es.
Proof.
  induction 1 as [|es n e b Hl IH Hs Hf]; intros m Hm; [done|]. apply Forall_app. split.
  - apply IH. destruct Hs. lia.
  - constructor; [|done]. exists b. split; [done|]. unfold last_of. lia.
Qed.

Lemma stored_last_range e b : stored e b -> 0 <= last_of b < 2 ^ 63.
Proof. intros []. unfold last_of in *. lia. Qed.

Lemma StronglySorted_snoc {A} (R : A -> A -> Prop) l x :
  StronglySorted R l -> Forall (fun y => R y x) l -> StronglySorted R (l ++ [x]).
Proof.
  induction 1 as [|y l Hl IH Hy]; intros Hx; [repeat constructor|].
  apply Forall_cons in Hx as [Hyx Hx]. constructor; [by apply IH|]. apply Forall_app. split; [done|].
  by constructor.
Qed.

Lemma log_from_sorted a es n : log_from a es n ->
  StronglySorted (fun x y => key_leb (e_key x) (e_key y) = true) es.
Proof.
  induction 1 as [|es n e b Hl IH Hs Hf]; [constructor|]. apply StronglySorted_snoc; [done|].
  eapply Forall_impl; [apply (log_from_keys a es n Hl n); lia|]. cbn. intros x (b' & Hs' & Hlt).
  rewrite (stored_key _ _ Hs), (stored_key _ _ Hs'), padding_leb by (by eapply stored_last_range).
  apply Z.leb_le. unfold last_of in *. destruct Hs. lia.
Qed.

Section run_proofs.
Context {St : Type} `{!LogStore St} (crc32c : bytes -> Z).
Implicit Types (m : manager (St := St)) (s : St).

(** The log holds the offsets from [a] to [n], and the cache agrees with it. *)
Definition inv m (logid a n : Z) : Prop :=
  log_from a (entries (store m) logid) n /\ 0 <= a /\
  (forall o, offsets m !! logid = Some o -> o = n - 1) /\
  (offsets m !! logid = None -> entries (store m) logid = [] -> n = 0).

Lemma read_last s logid a n : log_from a (entries s logid) n ->
  (entries s logid = [] /\ (readLastOneRecord s logid = Returned None \/ readLastOneRecord s logid = NotFound)) \/
  (exists e b, last (entries s logid) = Some e /\ stored e b /\ last_of b = n - 1 /\
     readLastOneRecord s logid = Returned (Some (e_lsn e, stored_format b))).
Proof.
  unfold readLastOneRecord. intros Hl.
  destruct (isLogEmpty_exact s logid) as [->|[-> He]]; [|left; by auto].
  inversion Hl as [E|es n' e b Hl' Hs Hf E]; [left; by auto|right].
  assert (He : e ∈ entries s logid) by (rewrite <- E; set_solver).
  assert (Ht : last (entries s logid) = Some e) by (by rewrite <- E, last_snoc).
  exists e, b. rewrite bool_decide_eq_false_2 by (by destruct es). split_and!; [by rewrite last_snoc|done| |].
  - unfold last_of. lia.
  - assert (Hr : forall k, acquire k s logid (e_lsn e) = Returned (e_lsn e, stored_format b)).
    { intros k. destruct k; cbn [acquire]; by rewrite (read_entry _ _ _ He), (stored_read e b Hs). }
    destruct (tail_read s logid e Ht) as [->|[Hg Ha]]; [by rewrite Hr|].
    specialize (Hr O). cbn [acquire] in Hr |- *. by rewrite Hg, Ha, Hr.
Qed.

(** A store whose failed appends store nothing. *)
Definition clean_failures : Prop :=
  forall s l p k s', appendKeyed s l p k = (None, s') -> entries s' l = entries s l.

Lemma append_at_exact logid b c n s : proper (fun _ => 0) false b -> count b = c -> first b = 0 ->
  1 <= c -> 0 <= n -> n + c <= 2 ^ 63 ->
  exists r s' b', append_at logid (batch_bytes b) c (n + c - 1) s = (r, s') /\
    first b' = n /\ count b' = c /\ (r = Returned n \/ r = Died) /\
    ((r = Died /\ entries s' logid = entries s logid) \/
     (exists e, entries s' logid = entries s logid ++ [e] /\ stored e b' /\
        (r = Died -> ~ clean_failures))).
Proof.
  intros Hp Hc Hf H1 H0 Hn. unfold append_at. set (b' := with_baseOffset (fun x => i64 (x + n)) b).
  assert (Hst : i64 (i64 (n + c - 1 + 1) - c) = n) by int_solve. rewrite Hst.
  assert (Hi : is_i64 n) by (unfold is_i64; lia).
  destruct (update_bytes b (fun x => i64 (x + n))) as [-> _];
    [unfold first in Hf; rewrite Hf; unfold is_i64; lia|]. fold b'.
  assert (Hfb : first b' = n).
  { unfold b', first in *. destruct b as [[o]]. cbn in *. rewrite Hf. by apply i64_id. }
  assert (Hcb : count b' = c) by (unfold b', count in *; by destruct b).
  assert (Hfmt : Build_RecordFormat (mk8 0) (mk64 (n + c - 1)) (mk32 c) (mkCompactBytes (batch_bytes b')) =
    stored_format b') by (unfold stored_format, last_of; by rewrite Hfb, Hcb).
  rewrite Hfmt. assert (Hs : forall lsn, stored {| e_lsn := lsn;
    e_key := intToCBytesWithPadding (n + c - 1); e_payload := runPut (stored_format b') |} b').
  { intros lsn. split; cbn; unfold last_of; rewrite ?Hfb, ?Hcb; try done; try lia.
    apply with_baseOffset_proper; [done|apply i64_range]. }
  destruct (appendKeyed s logid _ _) as [[lsn|] s'] eqn:E; eexists _, s', b'; (split_and!; [done..|by auto|]).
  - right. eexists. split_and!; [by eapply appended|done|done].
  - destruct (append_failed _ _ _ _ _ E) as [E'|[lsn E']]; [by left|right]. eexists.
    split_and!; [done|done|]. intros _ Hcl. rewrite (Hcl _ _ _ _ _ E) in E'.
    apply (f_equal length) in E'. rewrite length_app in E'. cbn in E'. lia.
Qed.

(** A batch as producers send it: accepted by the decoder, not empty, with base
    offset 0. *)
Definition sent (v : bool) (bs : bytes) (b : RecordBatch) : Prop :=
  Forall is_byte bs /\ decodeRecordBatch crc32c v bs = Ret b /\ first b = 0 /\ 1 <= count b.

Lemma latest_cached m logid a n : inv m logid a n ->
  (match offsets m !! logid with
   | Some o => Returned o
   | None =>
       match getLatestOffset (store m) logid with
       | Returned mo => Returned (default (-1) mo)
       | NotFound => Returned (-1)
       | r => and_then r (fun _ => Died)
       end
   end) = Returned (n - 1).
Proof.
  intros (Hl & Ha & Hc & He). destruct (offsets m !! logid) as [o|] eqn:E; [by rewrite (Hc o eq_refl)|].
  unfold getLatestOffset, getLatestOffsetWithLsn.
  destruct (read_last _ _ _ _ Hl) as [[Hn [->| ->]]|(e & b & _ & _ & Hb & ->)]; cbn.
  - by rewrite (He eq_refl Hn).
  - by rewrite (He eq_refl Hn).
  - by rewrite Hb.
Qed.

(** One call: it answers the next offset; or it fails and stores nothing; or it
    fails, the record is stored, and the cached offset stays where it was. *)
Definition lost m logid (n : Z) (es : list entry) : Prop :=
  offsets m !! logid = Some (n - 1) /\
  exists e b, entries (store m) logid = es ++ [e] /\ stored e b /\ first b = n.

Lemma append_step v logid bs b m a n : sent v bs b -> n + count b <= 2 ^ 63 -> inv m logid a n ->
  exists r m', appendRecords crc32c v logid bs m = (r, m') /\
    ((r = Returned n /\ inv m' logid a (n + count b)) \/ (r = Died /\ inv m' logid a n) \/
     (r = Died /\ lost m' logid n (entries (store m) logid) /\ ~ clean_failures)).
Proof.
  intros (Hb & Hd & Hf & Hc) Hn Hi. pose proof Hi as (Hl & Ha & Hoff & He).
  pose proof (log_from_mono _ _ _ Hl) as Han. unfold appendRecords. rewrite Hd. fold (count b).
  destruct (decode_inverts crc32c v bs b Hb Hd) as [-> Hp].
  rewrite (proj2 (Z.ltb_ge _ 1)) by done. unfold withOffsetN.
  rewrite (latest_cached _ _ _ _ Hi). replace (i64 (n - 1 + count b)) with (n + count b - 1)
    by (rewrite i64_id; unfold is_i64; lia).
  destruct (append_at_exact logid b (count b) n (store m)) as
    (r & s' & b' & -> & Hfb & Hcb & Hr & Hs); [eapply proper_any, proper_weaken, Hp|done..|lia|lia|].
  destruct Hs as [[-> Hes]|(e & Hes & Hs & Hcl)]; [|destruct Hr as [->| ->]]; eexists _, _; (split; [done|]).
  - right; left. split; [done|]. split_and!; cbn; rewrite ?Hes, ?lookup_insert_eq; [done..| |done].
    by intros o [= <-].
  - left. split; [done|]. split_and!; cbn; rewrite ?Hes, ?lookup_insert_eq; [|done| |done].
    + rewrite <- Hcb. by apply log_snoc.
    + by intros o [= <-].
  - right; right. split_and!; [done| |by apply Hcl]. split; cbn; [by rewrite lookup_insert_eq|]. eauto.
Qed.

(** Calls for one log, one after the other. *)
Fixpoint produce_run (v : bool) (logid : Z) (bss : list bytes) m : list (outcome Z) * manager :=
  match bss with
  | [] => ([], m)
  | bs :: bss =>
      let '(r, m) := appendRecords crc32c v logid bs m in
      let '(rs, m) := produce_run v logid bss m in (r :: rs, m)
  end.

(** The offset after the batches, when each call that returned answered the
    first free offset. *)
Fixpoint answered (n : Z) (bs : list RecordBatch) (rs : list (outcome Z)) : option Z :=
  match bs, rs with
  | [], [] => Some n
  | b :: bs, Returned o :: rs => if o =? n then answered (n + count b) bs rs else None
  | _ :: bs, Died :: rs => answered n bs rs
  | _, _ => None
  end.

Definition total (bs : list RecordBatch) : Z := foldr (fun b t => count b + t) 0 bs.


End run_proofs.

Section fetch_proofs.
Context {St : Type} `{!LogStore St}.

(** C9: A fetch from an offset the log holds starts at the record that holds it,
    found by its key or as the last record; a fetch from the next free offset
    waits after the last record, and one beyond is out of range. *)
Theorem fetch_finds_record (s : St) logid a n o tail :
  log_from a (entries s logid) n -> 0 <= a -> n < 2 ^ 63 -> last (entries s logid) = Some tail ->
  (a <= o < n -> exists e b, e ∈ entries s logid /\ stored e b /\ first b <= o <= last_of b /\
     getPartitionLsn s logid o = Returned (LsnData (e_lsn e) (e_lsn tail) n)) /\
  (o = n -> getPartitionLsn s logid o = Returned (LsnData (u64 (e_lsn tail + 1)) (e_lsn tail) n)) /\
  (n < o -> getPartitionLsn s logid o = Returned OffsetOutOfRange).
Proof.
  intros Hl Ha Hn Ht. pose proof (log_from_mono _ _ _ Hl) as Han.
  unfold getPartitionLsn, getLatestOffsetWithLsn.
  destruct (read_last s logid a n Hl) as [[E _]|(e & b & He & Hs & Hb & ->)];
    [by rewrite E in Ht|]. assert (e = tail) as -> by congruence. cbn. rewrite Hb.
  replace (i64 (n - 1 + 1)) with n by (rewrite i64_id; unfold is_i64; lia).
  split_and!.
  - intros Ho. destruct (log_from_find a _ n o Hl Ho) as (before & e & after & b' & Hes & Hs' & Hob & Hbef).
    destruct (Z.ltb_spec o (n - 1)) as [Hlt|Hge].
    + exists e, b'. split_and!; [rewrite Hes; set_solver|done|lia|lia|].
      pose proof (findKey_hi s logid (intToCBytesWithPadding o) before e after) as Hk.
      destruct (findKey s logid (intToCBytesWithPadding o)) as [lo hi]. cbn in Hk.
      rewrite Hk; [done|by eapply log_from_sorted|done| |].
      * eapply Forall_impl; [exact Hbef|]. intros x (bx & Hsx & Hx). cbn.
        rewrite (stored_key _ _ Hsx), padding_leb by (lia || by eapply stored_last_range).
        apply Z.leb_gt. lia.
      * rewrite (stored_key _ _ Hs'), padding_leb by (lia || by eapply stored_last_range).
        apply Z.leb_le. lia.
    + rewrite (proj2 (Z.eqb_eq _ _)) by lia. exists tail, b.
      split_and!; [by apply last_Some_elem_of|done| |lia|done].
      destruct Hs. unfold last_of in *. lia.
  - intros ->. rewrite (proj2 (Z.ltb_ge _ _)), (proj2 (Z.eqb_neq _ _)), Z.eqb_refl by lia. done.
  - intros Ho. by rewrite (proj2 (Z.ltb_ge _ (n - 1))), !(proj2 (Z.eqb_neq _ _)), (proj2 (Z.ltb_lt n o)) by lia.
Qed.

Lemma log_from_head a es n e : log_from a es n -> list.head es = Some e ->
  exists b, stored e b /\ first b = a.
Proof.
  induction 1 as [|es n x b Hl IH Hs Hf]; [done|]. destruct es as [|y es]; cbn; [|by apply IH].
  intros [= <-]. exists b. split; [done|]. inversion Hl as [|es' ? ? ? ? ? ? E]; [done|].
  by destruct es'.
Qed.

Lemma calOffset_first e b : stored e b -> calOffset (stored_format b) = first b.
Proof.
  intros [Hp H0 Hc Hl _ _]. unfold calOffset. cbn. unfold last_of in *. destruct Hp as (_ & _ & _ & Hn & _).
  change (is_i32 (count b)) in Hn. unfold is_i32 in Hn. int_solve.
Qed.

(** The oldest offset of a log is the first one it holds. *)
Lemma oldest_exact (s : St) logid a n e : log_from a (entries s logid) n ->
  list.head (entries s logid) = Some e -> getOldestOffset s logid = Returned (Some a).
Proof.
  intros Hl He. destruct (log_from_head _ _ _ _ Hl He) as (b & Hs & Hf).
  unfold getOldestOffset, readOneRecordBypassGap.
  destruct (entries s logid) as [|e' after] eqn:Hes; [done|]. cbn in He. injection He as ->.
  destruct (isLogEmpty_exact s logid) as [->|[_ H]]; [|congruence].
  rewrite bool_decide_eq_false_2 by congruence. destruct lsn_bounds as [Hmin Hmax].
  rewrite !(proj2 (Z.eqb_neq _ _)) by done. cbn [orb].
  rewrite (read_oldest _ _ _ _ Hes), (stored_read e b Hs). cbn. by rewrite (calOffset_first e b Hs), Hf.
Qed.

(** A time before which a record of the log is the next: the first offset of its
    batch; a time after the last record: none. *)
Lemma by_timestamp_exact (s : St) logid a n t : log_from a (entries s logid) n -> entries s logid <> [] ->
  (forall e b, e ∈ entries s logid -> stored e b -> findTime s logid t = e_lsn e ->
     e_lsn e <= getTailLSN s logid -> getOffsetByTimestamp s logid t = Returned (Some (first b))) /\
  (getTailLSN s logid < findTime s logid t -> getOffsetByTimestamp s logid t = Returned None).
Proof.
  intros Hl Hne. unfold getOffsetByTimestamp, readOneRecordBypassGap.
  destruct (isLogEmpty_exact s logid) as [->|[_ H]]; [|congruence].
  rewrite bool_decide_eq_false_2 by done. split.
  - intros e b He Hs -> Hle. rewrite (proj2 (Z.ltb_ge _ _)) by done.
    rewrite (proj2 (Z.eqb_neq _ _)) by (by eapply lsn_valid).
    rewrite (proj2 (Z.eqb_neq _ _)) by (by apply tail_valid). cbn [orb].
    rewrite (read_from _ _ _ He), (stored_read e b Hs). cbn. by rewrite (calOffset_first e b Hs).
  - intros Hlt. rewrite (proj2 (Z.ltb_lt _ _)) by done. by rewrite Z.eqb_refl.
Qed.
End fetch_proofs.

(** ** Proofs: sparse offsets *)

Lemma lor_le a b : 0 <= a -> 0 <= b -> 0 <= Z.lor a b <= a + b.
Proof.
  intros Ha Hb. pose proof (Z.add_lor_land a b). pose proof (proj2 (Z.lor_nonneg a b) (conj Ha Hb)).
  pose proof (proj2 (Z.land_nonneg a b) (or_introl Ha)). lia.
Qed.

Definition epoch_of (lsn : Z) : Z := lsn / 2 ^ 32.
Definition esn_of (lsn : Z) : Z := lsn mod 2 ^ 32.

(** An offset holds the epoch at 20 bits above the sequence number, not 32. *)
Lemma compose_exact lsn idx : 0 <= lsn < 2 ^ 39 -> 0 <= idx < 2 ^ 24 ->
  exists o, composeSparseOffset lsn idx = Some o /\ 0 <= o < 2 ^ 63 /\
    o = Z.lor (epoch_of lsn * 2 ^ 20) (esn_of lsn) * 2 ^ 24 + idx.
Proof.
  intros Hl Hi. unfold composeSparseOffset. rewrite Z.shiftr_div_pow2 by lia.
  change 0xffffffff with (Z.ones 32). rewrite Z.land_ones by lia. fold (epoch_of lsn) (esn_of lsn).
  assert (He : 0 <= epoch_of lsn < 2 ^ 7).
  { unfold epoch_of. split; [apply Z.div_pos; lia|apply Z.div_lt_upper_bound; lia]. }
  assert (Hs : 0 <= esn_of lsn < 2 ^ 32) by (apply Z.mod_pos_bound; lia).
  rewrite !(proj2 (Z.ltb_ge _ _)) by lia. cbn [orb]. rewrite !Z.shiftl_mul_pow2 by lia.
  rewrite !u64_id by (unfold is_u64; lia).
  replace (epoch_of lsn * 2 ^ 44) with ((epoch_of lsn * 2 ^ 20) * 2 ^ 24) by lia.
  rewrite <- !Z.shiftl_mul_pow2, <- Z.shiftl_lor by lia. rewrite !Z.shiftl_mul_pow2 by lia.
  pose proof (lor_le (epoch_of lsn * 2 ^ 20) (esn_of lsn) ltac:(lia) ltac:(lia)).
  rewrite (lor_disjoint 24) by (lia || apply Z.mod_mul; lia).
  eexists. split; [done|]. rewrite i64_id by (unfold is_i64; lia). lia.
Qed.

Lemma sparse_back lsn idx o : 0 <= lsn < 2 ^ 39 -> 0 <= idx < 2 ^ 24 ->
  composeSparseOffset lsn idx = Some o ->
  sparseOffsetToLsn o = Z.lor (epoch_of lsn * 2 ^ 20) (esn_of lsn).
Proof.
  intros Hl Hi Ho. destruct (compose_exact lsn idx Hl Hi) as (o' & E & Hr & Ho').
  assert (o' = o) as <- by congruence. unfold sparseOffsetToLsn. rewrite Z.shiftr_div_pow2 by lia.
  rewrite u64_id by (unfold is_u64; split; [apply Z.div_pos; lia|apply Z.div_lt_upper_bound; lia]).
  rewrite Ho', Z.div_add_l, Z.div_small by lia. lia.
Qed.

(** The LSN of a sparse offset is read back from it exactly when the LSN has
    epoch 0; for every other LSN, a smaller one is read. *)
Theorem sparse_offset_roundtrip lsn idx : 0 <= lsn < 2 ^ 39 -> 0 <= idx < 2 ^ 24 ->
  exists o, composeSparseOffset lsn idx = Some o /\ 0 <= o < 2 ^ 63 /\
    (lsn < 2 ^ 32 -> sparseOffsetToLsn o = lsn) /\
    (2 ^ 32 <= lsn -> sparseOffsetToLsn o < lsn).
Proof.
  intros Hl Hi. destruct (compose_exact lsn idx Hl Hi) as (o & E & Hr & _). exists o.
  rewrite (sparse_back lsn idx o) by done. split_and!; [done|lia|lia| |].
  - intros H. unfold epoch_of, esn_of. by rewrite Z.div_small, Z.mod_small by lia.
  - intros H. pose proof (Z.div_mod lsn (2 ^ 32) ltac:(lia)) as Hd. fold (epoch_of lsn) (esn_of lsn) in Hd.
    assert (1 <= epoch_of lsn) by (apply Z.div_le_lower_bound; lia).
    assert (0 <= esn_of lsn < 2 ^ 32) by (apply Z.mod_pos_bound; lia).
    pose proof (lor_le (epoch_of lsn * 2 ^ 20) (esn_of lsn) ltac:(lia) ltac:(lia)). lia.
Qed.

(** Two records of different epochs get the same offset. *)
Lemma sparse_offset_collision :
  composeSparseOffset (2 ^ 32) 0 = composeSparseOffset (2 ^ 20) 0 /\
  composeSparseOffset (2 ^ 32) 0 = Some (2 ^ 44).
Proof. done. Qed.

(** ** An example: a store in memory *)

Module KafkaOffsetsWitness.
Import KafkaBatchesWitness.

(** The keys and payloads of the logs, and the number of appends that succeed
    before one fails; [leave] says whether that one leaves its record. *)
Record memory (leave : bool) := { logs : Z -> list (bytes * bytes); budget : nat }.
Arguments logs {leave}.
Arguments budget {leave}.

Definition numbered (i : nat) (x : bytes * bytes) : entry :=
  {| e_lsn := Z.of_nat i + 1; e_key := x.1; e_payload := x.2 |}.

Lemma numbered_snoc l x : imap numbered (l ++ [x]) = imap numbered l ++ [numbered (length l) x].
Proof. rewrite imap_app. cbn. by rewrite Nat.add_0_r. Qed.

Lemma numbered_in l e : e ∈ imap numbered l ->
  exists i x, l !! i = Some x /\ e = numbered i x.
Proof.
  intros [i Hi]%list_elem_of_lookup. rewrite list_lookup_imap in Hi.
  destruct (l !! i) as [x|] eqn:E; [|done]. exists i, x. by injection Hi as <-.
Qed.

Section memory.
Context (leave : bool).
Implicit Types m : memory leave.

Definition put_entry m (l : Z) (x : bytes * bytes) (k : nat) : memory leave :=
  {| logs := fun l' => if l' =? l then logs m l ++ [x] else logs m l'; budget := k |}.

Definition memory_append m (l : Z) (p k : bytes) : option Z * memory leave :=
  match budget m with
  | S b => (Some (Z.of_nat (length (logs m l)) + 1), put_entry m l (k, p) b)
  | O => (None, if leave then put_entry m l (k, p) 5 else {| logs := logs m; budget := 5 |})
  end.

Definition memory_entries m (l : Z) : list entry := imap numbered (logs m l).

Definition memory_find m (l : Z) (k : bytes) : Z * Z :=
  (0, from_option e_lsn 0 (head (filter (fun e => key_leb k (e_key e) = true) (memory_entries m l)))).

Definition memory_read m (l lsn : Z) : read_result :=
  if lsn <=? 0 then GotOther
  else match logs m l !! Z.to_nat (lsn - 1) with Some x => GotRecord x.2 | None => GotOther end.

Definition memory_reader m (l : Z) (lsns : Z * Z) : list bytes :=
  match memory_read m l lsns.1 with GotRecord p => [p] | _ => [] end.

Definition memory_tail m (l : Z) : Z := Z.of_nat (length (logs m l)).

Lemma if_both (P : memory leave -> Prop) (x : bool) a b : P a -> P b -> P (if x then a else b).
Proof. by destruct x. Qed.

Lemma memory_read_entry m l e : e ∈ memory_entries m l -> memory_read m l (e_lsn e) = GotRecord (e_payload e).
Proof.
  intros (i & x & Hi & ->)%numbered_in. unfold memory_read. cbn.
  rewrite (proj2 (Z.leb_gt _ _)) by lia. replace (Z.to_nat (Z.of_nat i + 1 - 1)) with i by lia. by rewrite Hi.
Qed.

Lemma memory_find_hi m l k before e after : memory_entries m l = before ++ e :: after ->
  Forall (fun x => key_leb k (e_key x) = false) before -> key_leb k (e_key e) = true ->
  (memory_find m l k).2 = e_lsn e.
Proof.
  intros Hes Hb He. unfold memory_find. cbn. rewrite Hes, filter_app.
  replace (filter _ before) with (@nil entry); [cbn; by rewrite decide_True|].
  symmetry. clear Hes. induction Hb as [|x before Hx Hb IH]; [done|].
  rewrite filter_cons_False; [done|congruence].
Qed.

#[export] Instance memory_store : LogStore (memory leave).
Proof.
  refine {| LSN_MIN := 1; LSN_MAX := 2 ^ 64 - 2; LSN_INVALID := 0; entries := memory_entries;
            isLogEmpty := fun m l => Some (bool_decide (memory_entries m l = []));
            getTailLSN := memory_tail; getLogTailAttrsLSN := memory_tail;
            readAllowGap := memory_read; readerRead := memory_reader;
            appendKeyed := memory_append; findKey := memory_find; findTime := fun _ _ t => t |}.
  - done.
  - intros s l e (i & x & _ & ->)%numbered_in. cbn. lia.
  - auto.
  - apply memory_read_entry.
  - intros s l e. unfold memory_entries, memory_tail. destruct (logs s l) as [|x xs _] using rev_ind; [done|].
    rewrite numbered_snoc, last_snoc, length_app. intros [= <-]. left. cbn. lia.
  - intros s l Hne. unfold memory_entries, memory_tail in *. destruct (logs s l); [done|]. cbn. lia.
  - intros s l e after Hes. unfold memory_reader, memory_entries, memory_read in *.
    destruct (logs s l) as [|x xs] eqn:E; [done|]. cbn in Hes |- *. by injection Hes as <- _.
  - intros s l e He. unfold memory_reader. cbn [fst]. by rewrite memory_read_entry.
  - intros s l p k lsn s'. unfold memory_append, memory_entries. destruct (budget s); intros [= <- <-].
    cbn. by rewrite Z.eqb_refl, numbered_snoc.
  - intros s l p k r s' l' E Hl. apply Z.eqb_neq in Hl. unfold memory_append in E.
    unfold memory_entries. destruct (budget s); injection E as <- <-; cbn; [|by rewrite Hl].
    apply (if_both (fun m => imap _ (logs m l') = _)); cbn; by rewrite ?Hl.
  - intros s l p k s'. unfold memory_append, memory_entries. destruct (budget s); [|done]. intros [= <-].
    apply (if_both (fun m => imap _ (logs m l) = _ \/ exists lsn, imap _ (logs m l) = _ ++ [Build_entry lsn _ _]));
      [right|by left]. cbn. rewrite Z.eqb_refl, numbered_snoc. by eexists.
  - intros s l k before e after _. apply memory_find_hi.
Defined.

Definition empty_store (k : nat) : manager :=
  {| offsets := ∅; store := {| logs := fun _ => []; budget := k |} : memory leave |}.
End memory.

Lemma sample_sent : sent sum_crc true (batch_bytes sample) sample.
Proof. split_and!; [by apply is_bytes_dec|by vm_compute|done|done]. Qed.



Lemma offsets_run_inv : exists m',
  (produce_run sum_crc true 7 (replicate 2 (batch_bytes sample)) (empty_store false 9)).2 = m' /\
  log_from 0 (entries (store m') 7) 4.
Proof.
  destruct (append_step (St := memory false) sum_crc true 7 (batch_bytes sample) sample (empty_store false 9) 0 0)
    as (r & m & E & Hm); [apply sample_sent|done|split_and!; [constructor|done|done|done]|].
  assert (Hr : r = Returned 0) by (vm_compute in E; congruence). subst r.
  destruct Hm as [[_ Hi]|[[? _]|[? _]]]; [|done|done].
  destruct (append_step (St := memory false) sum_crc true 7 (batch_bytes sample) sample m 0 2)
    as (r & m' & E' & Hm); [apply sample_sent|done|exact Hi|].
  assert (Hr : r = Returned 2) by (vm_compute in E; injection E as <-; vm_compute in E'; congruence).
  subst r. destruct Hm as [[_ Hi']|[[? _]|[? _]]]; [|done|done].
  exists m'. split; [|apply Hi']. cbn [replicate produce_run]. by rewrite E, E'.
Qed.

(** Reading offset 3 of the log that was written finds the second record. *)
Lemma fetch_finds_record_witness :
  exists m' e b, (produce_run sum_crc true 7 (replicate 2 (batch_bytes sample)) (empty_store false 9)).2 = m' /\
    stored e b /\ first b <= 3 <= last_of b /\ getPartitionLsn (store m') 7 3 = Returned (LsnData (e_lsn e) 2 4).
Proof.
  destruct (offsets_run_inv) as (m' & E & Hl). destruct (last (entries (store m') 7)) as [tail|] eqn:Ht; [|subst m'; vm_compute in Ht; done].
  destruct (fetch_finds_record (St := memory false) (store m') 7 0 4 3 tail) as [H _];
    [exact Hl|done|done|exact Ht|].
  destruct H as (e & b & He & Hs & Hb & HR); [done|]. exists m', e, b.
  split_and!; [exact E|exact Hs|lia|lia|]. rewrite HR. do 2 f_equal.
  subst m'. vm_compute in Ht. by injection Ht as <-.
Defined.

Lemma sparse_offset_roundtrip_witness :
  exists o, composeSparseOffset 1234 5 = Some o /\ sparseOffsetToLsn o = 1234.
Proof.
  destruct (sparse_offset_roundtrip 1234 5) as (o & E & _ & H & _); [done|done|].
  exists o. split; [exact E|]. by apply H.
Defined.
End KafkaOffsetsWitness.
End KafkaOffsets.
