(* ===== verification/Handles.v ===== *)
(** * Handles of LogDevice objects
      (src/hstream-store/include/hs_logdevice.h, cbits/hs_logdevice.cpp,
      cbits/logdevice/hs_reader.cpp, hs_checkpoint.cpp, hs_versioned_config_store.cpp
      and ld_health_checker.cpp; HStream/Store/Stream.hs)

    Haskell holds pointers to small C++ structs whose member [rep] is a smart
    pointer to an object of LogDevice. This file models their creation, the moves
    from one to the other and their deletion by the finalizers of Haskell, with
    the reference counts of the objects. *)

From stdpp Require Import base gmap list strings.
From Stdlib Require Import ZArith Lia.
From S2P Require Import Prelude.

Module Handles.

(** ** The heap *)

Inductive kind := KClient | KReader | KStore | KSyncReader | KVcs | KChecker.

#[global] Instance kind_eq_dec : EqDecision kind.
Proof. solve_decision. Defined.

(** A struct such as [logdevice_reader_t]; [rep] is null after a move. *)
Record handle := { h_kind : kind; rep : option Z }.

(** An object of LogDevice: the smart pointers it was given, and the objects it
    refers to by a plain pointer. *)
Record object := { o_kind : kind; owns : list (option Z); uses : list Z }.

Record heap := { handles : gmap Z handle; objs : gmap Z object; next : Z }.

Definition empty_heap : heap := {| handles := ∅; objs := ∅; next := 0 |}.

(** All smart pointers that are not null. *)
Definition handle_ptrs (m : gmap Z handle) : list Z :=
  map_to_list m ≫= (fun x => option_list (rep x.2)).
Definition object_ptrs (m : gmap Z object) : list Z :=
  map_to_list m ≫= (fun x => omap id (owns x.2)).
Definition pointers (h : heap) : list Z := handle_ptrs (handles h) ++ object_ptrs (objs h).

Definition children (b : object) : list Z := omap id (owns b).

(** A pointer to each object of [todo] is gone: an object without a pointer is
    destroyed, and with it the pointers it holds. *)
Fixpoint release (fuel : nat) (todo : list Z) (h : heap) : heap :=
  match fuel, todo with
  | S fuel, o :: todo =>
      match objs h !! o with
      | Some b =>
          if bool_decide (o ∈ pointers h) then release fuel todo h
          else release fuel (children b ++ todo)
                 {| handles := handles h; objs := delete o (objs h); next := next h |}
      | None => release fuel todo h
      end
  | _, _ => h
  end.

Definition release_all (todo : list Z) (h : heap) : heap :=
  release (length todo + length (object_ptrs (objs h))) todo h.

(** What a call does. *)
Inductive result (A : Type) :=
| Val (a : A)
| Exits
| Throws (what : string)
| Undefined.
Arguments Val {A}.
Arguments Exits {A}.
Arguments Throws {A}.
Arguments Undefined {A}.

Definition and_then {A B} (r : result A) (f : A -> result B) : result B :=
  match r with
  | Val a => f a
  | Exits => Exits
  | Throws w => Throws w
  | Undefined => Undefined
  end.
Notation "' p <~ r ;; f" := (and_then r (fun p => f))
  (at level 100, p strict pattern, r at next level, f at level 200, right associativity).
Notation "x <~ r ;; f" := (and_then r (fun x => f))
  (at level 100, r at next level, f at level 200, right associativity).

(** The handle [x], of kind [k]. *)
Definition handle_of (k : kind) (x : Z) (h : heap) : result handle :=
  match handles h !! x with
  | Some w => if bool_decide (h_kind w = k) then Val w else Undefined
  | None => Undefined
  end.

(** [x->rep->...]. *)
Definition deref (k : kind) (x : Z) (h : heap) : result Z :=
  w <~ handle_of k x h;;
  match rep w with Some o => Val o | None => Undefined end.

(** A new object, and a new struct that holds it. *)
Definition new_object (b : object) (h : heap) : Z * heap :=
  (next h, {| handles := handles h; objs := <[next h := b]> (objs h); next := next h + 1 |}).
Definition new_handle (w : handle) (h : heap) : Z * heap :=
  (next h, {| handles := <[next h := w]> (handles h); objs := objs h; next := next h + 1 |}).
Definition wrap (b : object) (h : heap) : Z * heap :=
  let '(o, h) := new_object b h in new_handle {| h_kind := o_kind b; rep := Some o |} h.

Definition plain (k : kind) : object := {| o_kind := k; owns := []; uses := [] |}.

(** [delete p]. *)
Definition free (k : kind) (x : Z) (h : heap) : result heap :=
  w <~ handle_of k x h;;
  Val (release_all (option_list (rep w))
         {| handles := delete x (handles h); objs := objs h; next := next h |}).

(** ** The functions *)

(** [created]: what [ClientFactory::create] returned is not null; otherwise [err]
    is returned. *)
Definition new_logdevice_client (created : bool) (h : heap) : result (option Z * heap) :=
  if created then let '(x, h) := wrap (plain KClient) h in Val (Some x, h) else Val (None, h).
Definition free_logdevice_client : Z -> heap -> result heap := free KClient.

Definition new_logdevice_reader (client : Z) (created : bool) (h : heap) : result (Z * heap) :=
  _ <~ deref KClient client h;;
  if created then Val (wrap (plain KReader) h) else Exits.
Definition free_logdevice_reader : Z -> heap -> result heap := free KReader.

Definition new_file_based_checkpoint_store (h : heap) : result (Z * heap) := Val (wrap (plain KStore) h).

(** The client is passed as a shared pointer, which is copied. *)
Definition new_rsm_based_checkpoint_store (client : Z) (h : heap) : result (Z * heap) :=
  w <~ handle_of KClient client h;;
  Val (wrap {| o_kind := KStore; owns := [rep w]; uses := [] |} h).

Definition new_zookeeper_based_checkpoint_store (client : Z) (h : heap) : result (Z * heap) :=
  Throws "There is no zk based checkpoint store.".

Definition free_checkpoint_store : Z -> heap -> result heap := free KStore.

(** [std::move]: the smart pointer is null afterwards. *)
Definition move_rep (x : Z) (w : handle) (h : heap) : heap :=
  {| handles := <[x := {| h_kind := h_kind w; rep := None |}]> (handles h);
     objs := objs h; next := next h |}.

(** [shared]: HSTREAM_USE_SHARED_CHECKPOINT_STORE is defined; then the pointer to
    the store is copied, otherwise moved. *)
Definition new_sync_checkpointed_reader (shared : bool) (reader store : Z) (h : heap)
    : result (Z * heap) :=
  r <~ handle_of KReader reader h;;
  s <~ handle_of KStore store h;;
  let h := move_rep reader r h in
  let h := if shared then h else move_rep store s h in
  Val (wrap {| o_kind := KSyncReader; owns := [rep r; rep s]; uses := [] |} h).
Definition free_sync_checkpointed_reader : Z -> heap -> result heap := free KSyncReader.

(** The store gets the address of the client's processor. *)
Definition new_rsm_based_vcs (client : Z) (h : heap) : result (Z * heap) :=
  o <~ deref KClient client h;;
  Val (wrap {| o_kind := KVcs; owns := []; uses := [o] |} h).
Definition free_logdevice_vcs : Z -> heap -> result heap := free KVcs.

Definition new_ld_checker (client : Z) (h : heap) : result (Z * heap) :=
  w <~ handle_of KClient client h;;
  Val (wrap {| o_kind := KChecker; owns := [rep w]; uses := [] |} h).
Definition delete_ld_checker : Z -> heap -> result heap := free KChecker.

(** ** The Haskell functions that combine them *)

(** They return the handle of the checkpointed reader; those of the reader and
    the store are left to their finalizers. *)
Definition newLDSyncCkpReader := new_sync_checkpointed_reader.

Definition newLDFileCkpReader (shared : bool) (client : Z) (created : bool) (h : heap)
    : result (Z * Z * Z * heap) :=
  '(store, h) <~ new_file_based_checkpoint_store h;;
  '(reader, h) <~ new_logdevice_reader client created h;;
  '(ckp, h) <~ newLDSyncCkpReader shared reader store h;;
  Val (store, reader, ckp, h).

Definition newLDRsmCkpReader (shared : bool) (client : Z) (created : bool) (h : heap)
    : result (Z * Z * Z * heap) :=
  '(store, h) <~ new_rsm_based_checkpoint_store client h;;
  '(reader, h) <~ new_logdevice_reader client created h;;
  '(ckp, h) <~ newLDSyncCkpReader shared reader store h;;
  Val (store, reader, ckp, h).

Definition newLDRsmCkpReader' (shared : bool) (client store : Z) (created : bool) (h : heap)
    : result (Z * Z * heap) :=
  '(reader, h) <~ new_logdevice_reader client created h;;
  '(ckp, h) <~ newLDSyncCkpReader shared reader store h;;
  Val (reader, ckp, h).

(** One call or finalizer. *)
Inductive op :=
| NewClient (created : bool)
| NewReader (client : Z) (created : bool)
| NewFileStore
| NewRsmStore (client : Z)
| NewSyncReader (reader store : Z)
| NewVcs (client : Z)
| NewChecker (client : Z)
| Free (k : kind) (x : Z).

Definition exec (shared : bool) (o : op) (h : heap) : result heap :=
  match o with
  | NewClient c => '(_, h) <~ new_logdevice_client c h;; Val h
  | NewReader x c => '(_, h) <~ new_logdevice_reader x c h;; Val h
  | NewFileStore => '(_, h) <~ new_file_based_checkpoint_store h;; Val h
  | NewRsmStore x => '(_, h) <~ new_rsm_based_checkpoint_store x h;; Val h
  | NewSyncReader r s => '(_, h) <~ new_sync_checkpointed_reader shared r s h;; Val h
  | NewVcs x => '(_, h) <~ new_rsm_based_vcs x h;; Val h
  | NewChecker x => '(_, h) <~ new_ld_checker x h;; Val h
  | Free k x => free k x h
  end.

Fixpoint run (shared : bool) (os : list op) (h : heap) : result heap :=
  match os with
  | [] => Val h
  | o :: os => h <~ exec shared o h;; run shared os h
  end.

(** ** Proofs *)

(** How often an object is pointed to. *)
Definition occ (o : Z) (l : list Z) : nat := length (filter (fun x => x = o) l).

Lemma occ_app o l k : occ o (l ++ k) = (occ o l + occ o k)%nat.
Proof. unfold occ. by rewrite filter_app, length_app. Qed.
#[global] Instance occ_perm o : Proper ((≡ₚ) ==> (=)) (occ o).
Proof. intros l k H. unfold occ. by rewrite H. Qed.
Lemma occ_pos o l : (0 < occ o l)%nat <-> o ∈ l.
Proof.
  unfold occ. split.
  - intros H. destruct (filter (fun x => x = o) l) as [|x k] eqn:E; [cbn in H; lia|].
    assert (x ∈ filter (fun x => x = o) l) as [-> ?]%list_elem_of_filter by (rewrite E; set_solver). done.
  - intros H. destruct (filter (fun x => x = o) l) as [|x k] eqn:E; cbn; [|lia].
    assert (o ∈ filter (fun x => x = o) l) by (by apply list_elem_of_filter). rewrite E in *. set_solver.
Qed.
Lemma occ_0 o l : o ∉ l -> occ o l = 0%nat.
Proof. intros H. destruct (occ o l) eqn:E; [done|]. destruct H. apply occ_pos. lia. Qed.

Lemma handle_ptrs_insert m x w :
  handle_ptrs (<[x := w]> m) ≡ₚ option_list (rep w) ++ handle_ptrs (delete x m).
Proof.
  unfold handle_ptrs. rewrite <- insert_delete_eq, map_to_list_insert by apply lookup_delete_eq.
  by rewrite bind_cons.
Qed.
Lemma handle_ptrs_delete m x w : m !! x = Some w ->
  handle_ptrs m ≡ₚ option_list (rep w) ++ handle_ptrs (delete x m).
Proof. intros H. rewrite <- (insert_id m x w) at 1 by done. apply handle_ptrs_insert. Qed.
Lemma object_ptrs_insert m o b : m !! o = None ->
  object_ptrs (<[o := b]> m) ≡ₚ children b ++ object_ptrs m.
Proof. intros H. unfold object_ptrs. rewrite map_to_list_insert by done. by rewrite bind_cons. Qed.
Lemma object_ptrs_delete m o b : m !! o = Some b ->
  object_ptrs m ≡ₚ children b ++ object_ptrs (delete o m).
Proof.
  intros H. rewrite <- (insert_delete_id m o b) at 1 by done.
  by rewrite object_ptrs_insert by apply lookup_delete_eq.
Qed.

(** The objects with a single owner. *)
Definition sole (shared : bool) (k : kind) : bool :=
  match k with KClient => false | KStore => negb shared | _ => true end.

Section invariant.
Context (shared : bool).

(** Smart pointers point to objects; objects have a pointer, or are about to be
    looked at; those with a single owner have one; objects own older ones. *)
Record sound (todo : list Z) (h : heap) : Prop := {
  sound_closed : forall o, o ∈ pointers h -> is_Some (objs h !! o);
  sound_kept : forall o, is_Some (objs h !! o) -> o ∈ pointers h \/ o ∈ todo;
  sound_sole : forall o b, objs h !! o = Some b -> sole shared (o_kind b) = true ->
    (occ o (pointers h) <= 1)%nat;
  sound_older : forall o b c, objs h !! o = Some b -> c ∈ children b -> c < o;
  sound_fresh : forall o, is_Some (objs h !! o) \/ is_Some (handles h !! o) -> o < next h;
  sound_kinds : forall x w o, handles h !! x = Some w -> rep w = Some o ->
    exists b, objs h !! o = Some b /\ o_kind b = h_kind w;
}.

Lemma release_sound fuel : forall todo h, sound todo h ->
  (length todo + length (object_ptrs (objs h)) <= fuel)%nat -> sound [] (release fuel todo h).
Proof.
  induction fuel as [|fuel IH]; intros [|o todo] h Hs Hf; cbn [release]; try done; [cbn in Hf; lia|].
  destruct (objs h !! o) as [b|] eqn:Ho; [case_bool_decide as Hp|]; apply IH.
  - destruct Hs as [H1 H2 H3 H4 H5 H6]. split; try done. intros x Hx. destruct (H2 x Hx); set_solver.
  - cbn in Hf. lia.
  - pose proof (object_ptrs_delete _ _ _ Ho) as Hperm.
    assert (Hin : forall x, x ∈ pointers h <-> x ∈ children b \/
      x ∈ pointers {| handles := handles h; objs := delete o (objs h); next := next h |}).
    { intros x. unfold pointers. cbn. rewrite Hperm. set_solver. }
    assert (Hocc : forall x, (occ x (pointers {| handles := handles h; objs := delete o (objs h); next := next h |})
      <= occ x (pointers h))%nat).
    { intros x. unfold pointers. cbn. rewrite Hperm, !occ_app. lia. }
    destruct Hs as [H1 H2 H3 H4 H5 H6]. split; cbn [objs handles next].
    + intros x Hx. assert (x <> o) by (intros ->; apply Hp, Hin; auto).
      rewrite lookup_delete_ne by done. apply H1, Hin. auto.
    + intros x Hx. apply lookup_delete_is_Some in Hx as [Hne Hx].
      destruct (H2 x Hx) as [Hx'|Hx']; [apply Hin in Hx'|]; set_solver.
    + intros x b' [Hne Hx]%lookup_delete_Some Hk. specialize (H3 x b' Hx Hk). specialize (Hocc x). lia.
    + intros x b' c [Hne Hx]%lookup_delete_Some. by apply H4.
    + intros x [[Hne Hx]%lookup_delete_is_Some|Hx]; apply H5; auto.
    + intros x w y Hx Hw. destruct (H6 x w y Hx Hw) as (b' & Hb' & Hk). exists b'. split; [|done].
      apply lookup_delete_Some. split; [|done]. intros ->. apply Hp, Hin. right.
      unfold pointers. cbn. apply elem_of_app. left. rewrite (handle_ptrs_delete _ _ _ Hx), Hw. set_solver.
  - cbn [objs]. rewrite (object_ptrs_delete _ _ _ Ho) in Hf. rewrite length_app in Hf |- *. cbn in Hf. lia.
  - destruct Hs as [H1 H2 H3 H4 H5 H6]. split; try done. intros x Hx. destruct (H2 x Hx) as [?|[->|?]%elem_of_cons]; auto.
    rewrite Ho in Hx. by destruct Hx.
  - cbn in Hf. lia.
Qed.

Lemma handle_live todo h x w o : sound todo h -> handles h !! x = Some w -> rep w = Some o ->
  o ∈ pointers h /\ is_Some (objs h !! o).
Proof.
  intros Hs Hx Hw. assert (o ∈ pointers h); [|split; [done|by eapply sound_closed]].
  unfold pointers. apply elem_of_app. left. rewrite (handle_ptrs_delete _ _ _ Hx), Hw. set_solver.
Qed.

Lemma free_sound k x h h' : sound [] h -> free k x h = Val h' -> sound [] h'.
Proof.
  unfold free, handle_of. intros Hs. destruct (handles h !! x) as [w|] eqn:Hx; [|done].
  case_bool_decide; [|done]. cbn. intros [= <-]. apply release_sound; [|done].
  pose proof (handle_ptrs_delete _ _ _ Hx) as Hperm.
  assert (Hin : forall o, o ∈ pointers h <-> o ∈ option_list (rep w) \/
    o ∈ pointers {| handles := delete x (handles h); objs := objs h; next := next h |}).
  { intros o. unfold pointers. cbn. rewrite Hperm. set_solver. }
  destruct Hs as [H1 H2 H3 H4 H5 H6]. split; cbn [objs handles next]; try done.
  - intros o Ho. apply H1, Hin. auto.
  - intros o Ho. destruct (H2 o Ho) as [[?|?]%Hin|?]; set_solver.
  - intros o b Ho Hk. specialize (H3 o b Ho Hk). unfold pointers in *. cbn.
    rewrite Hperm, !occ_app in H3. rewrite !occ_app. lia.
  - intros o [?|[_ ?]%lookup_delete_is_Some]; apply H5; auto.
  - intros y w' o [_ Hy]%lookup_delete_Some. by apply (H6 y).
Qed.

(** The pointers after a move. *)
Lemma move_pointers x w h : handles h !! x = Some w ->
  pointers h ≡ₚ option_list (rep w) ++ pointers (move_rep x w h).
Proof.
  intros Hx. unfold pointers, move_rep. cbn. rewrite (handle_ptrs_delete _ _ _ Hx), handle_ptrs_insert. cbn.
  by rewrite app_assoc.
Qed.

Lemma move_sound todo x w h : sound todo h -> handles h !! x = Some w ->
  sound (option_list (rep w) ++ todo) (move_rep x w h).
Proof.
  intros [H1 H2 H3 H4 H5 H6] Hx. pose proof (move_pointers x w h Hx) as Hperm.
  split; cbn [objs handles next move_rep]; try done.
  - intros o Ho. apply H1. rewrite Hperm. set_solver.
  - intros o Ho. specialize (H2 o Ho). rewrite Hperm in H2. set_solver.
  - intros o b Ho Hk. specialize (H3 o b Ho Hk). rewrite Hperm, occ_app in H3. lia.
  - intros o [?|Ho]; apply H5; [auto|]. right. destruct (decide (o = x)) as [->|]; [by rewrite Hx|].
    by rewrite lookup_insert_ne in Ho.
  - intros y w' o [[<- <-]|[_ Hy]]%lookup_insert_Some; [done|]. by apply (H6 y).
Qed.

Lemma wrap_sound todo b h : sound todo h -> todo ⊆ children b ->
  (forall c, c ∈ children b -> is_Some (objs h !! c)) ->
  (forall c b', objs h !! c = Some b' -> sole shared (o_kind b') = true ->
     (occ c (children b) + occ c (pointers h) <= 1)%nat) ->
  sound [] (wrap b h).2.
Proof.
  intros [H1 H2 H3 H4 H5 H6] Htodo Hlive Hsole. set (n := next h).
  assert (Hn : objs h !! n = None).
  { destruct (objs h !! n) eqn:E; [|done]. specialize (H5 n (or_introl (ex_intro _ _ E))). unfold n in H5. lia. }
  assert (Hn' : handles h !! (n + 1) = None).
  { destruct (handles h !! (n + 1)) eqn:E; [|done].
    specialize (H5 (n + 1) (or_intror (ex_intro _ _ E))). unfold n in H5. lia. }
  assert (Hperm : pointers (wrap b h).2 ≡ₚ n :: children b ++ pointers h).
  { unfold wrap, pointers. cbn. fold n. rewrite handle_ptrs_insert, object_ptrs_insert, delete_id by done.
    cbn. rewrite (Permutation_app_comm (children b) (handle_ptrs _ ++ _)), <- app_assoc.
    by rewrite (Permutation_app_comm (children b)). }
  split; unfold wrap in *; cbn in *; fold n in Hperm |- *.
  - intros o Ho. rewrite Hperm in Ho. apply elem_of_cons in Ho as [->|[Ho|Ho]%elem_of_app].
    + by rewrite lookup_insert_eq.
    + destruct (Hlive o Ho) as [b' Hb']. rewrite lookup_insert_ne by congruence. done.
    + destruct (H1 o Ho) as [b' Hb']. rewrite lookup_insert_ne by congruence. done.
  - intros o Ho. left. rewrite Hperm. destruct (decide (o = n)) as [->|Hne]; [set_solver|].
    rewrite lookup_insert_ne in Ho by done. destruct (H2 o Ho); set_solver.
  - intros o b' Ho Hk. rewrite Hperm. change (n :: children b ++ pointers h) with ([n] ++ (children b ++ pointers h)).
    rewrite !occ_app. apply lookup_insert_Some in Ho as [[<- <-]|[Hne Ho]].
    + rewrite (occ_0 n (children b)), (occ_0 n (pointers h)); [unfold occ; cbn; by rewrite decide_True| |].
      * intros Hc%H1. rewrite Hn in Hc. by destruct Hc.
      * intros Hc%Hlive. rewrite Hn in Hc. by destruct Hc.
    + specialize (Hsole o b' Ho Hk). rewrite (occ_0 o [n]) by set_solver. lia.
  - intros o b' c [[<- <-]|[Hne Ho]]%lookup_insert_Some Hc; [|by eapply H4].
    apply H5. left. by apply Hlive.
  - intros o [Ho|Ho]; destruct (decide (o = n)) as [->|Hne]; try lia.
    + rewrite lookup_insert_ne in Ho by done. specialize (H5 o (or_introl Ho)). lia.
    + destruct (decide (o = n + 1)) as [->|Hne']; [lia|]. rewrite lookup_insert_ne in Ho by done.
      specialize (H5 o (or_intror Ho)). lia.
  - intros x w o [[<- <-]|[Hne Hx]]%lookup_insert_Some Hw.
    + cbn in Hw. injection Hw as <-. exists b. by rewrite lookup_insert_eq.
    + destruct (H6 x w o Hx Hw) as (b' & Hb' & Hk). exists b'. rewrite lookup_insert_ne by congruence. done.
Qed.

Lemma wrap_plain_sound k h : sound [] h -> sound [] (wrap (plain k) h).2.
Proof.
  intros Hs. apply (wrap_sound [] (plain k) h Hs); cbn; [set_solver..|].
  intros c b Hc Hk. by eapply sound_sole.
Qed.

(** A new object that copies the shared pointer to a client. *)
Lemma wrap_client_sound k x w us h : sound [] h -> handles h !! x = Some w -> h_kind w = KClient ->
  sound [] (wrap {| o_kind := k; owns := [rep w]; uses := us |} h).2.
Proof.
  intros Hs Hx Hw. assert (Hcl : forall c, c ∈ children {| o_kind := k; owns := [rep w]; uses := us |} ->
    exists b, objs h !! c = Some b /\ o_kind b = KClient).
  { intros c. unfold children. cbn. destruct (rep w) as [o|] eqn:E; cbn; [|set_solver].
    intros ->%list_elem_of_singleton. destruct (sound_kinds _ _ Hs x w o Hx E) as (b & ? & ?). exists b. by rewrite Hw in *. }
  apply (wrap_sound [] _ h Hs); [set_solver| |].
  - intros c Hc. destruct (Hcl c Hc) as (b & -> & _). done.
  - intros c b Hc Hk. rewrite occ_0; [by eapply sound_sole|]. intros Hin. destruct (Hcl c Hin) as (b' & Hb' & Hk').
    assert (b = b') as -> by congruence. by rewrite Hk' in Hk.
Qed.

Lemma handle_of_Val k x h w : handle_of k x h = Val w -> handles h !! x = Some w /\ h_kind w = k.
Proof. unfold handle_of. destruct (handles h !! x); [|done]. case_bool_decide; [|done]. by intros [= ->]. Qed.

Lemma children_two k r s us :
  children {| o_kind := k; owns := [r; s]; uses := us |} = option_list r ++ option_list s.
Proof. by destruct r, s. Qed.

Lemma sync_sound r s h x h' : sound [] h ->
  new_sync_checkpointed_reader shared r s h = Val (x, h') -> sound [] h'.
Proof.
  unfold new_sync_checkpointed_reader. intros Hs.
  destruct (handle_of KReader r h) as [wr| | |] eqn:Er; try done. cbn.
  destruct (handle_of KStore s h) as [ws| | |] eqn:Es; try done. cbn.
  apply handle_of_Val in Er as [Hr Hkr]. apply handle_of_Val in Es as [Hst Hks].
  assert (Hrs : r <> s) by (intros ->; congruence).
  assert (Hs1 : handles (move_rep r wr h) !! s = Some ws) by (cbn; by rewrite lookup_insert_ne).
  pose proof (move_sound [] r wr h Hs Hr) as Hm1. rewrite app_nil_r in Hm1.
  pose proof (move_pointers r wr h Hr) as Hp1.
  assert (Hlive : forall c, c ∈ option_list (rep wr) ++ option_list (rep ws) -> is_Some (objs h !! c)).
  { intros c [Hc|Hc]%elem_of_app; [destruct (rep wr) as [o|] eqn:E|destruct (rep ws) as [o|] eqn:E];
      cbn in Hc; [|set_solver| |set_solver]; apply list_elem_of_singleton in Hc as ->.
    - by eapply handle_live, E.
    - by eapply handle_live, E. }
  destruct shared eqn:Hsh.
  - intros E. apply (f_equal (fun r => match r with Val y => y.2 | _ => h end)) in E. cbn [snd] in E. rewrite <- E.
    apply (wrap_sound (option_list (rep wr))).
    + done.
    + rewrite children_two. set_solver.
    + rewrite children_two. exact Hlive.
    + intros c b Hc Hk. rewrite children_two, occ_app. cbn in Hc.
      pose proof (sound_sole _ _ Hs c b Hc) as Hle. specialize (Hle Hk).
      rewrite Hp1, occ_app in Hle. rewrite (occ_0 c (option_list (rep ws))); [lia|].
      intros Hin. destruct (rep ws) as [o|] eqn:E'; [|set_solver]. apply list_elem_of_singleton in Hin as ->.
      destruct (sound_kinds _ _ Hs s ws o Hst E') as (b' & Hb' & Hk'). assert (b = b') as -> by congruence.
      by rewrite Hk', Hks, Hsh in Hk.
  - intros E. apply (f_equal (fun r => match r with Val y => y.2 | _ => h end)) in E. cbn [snd] in E. rewrite <- E.
    pose proof (move_sound _ s ws _ Hm1 Hs1) as Hm2. pose proof (move_pointers s ws _ Hs1) as Hp2.
    apply (wrap_sound (option_list (rep ws) ++ option_list (rep wr))).
    + done.
    + rewrite children_two. set_solver.
    + rewrite children_two. exact Hlive.
    + intros c b Hc Hk. rewrite children_two, occ_app. cbn in Hc.
      pose proof (sound_sole _ _ Hs c b Hc) as Hle. specialize (Hle Hk).
      rewrite Hp1, occ_app, Hp2, occ_app in Hle. lia.
Qed.

Ltac step_val := match goal with
  | |- context [handle_of ?k ?x ?h] =>
      destruct (handle_of k x h) as [?w| | |] eqn:?Hw; cbn; try done;
      apply handle_of_Val in Hw as [??]
  end.

Lemma exec_sound o h h' : sound [] h -> exec shared o h = Val h' -> sound [] h'.
Proof.
  intros Hs. destruct o as [c|x c| |x|r s|x|x|k x]; cbn.
  - unfold new_logdevice_client. destruct c; intros [= <-]; [|done]. by apply wrap_plain_sound.
  - unfold new_logdevice_reader, deref. step_val. destruct (rep w); cbn; [|done].
    destruct c; [|done]. intros [= <-]. by apply wrap_plain_sound.
  - intros [= <-]. by apply wrap_plain_sound.
  - unfold new_rsm_based_checkpoint_store. step_val. intros [= <-]. by eapply wrap_client_sound.
  - destruct (new_sync_checkpointed_reader shared r s h) as [[y h1]| | |] eqn:E; try done. cbn.
    intros [= <-]. by eapply sync_sound.
  - unfold new_rsm_based_vcs, deref. step_val. destruct (rep w); cbn; [|done]. intros [= <-].
    apply (wrap_sound [] {| o_kind := KVcs; owns := []; uses := _ |} h Hs); cbn; [set_solver..|].
    intros c b Hc Hk. by eapply sound_sole.
  - unfold new_ld_checker. step_val. intros [= <-]. by eapply wrap_client_sound.
  - by apply free_sound.
Qed.

Lemma empty_sound : sound [] empty_heap.
Proof. split; cbn; [set_solver|by intros ? []|done|done|by intros ? [[]|[]]|done]. Qed.

(** Without handles there is no object: the newest one would have an owner that
    is newer. *)
Lemma no_handles_no_objects h : sound [] h -> handles h = ∅ -> objs h = ∅.
Proof.
  intros Hs Hh. apply map_eq. intros o. rewrite lookup_empty. destruct (objs h !! o) as [b|] eqn:Ho; [exfalso|done].
  assert (Hup : forall n, exists o', o + Z.of_nat n <= o' /\ is_Some (objs h !! o')).
  { induction n as [|n (o' & Hle & Ho')]; [exists o; rewrite Ho; split; [lia|done]|].
    destruct (sound_kept _ _ Hs o' Ho') as [Hp|]; [|set_solver]. unfold pointers in Hp. rewrite Hh in Hp.
    change (o' ∈ object_ptrs (objs h)) in Hp. unfold object_ptrs in Hp.
    apply list_elem_of_bind in Hp as ([p b'] & Hc & Hp). apply elem_of_map_to_list in Hp.
    exists p. pose proof (sound_older _ _ Hs p b' o' Hp Hc). split; [lia|done]. }
  destruct (Hup (Z.to_nat (next h - o))) as (o' & Hle & Ho').
  pose proof (sound_fresh _ _ Hs o' (or_introl Ho')). lia.
Qed.

End invariant.

(** ** Proofs: checkpointed readers *)

Lemma release_kept fuel todo h : (forall o, o ∈ todo -> o ∈ pointers h) -> release fuel todo h = h.
Proof.
  revert todo. induction fuel as [|fuel IH]; intros [|o todo] Ht; try done. cbn [release].
  assert (o ∈ pointers h) by set_solver.
  destruct (objs h !! o); [rewrite bool_decide_eq_true_2 by done|]; apply IH; set_solver.
Qed.

Lemma release_one fuel o todo h b : objs h !! o = Some b -> o ∉ pointers h ->
  release (S fuel) (o :: todo) h =
  release fuel (children b ++ todo) {| handles := handles h; objs := delete o (objs h); next := next h |}.
Proof. intros Ho Hp. cbn [release]. by rewrite Ho, bool_decide_eq_false_2 by done. Qed.

Section ckp_reader.
Context (shared : bool) (h : heap) (T : object).
Context (Hs : sound shared [] h) (HT : o_kind T = KStore) (HTc : forall c, c ∈ children T -> c ∈ pointers h).

Notation n := (next h).

Definition sync_object : object :=
  {| o_kind := KSyncReader; owns := [Some (n + 2); Some n]; uses := [] |}.
Definition ckp_objs : gmap Z object :=
  <[n + 4 := sync_object]> (<[n + 2 := plain KReader]> (<[n := T]> (objs h))).
Definition ckp_handle : handle := {| h_kind := KSyncReader; rep := Some (n + 4) |}.

(** The heap when only the handle of the checkpointed reader is left. *)
Definition ckp_heap : heap :=
  {| handles := <[n + 5 := ckp_handle]> (handles h); objs := ckp_objs; next := n + 6 |}.

Lemma fresh_objs k : 0 <= k -> objs h !! (n + k) = None.
Proof.
  intros Hk. destruct (objs h !! (n + k)) eqn:E; [|done].
  pose proof (sound_fresh _ _ _ Hs (n + k) (or_introl (ex_intro _ _ E))). lia.
Qed.
Lemma fresh_handles k : 0 <= k -> handles h !! (n + k) = None.
Proof.
  intros Hk. destruct (handles h !! (n + k)) eqn:E; [|done].
  pose proof (sound_fresh _ _ _ Hs (n + k) (or_intror (ex_intro _ _ E))). lia.
Qed.
Lemma old_pointers o : o ∈ pointers h -> o < n.
Proof. intros Ho. apply (sound_fresh _ _ _ Hs). left. by eapply sound_closed. Qed.

Lemma ckp_object_ptrs : object_ptrs ckp_objs ≡ₚ [n + 2; n] ++ children T ++ object_ptrs (objs h).
Proof.
  unfold ckp_objs. pose proof (fresh_objs 0) as H0. rewrite Z.add_0_r in H0.
  rewrite !object_ptrs_insert; [done|by apply H0| |].
  - rewrite lookup_insert_ne by lia. by apply fresh_objs.
  - rewrite !lookup_insert_ne by lia. by apply fresh_objs.
Qed.

(** Freeing the checkpointed reader frees the reader and the store it owns, and
    nothing else. *)
Lemma free_ckp : free KSyncReader (n + 5) ckp_heap =
  Val {| handles := handles h; objs := objs h; next := n + 6 |}.
Proof.
  unfold free, handle_of. cbn [ckp_heap handles]. rewrite lookup_insert_eq.
  rewrite bool_decide_eq_true_2 by done. cbn [and_then ckp_handle rep].
  rewrite delete_insert_id by (by apply fresh_handles). f_equal. unfold release_all.
  pose proof (Permutation_length ckp_object_ptrs) as Hlen. cbn [app length] in Hlen.
  cbn [objs ckp_heap]. rewrite Hlen.
  change (option_list (Some (n + 4))) with [n + 4]. cbn [length Nat.add].
  assert (Hp : forall o, o ∈ handle_ptrs (handles h) ++ object_ptrs (objs h) -> o < n) by apply old_pointers.
  assert (HTn : forall o, o ∈ children T -> o < n) by (intros o Ho; by apply Hp, HTc).
  rewrite (release_one _ _ _ _ sync_object); cbn [objs handles].
  2: { unfold ckp_objs. by rewrite lookup_insert_eq. }
  2: { unfold pointers. cbn [handles objs]. rewrite ckp_object_ptrs. intros Hin.
       assert (n + 4 = n + 2 \/ n + 4 = n \/ n + 4 < n) by set_solver. lia. }
  pose proof (fresh_objs 0) as H0. rewrite Z.add_0_r in H0. specialize (H0 ltac:(lia)).
  pose proof (fresh_objs 2 ltac:(lia)) as H2. pose proof (fresh_objs 4 ltac:(lia)) as H4.
  unfold ckp_objs. rewrite delete_insert_id by (by rewrite !lookup_insert_ne by lia).
  cbn [children sync_object owns omap list_omap id app next].
  rewrite (release_one _ _ _ _ (plain KReader)); cbn [objs handles].
  2: { by rewrite lookup_insert_eq. }
  2: { unfold pointers. cbn [handles objs]. rewrite !object_ptrs_insert by (by rewrite ?lookup_insert_ne by lia).
       intros Hin. assert (n + 2 < n) by set_solver. lia. }
  rewrite delete_insert_id by (by rewrite !lookup_insert_ne by lia). cbn [next].
  change (children (plain KReader) ++ [n]) with [n].
  rewrite (release_one _ _ _ _ T); cbn [objs handles].
  2: { by rewrite lookup_insert_eq. }
  2: { unfold pointers. cbn [handles objs]. rewrite object_ptrs_insert by done.
       intros Hin. assert (n < n) by set_solver. lia. }
  rewrite delete_insert_id by done. cbn [next]. rewrite app_nil_r. by apply release_kept.
Qed.

(** The heap after the three calls. *)
Definition store_handle : handle := {| h_kind := KStore; rep := if shared then Some n else None |}.
Definition made_heap : heap :=
  {| handles := <[n + 5 := ckp_handle]> (<[n + 1 := store_handle]>
       (<[n + 3 := {| h_kind := KReader; rep := None |}]> (handles h)));
     objs := ckp_objs; next := n + 6 |}.

Lemma sync_made : new_sync_checkpointed_reader shared (n + 3) (n + 1) (wrap (plain KReader) (wrap T h).2).2 =
  Val (n + 5, made_heap).
Proof.
  unfold new_sync_checkpointed_reader, handle_of, wrap, new_object, new_handle. rewrite HT.
  cbn [snd handles objs next o_kind plain].
  replace (n + 1 + 1) with (n + 2) by lia. replace (n + 2 + 1) with (n + 3) by lia.
  rewrite lookup_insert_eq, bool_decide_eq_true_2 by done. cbn [and_then].
  rewrite lookup_insert_ne, lookup_insert_eq, bool_decide_eq_true_2 by (done || lia). cbn [and_then rep].
  unfold made_heap, store_handle, ckp_handle, ckp_objs, sync_object.
  destruct shared; cbn [move_rep handles objs next rep h_kind];
    replace (n + 3 + 1) with (n + 4) by lia; replace (n + 4 + 1) with (n + 5) by lia;
    do 2 f_equal; try lia; f_equal; try lia; apply map_eq; intros i;
    rewrite !lookup_insert; repeat case_decide; (done || lia).
Qed.

(** A finalizer of a handle whose object is owned by others, or moved away. *)
Lemma free_kept k x w X : handles X !! x = Some w -> h_kind w = k ->
  (forall o, rep w = Some o ->
     o ∈ pointers {| handles := delete x (handles X); objs := objs X; next := next X |}) ->
  free k x X = Val {| handles := delete x (handles X); objs := objs X; next := next X |}.
Proof.
  intros Hx Hw Ho. unfold free, handle_of. rewrite Hx, bool_decide_eq_true_2 by done. cbn [and_then].
  f_equal. unfold release_all. apply release_kept. intros o Hin. apply Ho.
  destruct (rep w); [|set_solver]. cbn in Hin. by apply list_elem_of_singleton in Hin as ->.
Qed.

Lemma store_owned m : n ∈ pointers {| handles := m; objs := ckp_objs; next := n + 6 |}.
Proof. unfold pointers. cbn. rewrite ckp_object_ptrs. set_solver. Qed.

Lemma frees_made frees :
  frees = [Free KStore (n + 1); Free KReader (n + 3)] \/ frees = [Free KReader (n + 3); Free KStore (n + 1)] ->
  run shared frees made_heap = Val ckp_heap.
Proof.
  assert (Hmap : delete (n + 3) (delete (n + 1) (handles made_heap)) = handles ckp_heap).
  { cbn. apply map_eq. intros i. pose proof (fresh_handles 3 ltac:(lia)). pose proof (fresh_handles 1 ltac:(lia)).
    rewrite !lookup_delete, !lookup_insert. repeat case_decide; subst; (done || lia || congruence). }
  assert (Hst : forall m, (forall o, rep store_handle = Some o ->
    o ∈ pointers {| handles := m; objs := ckp_objs; next := n + 6 |})).
  { intros m o Ho. assert (o = n) as -> by (revert Ho; cbn; destruct shared; congruence). apply store_owned. }
  intros [->| ->]; cbn [run exec].
  - rewrite (free_kept _ _ store_handle); [| |done|apply Hst].
    2: { cbn. by rewrite lookup_insert_ne, lookup_insert_eq by lia. }
    cbn [and_then]. rewrite (free_kept _ _ {| h_kind := KReader; rep := None |}); [| |done|done].
    2: { cbn. by rewrite lookup_delete_ne, !lookup_insert_ne, lookup_insert_eq by lia. }
    cbn [and_then handles objs]. by rewrite Hmap.
  - rewrite (free_kept _ _ {| h_kind := KReader; rep := None |}); [| |done|done].
    2: { cbn. by rewrite !lookup_insert_ne, lookup_insert_eq by lia. }
    cbn [and_then]. rewrite (free_kept _ _ store_handle); [| |done|apply Hst].
    2: { cbn. by rewrite lookup_delete_ne, lookup_insert_ne, lookup_insert_eq by lia. }
    cbn [and_then handles objs]. rewrite delete_delete. by rewrite Hmap.
Qed.
End ckp_reader.

(** The calls after the creation of the store. *)
Lemma rest_made shared h T client o : sound shared [] h -> o_kind T = KStore ->
  deref KClient client (wrap T h).2 = Val o ->
  and_then (new_logdevice_reader client true (wrap T h).2) (fun '(reader, h') =>
    and_then (newLDSyncCkpReader shared reader (wrap T h).1 h') (fun '(ckp, h') =>
      Val ((wrap T h).1, reader, ckp, h'))) =
  Val (next h + 1, next h + 3, next h + 5, made_heap shared h T).
Proof.
  intros Hs HT Hd. unfold new_logdevice_reader. rewrite Hd. cbn [and_then].
  rewrite (surjective_pairing (wrap (plain KReader) _)). cbn [and_then]. unfold newLDSyncCkpReader.
  assert ((wrap (plain KReader) (wrap T h).2).1 = next h + 3) as -> by (cbn; lia).
  assert ((wrap T h).1 = next h + 1) as -> by done. by rewrite (sync_made shared h T Hs HT).
Qed.

Lemma ckp_made shared h client w o make :
  sound shared [] h -> handles h !! client = Some w -> h_kind w = KClient -> rep w = Some o ->
  make = newLDFileCkpReader \/ make = newLDRsmCkpReader ->
  exists T, o_kind T = KStore /\ (forall c, c ∈ children T -> c ∈ pointers h) /\
    make shared client true h = Val (next h + 1, next h + 3, next h + 5, made_heap shared h T).
Proof.
  intros Hs Hc Hk Ho Hmake.
  assert (Hne : client <> next h + 1).
  { pose proof (sound_fresh _ _ _ Hs client (or_intror (ex_intro _ _ Hc))). lia. }
  assert (Hd : forall T, deref KClient client (wrap T h).2 = Val o).
  { intros T. unfold deref, handle_of, wrap, new_object, new_handle. cbn [snd handles].
    rewrite lookup_insert_ne, Hc, bool_decide_eq_true_2 by done. cbn. by rewrite Ho. }
  destruct Hmake as [->| ->].
  - exists (plain KStore). split; [done|]. split; [intros c; set_solver|].
    by apply (rest_made shared h (plain KStore) client o).
  - exists {| o_kind := KStore; owns := [rep w]; uses := [] |}. split; [done|]. split.
    { intros c. rewrite Ho. cbn. intros ->%list_elem_of_singleton. by eapply handle_live. }
    unfold newLDRsmCkpReader, new_rsm_based_checkpoint_store, handle_of.
    rewrite Hc, bool_decide_eq_true_2 by done. cbn [and_then]. by eapply rest_made.
Qed.

(** A checkpointed reader made by [newLDFileCkpReader] or [newLDRsmCkpReader]
    keeps the reader and the checkpoint store it was made from alive when their
    handles are finalized, in either order; when it is freed itself both are
    destroyed, and the heap is as it was before. *)
Theorem ckp_reader_owns shared h client w o make :
  sound shared [] h -> handles h !! client = Some w -> h_kind w = KClient -> rep w = Some o ->
  make = newLDFileCkpReader \/ make = newLDRsmCkpReader ->
  exists store reader ckp h1, make shared client true h = Val (store, reader, ckp, h1) /\
  forall frees, frees = [Free KStore store; Free KReader reader] \/
    frees = [Free KReader reader; Free KStore store] ->
  exists h2 sync r s, run shared frees h1 = Val h2 /\
    deref KSyncReader ckp h2 = Val sync /\
    objs h2 !! sync = Some {| o_kind := KSyncReader; owns := [Some r; Some s]; uses := [] |} /\
    is_Some (objs h2 !! r) /\ is_Some (objs h2 !! s) /\
    exists h3, free_sync_checkpointed_reader ckp h2 = Val h3 /\
      handles h3 = handles h /\ objs h3 = objs h.
Proof.
  intros Hs Hc Hk Ho Hmake.
  destruct (ckp_made shared h client w o make) as (T & HT & HTc & Hmade); [done..|].
  exists (next h + 1), (next h + 3), (next h + 5), (made_heap shared h T). split; [done|].
  intros frees Hf. exists (ckp_heap h T), (next h + 4), (next h + 2), (next h).
  rewrite (frees_made shared h T Hs HT HTc frees Hf). split_and!; [done| | | | |].
  - unfold deref, handle_of. cbn. rewrite lookup_insert_eq. by rewrite bool_decide_eq_true_2.
  - cbn. unfold ckp_objs. by rewrite lookup_insert_eq.
  - cbn. unfold ckp_objs. by rewrite lookup_insert_ne, lookup_insert_eq by lia.
  - cbn. unfold ckp_objs. by rewrite !lookup_insert_ne, lookup_insert_eq by lia.
  - eexists. split; [by eapply free_ckp|done].
Qed.

(** What a handle owns. *)
Definition owned_by (k : kind) (x : Z) (h : heap) : option (list (option Z)) :=
  match deref k x h with Val o => owns <$> objs h !! o | _ => None end.

Lemma ckp'_made shared h client o store so :
  sound shared [] h -> deref KClient client h = Val o -> handle_of KStore store h = Val so ->
  exists reader ckp h1, newLDRsmCkpReader' shared client store true h = Val (reader, ckp, h1) /\
    owned_by KSyncReader ckp h1 = Some [Some (next h); rep so] /\
    deref KClient client h1 = Val o /\
    handle_of KStore store h1 = Val {| h_kind := KStore; rep := if shared then rep so else None |}.
Proof.
  intros Hs Hc Hst. apply handle_of_Val in Hst as [Hst Hk].
  unfold deref in Hc. destruct (handle_of KClient client h) as [wc| | |] eqn:Ec; try done.
  apply handle_of_Val in Ec as [Ec Hkc]. cbn in Hc.
  assert (Hlt : forall x w, handles h !! x = Some w -> x < next h).
  { intros x w Hx. apply (sound_fresh _ _ _ Hs). right. by rewrite Hx. }
  pose proof (Hlt _ _ Hst). pose proof (Hlt _ _ Ec). assert (client <> store) by (intros ->; congruence).
  assert (Hrd : new_logdevice_reader client true h = Val (wrap (plain KReader) h)).
  { unfold new_logdevice_reader, deref, handle_of. rewrite Ec, bool_decide_eq_true_2 by done. cbn.
    by rewrite Hc. }
  unfold newLDRsmCkpReader'. rewrite Hrd, (surjective_pairing (wrap (plain KReader) h)). cbn [and_then].
  unfold newLDSyncCkpReader, new_sync_checkpointed_reader, handle_of, owned_by, deref, handle_of.
  cbn [wrap new_object new_handle fst snd handles next plain o_kind].
  rewrite lookup_insert_eq, bool_decide_eq_true_2 by done. cbn [and_then].
  rewrite lookup_insert_ne, Hst, bool_decide_eq_true_2 by (done || lia). cbn [and_then rep h_kind].
  destruct shared; (exists (next h + 1); eexists _, _; split; [reflexivity|]);
    cbn [handles objs move_rep rep h_kind next wrap new_object new_handle fst snd];
    rewrite ?lookup_insert; repeat case_decide; try lia; rewrite ?Ec, ?Hst, ?Hkc, ?Hk; cbn;
    rewrite ?lookup_insert; repeat case_decide; try lia; rewrite ?bool_decide_eq_true_2 by done; cbn;
    rewrite ?Hc; split_and!; try done; destruct so; cbn in *; by subst.
Qed.

Lemma ckp'_sound shared h client store reader ckp h1 : sound shared [] h ->
  newLDRsmCkpReader' shared client store true h = Val (reader, ckp, h1) -> sound shared [] h1.
Proof.
  intros Hs. unfold newLDRsmCkpReader'.
  destruct (new_logdevice_reader client true h) as [[r h']| | |] eqn:E; try done. cbn.
  destruct (newLDSyncCkpReader shared r store h') as [[k h'']| | |] eqn:E'; try done. cbn. intros [= <- <- <-].
  eapply sync_sound, E'. apply (exec_sound shared (NewReader client true) h); [done|]. cbn. by rewrite E.
Qed.

(** Two checkpointed readers made by [newLDRsmCkpReader'] from one store share
    it only in the build with shared stores; in the default build the first one
    takes it: the second one has a null store and the handle of the store can not
    be used any more. *)
Theorem second_reader_store shared h client o store so x :
  sound shared [] h -> deref KClient client h = Val o ->
  handle_of KStore store h = Val so -> rep so = Some x ->
  exists r1 k1 h1 r2 k2 h2, newLDRsmCkpReader' shared client store true h = Val (r1, k1, h1) /\
    newLDRsmCkpReader' shared client store true h1 = Val (r2, k2, h2) /\
    owned_by KSyncReader k1 h1 = Some [Some (next h); Some x] /\
    owned_by KSyncReader k2 h2 = Some [Some (next h1); if shared then Some x else None] /\
    deref KStore store h1 = (if shared then Val x else Undefined).
Proof.
  intros Hs Hc Hst Hx. destruct (ckp'_made shared h client o store so Hs Hc Hst) as (r1 & k1 & h1 & E1 & Ho1 & Hc1 & Hst1).
  pose proof (ckp'_sound _ _ _ _ _ _ _ Hs E1) as Hs1.
  destruct (ckp'_made shared h1 client o store _ Hs1 Hc1 Hst1) as (r2 & k2 & h2 & E2 & Ho2 & _ & _).
  exists r1, k1, h1, r2, k2, h2. rewrite Hx in *. split_and!; [done|done|done|done|].
  unfold deref. rewrite Hst1. by destruct shared.
Qed.

(** Destruction leaves the handles, and the objects they hold, alone. *)
Lemma release_frame fuel : forall todo h,
  handles (release fuel todo h) = handles h /\
  (forall o, objs h !! o = None -> objs (release fuel todo h) !! o = None) /\
  (forall o, o ∈ handle_ptrs (handles h) -> objs (release fuel todo h) !! o = objs h !! o).
Proof.
  induction fuel as [|fuel IH]; intros [|x todo] h; try done. cbn [release].
  destruct (objs h !! x) as [b|] eqn:Hx; [case_bool_decide as Hp|]; [apply IH| |apply IH].
  destruct (IH (children b ++ todo) {| handles := handles h; objs := delete x (objs h); next := next h |})
    as (-> & Hn & Hk). cbn in *. split_and!; [done| |].
  - intros o Ho. apply Hn. rewrite lookup_delete. by case_decide.
  - intros o Ho. rewrite (Hk o Ho), lookup_delete_ne; [done|]. intros ->. apply Hp. unfold pointers. set_solver.
Qed.

(** A versioned configuration store refers to its client by a plain pointer:
    when the client's last handle is finalized first, the store is left with a
    pointer to a destroyed object. *)
Theorem vcs_outlives_client shared h client w o :
  sound shared [] h -> handles h !! client = Some w -> h_kind w = KClient -> rep w = Some o ->
  occ o (pointers h) = 1%nat ->
  exists v h1 h2, new_rsm_based_vcs client h = Val (v, h1) /\ free_logdevice_client client h1 = Val h2 /\
    exists b, (deref KVcs v h2 = Val (next h)) /\ objs h2 !! next h = Some b /\
      uses b = [o] /\ objs h2 !! o = None.
Proof.
  intros Hs Hx Hk Ho Hocc. unfold new_rsm_based_vcs, deref, handle_of.
  rewrite Hx, bool_decide_eq_true_2 by done. cbn [and_then]. rewrite Ho. cbn [and_then].
  assert (Hc : client < next h) by (apply (sound_fresh _ _ _ Hs); right; by rewrite Hx).
  destruct (handle_live shared [] h client w o Hs Hx Ho) as [_ [b Hb]].
  assert (Hon : o < next h) by (apply (sound_fresh _ _ _ Hs); left; by rewrite Hb).
  set (V := {| o_kind := KVcs; owns := []; uses := [o] |}).
  eexists (next h + 1), _, _. split; [reflexivity|]. cbn [wrap new_object new_handle fst snd].
  set (hv := {| h_kind := o_kind V; rep := Some (next h) |}).
  unfold free_logdevice_client, free, handle_of. cbn [handles objs next].
  rewrite lookup_insert_ne, Hx, bool_decide_eq_true_2 by (done || lia). cbn [and_then].
  split; [reflexivity|]. exists V. rewrite Ho. change (option_list (Some o)) with [o]. fold hv.
  assert (Hdel : delete client (<[next h + 1 := hv]> (handles h)) = <[next h + 1 := hv]> (delete client (handles h)))
    by (apply delete_insert_ne; lia). rewrite Hdel. unfold release_all. cbn [length Nat.add objs].
  assert (Hfr : handles h !! (next h + 1) = None).
  { destruct (handles h !! (next h + 1)) eqn:E; [|done].
    pose proof (sound_fresh _ _ _ Hs _ (or_intror (ex_intro _ _ E))). lia. }
  assert (Hnone : objs h !! next h = None).
  { destruct (objs h !! next h) eqn:E; [|done].
    pose proof (sound_fresh _ _ _ Hs _ (or_introl (ex_intro _ _ E))). lia. }
  assert (Hhp : handle_ptrs (<[next h + 1 := hv]> (delete client (handles h))) ≡ₚ
    next h :: handle_ptrs (delete client (handles h))).
  { rewrite handle_ptrs_insert, delete_id by (by rewrite lookup_delete_ne by lia). done. }
  rewrite (release_one _ _ _ _ b); cbn [objs handles].
  2: { by rewrite lookup_insert_ne by lia. }
  2: { unfold pointers in *. cbn [handles objs]. rewrite Hhp, object_ptrs_insert by done.
       change (children V ++ object_ptrs (objs h)) with (object_ptrs (objs h)).
       rewrite (handle_ptrs_delete _ _ _ Hx), Ho, !occ_app in Hocc. change (option_list (Some o)) with [o] in Hocc.
       replace (occ o [o]) with 1%nat in Hocc by (unfold occ; cbn; by rewrite decide_True).
       intros [->|[Hin|Hin]%elem_of_app]%elem_of_cons; [lia| |]; apply occ_pos in Hin; lia. }
  match goal with |- context [release ?f ?t ?X] => destruct (release_frame f t X) as (-> & Hn & Hkeep) end.
  cbn [handles objs] in *. split_and!.
  - rewrite lookup_insert_eq. by rewrite bool_decide_eq_true_2.
  - rewrite Hkeep by (rewrite Hhp; set_solver). by rewrite lookup_delete_ne, lookup_insert_eq by lia.
  - done.
  - apply Hn. apply lookup_delete_eq.
Qed.
End Handles.

(** ** Examples *)

Module HandlesWitness.
Import Handles.

(** A client, whose handle is 1, and a heap with a file based store, 3, as well. *)
Definition client_handle : handle := {| h_kind := KClient; rep := Some 0 |}.
Definition client_heap : heap := (wrap (plain KClient) empty_heap).2.
Definition store_heap : heap := (wrap (plain KStore) client_heap).2.

Lemma client_sound shared : sound shared [] client_heap.
Proof. apply wrap_plain_sound, empty_sound. Qed.

Definition session : list op :=
  [NewClient true; NewFileStore; NewReader 1 true; NewSyncReader 5 3; NewVcs 1; NewChecker 1;
   Free KStore 3; Free KReader 5; Free KSyncReader 7; Free KClient 1; Free KVcs 9; Free KChecker 11].


Lemma ckp_reader_owns_witness :
  exists store reader ckp h1, newLDRsmCkpReader false 1 true client_heap = Val (store, reader, ckp, h1) /\
  exists h2 h3, run false [Free KReader reader; Free KStore store] h1 = Val h2 /\
    free_sync_checkpointed_reader ckp h2 = Val h3 /\ objs h3 = objs client_heap.
Proof.
  destruct (ckp_reader_owns false client_heap 1 client_handle 0 newLDRsmCkpReader)
    as (store & reader & ckp & h1 & E & H); [apply client_sound|done..|by right|].
  exists store, reader, ckp, h1. split; [done|].
  destruct (H [Free KReader reader; Free KStore store]) as (h2 & _ & _ & _ & E2 & _ & _ & _ & _ & h3 & E3 & _ & E4);
    [by right|]. by exists h2, h3.
Defined.

Lemma second_reader_store_witness :
  exists r1 k1 h1 r2 k2 h2, newLDRsmCkpReader' false 1 3 true store_heap = Val (r1, k1, h1) /\
    newLDRsmCkpReader' false 1 3 true h1 = Val (r2, k2, h2) /\
    owned_by KSyncReader k2 h2 = Some [Some (next h1); None] /\ deref KStore 3 h1 = Undefined.
Proof.
  destruct (second_reader_store false store_heap 1 0 3 {| h_kind := KStore; rep := Some 2 |} 2)
    as (r1 & k1 & h1 & r2 & k2 & h2 & E1 & E2 & _ & E3 & E4).
  - apply wrap_plain_sound, client_sound.
  - done.
  - done.
  - done.
  - by exists r1, k1, h1, r2, k2, h2.
Defined.

Lemma vcs_outlives_client_witness :
  exists v h1 h2, new_rsm_based_vcs 1 client_heap = Val (v, h1) /\ free_logdevice_client 1 h1 = Val h2 /\
    objs h2 !! 0 = None.
Proof.
  destruct (vcs_outlives_client false client_heap 1 client_handle 0)
    as (v & h1 & h2 & E1 & E2 & b & _ & _ & _ & E3); [apply client_sound|done..|].
  by exists v, h1, h2.
Defined.
End HandlesWitness.
