(* ===== verification/StatsExports.v ===== *)
(** * The statistics functions that are linked into Haskell
      (src/common/stats/cbits/hs_stats.cpp and stats/Stats.h,
      HStream/Stats/Internal.hs)

    The macros of Stats.h make one group of C functions for every line of the
    [.inc] tables, and the macros of Internal.hs one group of foreign imports. This
    file models both expansions: the names, the machine types and what each
    function does. *)

From stdpp Require Import base gmap strings list.
From Stdlib Require Import ZArith Lia.
From S2P Require Import Prelude StatsTables Stats StatsHolder StatsApi.
Import StatsTables Stats StatsHolder StatsApi.

Module StatsExports.

(** The types of arguments and results as the calling convention of x86-64 tells
    them apart: pointers and 64-bit integers ([HsInt], [int64_t], [size_t], [Int],
    [Int64]; [Ptr] and byte arrays), [int] and [CInt], [double], [HsBool]. *)
Inductive abi := APtr | AInt64 | AInt32 | ADouble | ABool | AVoid.

#[global] Instance abi_eq_dec : EqDecision abi.
Proof. solve_decision. Defined.

(** What an exported function does. *)
Inductive target :=
| SetMember (x : per_x) (series : bool)
| NewHolder | DeleteHolder | NewAggregate | DeleteStats | HolderPrint | HolderReset
| StatAdd (x : per_x) (i : nat)
| StatSet (x : per_x) (i : nat)
| StatGet (x : per_x) (i : nat)
| StatGetallOf (x : per_x) (i : nat)
| StatGetall (x : per_x)
| StatErase (x : per_x)
| SeriesAdd (x : per_x) (j : nat)
| SeriesGet (x : per_x)
| SeriesGetall (x : per_x)
| VerifyIntervals (x : per_x)
| HistogramAdd | HistogramPercentiles | HistogramPercentile.

Record symbol := { s_name : string; s_args : list abi; s_ret : abi; s_target : target }.

Definition prefix_of (x : per_x) : string :=
  match x with
  | per_stream => "stream_" | per_connector => "connector_" | per_cache_store => "cache_store_"
  | per_query => "query_" | per_view => "view_" | per_subscription => "subscription_"
  | per_handle => "handle_"
  end.

(** ** hs_stats.cpp *)

(** PER_X_STAT_DEFINE *)
Definition PER_X_STAT_DEFINE (prefix : string) (x : per_x) (i : nat) (name : string) : list symbol :=
  [ {| s_name := prefix +:+ "add_" +:+ name; s_args := [APtr; APtr; AInt64]; s_ret := AVoid;
       s_target := StatAdd x i |};
    {| s_name := prefix +:+ "set_" +:+ name; s_args := [APtr; APtr; AInt64]; s_ret := AVoid;
       s_target := StatSet x i |};
    {| s_name := prefix +:+ "get_" +:+ name; s_args := [APtr; APtr]; s_ret := AInt64;
       s_target := StatGet x i |};
    {| s_name := prefix +:+ "getall_" +:+ name; s_args := [APtr; APtr; APtr; APtr; APtr; APtr];
       s_ret := AVoid; s_target := StatGetallOf x i |} ].

Definition PER_X_STAT (prefix : string) (x : per_x) : list symbol :=
  [ {| s_name := prefix +:+ "stat_getall"; s_args := [APtr; APtr; APtr; APtr; APtr; APtr; APtr];
       s_ret := AInt32; s_target := StatGetall x |};
    {| s_name := prefix +:+ "stat_erase"; s_args := [APtr; APtr]; s_ret := AInt64;
       s_target := StatErase x |} ].

Definition PER_X_TIME_SERIES_DEFINE (prefix : string) (x : per_x) (j : nat) (name : string) : list symbol :=
  [ {| s_name := prefix +:+ "add_" +:+ name; s_args := [APtr; APtr; AInt64]; s_ret := AVoid;
       s_target := SeriesAdd x j |} ].

(** The expansion of an included table. *)
Definition stats_of (x : per_x) : list symbol :=
  concat (imap (fun i d => PER_X_STAT_DEFINE (prefix_of x +:+ "stat_") x i d.1) (stat_defs x)).
Definition series_of (x : per_x) : list symbol :=
  concat (imap (fun j d => PER_X_TIME_SERIES_DEFINE (prefix_of x +:+ "time_series_") x j (ts_name d))
            (series_defs x)).

Definition time_series_functions (x : per_x) : list symbol :=
  [ {| s_name := prefix_of x +:+ "time_series_get";
       s_args := [APtr; APtr; APtr; AInt64; APtr; APtr]; s_ret := AInt32; s_target := SeriesGet x |};
    {| s_name := prefix_of x +:+ "time_series_getall_by_name";
       s_args := [APtr; APtr; AInt64; APtr; APtr; APtr; APtr; APtr; APtr]; s_ret := AInt32;
       s_target := SeriesGetall x |} ].

Definition verify_intervals_function (x : per_x) : symbol :=
  {| s_name := "per_" +:+ prefix_of x +:+ "verify_intervals";
     s_args := [APtr; APtr; AInt64; APtr; APtr]; s_ret := ABool; s_target := VerifyIntervals x |}.

Definition set_member (name : string) (x : per_x) (series : bool) : symbol :=
  {| s_name := "setPer" +:+ name +:+ (if series then "TimeSeriesMember" else "StatsMember");
     s_args := [APtr; APtr]; s_ret := AVoid; s_target := SetMember x series |}.

Definition set_members : list symbol :=
  [ set_member "Stream" per_stream true; set_member "Stream" per_stream false;
    set_member "Connector" per_connector false; set_member "CacheStore" per_cache_store false;
    set_member "Query" per_query false; set_member "View" per_view false;
    set_member "Subscription" per_subscription true; set_member "Subscription" per_subscription false;
    set_member "Handle" per_handle true ].

Definition holder_functions : list symbol :=
  [ {| s_name := "new_stats_holder"; s_args := [ABool]; s_ret := APtr; s_target := NewHolder |};
    {| s_name := "delete_stats_holder"; s_args := [APtr]; s_ret := AVoid; s_target := DeleteHolder |};
    {| s_name := "new_aggregate_stats"; s_args := [APtr]; s_ret := APtr; s_target := NewAggregate |};
    {| s_name := "delete_stats"; s_args := [APtr]; s_ret := AVoid; s_target := DeleteStats |};
    {| s_name := "stats_holder_print"; s_args := [APtr]; s_ret := AVoid; s_target := HolderPrint |};
    {| s_name := "stats_holder_reset"; s_args := [APtr]; s_ret := AVoid; s_target := HolderReset |} ].

Definition histogram_functions : list symbol :=
  [ {| s_name := "server_histogram_add"; s_args := [APtr; APtr; AInt64]; s_ret := AInt32;
       s_target := HistogramAdd |};
    {| s_name := "server_histogram_estimatePercentiles";
       s_args := [APtr; APtr; APtr; AInt64; APtr; APtr; APtr]; s_ret := AInt32;
       s_target := HistogramPercentiles |};
    {| s_name := "server_histogram_estimatePercentile"; s_args := [APtr; APtr; ADouble];
       s_ret := AInt64; s_target := HistogramPercentile |} ].

(** The sections of hs_stats.cpp, one per struct. *)
Definition PerStreamStats_section : list symbol :=
  stats_of per_stream ++ series_of per_stream ++ PER_X_STAT "stream_" per_stream ++
  time_series_functions per_stream.
Definition PerConnectorStats_section : list symbol :=
  stats_of per_connector ++ PER_X_STAT "connector_" per_connector.
Definition PerCacheStoreStats_section : list symbol :=
  stats_of per_cache_store ++ PER_X_STAT "cache_store_" per_cache_store.
Definition PerQueryStats_section : list symbol := stats_of per_query ++ PER_X_STAT "query_" per_query.
Definition PerViewStats_section : list symbol := stats_of per_view ++ PER_X_STAT "view_" per_view.
Definition PerSubscriptionStats_section : list symbol :=
  stats_of per_subscription ++ series_of per_subscription ++
  PER_X_STAT "subscription_" per_subscription ++ time_series_functions per_subscription.
Definition PerHandleStats_section : list symbol :=
  series_of per_handle ++ time_series_functions per_handle.

Definition exports : list symbol :=
  set_members ++ holder_functions ++ PerStreamStats_section ++ PerConnectorStats_section ++
  PerCacheStoreStats_section ++ PerQueryStats_section ++ PerViewStats_section ++
  PerSubscriptionStats_section ++ PerHandleStats_section ++
  (verify_intervals_function <$> [per_stream; per_subscription; per_handle]) ++ histogram_functions.

(** ** HStream/Stats/Internal.hs *)

(** A [foreign import]: the C name, the Haskell name, and the machine types of
    its Haskell type. *)
Record import := { i_name : string; i_hs : string; i_args : list abi; i_ret : abi }.

Definition imported (name : string) (args : list abi) (ret : abi) : import :=
  {| i_name := name; i_hs := name; i_args := args; i_ret := ret |}.
Definition imported_as (hs name : string) (args : list abi) (ret : abi) : import :=
  {| i_name := name; i_hs := hs; i_args := args; i_ret := ret |}.

(** The two finalizers are imported as addresses. *)
Definition hs_holder : list import :=
  [ imported_as "c_delete_stats_fun" "delete_stats" [APtr] AVoid;
    imported_as "c_new_stats_holder" "new_stats_holder" [ABool] APtr;
    imported_as "c_delete_stats_holder_fun" "delete_stats_holder" [APtr] AVoid;
    imported_as "c_stats_holder_print" "stats_holder_print" [APtr] AVoid;
    imported "stats_holder_reset" [APtr] AVoid;
    imported_as "c_new_aggregate_stats" "new_aggregate_stats" [APtr] APtr ].

Definition hs_PER_X_STAT (prefix : string) : list import :=
  [ imported (prefix +:+ "stat_getall") [APtr; APtr; APtr; APtr; APtr; APtr; APtr] AInt32;
    imported (prefix +:+ "stat_erase") [APtr; APtr] AInt64 ].

Definition hs_PER_X_STAT_DEFINE (prefix name : string) : list import :=
  [ imported (prefix +:+ "add_" +:+ name) [APtr; APtr; AInt64] AVoid;
    imported (prefix +:+ "set_" +:+ name) [APtr; APtr; AInt64] AVoid;
    imported (prefix +:+ "get_" +:+ name) [APtr; APtr] AInt64;
    imported (prefix +:+ "getall_" +:+ name) [APtr; APtr; APtr; APtr; APtr; APtr] AVoid ].

Definition hs_TIME_SERIES_DEFINE (prefix name : string) : list import :=
  [ imported (prefix +:+ "time_series_add_" +:+ name) [APtr; APtr; AInt64] AVoid ].

Definition hs_stats (prefix : string) (inc : list (string * StatsAgg)) : list import :=
  concat ((fun d => hs_PER_X_STAT_DEFINE prefix d.1) <$> inc).
Definition hs_series (prefix : string) (inc : list series_def) : list import :=
  concat ((fun d => hs_TIME_SERIES_DEFINE prefix (ts_name d)) <$> inc).

Definition hs_time_series (prefix get getall : string) : list import :=
  [ imported_as get (prefix +:+ "time_series_get") [APtr; APtr; APtr; AInt64; APtr; APtr] AInt32;
    imported_as getall (prefix +:+ "time_series_getall_by_name")
      [APtr; APtr; AInt64; APtr; APtr; APtr; APtr; APtr; APtr] AInt32 ].

Definition hs_VERIFY_INTERVALS (perfix : string) : import :=
  imported (perfix +:+ "verify_intervals") [APtr; APtr; AInt64; APtr; APtr] ABool.

Definition hs_histograms : list import :=
  [ imported "server_histogram_add" [APtr; APtr; AInt64] AInt32;
    imported "server_histogram_estimatePercentiles" [APtr; APtr; APtr; AInt64; APtr; APtr; APtr] AInt32;
    imported "server_histogram_estimatePercentile" [APtr; APtr; ADouble] AInt64 ].

Definition imports : list import :=
  hs_holder ++
  concat (hs_PER_X_STAT <$> ["stream_"; "subscription_"; "connector_"; "cache_store_"; "query_"; "view_"]) ++
  hs_stats "stream_stat_" per_stream_stats_inc ++
  hs_stats "connector_stat_" per_connector_stats_inc ++
  hs_stats "query_stat_" per_query_stats_inc ++
  hs_stats "view_stat_" per_view_stats_inc ++
  hs_stats "subscription_stat_" per_subscription_stats_inc ++
  hs_stats "cache_store_stat_" per_cache_store_stats_inc ++
  hs_series "stream_" per_stream_time_series_inc ++
  hs_time_series "stream_" "c_stream_time_series_get" "c_stream_time_series_getall_by_name" ++
  hs_series "subscription_" per_subscription_time_series_inc ++
  hs_time_series "subscription_" "subscription_time_series_get" "subscription_time_series_getall_by_name" ++
  hs_series "handle_" per_handle_time_series_inc ++
  hs_time_series "handle_" "handle_time_series_get" "handle_time_series_getall_by_name" ++
  (hs_VERIFY_INTERVALS <$> ["per_stream_"; "per_subscription_"; "per_handle_"]) ++
  hs_histograms.

(** ** What the functions do *)

Section calls.
Context {SC : StatsCounter} {D : Double} {TS : TimeSeries} {HB : Histograms}.
Context {LD : LdCheck} {OS : IterOrder string} {OT : IterOrder nat}.

(** The functions that take a key and a value; [None] is a function of another
    type. *)
Definition call_update (t : target) (key : string) (val now : Z) (tid : nat) (sh : option StatsHolder)
    : option (option StatsHolder) :=
  match t with
  | StatAdd x i => Some (stat_add x i key val tid sh)
  | StatSet x i => Some (stat_set x i key val tid sh)
  | SeriesAdd x j => Some (time_series_add x j key val now tid sh)
  | _ => None
  end.

(** The functions that read an aggregated [Stats]; without one, nothing is
    written to the results of [getall]. *)
Definition call_get (t : target) (key : string) (stats : option Stats) : option Z :=
  match t with StatGet x i => Some (stat_get x i key stats) | _ => None end.

Definition call_getall (t : target) (stats : option Stats) : option (option (Z * list string * list Z)) :=
  match t with
  | StatGetallOf x i =>
      Some ((fun s => cppMapToHs (stats_map x s) (fun p => default 0 (load <$> counters p !! i))) <$> stats)
  | _ => None
  end.
End calls.

(** The linker: the exported function of a name. *)
Definition link (name : string) : option symbol :=
  snd <$> list_find (fun s => s_name s = name) exports.

(** ** Proofs *)

Lemma exports_NoDup : NoDup (s_name <$> exports).
Proof. apply (bool_decide_unpack _). by vm_compute. Qed.

Definition resolves (i : import) : bool :=
  match link (i_name i) with
  | Some s => bool_decide (s_args s = i_args i) && bool_decide (s_ret s = i_ret i)
  | None => false
  end.

Lemma imports_resolve_all : forallb resolves imports = true.
Proof. by vm_compute. Qed.

Lemma link_unique s : s ∈ exports -> link (s_name s) = Some s.
Proof.
  intros Hs. unfold link. destruct (list_find (fun s' => s_name s' = s_name s) exports) as [[k s']|] eqn:E.
  - apply list_find_Some in E as (Hk & Hn & _). cbn. f_equal.
    apply list_elem_of_lookup in Hs as [k' Hk'].
    assert (k = k') as <-; [|congruence].
    eapply (NoDup_lookup (s_name <$> exports)); [apply exports_NoDup| |];
      rewrite list_lookup_fmap; [rewrite Hk|rewrite Hk']; cbn; by rewrite ?Hn.
  - apply list_find_None in E. rewrite Forall_forall in E. by destruct (E s Hs).
Qed.

(** Every function Haskell imports is exported by exactly one C function of
    that name, with the same machine types of arguments and result; no two C
    functions have the same name. *)
Theorem imports_resolve i : i ∈ imports ->
  exists s, s ∈ exports /\ s_name s = i_name i /\ s_args s = i_args i /\ s_ret s = i_ret i /\
    (forall s', s' ∈ exports -> s_name s' = i_name i -> s' = s).
Proof.
  intros Hi. pose proof imports_resolve_all as H. rewrite forallb_forall in H.
  specialize (H i (proj1 (list_elem_of_In _ _) Hi)). unfold resolves in H.
  destruct (link (i_name i)) as [s|] eqn:E; [|done].
  apply andb_prop in H as [Ha%bool_decide_eq_true Hr%bool_decide_eq_true].
  unfold link in E. destruct (list_find _ exports) as [[k s0]|] eqn:Ef; [|done]. cbn in E. injection E as ->.
  apply list_find_Some in Ef as (Hk & Hn & _). exists s.
  assert (Hs : s ∈ exports) by (by eapply list_elem_of_lookup_2). split_and!; try done.
  intros s' Hs' Hn'. pose proof (link_unique s Hs) as H1. pose proof (link_unique s' Hs') as H2.
  rewrite Hn in H1. rewrite Hn' in H2. congruence.
Qed.

(** The symbols of one counter. *)
Lemma stats_exported x i name agg : stat_defs x !! i = Some (name, agg) ->
  PER_X_STAT_DEFINE (prefix_of x +:+ "stat_") x i name ⊆ exports.
Proof.
  intros Hi. assert (Hx : PER_X_STAT_DEFINE (prefix_of x +:+ "stat_") x i name ⊆ stats_of x).
  { intros s Hs. unfold stats_of. apply list_elem_of_In, in_concat. eexists.
    split; [|by apply list_elem_of_In, Hs].
    apply list_elem_of_In, list_elem_of_lookup. exists i. by rewrite list_lookup_imap, Hi. }
  intros s Hs. specialize (Hx s Hs). unfold exports, PerStreamStats_section, PerConnectorStats_section,
    PerCacheStoreStats_section, PerQueryStats_section, PerViewStats_section, PerSubscriptionStats_section.
  rewrite !elem_of_app. destruct x; by auto 20.
Qed.

Section coherence.
Context {SC : StatsCounter} {D : Double} {TS : TimeSeries} {HB : Histograms}.
Context {LD : LdCheck} {OS : IterOrder string} {OT : IterOrder nat}.

(** For every counter of the tables the functions of its name that add, set, get
    and read all values refer to the same member as a lookup by name: what the
    generated [getall] returns for an aggregated [Stats] is what the [getall] by
    name returns for the holder it was aggregated from. *)
Theorem counter_functions_agree x i name agg : stat_defs x !! i = Some (name, agg) ->
  let f op := s_target <$> link ((prefix_of x +:+ "stat_") +:+ op +:+ name) in
  f "add_" = Some (StatAdd x i) /\ f "set_" = Some (StatSet x i) /\ f "get_" = Some (StatGet x i) /\
  f "getall_" = Some (StatGetallOf x i) /\
  forall h, stat_getall x name (Some h) =
    (s ← new_aggregate_stats h; call_getall (StatGetallOf x i) (Some s)).
Proof.
  intros Hi f. pose proof (stats_exported x i name agg Hi) as Hex.
  assert (Hl : Forall (fun s => link (s_name s) = Some s) (PER_X_STAT_DEFINE (prefix_of x +:+ "stat_") x i name))
    by (apply Forall_forall; intros s Hs; by apply link_unique, Hex).
  unfold PER_X_STAT_DEFINE in Hl. rewrite !Forall_cons in Hl. cbn [s_name] in Hl.
  destruct Hl as (H1 & H2 & H3 & H4 & _). unfold f. rewrite H1, H2, H3, H4. split_and!; [done..|].
  intros h. unfold stat_getall, perXStatsGetall, new_aggregate_stats.
  assert (setPerStatsMember x name = Some i) as ->; [|by destruct (aggregate_nonew h)].
  apply setPerStatsMember_spec. by rewrite list_lookup_fmap, Hi.
Qed.
End coherence.
End StatsExports.

Module StatsExportsWitness.
Import StatsExports StatsWitness.

Lemma imports_resolve_witness :
  exists s, s ∈ exports /\ s_name s = "stream_stat_add_append_total".
Proof.
  destruct (imports_resolve (imported "stream_stat_add_append_total" [APtr; APtr; AInt64] AVoid))
    as (s & Hs & Hn & _); [by apply (list_elem_of_lookup_2 _ 18)|by exists s].
Defined.

Lemma counter_functions_agree_witness :
  s_target <$> link "view_stat_set_total_execute_queries" = Some (StatSet per_view 0).
Proof.
  apply (counter_functions_agree (SC := _) per_view 0 "total_execute_queries" SUM). done.
Defined.
End StatsExportsWitness.
