(* ===== verification/ClusterQuery.v ===== *)
(** * Queries on a cluster (src/hstream-admin/server/cbits/query/Query.cpp,
      cbits/hs_query.cpp and src/common/hstream/cbits/query/Table.h)

    A query object has a context, which makes the client of the cluster when it
    is first needed, and the eight tables. Here the parts come together: the
    table, its cache and its parsing threads (AdminTable.v), the client with its
    pool (AdminClient.v) and the definitions of the tables (AdminTables.v). *)

From stdpp Require Import base gmap strings list pretty.
From Stdlib Require Import ZArith Lia.
From S2P Require Import Prelude NameNormalizer AdminTableData AdminTable AdminClient AdminTables.
Import AdminTableData AdminTable AdminClient.

Module ClusterQuery.
Section query.
Context {LQ : Ldquery} {FT : FollyTo} {GS : Gason}.
Context {OS : IterOrder string} {OZ : IterOrder Z}.
Context (TEXT BIGINT : DataType).

#[local] Notation table_def := (@AdminTables.table_def LQ).

(** ** The query object *)

(** [struct Context]; a client is known by the address it was made for. *)
Record Context_ := {
  addr_ : string;
  adminCommandClient_ : option string;
  activeQueryMetadata : Metadata;
}.

Definition getClient (c : Context_) : string * Context_ :=
  match adminCommandClient_ c with
  | Some client => (client, c)
  | None =>
      (addr_ c, {| addr_ := addr_ c; adminCommandClient_ := Some (addr_ c);
                   activeQueryMetadata := activeQueryMetadata c |})
  end.

(** [class Query]: the context, and the registered tables with their state. *)
Record Query := { ctx_ : Context_; tables_ : list (table_def * Table) }.

(** The constructor. [attached] is what [attachTables] of ldquery returns,
    [cache_ttl] how long it keeps entries and [fresh] its metadata of a new
    context; [None] is [ConstructorFailed]. *)
Definition new_hstream_query (addr : string) (attached cache_ttl : Z) (fresh : Metadata)
    : option Query :=
  if negb (attached =? 0) then None
  else Some {| ctx_ := {| addr_ := addr; adminCommandClient_ := None;
                          activeQueryMetadata := fresh |};
               tables_ := (fun t => (t, setCacheTTL cache_ttl new_Table)) <$>
                          AdminTables.registerTables TEXT BIGINT |}.

Definition getActiveQuery (q : Query) : Metadata := activeQueryMetadata (ctx_ q).

(** ** One request for rows *)

(** The system: the order of a hash set, the interleaving of the parsing threads
    and of the pool's threads for a number of requests; and the cluster: how the
    call for the [i]-th request ends, and, below, the nodes the server at an
    address reports. *)
Context (used_order : gset nat -> list nat) (sched pool : nat -> list nat).
Context (rpc : nat -> Request -> rpc_end string).

Definition request_of (r : string * string) : Request := {| addr := r.1; request := r.2 |}.

(** [client->send(requests)]; [send] returns when all calls have ended. *)
Definition client_send (requests : list (string * string)) : list Response :=
  default [] (send rpc (pool (length requests)) (request_of <$> requests)).

(** [getData] of the table at a position; the nodes are those the cluster
    reports now. *)
Definition query_getData (describe : string -> rpc_end (list ServerNode)) (q : Query)
    (pos : nat) (now : Z) (qctx : QueryContext) : res (TableData * Query) :=
  match tables_ q !! pos with
  | None => undefined
  | Some (t, T) =>
      let '(client, c) := getClient (ctx_ q) in
      nodes_configuration ← getNodesConfiguration (describe client);
      '(rows, T, m) ← getData (AdminTables.getFetchableColumns t) (AdminTables.getCommandToSend t)
                        used_order sched client_send now nodes_configuration qctx T
                        (activeQueryMetadata c);
      Ok (rows, {| ctx_ := {| addr_ := addr_ c; adminCommandClient_ := adminCommandClient_ c;
                              activeQueryMetadata := m |};
                   tables_ := <[pos := (t, T)]> (tables_ q) |})
  end.

(** ** Proofs *)

Context (Hsched : forall n, sched n ≡ₚ all_rounds n) (Hpool : forall n, pool n ≡ₚ seq 0 n).

Lemma client_send_answers requests :
  client_send requests = imap (fun i r => answer rpc i (request_of r)) requests.
Proof.
  unfold client_send. rewrite send_complete by (by rewrite length_fmap). simpl. by rewrite imap_fmap.
Qed.

Lemma mapM_imap {A B C} (f : B -> option C) (g : nat -> A -> B) (h : nat -> A -> C) l :
  (forall i x, l !! i = Some x -> f (g i x) = Some (h i x)) -> mapM f (imap g l) = Some (imap h l).
Proof.
  intros H. apply mapM_Some_2, Forall2_lookup. intros i. rewrite !list_lookup_imap.
  destruct (l !! i) as [x|] eqn:E; simpl; constructor. by apply H.
Qed.

Section fetch.
Context (t : table_def).
#[local] Notation columns := (AdminTables.getFetchableColumns t).
#[local] Notation cmd := (AdminTables.command t).

(** What comes of asking the [i]-th node: a table, or the reason of its failure;
    [None] when parsing its reply throws. *)
Definition node_end (i : nat) (node : ServerNode) : option (string + TableData) :=
  match rpc i {| addr := address node; request := cmd |} with
  | Reply json =>
      match transformData columns json with
      | Ok (Success d) => Some (inr d)
      | Ok (Failure reason) => Some (inl reason)
      | Err _ => None
      end
  | StatusError code message => Some (inl (pretty code +:+ ": " +:+ message)%string)
  | Thrown what => Some (inl what)
  end.

Definition node_data (i : nat) (node : ServerNode) : TableData :=
  match node_end i node with Some (inr d) => d | _ => ∅ end.

(** The rows of a node, labelled with its id. *)
Definition labelled (node : ServerNode) (d : TableData) : TableData :=
  if decide (d = ∅) then ∅
  else <["node_id" := replicate (numRows d) (Some (pretty (id node)))]> d.

Definition node_rows (i : nat) (node : ServerNode) : TableData :=
  labelled node (node_data i node).

(** The whole answer: for every column some node has, the values of the nodes
    one after the other, with nulls for a node that lacks it. *)
Definition cluster_table (nodes : list ServerNode) (d : TableData) : Prop :=
  let parts := imap node_rows nodes in
  forall name, d !! name =
    if decide (Exists (has_column name) parts) then Some (concat (pad name <$> parts)) else None.

(** No reply makes the parser throw, and those that are tables are rectangular. *)
Definition well_answered (nodes : list ServerNode) : Prop :=
  forall i node, nodes !! i = Some node ->
    match node_end i node with
    | Some (inr d) => exists n, rectangular n d
    | Some (inl _) => True
    | None => False
    end.

(** The reply after the parsing thread has treated it. *)
Definition treated (i : nat) (node : ServerNode) : option (TableData * Response) :=
  transform_one (transformData columns) ∅
    (answer rpc i {| addr := address node; request := cmd |}).

Lemma treated_end i node : node_end i node <> None ->
  exists r, treated i node = Some (node_data i node, r) /\
    match node_end i node with
    | Some (inl reason) => success r = false /\ failure_reason r = reason
    | _ => success r = true
    end.
Proof.
  unfold treated, node_data, node_end, answer, transform_one.
  destruct (rpc i _) as [json|code message|w]; simpl; [|eauto..].
  destruct (transformData columns json) as [[d|reason]|]; simpl; [eauto..|done].
Qed.

Lemma add_node_id_labelled node d n : rectangular n d -> add_node_id node d = labelled node d.
Proof.
  intros Hd. unfold add_node_id, labelled. destruct (decide (d = ∅)) as [->|Hne].
  - destruct (iter_list ∅) as [|[k c] l] eqn:E; [done|].
    assert (H : (k, c) ∈ iter_list (∅ : TableData)) by (rewrite E; set_solver).
    apply elem_of_iter_list in H. by rewrite lookup_empty in H.
  - destruct (iter_list d) as [|[k c] l] eqn:E.
    + exfalso. apply Hne, map_eq. intros k. rewrite lookup_empty. destruct (d !! k) as [c|] eqn:Hk; [|done].
      apply elem_of_iter_list in Hk. rewrite E in Hk. by apply not_elem_of_nil in Hk.
    + assert (H : (k, c) ∈ iter_list d) by (rewrite E; set_solver). apply elem_of_iter_list in H.
      by rewrite (Hd k c H), (numRows_rectangular d n).
Qed.

Definition treated_response (i : nat) (node : ServerNode) : Response :=
  default {| response := EmptyString; success := false; failure_reason := EmptyString |}
    (snd <$> treated i node).

Lemma treated_all nodes : well_answered nodes ->
  transformDataParallel (transformData columns) (sched (length nodes))
    (client_send ((fun node => (address node, cmd)) <$> nodes)) =
  Some (imap node_data nodes, imap treated_response nodes).
Proof.
  intros Hw. rewrite client_send_answers, imap_fmap. unfold compose, request_of. simpl.
  rewrite transform_any_order by (by rewrite length_imap). unfold transformDataSequential.
  rewrite (mapM_imap _ _ (fun i node => (node_data i node, treated_response i node))).
  - simpl. by rewrite !fmap_imap.
  - intros i node Hi. specialize (Hw i node Hi).
    destruct (treated_end i node) as (r & E & _); [by intros E; rewrite E in Hw|].
    unfold treated_response. by rewrite E.
Qed.

Lemma node_rows_rectangular nodes : well_answered nodes ->
  Forall (fun d => rectangular (numRows d) d) (imap node_rows nodes).
Proof.
  intros Hw. apply Forall_lookup. intros i d. rewrite list_lookup_imap. intros (node & Hi & ->)%fmap_Some.
  specialize (Hw i node Hi). unfold node_rows, node_data, labelled.
  destruct (node_end i node) as [[|d]|]; [apply map_Forall_empty| |done].
  destruct Hw as [n Hn]. case_decide as Hd; [apply map_Forall_empty|].
  rewrite (numRows_rectangular d n) by done.
  assert (rectangular n (<["node_id" := replicate n (Some (pretty (id node)))]> d)) as Hl
    by (apply map_Forall_insert_2; [apply length_replicate|done]).
  rewrite (numRows_rectangular _ n); [done|apply insert_non_empty|done].
Qed.

Lemma labelled_results nodes : well_answered nodes ->
  zip_with add_node_id nodes (imap node_data nodes) = imap node_rows nodes.
Proof.
  intros Hw. apply list_eq. intros i. rewrite lookup_zip_with, !list_lookup_imap.
  destruct (nodes !! i) as [node|] eqn:Hi; [|done]. simpl. f_equal. unfold node_rows, node_data.
  specialize (Hw i node Hi). destruct (node_end i node) as [[|d]|]; [|destruct Hw as [n Hn]|].
  - by apply (add_node_id_labelled node ∅ 0), map_Forall_empty.
  - by apply (add_node_id_labelled node d n).
  - done.
Qed.

(** ** Failures *)

Lemma record_failures_snoc nodes rs node r f : length nodes = length rs ->
  record_failures (nodes ++ [node]) (rs ++ [r]) f =
    let f := record_failures nodes rs f in
    if success r then f else <[id node := (address node, failure_reason r)]> f.
Proof. intros H. unfold record_failures. by rewrite zip_with_app, foldl_app by done. Qed.

(** The nodes that failed are recorded with their address and the reason, and
    nothing else is. *)
Definition failures_recorded (nodes : list ServerNode) (f f' : gmap Z (string * string)) : Prop :=
  (forall i node reason, nodes !! i = Some node -> node_end i node = Some (inl reason) ->
     f' !! id node = Some (address node, reason)) /\
  (forall n, (forall i node, nodes !! i = Some node -> id node = n ->
                exists d, node_end i node = Some (inr d)) -> f' !! n = f !! n).

Lemma record_failures_spec nodes f : NoDup (id <$> nodes) -> well_answered nodes ->
  failures_recorded nodes f (record_failures nodes (imap treated_response nodes) f).
Proof.
  induction nodes as [|node nodes IH] using rev_ind; intros Hn Hw; [done|].
  rewrite fmap_app, NoDup_app in Hn. destruct Hn as (Hn & Hdis & _).
  destruct IH as [IH1 IH2]; [done|intros i x Hi; apply Hw; by apply lookup_app_l_Some|].
  rewrite imap_app. cbn [imap]. rewrite record_failures_snoc by (by rewrite length_imap).
  unfold compose. rewrite Nat.add_0_r. cbv zeta.
  assert (Hlast : (nodes ++ [node]) !! length nodes = Some node) by (by apply list_lookup_middle).
  pose proof (Hw _ _ Hlast) as Hw'.
  destruct (treated_end (length nodes) node) as (r & E & Hr); [by intros E; rewrite E in Hw'|].
  unfold treated_response at 1 3. rewrite E. simpl.
  assert (Hold : forall i x, nodes !! i = Some x -> id x <> id node).
  { intros i x Hi Hid. apply (Hdis (id x)); [|rewrite Hid; set_solver].
    apply list_elem_of_fmap. exists x. split; [done|]. by eapply list_elem_of_lookup_2. }
  split.
  - intros i x reason Hi He. apply lookup_snoc_Some in Hi as [[Hlt Hi]|[-> <-]].
    + destruct (success r); [by eapply IH1|]. rewrite lookup_insert_ne by (apply not_eq_sym; by eapply Hold).
      by eapply IH1.
    + rewrite He in Hr. destruct Hr as [-> <-]. by rewrite lookup_insert_eq.
  - intros n Hall. destruct (success r) eqn:Hs.
    + apply IH2. intros i x Hi Hid. apply (Hall i); [by apply lookup_app_l_Some|done].
    + rewrite lookup_insert_ne.
      * apply IH2. intros i x Hi Hid. apply (Hall i); [by apply lookup_app_l_Some|done].
      * intros <-. destruct (Hall _ _ Hlast eq_refl) as [d Hd]. rewrite Hd in Hr. congruence.
Qed.

(** ** Fetching *)

Definition with_rows (now : Z) (qctx : QueryContext) (d : TableData) (T : Table) : Table :=
  {| admin_cmd_cache_ := <[used_constraints qctx := {| entry := {| data := d; indices := ∅ |};
                                                      created := now |}]> (admin_cmd_cache_ T);
     num_fetches_ := u64 (num_fetches_ T + 1); cache_ttl_ := cache_ttl_ T;
     enable_server_side_filtering_ := enable_server_side_filtering_ T |}.

Lemma fetch_cluster now nodes qctx T m : well_answered nodes -> NoDup (id <$> nodes) ->
  exists d m', fetch columns sched client_send now nodes cmd qctx T m = Ok (with_rows now qctx d T, m') /\
    cluster_table nodes d /\ contacted_nodes m' = contacted_nodes m + Z.of_nat (length nodes) /\
    failures_recorded nodes (failures m) (failures m').
Proof.
  intros Hw Hn. unfold fetch. cbv zeta. rewrite length_fmap.
  assert (Hl : length (client_send ((fun node => (address node, cmd)) <$> nodes)) = length nodes)
    by (rewrite client_send_answers, length_imap; apply length_fmap).
  rewrite Hl, bool_decide_eq_true_2 by done. cbn [hs_check mbind res_bind].
  rewrite treated_all by done. cbv beta iota.
  rewrite bool_decide_eq_true_2 by (by rewrite !length_imap). cbn [hs_check mbind res_bind].
  rewrite labelled_results by done.
  destruct (aggregate_spec (imap node_rows nodes)) as (d & -> & _ & Hd); [by apply node_rows_rectangular|].
  cbn [mbind res_bind]. eexists d, _. split; [reflexivity|]. split_and!; [exact Hd|done|].
  by apply record_failures_spec.
Qed.

(** The selected nodes do not change the table's command. *)
Lemma refill_cluster now nodes qctx sel qctx1 T m :
  0 <= num_fetches_ T <= MAX_FETCHES -> enable_server_side_filtering_ T = true ->
  selectNodes used_order true nodes qctx = Ok (sel, qctx1) ->
  refillCache columns (AdminTables.getCommandToSend t) used_order sched client_send now (Some nodes)
    qctx T m =
  if dataIsInCacheForUsedConstraints (used_constraints qctx1) T then Ok (T, qctx1, m)
  else '(T, m) ← fetch columns sched client_send now sel cmd qctx1 T m; Ok (T, qctx1, m).
Proof.
  intros Hf He Hs. unfold refillCache.
  assert (Ha : allowServerSideFiltering T = true)
    by (unfold allowServerSideFiltering; rewrite He; apply Z.leb_le; lia).
  rewrite Ha, Hs. cbn [mbind res_bind]. unfold AdminTables.getCommandToSend.
  assert (Hu : set_used (used_constraints qctx1) qctx1 = qctx1) by (by destruct qctx1). rewrite Hu.
  destruct (dataIsInCacheForUsedConstraints _ T); [done|].
  by rewrite (proj2 (Z.ltb_ge _ _)) by lia.
Qed.

Lemma getData_frame now nodes qctx T m r T2 m2 :
  getData columns (AdminTables.getCommandToSend t) used_order sched client_send now nodes qctx T m =
    Ok (r, T2, m2) ->
  exists T1 qctx1, refillCache columns (AdminTables.getCommandToSend t) used_order sched client_send
      now nodes qctx T m = Ok (T1, qctx1, m2) /\
    num_fetches_ T2 = num_fetches_ T1 /\
    enable_server_side_filtering_ T2 = enable_server_side_filtering_ T1.
Proof.
  unfold getData. intros H. apply bind_Ok in H as ([[T1 qctx1] m1] & E & H).
  apply bind_Ok in H as (u & _ & H). destruct (admin_cmd_cache_ T1 !! _) as [e|]; [|done].
  apply bind_Ok in H as ([r' d'] & _ & H). injection H as _ <- <-. exists T1, qctx1. by split_and!.
Qed.

(** ** A table's answer *)

Lemma getData_cluster now nodes qctx sel qctx1 T m :
  wf_table columns T -> 0 <= num_fetches_ T < MAX_FETCHES ->
  enable_server_side_filtering_ T = true -> indexable_ok columns qctx ->
  selectNodes used_order true nodes qctx = Ok (sel, qctx1) ->
  admin_cmd_cache_ T !! used_constraints qctx1 = None ->
  NoDup (id <$> sel) -> well_answered sel ->
  exists d T2 m', getData columns (AdminTables.getCommandToSend t) used_order sched client_send now
      (Some nodes) qctx T m = Ok (matching columns qctx d, T2, m') /\
    cluster_table sel d /\ contacted_nodes m' = contacted_nodes m + Z.of_nat (length sel) /\
    failures_recorded sel (failures m) (failures m') /\
    (wf_table columns T2 /\ 0 <= num_fetches_ T2 <= MAX_FETCHES /\
     enable_server_side_filtering_ T2 = true /\
     (data ∘ entry) <$> admin_cmd_cache_ T2 !! used_constraints qctx1 = Some d).
Proof.
  intros Hwf Hf He Hok Hs Hmiss Hn Hw.
  destruct (fetch_cluster now sel qctx1 T m Hw Hn) as (d & m' & Ef & Hd & Hc & Hfail).
  assert (Er : refillCache columns (AdminTables.getCommandToSend t) used_order sched client_send now
    (Some nodes) qctx T m = Ok (with_rows now qctx1 d T, qctx1, m')).
  { rewrite (refill_cluster now nodes qctx sel qctx1 T m) by (done || lia).
    unfold dataIsInCacheForUsedConstraints. rewrite Hmiss, bool_decide_eq_false_2 by (by intros []).
    by rewrite Ef. }
  destruct (getData_spec _ _ _ _ _ _ _ _ _ _ _ _ _ Hwf Hok Er) as (e & T2 & He2 & Eg & Hwf2 & Hdata).
  simpl in He2. rewrite lookup_insert_eq in He2. injection He2 as <-. simpl in Eg.
  destruct (getData_frame _ _ _ _ _ _ _ _ Eg) as (T1 & q1 & E1 & Hf2 & He3).
  rewrite Er in E1. injection E1 as <- _. simpl in Hf2, He3. unfold MAX_FETCHES in *.
  rewrite u64_id in Hf2 by (unfold is_u64; lia).
  exists d, T2, m'. split_and!; try (done || lia); [congruence|].
  rewrite <- lookup_fmap, Hdata, lookup_fmap. simpl. by rewrite lookup_insert_eq.
Qed.

Lemma getData_cached now nodes qctx sel qctx1 T m d :
  wf_table columns T -> 0 <= num_fetches_ T <= MAX_FETCHES ->
  enable_server_side_filtering_ T = true -> indexable_ok columns qctx ->
  selectNodes used_order true nodes qctx = Ok (sel, qctx1) ->
  (data ∘ entry) <$> admin_cmd_cache_ T !! used_constraints qctx1 = Some d ->
  exists T2, getData columns (AdminTables.getCommandToSend t) used_order sched client_send now
      (Some nodes) qctx T m = Ok (matching columns qctx d, T2, m).
Proof.
  intros Hwf Hf He Hok Hs Hd. apply fmap_Some in Hd as (e & Hc & ->).
  assert (Er : refillCache columns (AdminTables.getCommandToSend t) used_order sched client_send now
    (Some nodes) qctx T m = Ok (T, qctx1, m)).
  { rewrite (refill_cluster now nodes qctx sel qctx1 T m) by done.
    unfold dataIsInCacheForUsedConstraints. by rewrite Hc, bool_decide_eq_true_2 by eauto. }
  destruct (getData_spec _ _ _ _ _ _ _ _ _ _ _ _ _ Hwf Hok Er) as (e' & T2 & He2 & Eg & _).
  rewrite Hc in He2. injection He2 as <-. eauto.
Qed.
End fetch.
End query.

(** ** The rows of one node *)

Lemma positions_app i s (c1 c2 : Column) :
  positions i s (c1 ++ c2) = positions i s c1 ++ positions (i + length c1) s c2.
Proof.
  revert i. induction c1 as [|v c1 IH]; intros i; simpl; [by rewrite Nat.add_0_r|].
  rewrite !positions_cons, IH, <- app_assoc. do 3 f_equal. lia.
Qed.

Lemma positions_replicate i s n v :
  positions i s (replicate n (Some v)) = if decide (v = s) then seq i n else [].
Proof.
  revert i. induction n as [|n IH]; intros i; simpl; [by case_decide|].
  rewrite positions_cons, IH. repeat case_decide; simplify_eq; done.
Qed.

Lemma rows_at_middle (l1 c l2 : Column) :
  rows_at (seq (length l1) (length c)) (l1 ++ c ++ l2) = c.
Proof.
  revert l1. induction c as [|v c IH]; intros l1; [done|]. unfold rows_at in *. cbn [length seq].
  cbn [omap list_omap]. change (l1 ++ (v :: c) ++ l2) with (l1 ++ v :: (c ++ l2)).
  rewrite list_lookup_middle by done. f_equal.
  specialize (IH (l1 ++ [v])). rewrite length_app, Nat.add_1_r, <- app_assoc in IH. exact IH.
Qed.

Section node.
Context {LQ : Ldquery} {FT : FollyTo} {GS : Gason}.
Context {OS : IterOrder string} {OZ : IterOrder Z}.
Context (rpc : nat -> Request -> rpc_end string) (t : @AdminTables.table_def LQ).

Lemma pad_length nodes i node name : well_answered rpc t nodes -> nodes !! i = Some node ->
  length (pad name (node_rows rpc t i node)) = numRows (node_rows rpc t i node).
Proof.
  intros Hw Hi. pose proof (node_rows_rectangular rpc t nodes Hw) as Hr.
  rewrite Forall_lookup in Hr. specialize (Hr i (node_rows rpc t i node)).
  rewrite list_lookup_imap, Hi in Hr. specialize (Hr eq_refl). unfold pad.
  destruct (node_rows rpc t i node !! name) as [c|] eqn:E; [by apply (Hr name)|apply length_replicate].
Qed.

(** The column of node ids of one node. *)
Lemma pad_node_id nodes i node : well_answered rpc t nodes -> nodes !! i = Some node ->
  pad "node_id" (node_rows rpc t i node) =
    replicate (numRows (node_rows rpc t i node)) (Some (pretty (id node))).
Proof.
  intros Hw Hi. pose proof (pad_length nodes i node "node_id" Hw Hi) as Hl. revert Hl.
  unfold node_rows, labelled. destruct (decide (node_data rpc t i node = ∅)) as [E|E].
  - intros _. unfold pad. by rewrite lookup_empty, numRows_empty.
  - unfold pad. rewrite lookup_insert_eq. simpl. rewrite length_replicate. intros Hl. by f_equal.
Qed.

Lemma positions_elsewhere k s (parts : list TableData) :
  Forall (fun p => exists v, v <> s /\ pad "node_id" p = replicate (numRows p) (Some v)) parts ->
  positions k s (concat (pad "node_id" <$> parts)) = [].
Proof.
  intros H. revert k. induction H as [|p parts (v & Hv & E) _ IH]; intros k; [done|].
  rewrite fmap_cons. cbn [concat]. by rewrite positions_app, IH, E, positions_replicate, decide_False.
Qed.

Lemma length_pads name (parts : list TableData) :
  Forall (fun p => length (pad name p) = numRows p) parts ->
  length (concat (pad name <$> parts)) = rows_of parts.
Proof.
  unfold rows_of. induction 1 as [|p parts E _ IH]; [done|]. rewrite fmap_cons. cbn [concat].
  rewrite length_app, E, IH. done.
Qed.

(** A column of the cluster's table, around the values of one node. *)
Lemma cluster_column nodes d i p name (parts := imap (node_rows rpc t) nodes) :
  cluster_table rpc t nodes d -> parts !! i = Some p -> has_column name p \/ is_Some (d !! name) ->
  d !! name = Some (concat (pad name <$> take i parts) ++ pad name p ++
                    concat (pad name <$> drop (S i) parts)).
Proof.
  intros Hd Hp Hc. pose proof (Hd name) as E. cbv zeta in E. fold parts in E. case_decide as Hex.
  - pose proof (take_drop_middle parts i p Hp) as Hsplit.
    rewrite E. rewrite <- Hsplit at 1. by rewrite fmap_app, fmap_cons, concat_app.
  - exfalso. destruct Hc as [Hc|Hc]; [|rewrite E in Hc; by destruct Hc].
    apply Hex, Exists_exists. exists p. split; [|done]. by eapply list_elem_of_lookup_2.
Qed.

Lemma other_labels nodes i node j q : well_answered rpc t nodes -> NoDup (id <$> nodes) ->
  nodes !! i = Some node -> imap (node_rows rpc t) nodes !! j = Some q -> j <> i ->
  exists v, v <> pretty (id node) /\ pad "node_id" q = replicate (numRows q) (Some v).
Proof.
  intros Hw Hn Hi. rewrite list_lookup_imap. intros (x & Hx & ->)%fmap_Some Hji.
  exists (pretty (id x)). split; [|by eapply pad_node_id]. intros E%(inj pretty). apply Hji.
  eapply (NoDup_lookup _ j i (id x) Hn); rewrite list_lookup_fmap; [by rewrite Hx|by rewrite Hi, E].
Qed.

Lemma matching_node nodes d i node qctx op :
  well_answered rpc t nodes -> NoDup (id <$> nodes) -> cluster_table rpc t nodes d ->
  nodes !! i = Some node -> numRows (node_rows rpc t i node) <> 0%nat ->
  findIndexableConstraint qctx = Some (0, (op, Some (pretty (id node)))) ->
  forall name, matching (AdminTables.getFetchableColumns t) qctx d !! name =
    (fun _ => pad name (node_rows rpc t i node)) <$> d !! name.
Proof.
  intros Hw Hn Hd Hi Hrows Hf name. set (p := node_rows rpc t i node) in *.
  set (parts := imap (node_rows rpc t) nodes).
  assert (Hp : parts !! i = Some p) by (unfold parts; by rewrite list_lookup_imap, Hi).
  pose proof (fun n => cluster_column nodes d i p n Hd Hp) as Hcol. cbv zeta in Hcol. fold parts in Hcol.
  assert (Hlen : forall n, length (concat (pad n <$> take i parts)) = rows_of (take i parts)).
  { intros n. apply length_pads, Forall_take, Forall_lookup. intros j q. unfold parts.
    rewrite list_lookup_imap. intros (x & Hx & ->)%fmap_Some. by eapply pad_length. }
  assert (Hid : has_column "node_id" p).
  { unfold p, node_rows, labelled in *. case_decide as E.
    - by rewrite numRows_empty in Hrows.
    - unfold has_column. rewrite lookup_insert_eq. eauto. }
  unfold matching. rewrite Hf. change (getColumnsImpl _ !! Z.to_nat 0) with (Some ("node_id", INTEGER)).
  cbv beta iota. rewrite (Hcol "node_id") by (by left).
  assert (Hpos : positions 0 (pretty (id node)) (concat (pad "node_id" <$> take i parts) ++
      pad "node_id" p ++ concat (pad "node_id" <$> drop (S i) parts)) =
    seq (rows_of (take i parts)) (numRows p)).
  { rewrite !positions_app, Hlen. rewrite (positions_elsewhere 0), positions_elsewhere.
    - unfold p. rewrite (pad_node_id nodes i node), positions_replicate, decide_True by done.
      by rewrite app_nil_r.
    - apply Forall_lookup. intros j q Hq. rewrite lookup_drop in Hq. eapply other_labels; [done..|exact Hq|lia].
    - apply Forall_lookup. intros j q Hq. apply lookup_take_Some in Hq as [Hq Hlt].
      eapply other_labels; [done..|exact Hq|lia]. }
  rewrite Hpos. rewrite decide_False by (intros E; apply (f_equal length) in E;
    rewrite length_seq in E; done).
  rewrite lookup_fmap. destruct (d !! name) as [c|] eqn:Hc; [|done]. simpl. f_equal.
  rewrite (Hcol name) in Hc by (right; rewrite Hc; eauto). injection Hc as <-.
  pose proof (pad_length nodes i node name Hw Hi) as Hl. fold p in Hl.
  rewrite <- (Hlen name), <- Hl. apply rows_at_middle.
Qed.

(** The rows of one node can be selected by its id: from the cached rows of the
    whole cluster a query with an equality constraint on the node id is served
    exactly the rows of that node, with nulls in the columns only other nodes
    have. *)
Theorem node_filter_rows nodes e i node qctx op :
  wf_data (AdminTables.getFetchableColumns t) e ->
  well_answered rpc t nodes -> NoDup (id <$> nodes) -> cluster_table rpc t nodes (data e) ->
  nodes !! i = Some node -> numRows (node_rows rpc t i node) <> 0%nat ->
  findIndexableConstraint qctx = Some (0, (op, Some (pretty (id node)))) ->
  exists r e', serve (AdminTables.getFetchableColumns t) qctx e = Ok (r, e') /\
    data e' = data e /\
    forall name, r !! name = (fun _ => pad name (node_rows rpc t i node)) <$> data e !! name.
Proof.
  intros He Hw Hn Hd Hi Hr Hf.
  destruct (serve_spec (AdminTables.getFetchableColumns t) qctx e He) as (e' & E & Hdata & _).
  { unfold indexable_ok. rewrite Hf. unfold getColumnsImpl, is_i32. cbn [length]. lia. }
  exists (matching (AdminTables.getFetchableColumns t) qctx (data e)), e'. split_and!; [done..|].
  by eapply matching_node.
Qed.
End node.

(** ** The query object's answer *)

Section answers.
Context {LQ : Ldquery} {FT : FollyTo} {GS : Gason}.
Context {OS : IterOrder string} {OZ : IterOrder Z}.
Context (used_order : gset nat -> list nat) (describe : string -> rpc_end (list ServerNode)).

End answers.
End ClusterQuery.

(** ** Witnesses: three nodes, the second of which is down *)
Module ClusterQueryWitness.
Import ClusterQuery AdminTableDataWitness AdminTableWitness.

Definition text : @DataType test_Ldquery := tt.
Definition total := AdminTables.AppendTotalCounter text text.
Definition cluster : list ServerNode := [node 1; node 2; node 3].
Definition describe (_ : string) : rpc_end (list ServerNode) := Reply cluster.
Definition rpc (i : nat) (_ : Request) : rpc_end string :=
  match i with 1%nat => StatusError 14 "down" | _ => Reply "reply" end.
Definition backwards (n : nat) : list nat := reverse (seq 0 n).

Definition q : Query :=
  default {| ctx_ := {| addr_ := "a"; adminCommandClient_ := None; activeQueryMetadata := nothing |};
             tables_ := [] |} (new_hstream_query text text "a" 0 60 nothing).

Definition everything : QueryContext := {| constraints := ∅; used_constraints := ∅ |}.
Definition of_node_3 : QueryContext :=
  {| constraints := {[ 0 := [(2, Some "3")] ]}; used_constraints := ∅ |}.

Definition all_rows : TableData :=
  {[ "stream_name" := [Some "s1"; None; Some "s1"; None];
     "node_id" := [Some "1"; Some "1"; Some "3"; Some "3"] ]}.

Lemma answers_ok : well_answered rpc total cluster.
Proof.
  intros [|[|[|i]]] n Hn; vm_compute in Hn; simplify_eq; [|exact I|].
  all: exists 2%nat; apply (bool_decide_unpack _); by vm_compute.
Qed.

Definition rows_of_node (n : string) : TableData :=
  {[ "stream_name" := [Some "s1"; None]; "node_id" := [Some n; Some n] ]}.

Lemma cluster_parts :
  imap (node_rows rpc total) cluster = [rows_of_node "1"; ∅; rows_of_node "3"].
Proof. by vm_compute. Qed.

Lemma all_rows_spec : cluster_table rpc total cluster all_rows.
Proof.
  unfold cluster_table. rewrite cluster_parts. intros name.
  destruct (decide (name = "stream_name")) as [->|H1]; [by vm_compute|].
  destruct (decide (name = "node_id")) as [->|H2]; [by vm_compute|].
  assert (Hnone : forall c c', ({[ "stream_name" := c; "node_id" := c' ]} : TableData) !! name = None)
    by (intros; by rewrite lookup_insert_ne, lookup_singleton_ne by done).
  unfold all_rows. rewrite Hnone, decide_False; [done|]. unfold has_column.
  intros H. rewrite !Exists_cons, Exists_nil, lookup_empty in H. unfold rows_of_node in H.
  rewrite !Hnone in H. by destruct H as [[]|[[]|[[]|]]].
Qed.


Definition cached : Data := {| data := all_rows; indices := ∅ |}.

Lemma node_filter_rows_witness :
  exists r e, serve (AdminTables.getFetchableColumns total) of_node_3 cached = Ok (r, e) /\
    r !! "stream_name" = Some [Some "s1"; None].
Proof.
  destruct (node_filter_rows rpc total cluster cached 2 (node 3) of_node_3 2)
    as (r & e & E & _ & H).
  - split; [|apply map_Forall_empty]. exists 4%nat. apply (bool_decide_unpack _). by vm_compute.
  - exact answers_ok.
  - apply (bool_decide_unpack _). by vm_compute.
  - exact all_rows_spec.
  - reflexivity.
  - by vm_compute.
  - reflexivity.
  - exists r, e. split; [exact E|]. rewrite H. by vm_compute.
Defined.
End ClusterQueryWitness.
