(* ===== verification/GroupOffsets.v ===== *)
(** * Committed offsets of a consumer group
      (src/hstream-kafka/HStream/Kafka/Group/GroupOffsetManager.hs, OffsetsStore.hs
      and Common/KafkaException.hs)

    A group keeps the offsets its consumers commit in a map by topic and partition,
    and in a checkpoint store by log, from which they are loaded when another server
    takes the group over. This file also has the monad the group coordinator is
    written in. *)

From stdpp Require Import base gmap strings list sorting.
From Stdlib Require Import ZArith Lia.
From S2P Require Import Prelude CheckpointStore StatsHolder Foreign.
Import CheckpointStore Foreign.

(** ** Actions on a state that may throw *)

(** The codes of Kafka.Protocol.Error the coordinator uses. *)
Definition UNKNOWN_SERVER_ERROR : Z := -1.
Definition NONE : Z := 0.
Definition UNKNOWN_TOPIC_OR_PARTITION : Z := 3.
Definition NOT_COORDINATOR : Z := 16.
Definition ILLEGAL_GENERATION : Z := 22.
Definition INCONSISTENT_GROUP_PROTOCOL : Z := 23.
Definition UNKNOWN_MEMBER_ID : Z := 25.
Definition REBALANCE_IN_PROGRESS : Z := 27.
Definition TOPIC_AUTHORIZATION_FAILED : Z := 29.
Definition GROUP_AUTHORIZATION_FAILED : Z := 30.
Definition GROUP_ID_NOT_FOUND : Z := 69.

(** [ErrorCodeException], a failed pattern or [head] of an empty list, a failure of
    the store or the metastore, and, for a call that repeats without end, no answer
    within the fuel. *)
Inductive exn :=
  ErrorCodeException (code : Z) | PatternFail | EmptyList | StoreFailed | NoAnswer.
#[global] Instance exn_eq_dec : EqDecision exn.
Proof. solve_decision. Defined.

(** The assignments made before an exception stay. *)
Definition IO (S A : Type) : Type := S -> S * (exn + A).

#[global] Instance io_ret {S} : MRet (IO S) := fun A a s => (s, inr a).
#[global] Instance io_bind {S} : MBind (IO S) := fun A B f m s =>
  match m s with
  | (s, inl e) => (s, inl e)
  | (s, inr a) => f a s
  end.

Section io.
Context {S : Type}.
Definition throw {A} (e : exn) : IO S A := fun s => (s, inl e).
Definition gets {A} (f : S -> A) : IO S A := fun s => (s, inr (f s)).
Definition modify (f : S -> S) : IO S unit := fun s => (f s, inr tt).
Definition lift {A} (r : exn + A) : IO S A := fun s => (s, r).

(** [V.forM] *)
Fixpoint forM {A B} (l : list A) (f : A -> IO S B) : IO S (list B) :=
  match l with
  | [] => mret []
  | a :: l => b ← f a; bs ← forM l f; mret (b :: bs)
  end.

Lemma bind_run {A B} (m : IO S A) (f : A -> IO S B) s :
  (m ≫= f) s = match m s with (s, inl e) => (s, inl e) | (s, inr a) => f a s end.
Proof. done. Qed.

Lemma forM_cons {A B} (f : A -> IO S B) a l s :
  forM (a :: l) f s =
  match f a s with
  | (s, inl e) => (s, inl e)
  | (s, inr b) => match forM l f s with (s, inl e) => (s, inl e) | (s, inr bs) => (s, inr (b :: bs)) end
  end.
Proof. done. Qed.
End io.

(** Runs the actions at the head of a sequence. *)
Ltac run := repeat first
  [rewrite bind_run | progress cbv beta iota zeta delta [modify gets mret io_ret lift throw]].

(** ** Interfaces *)

(** [OffsetStorage]: where the offsets of a group are kept, by log. A commit that
    returns stores its offsets and keeps the others. *)
Class OffsetStorage (os : Type) := {
  commitOffsets : string -> gmap Z Z -> IO os unit;
  loadOffsets : os -> string -> exn + gmap Z Z;
  stored : os -> string -> gmap Z Z;
  commit_OK : forall s k m s', Z.of_nat (size m) < 2 ^ 31 ->
    commitOffsets k m s = (s', inr tt) -> stored s' k = m ∪ stored s k;
  load_OK : forall s k m, loadOffsets s k = inr m -> m = stored s k;
}.

(** The log groups of LogDevice: the logs of a topic's partitions in the order of
    their names, whether a log is in a group, and the topic it is in. *)
Class TopicTree := {
  listPartitions : string -> exn + list Z;
  logIdHasGroup : Z -> bool;
  topicOfLog : Z -> exn + string;
  tree_topic : forall t ls l, listPartitions t = inr ls -> l ∈ ls ->
    logIdHasGroup l = true /\ topicOfLog l = inr t;
  tree_nodup : forall t ls, listPartitions t = inr ls -> NoDup ls;
}.

(** ** The checkpoint store as a storage of offsets *)

(** An update touches no other checkpoint, whatever it answers. *)
Class CheckpointFrame (St : Type) `{!CheckpointStoreLib St} := {
  updateLSN_frame : forall s c m k, m !! k = None ->
    contents (updateLSN s c m).2 c !! k = contents s c !! k;
}.

Section ckp.
Context {St : Type} `{!CheckpointStoreLib St} (C_AGAIN : Z) (fuel : nat).

Definition ckp_commitOffsets (offsetsKey : string) (offsets : gmap Z Z) : IO St unit := fun s =>
  if decide (offsets = ∅) then (s, inr tt)
  else match ckpStoreUpdateMultiLSN' C_AGAIN fuel (-1) s offsetsKey offsets with
       | Some (Returns _, s) => (s, inr tt)
       | Some (Throws _, s) => (s, inl StoreFailed)
       | None => (s, inl NoAnswer)
       end.

Definition ckp_loadOffsets (s : St) (offsetKey : string) : exn + gmap Z Z :=
  match ckpStoreGetAllCheckpoints' s offsetKey with
  | Some (Returns l) => inr (Map_fromList l)
  | Some (Throws _) => inl StoreFailed
  | None => inl NoAnswer
  end.

Lemma retry_returns c (m : gmap Z Z) n r s s' `{!CheckpointFrame St} :
  Z.of_nat (size m) < 2 ^ 31 ->
  retry_loop (fun e => e =? st_OK) C_AGAIN n (update_multi_once c m) r s = Some (Returns tt, s') ->
  contents s' c = m ∪ contents s c.
Proof.
  intros Hm. revert r s. induction n as [|n IH]; intros r s H; [done|].
  cbn [retry_loop] in H. rewrite update_multi_once_spec in H by done. cbn [mbind option_bind] in H.
  destruct (Z.eqb_spec (updateLSN s c m).1 st_OK) as [Hok|Hne].
  - injection H as <-. rewrite updateLSN_OK by done. by rewrite decide_True.
  - assert (contents s' c = m ∪ contents (updateLSN s c m).2 c) as ->
      by (repeat case_match; try discriminate; by eapply IH).
    apply map_eq. intros k. rewrite !lookup_union. destruct (m !! k) eqn:E.
    + by rewrite !union_Some_l.
    + by rewrite (updateLSN_frame s c m k E).
Qed.

(** The checkpoint store is such a storage, in as many attempts as the fuel allows. *)
#[refine] Definition ckp_storage `{!CheckpointFrame St} : OffsetStorage St :=
  {| commitOffsets := ckp_commitOffsets; loadOffsets := ckp_loadOffsets; stored := contents |}.
Proof.
  - intros s k m s' Hm H. unfold ckp_commitOffsets in H. case_decide as Hd.
    + injection H as <-. by rewrite Hd, (left_id_L ∅ (∪)).
    + destruct (ckpStoreUpdateMultiLSN' _ _ _ _ _ _) as [[[[]|] ?]|] eqn:E; simplify_eq.
      by eapply retry_returns.
  - intros s k m H. unfold ckp_loadOffsets in H.
    destruct (Z.eq_dec (getAllCheckpoints s k).1 st_OK) as [Hst|Hst].
    + pose proof (get_all_spec s k Hst) as Hg. unfold ckpStoreGetAllCheckpoints in Hg.
      destruct (ckpStoreGetAllCheckpoints' s k) as [[]|]; simplify_eq/=. congruence.
    + exfalso. revert H. unfold ckpStoreGetAllCheckpoints', checkpoint_store_get_all_checkpoints.
      destruct (getAllCheckpoints s k) as [st ms]. simpl in Hst. rewrite (proj2 (Z.eqb_neq _ _) Hst).
      unfold withAsyncPrimMapUnsafe. simpl.
      unfold throwStreamErrorIfNotOK'. simpl. rewrite ?(proj2 (Z.eqb_neq _ _) Hst). done.
Defined.
End ckp.

(** ** The manager *)

Module GroupOffsets.

Notation TopicPartition := (string * Z)%type.

Record GroupOffsetManager (os : Type) := {
  groupName : string;
  offsetStorage : os;
  offsetsCache : gmap TopicPartition Z;
  partitionsMap : gmap TopicPartition Z;
}.
Arguments groupName {os}.
Arguments offsetStorage {os}.
Arguments offsetsCache {os}.
Arguments partitionsMap {os}.
Arguments Build_GroupOffsetManager {os}.

Section manager.
Context {os : Type}.
Notation GOM := (GroupOffsetManager os).
Implicit Type g : GOM.

Definition set_storage (s : os) g : GOM :=
  Build_GroupOffsetManager (groupName g) s (offsetsCache g) (partitionsMap g).
Definition set_cache (c : gmap TopicPartition Z) g : GOM :=
  Build_GroupOffsetManager (groupName g) (offsetStorage g) c (partitionsMap g).
Definition set_partitions (m : gmap TopicPartition Z) g : GOM :=
  Build_GroupOffsetManager (groupName g) (offsetStorage g) (offsetsCache g) m.

(** An action of the storage, on the manager. *)
Definition on_storage {A} (m : IO os A) : IO GOM A := fun g =>
  let '(s, r) := m (offsetStorage g) in (set_storage s g, r).

Definition mkGroupOffsetManager (s : os) (name : string) : GOM :=
  {| groupName := name; offsetStorage := s; offsetsCache := ∅; partitionsMap := ∅ |}.

(** The partitions of a topic, numbered from 0. *)
Definition numbered (topic : string) (logs : list Z) : list (TopicPartition * Z) :=
  imap (fun i l => ((topic, Z.of_nat i), l)) logs.

Section topics.
Context {OS : OffsetStorage os} {TT : TopicTree}.

(** [V.!?] *)
Definition vector_at (logs : list Z) (i : Z) : option Z :=
  if i <? 0 then None else logs !! Z.to_nat i.

(** A partition and the offset to commit: what [getOffsetsInfo] finds for it. *)
Definition getOffsetInfo (topic : string) (p : Z * Z) : IO GOM (TopicPartition * Z * Z) :=
  let tp := (topic, p.1) in
  mp ← gets partitionsMap;
  match mp !! tp with
  | Some logId => mret (tp, logId, u64 p.2)
  | None =>
      partitions ← lift (listPartitions topic);
      match vector_at partitions p.1 with
      | None => throw (ErrorCodeException UNKNOWN_TOPIC_OR_PARTITION)
      | Some logId =>
          modify (set_partitions (Map_fromList (numbered topic partitions) ∪ mp));;
          mret (tp, logId, u64 p.2)
      end
  end.

Definition getOffsetsInfo (topic : string) (requestOffsets : list (Z * Z))
    : IO GOM (list (TopicPartition * Z * Z)) := forM requestOffsets (getOffsetInfo topic).

(** A null array is the empty one. The answer has the partition and an error code. *)
Definition storeOffsets (topic : string) (arrayOffsets : option (list (Z * Z)))
    : IO GOM (list (Z * Z)) :=
  offsetsInfo ← getOffsetsInfo topic (default [] arrayOffsets);
  name ← gets groupName;
  on_storage (commitOffsets name
    (foldl (fun acc '(_, logId, offset) => <[logId := offset]> acc) ∅ offsetsInfo));;
  modify (fun g => set_cache
    (foldl (fun acc '(key, _, offset) => <[key := i64 offset]> acc) ∅ offsetsInfo ∪ offsetsCache g) g);;
  mret ((fun '(tp, _, _) => (tp.2, NONE)) <$> offsetsInfo).

(** [getTopicPartitions]: [lgs] is a set, in ascending order. *)
Fixpoint getTopicPartitions (fuel : nat) (lgs : list Z) (acc : list (TopicPartition * Z))
    : exn + list (TopicPartition * Z) :=
  match lgs with
  | [] => inr acc
  | lgId :: rest =>
      match fuel with
      | O => inl NoAnswer
      | S fuel =>
          if logIdHasGroup lgId then
            match topicOfLog lgId with
            | inl e => inl e
            | inr topic =>
                match listPartitions topic with
                | inl e => inl e
                | inr partitions =>
                    getTopicPartitions fuel (filter (fun l => l ∉ partitions) lgs)
                      (numbered topic partitions ++ acc)
                end
            end
          else getTopicPartitions fuel rest acc
      end
  end.

(** [Map.compose] *)
Definition map_compose (bc : gmap Z Z) (ab : gmap TopicPartition Z) : gmap TopicPartition Z :=
  omap (fun b => bc !! b) ab.

Definition loadOffsetsFromStorage : IO GOM unit :=
  g ← gets id;
  loaded ← lift (loadOffsets (offsetStorage g) (groupName g));
  let tpOffsets := i64 <$> loaded in
  tps ← lift (getTopicPartitions (size tpOffsets) (std_map_list tpOffsets).*1 []);
  let partitionMap := Map_fromList tps in
  modify (set_cache (map_compose tpOffsets partitionMap));;
  modify (set_partitions partitionMap).
End topics.

(** ** Fetching *)

(** The partition, its offset and the error code; the metadata is always empty. *)
Definition fetchOffsets g (topic : string) (partitions : option (list Z)) : list (Z * Z * Z) :=
  (fun i => (i, default (-1) (offsetsCache g !! (topic, i)), NONE)) <$> default [] partitions.

(** The order of [TopicPartition] is that of its fields. *)
Definition tp_le {A} (x y : TopicPartition * A) : Prop :=
  String.compare x.1.1 y.1.1 = Lt \/ x.1.1 = y.1.1 /\ x.1.2 <= y.1.2.
#[global] Instance tp_le_dec {A} : RelDecision (@tp_le A).
Proof. intros x y. unfold tp_le. solve_decision. Defined.
Definition name_le {A} (x y : string * A) : Prop := String.compare x.1 y.1 <> Gt.
#[global] Instance name_le_dec {A} : RelDecision (@name_le A).
Proof. intros x y. unfold name_le. solve_decision. Defined.

Definition group_by_topic (l : list (TopicPartition * Z)) : gmap string (list (Z * Z * Z)) :=
  foldr (fun '((t, i), o) acc => <[t := (i, o, NONE) :: default [] (acc !! t)]> acc) ∅ l.

Definition fetchAllOffsets g : list (string * list (Z * Z * Z)) :=
  merge_sort name_le (map_to_list (group_by_topic (merge_sort tp_le (map_to_list (offsetsCache g))))).

Definition nullOffsets g : bool := bool_decide (offsetsCache g = ∅).
End manager.

(** ** Proofs *)

Section agree.
Context {os : Type} {OS : OffsetStorage os} {TT : TopicTree}.
Notation GOM := (GroupOffsetManager os).
Implicit Type g : GOM.

(** The log of a partition. *)
Definition log_of (tp : TopicPartition) : option Z :=
  match listPartitions tp.1 with
  | inr ls => vector_at ls tp.2
  | inl _ => None
  end.

Lemma vector_at_elem ls i l : vector_at ls i = Some l -> l ∈ ls.
Proof. unfold vector_at. case_match; [done|]. apply list_elem_of_lookup_2. Qed.

Lemma log_of_inj tp tp' l : log_of tp = Some l -> log_of tp' = Some l -> tp = tp'.
Proof.
  unfold log_of. destruct tp as [t i], tp' as [t' i']. simpl.
  destruct (listPartitions t) as [|ls] eqn:E; [done|]. destruct (listPartitions t') as [|ls'] eqn:E'; [done|].
  intros H H'. destruct (tree_topic t ls l E (vector_at_elem _ _ _ H)) as [_ Ht].
  destruct (tree_topic t' ls' l E' (vector_at_elem _ _ _ H')) as [_ Ht'].
  assert (t' = t) as -> by congruence. assert (ls' = ls) as -> by congruence. f_equal.
  unfold vector_at in H, H'. destruct (Z.ltb_spec i 0), (Z.ltb_spec i' 0); try done.
  pose proof (NoDup_lookup _ _ _ _ (tree_nodup _ _ E) H H'). lia.
Qed.

Lemma numbered_lookup t ls tp :
  Map_fromList (numbered t ls) !! tp = if decide (tp.1 = t) then vector_at ls tp.2 else None.
Proof.
  assert (Hnd : NoDup (numbered t ls).*1).
  { apply NoDup_alt. intros i j x. unfold numbered. rewrite !list_lookup_fmap, !list_lookup_imap.
    destruct (ls !! i), (ls !! j); naive_solver lia. }
  rewrite Map_fromList_NoDup by done. apply option_eq. intros l.
  rewrite <- elem_of_list_to_map, list_elem_of_lookup by done. unfold numbered, vector_at.
  setoid_rewrite list_lookup_imap. destruct tp as [t' i]. simpl. split.
  - intros [k H]. destruct (ls !! k) eqn:E; simplify_eq/=. rewrite decide_True by done.
    destruct (Z.ltb_spec (Z.of_nat k) 0); [lia|]. by rewrite Nat2Z.id.
  - case_decide as Ht; [|done]. destruct (Z.ltb_spec i 0); [done|]. intros Hi. exists (Z.to_nat i). rewrite Hi. simpl.
    rewrite Z2Nat.id by lia. by subst.
Qed.

(** The partitions a manager knows are those of the tree. *)
Definition known (m : gmap TopicPartition Z) : Prop := forall tp l, m !! tp = Some l -> log_of tp = Some l.

Lemma known_numbered t ls : listPartitions t = inr ls -> known (Map_fromList (numbered t ls)).
Proof.
  intros E tp l. rewrite numbered_lookup. case_decide as Ht; [|done]. unfold log_of. by rewrite Ht, E.
Qed.

Lemma known_union m m' : known m -> known m' -> known (m ∪ m').
Proof. intros H H' tp l [Hl|[_ Hl]]%lookup_union_Some_raw; eauto. Qed.

(** What [getOffsetInfo] finds for a partition. *)
Definition info_ok (t : string) (p : Z * Z) (info : TopicPartition * Z * Z) : Prop :=
  exists l, log_of (t, p.1) = Some l /\ info = ((t, p.1), l, u64 p.2).

Lemma getOffsetInfo_spec t p g g' r :
  known (partitionsMap g) -> getOffsetInfo t p g = (g', r) ->
  exists mp, known mp /\ g' = set_partitions mp g /\ match r with inl _ => True | inr i => info_ok t p i end.
Proof.
  intros Hk. unfold getOffsetInfo, mbind, io_bind, gets, lift, modify, throw, mret, io_ret.
  destruct (partitionsMap g !! (t, p.1)) as [l|] eqn:E.
  - intros H. simplify_eq. exists (partitionsMap g'). split_and!; [done|by destruct g'|].
    exists l. eauto.
  - destruct (listPartitions t) as [e|ls] eqn:Els; [intros H; simplify_eq; exists (partitionsMap g');
      split_and!; [done|by destruct g'|done]|].
    destruct (vector_at ls p.1) as [l|] eqn:Ev; intros H; simplify_eq.
    + eexists. split_and!; [|done|].
      * apply known_union; [by apply known_numbered|done].
      * exists l. split; [|done]. unfold log_of. simpl. by rewrite Els.
    + exists (partitionsMap g'). split_and!; [done|by destruct g'|done].
Qed.

Lemma getOffsetsInfo_spec t ps g g' r :
  known (partitionsMap g) -> getOffsetsInfo t ps g = (g', r) ->
  exists mp, known mp /\ g' = set_partitions mp g /\
    match r with inl _ => True | inr infos => Forall2 (info_ok t) ps infos end.
Proof.
  unfold getOffsetsInfo. revert g g' r. induction ps as [|p ps IH]; intros g g' r Hk; cbn [forM].
  - intros H. unfold mret, io_ret in H. simplify_eq. exists (partitionsMap g').
    split_and!; [done|by destruct g'|constructor].
  - unfold mbind at 1, io_bind at 1. destruct (getOffsetInfo t p g) as [g1 [e|i]] eqn:E1;
      destruct (getOffsetInfo_spec t p g g1 _ Hk E1) as (mp1 & Hk1 & -> & Hi).
    + intros H. simplify_eq. eauto.
    + unfold mbind at 1, io_bind at 1.
      destruct (forM ps (getOffsetInfo t) (set_partitions mp1 g)) as [g2 [e|infos]] eqn:E2;
        destruct (IH (set_partitions mp1 g) _ _ Hk1 E2) as (mp2 & Hk2 & -> & Hf); intros H; unfold mret, io_ret in H;
        simplify_eq; exists mp2; split_and!; auto.
Qed.

(** ** Storing *)

(** The cache has the stored offset of each partition's log, and every log with a
    stored offset is the log of a partition. *)
Record agrees g : Prop := {
  agrees_known : known (partitionsMap g);
  agrees_cache : forall tp, offsetsCache g !! tp =
    log_of tp ≫= fun l => i64 <$> stored (offsetStorage g) (groupName g) !! l;
  agrees_logs : forall l v, stored (offsetStorage g) (groupName g) !! l = Some v ->
    exists tp, log_of tp = Some l;
}.

Definition checkPoints (infos : list (TopicPartition * Z * Z)) (acc : gmap Z Z) : gmap Z Z :=
  foldl (fun acc '(_, logId, offset) => <[logId := offset]> acc) acc infos.
Definition updates (infos : list (TopicPartition * Z * Z)) (acc : gmap TopicPartition Z)
    : gmap TopicPartition Z :=
  foldl (fun acc '(key, _, offset) => <[key := i64 offset]> acc) acc infos.

Lemma checkPoints_updates t ps infos tp l cp up :
  Forall2 (info_ok t) ps infos -> log_of tp = Some l -> i64 <$> cp !! l = up !! tp ->
  i64 <$> checkPoints infos cp !! l = updates infos up !! tp.
Proof.
  intros Hf Hl. revert cp up. induction Hf as [|p i ps infos (l' & Hp & ->) Hf IH]; intros cp up H; [done|].
  simpl. apply IH. destruct (decide ((t, p.1) = tp)) as [<-|Hne].
  - simplify_eq. by rewrite !lookup_insert_eq.
  - rewrite !lookup_insert_ne; [done|done|]. intros ->. eauto using log_of_inj.
Qed.

Lemma updates_none t ps infos tp up :
  Forall2 (info_ok t) ps infos -> log_of tp = None -> updates infos up !! tp = up !! tp.
Proof.
  intros Hf Hl. revert up. induction Hf as [|p i ps infos (l' & Hp & ->) Hf IH]; intros up; [done|].
  simpl. rewrite IH. apply lookup_insert_ne. congruence.
Qed.

Lemma checkPoints_logs t ps infos cp l :
  Forall2 (info_ok t) ps infos -> is_Some (checkPoints infos cp !! l) ->
  is_Some (cp !! l) \/ exists tp, log_of tp = Some l.
Proof.
  intros Hf. revert cp. induction Hf as [|p i ps infos (l' & Hp & ->) Hf IH]; intros cp H; [by left|].
  simpl in H. destruct (IH _ H) as [Hc|]; [|by right].
  destruct (decide (l' = l)) as [<-|]; [right; eauto|]. rewrite lookup_insert_ne in Hc by done. by left.
Qed.

Lemma checkPoints_size infos cp : (size (checkPoints infos cp) <= length infos + size cp)%nat.
Proof.
  revert cp. induction infos as [|[[tp l] o] infos IH]; intros cp; simpl; [lia|].
  specialize (IH (<[l := o]> cp)). rewrite map_size_insert in IH. destruct (cp !! l); unfold id in IH; lia.
Qed.

(** A request whose storage call did not fail. *)
Definition settled g (r : exn + list (Z * Z)) g' : Prop :=
  is_Some (match r with inr x => Some x | inl _ => None end) \/ offsetStorage g' = offsetStorage g.

Lemma updates_union infos up : updates infos ∅ ∪ up = updates infos up.
Proof.
  induction infos as [|[[k l] o] infos IH] using rev_ind; [apply (left_id_L ∅ (∪))|].
  unfold updates in *. rewrite !foldl_app. simpl. by rewrite <- IH, insert_union_l.
Qed.

Lemma storeOffsets_spec t offs g g' r :
  agrees g -> Z.of_nat (length (default [] offs)) < 2 ^ 31 -> storeOffsets t offs g = (g', r) ->
  settled g r g' ->
  agrees g' /\ groupName g' = groupName g /\
  match r with
  | inl _ => offsetsCache g' = offsetsCache g
  | inr answer => exists infos, Forall2 (info_ok t) (default [] offs) infos /\
      offsetsCache g' = updates infos (offsetsCache g) /\
      answer = (fun p => (p.1, NONE)) <$> default [] offs
  end.
Proof.
  intros Ha Hlen. unfold storeOffsets. unfold mbind at 1, io_bind at 1.
  destruct (getOffsetsInfo t (default [] offs) g) as [g1 [e|infos]] eqn:E1;
    destruct (getOffsetsInfo_spec _ _ _ _ _ (agrees_known _ Ha) E1) as (mp & Hk & -> & Hf).
  { intros H _. simplify_eq. split; [|done]. destruct Ha. by split. }
  unfold mbind, io_bind, gets, on_storage, modify, mret, io_ret. simpl.
  destruct (commitOffsets _ _ _) as [s [e|[]]] eqn:E2; intros H Hset; simplify_eq/=.
  { destruct Hset as [[]|Hs]; [done|]. simpl in Hs. subst s. split; [|done]. destruct Ha. by split. }
  fold (checkPoints infos ∅) in E2. fold (updates infos ∅). rewrite updates_union.
  assert (Hst : stored s (groupName g) = checkPoints infos ∅ ∪ stored (offsetStorage g) (groupName g)).
  { apply commit_OK in E2; [done|]. pose proof (checkPoints_size infos ∅) as Hsz.
    rewrite map_size_empty, <- (Forall2_length _ _ _ Hf) in Hsz. lia. }
  split_and!; [|done|].
  - split; simpl; [done| |].
    + intros tp. rewrite Hst. destruct (log_of tp) as [l|] eqn:El; simpl.
      * rewrite <- updates_union, !lookup_union,
          <- (checkPoints_updates t _ infos tp l ∅ ∅ Hf El), (agrees_cache _ Ha), El by done. simpl.
        by destruct (checkPoints infos ∅ !! l), (stored _ _ !! l).
      * rewrite (updates_none t _ infos tp _ Hf El), (agrees_cache _ Ha), El. done.
    + intros l v. rewrite Hst. intros [Hl|[_ Hl]]%lookup_union_Some_raw; [|by eapply agrees_logs].
      destruct (checkPoints_logs t _ infos ∅ l Hf) as [[? Hn]|]; [by eexists| |done].
      by rewrite lookup_empty in Hn.
  - exists infos. split_and!; [done|done|]. clear -Hf. induction Hf as [|p i ps infos (l & _ & ->) Hf IH]; [done|].
    simpl. by f_equal.
Qed.

(** ** Loading *)

Lemma Map_fromList_functional (l : list (TopicPartition * Z)) tp v :
  (forall k a b, (k, a) ∈ l -> (k, b) ∈ l -> a = b) ->
  (Map_fromList l !! tp = Some v <-> (tp, v) ∈ l).
Proof.
  unfold Map_fromList. induction l as [|[k a] l IH] using rev_ind; intros Hl.
  { simpl. rewrite lookup_empty. split; [done|]. by intros ?%elem_of_nil. }
  rewrite foldl_app. simpl. setoid_rewrite elem_of_app in Hl. rewrite elem_of_app, list_elem_of_singleton.
  destruct (decide (k = tp)) as [->|Hne].
  - rewrite lookup_insert_eq. split; [intros; simplify_eq; by right|].
    intros [Hv|Hv]; [|by simplify_eq]. f_equal. eapply Hl; [right|by left]. by apply list_elem_of_singleton.
  - rewrite lookup_insert_ne, IH by eauto. split; [by left|]. intros [|]; [done|]. simplify_eq.
Qed.

Lemma elem_of_numbered t ls tp l :
  listPartitions t = inr ls -> ((tp, l) ∈ numbered t ls <-> tp.1 = t /\ log_of tp = Some l).
Proof.
  intros E. pose proof (numbered_lookup t ls tp) as Hn.
  assert (Hnd : NoDup (numbered t ls).*1).
  { apply NoDup_alt. intros i j x. unfold numbered. rewrite !list_lookup_fmap, !list_lookup_imap.
    destruct (ls !! i), (ls !! j); naive_solver lia. }
  rewrite Map_fromList_NoDup in Hn by done. rewrite elem_of_list_to_map, Hn by done.
  case_decide as Ht; [|naive_solver]. unfold log_of. rewrite Ht, E. naive_solver.
Qed.

Lemma getTopicPartitions_spec fuel lgs acc :
  (length lgs <= fuel)%nat -> (forall l, l ∈ lgs -> exists tp, log_of tp = Some l) ->
  (forall tp l, (tp, l) ∈ acc -> log_of tp = Some l) ->
  exists tps, getTopicPartitions fuel lgs acc = inr tps /\
    (forall tp l, (tp, l) ∈ tps -> log_of tp = Some l) /\
    (forall tp l, (tp, l) ∈ acc \/ log_of tp = Some l /\ l ∈ lgs -> (tp, l) ∈ tps).
Proof.
  revert lgs acc. induction fuel as [|fuel IH]; intros [|l lgs] acc Hlen Hl Hacc; try (simpl in Hlen; lia).
  1,2: exists acc; split_and!; [done|done|]; intros tp l [|[_ Hn]]; [done|by apply elem_of_nil in Hn].
  cbn [getTopicPartitions]. destruct (Hl l) as [[t i] Hi]; [left|]. pose proof Hi as Hi'.
  unfold log_of in Hi'. simpl in Hi'. destruct (listPartitions t) as [|ls] eqn:E; [done|].
  destruct (tree_topic t ls l E (vector_at_elem _ _ _ Hi')) as [-> ->]. rewrite E.
  destruct (IH (filter (fun x => x ∉ ls) (l :: lgs)) (numbered t ls ++ acc)) as (tps & -> & H1 & H2).
  - rewrite filter_cons_False by (intros Hn; exact (Hn (vector_at_elem _ _ _ Hi'))).
    pose proof (length_filter (fun x => x ∉ ls) lgs). simpl in Hlen. lia.
  - intros x [_ Hx]%list_elem_of_filter. eauto.
  - intros tp x [Hx|Hx]%elem_of_app; [|by eauto]. by apply (elem_of_numbered t ls tp x E) in Hx as [_ Hx].
  - exists tps. split_and!; [done|done|]. intros tp x Hx. apply H2.
    destruct Hx as [Hx|[Ho Hx]]; [left; apply elem_of_app; by right|].
    destruct (decide (x ∈ ls)) as [Hin|Hin].
    + left. apply elem_of_app. left. apply elem_of_numbered; [done|]. split; [|done].
      unfold log_of in Ho. destruct (listPartitions tp.1) as [|ls'] eqn:E'; [done|].
      destruct (tree_topic _ _ x E' (vector_at_elem _ _ _ Ho)), (tree_topic _ _ x E Hin). congruence.
    + right. split; [done|]. by apply list_elem_of_filter.
Qed.

Lemma loadOffsetsFromStorage_spec g m :
  loadOffsets (offsetStorage g) (groupName g) = inr m -> (forall l v, m !! l = Some v -> exists tp, log_of tp = Some l) ->
  exists g', loadOffsetsFromStorage g = (g', inr tt) /\
    forall tp, offsetsCache g' !! tp = log_of tp ≫= fun l => i64 <$> m !! l.
Proof.
  intros Hm Hlogs. unfold loadOffsetsFromStorage, mbind, io_bind, gets, lift, modify, id.
  rewrite Hm.
  assert (Hks : forall l, l ∈ (std_map_list (i64 <$> m)).*1 <-> is_Some (m !! l)).
  { intros l. rewrite std_map_list_perm, list_elem_of_fmap. split.
    - intros ([k v] & -> & Hk%elem_of_map_to_list). rewrite lookup_fmap in Hk. simpl. destruct (m !! k); [by eexists|done].
    - intros [v Hv]. exists (l, i64 v). split; [done|]. apply elem_of_map_to_list. by rewrite lookup_fmap, Hv. }
  destruct (getTopicPartitions_spec (size (i64 <$> m)) (std_map_list (i64 <$> m)).*1 []) as (tps & -> & H1 & H2).
  - rewrite length_fmap, std_map_list_perm, length_map_to_list. done.
  - intros l [v Hv]%Hks. eauto.
  - by intros ? ? ?%elem_of_nil.
  - eexists. split; [done|]. intros tp. simpl. unfold map_compose. rewrite lookup_omap.
    assert (Hf : forall k a b, (k, a) ∈ tps -> (k, b) ∈ tps -> a = b).
    { intros k a b Ha%H1 Hb%H1. congruence. }
    destruct (Map_fromList tps !! tp) as [l|] eqn:E; simpl.
    + apply Map_fromList_functional in E; [|done]. rewrite (H1 _ _ E). simpl. by rewrite lookup_fmap.
    + destruct (log_of tp) as [l|] eqn:El; [|done]. simpl. destruct (m !! l) as [v|] eqn:Ev; [|done].
      assert (Map_fromList tps !! tp = Some l); [|congruence]. apply Map_fromList_functional; [done|].
      apply H2. right. split; [done|]. by apply Hks.
Qed.

(** ** Runs *)

(** The requests that were answered without an error, in order. *)
Inductive committing : GOM -> list (string * list (Z * Z)) -> GOM -> Prop :=
| committing_none g : committing g [] g
| committing_answered g log g1 t offs answer g2 : committing g log g1 ->
    Z.of_nat (length offs) < 2 ^ 31 -> storeOffsets t (Some offs) g1 = (g2, inr answer) ->
    committing g (log ++ [(t, offs)]) g2
| committing_refused g log g1 t offs e g2 : committing g log g1 ->
    Z.of_nat (length offs) < 2 ^ 31 -> storeOffsets t (Some offs) g1 = (g2, inl e) ->
    offsetStorage g2 = offsetStorage g1 -> committing g log g2.

(** The last offset committed for each partition. *)
Definition last_committed (log : list (string * list (Z * Z))) : gmap TopicPartition Z :=
  foldl (fun m '(t, offs) => foldl (fun m p => <[(t, p.1) := i64 p.2]> m) m offs) ∅ log.

Lemma i64_u64 x : i64 (u64 x) = i64 x.
Proof. int_solve. Qed.

Lemma updates_last t ps infos up : Forall2 (info_ok t) ps infos ->
  updates infos up = foldl (fun m p => <[(t, p.1) := i64 p.2]> m) up ps.
Proof.
  intros Hf. revert up. induction Hf as [|p i ps infos (l & _ & ->) Hf IH]; intros up; [done|].
  simpl. by rewrite IH, i64_u64.
Qed.

Lemma committing_agrees g log g' : agrees g -> offsetsCache g = ∅ -> committing g log g' ->
  agrees g' /\ groupName g' = groupName g /\ offsetsCache g' = last_committed log.
Proof.
  intros Ha Hc. induction 1 as [|g log g1 t offs answer g2 H IH Hl E|g log g1 t offs e g2 H IH Hl E Hs];
    [done|..]; destruct (IH Ha Hc) as (Ha1 & Hn & Hc1).
  - destruct (storeOffsets_spec t (Some offs) g1 g2 _ Ha1 Hl E) as (Ha2 & Hn2 & infos & Hf & Hc2 & _);
      [left; by eexists|]. split_and!; [done|congruence|].
    rewrite Hc2, (updates_last t _ _ _ Hf), Hc1. unfold last_committed. by rewrite foldl_app.
  - destruct (storeOffsets_spec t (Some offs) g1 g2 _ Ha1 Hl E) as (Ha2 & Hn2 & Hc2); [by right|].
    split_and!; congruence.
Qed.

Lemma mk_agrees s name : stored s name = ∅ -> agrees (mkGroupOffsetManager s name).
Proof.
  intros Hs. split; simpl.
  - intros tp l Hl. by rewrite lookup_empty in Hl.
  - intros tp. rewrite lookup_empty, Hs. destruct (log_of tp); simpl; [|done]. by rewrite lookup_empty.
  - intros l v. by rewrite Hs, lookup_empty.
Qed.

(** C19: A group's manager starts on a storage without offsets and serves any requests
    to store offsets, some of them refused. When a new manager then loads the
    storage, it loads without an exception, has for every partition the offset that
    was committed last, and [fetchOffsets] answers it, or -1 for a partition without
    one, in the order of the request. *)
Theorem reload_fetches_last (s : os) (name : string) log g m :
  stored s name = ∅ -> committing (mkGroupOffsetManager s name) log g ->
  loadOffsets (offsetStorage g) name = inr m ->
  exists g', loadOffsetsFromStorage (mkGroupOffsetManager (offsetStorage g) name) = (g', inr tt) /\
    offsetsCache g' = last_committed log /\
    forall t ps, fetchOffsets g' t (Some ps) =
      (fun i => (i, default (-1) (last_committed log !! (t, i)), NONE)) <$> ps.
Proof.
  intros Hs Hg Hm. destruct (committing_agrees _ _ _ (mk_agrees s name Hs) eq_refl Hg) as (Ha & Hn & Hc).
  simpl in Hn. pose proof (load_OK _ _ _ Hm) as ->.
  destruct (loadOffsetsFromStorage_spec (mkGroupOffsetManager (offsetStorage g) name) _ Hm)
    as (g' & E & Hg').
  - rewrite <- Hn. apply (agrees_logs _ Ha).
  - exists g'. assert (Hcache : offsetsCache g' = last_committed log).
    { rewrite <- Hc. apply map_eq. intros tp. by rewrite Hg', (agrees_cache _ Ha), Hn. }
    split_and!; [done|done|]. intros t ps. unfold fetchOffsets. by rewrite Hcache.
Qed.

(** ** All offsets *)

Lemma group_by_topic_spec (l : list (TopicPartition * Z)) t i o :
  (exists ps, group_by_topic l !! t = Some ps /\ (i, o, NONE) ∈ ps) <-> ((t, i), o) ∈ l.
Proof.
  induction l as [|[[t' i'] o'] l IH]; simpl.
  { split; [intros (ps & Hp & _); by rewrite lookup_empty in Hp|by intros ?%elem_of_nil]. }
  rewrite elem_of_cons, <- IH. destruct (decide (t' = t)) as [->|Hne].
  - rewrite lookup_insert_eq. split.
    + intros (ps & [= <-] & [Hh|Hp]%elem_of_cons); [left; congruence|]. right.
      destruct (group_by_topic l !! t) as [ps|]; simpl in Hp; [eauto|by apply elem_of_nil in Hp].
    + intros [Hh|(ps & Hp & Hin)]; eexists; (split; [done|]); apply elem_of_cons; [left; congruence|].
      rewrite Hp. by right.
  - rewrite lookup_insert_ne by done. split; [by right|]. intros [Hh|]; [congruence|done].
Qed.

Lemma fetchAllOffsets_spec g t i o :
  (exists ps, (t, ps) ∈ fetchAllOffsets g /\ (i, o, NONE) ∈ ps) <-> offsetsCache g !! (t, i) = Some o.
Proof.
  unfold fetchAllOffsets. setoid_rewrite merge_sort_Permutation. setoid_rewrite elem_of_map_to_list.
  by rewrite group_by_topic_spec, merge_sort_Permutation, elem_of_map_to_list.
Qed.

Lemma fetchAllOffsets_NoDup g : NoDup (fetchAllOffsets g).*1.
Proof. unfold fetchAllOffsets. rewrite merge_sort_Permutation. apply NoDup_fst_map_to_list. Qed.
End agree.
End GroupOffsets.

Module GroupOffsetsWitness.
Import GroupOffsets CheckpointStoreWitness.

(** One topic with two partitions, and the checkpoint store in memory. *)
#[refine] Instance one_topic : TopicTree :=
  {| listPartitions t := if decide (t = "t") then inr [100; 101] else inl StoreFailed;
     logIdHasGroup l := bool_decide (l ∈ [100; 101]);
     topicOfLog l := inr "t" |}.
Proof.
  - intros t ls l. case_decide; [|done]. intros [= <-] Hl. split; [by apply bool_decide_eq_true|by subst].
  - intros t ls. case_decide; [|done]. intros [= <-]. apply (bool_decide_unpack (NoDup [100; 101])). done.
Defined.

#[refine] Instance mem_frame : CheckpointFrame MemStore := {}.
Proof. intros s c m k Hk. simpl. rewrite mem_insert, decide_True, lookup_union, Hk by done. by destruct (mem_contents s c !! k). Defined.
#[global] Instance mem_offsets : OffsetStorage MemStore := ckp_storage 9 3.

Definition served1 : GroupOffsetManager MemStore :=
  (storeOffsets "t" (Some [(1, 5); (0, -3)]) (mkGroupOffsetManager ∅ "g")).1.
Definition served2 : GroupOffsetManager MemStore := (storeOffsets "t" (Some [(1, 5); (2, 9)]) served1).1.
Definition served : GroupOffsetManager MemStore := (storeOffsets "t" (Some [(1, 7)]) served2).1.

Lemma reload_fetches_last_witness :
  exists g', loadOffsetsFromStorage (mkGroupOffsetManager (offsetStorage served) "g") = (g', inr tt) /\
    fetchOffsets g' "t" (Some [0; 1; 2]) = [(0, -3, 0); (1, 7, 0); (2, -1, 0)].
Proof.
  destruct (reload_fetches_last (∅ : MemStore) "g" [("t", [(1, 5); (0, -3)]); ("t", [(1, 7)])] served
    {[ 100 := u64 (-3); 101 := 7 ]}) as (g' & E & _ & H); [vm_compute; reflexivity| |vm_compute; reflexivity|].
  - apply (committing_answered _ [("t", [(1, 5); (0, -3)])] served2 _ _ [(1, NONE)]);
      [|by vm_compute|vm_compute; reflexivity].
    apply (committing_refused _ _ served1 "t" [(1, 5); (2, 9)] (ErrorCodeException 3));
      [|by vm_compute|vm_compute; reflexivity|vm_compute; reflexivity].
    apply (committing_answered _ [] (mkGroupOffsetManager ∅ "g") _ _ [(1, NONE); (0, NONE)]);
      [constructor|by vm_compute|vm_compute; reflexivity].
  - exists g'. split; [exact E|]. rewrite (H "t" [0; 1; 2]). by vm_compute.
Defined.
End GroupOffsetsWitness.
