(* ===== verification/KafkaGroup.v ===== *)
(** * A Kafka consumer group
      (src/hstream-kafka/HStream/Kafka/Group/Group.hs and Member.hs, with
      Common/Utils.hs)

    The members of a group join it, wait for the others, learn the generation, the
    leader and the protocol, get their assignments from the leader, send heartbeats
    and commit offsets. Every operation holds the group's lock, and the threads that
    end a rebalance, that wait for the assignments and that watch a member take it
    too. Here an operation is a function on the state of the group; [step] runs one
    operation or lets one thread take its turn, in any order. *)

From stdpp Require Import base gmap strings list sorting.
From Stdlib Require Import ZArith Lia.
From S2P Require Import Prelude GroupOffsets.
Import GroupOffsets.

Notation ByteString := (list Z).

(** ** Libraries *)

(** base64-bytestring: decoding what was encoded. *)
Class Base64 := {
  encodeBase64 : ByteString -> string;
  decodeBase64 : string -> ByteString;
  base64_roundtrip : forall b, decodeBase64 (encodeBase64 b) = b;
}.

(** [maximumOn] of the package extra: an element with the greatest value; an error
    for the empty list. *)
Class ListExtra := {
  maximumOn : forall {A : Type}, (A -> nat) -> list A -> option A;
  maximumOn_max : forall A (f : A -> nat) l x, maximumOn f l = Some x ->
    x ∈ l /\ forall y, y ∈ l -> (f y <= f x)%nat;
  maximumOn_some : forall A (f : A -> nat) (l : list A), l <> [] -> is_Some (maximumOn f l);
}.

(** ** Messages *)

Record JoinGroupRequest := {
  jq_sessionTimeoutMs : Z;
  jq_rebalanceTimeoutMs : Z;
  jq_memberId : string;
  jq_protocolType : string;
  jq_protocols : option (list (string * ByteString));
}.

Record JoinGroupResponse := {
  jr_errorCode : Z;
  jr_generationId : Z;
  jr_protocolName : string;
  jr_leader : string;
  jr_memberId : string;
  jr_members : list (string * ByteString);
}.

Record SyncGroupRequest := {
  sq_memberId : string;
  sq_assignments : option (list (string * ByteString));
}.

Record SyncGroupResponse := { sr_errorCode : Z; sr_assignment : ByteString }.

Record OffsetCommitRequest := {
  oc_generationId : Z;
  oc_memberId : string;
  oc_topics : option (list (string * option (list (Z * Z))));
}.

Record RequestContext := { rc_clientId : option string; rc_clientHost : string }.

(** What the metastore keeps of a group. *)
Record MemberMetadataValue := {
  mv_memberId : string;
  mv_clientId : string;
  mv_clientHost : string;
  mv_sessionTimeout : Z;
  mv_rebalanceTimeout : Z;
  mv_subscription : string;
  mv_assignment : string;
}.

Record GroupMetadataValue := {
  gv_groupId : string;
  gv_generationId : Z;
  gv_protocolType : string;
  gv_prototcolName : option string;
  gv_leader : option string;
  gv_members : list MemberMetadataValue;
}.

(** ** The state *)

Inductive GroupState := PreparingRebalance | CompletingRebalance | Stable | Dead | Empty.
#[global] Instance GroupState_eq_dec : EqDecision GroupState.
Proof. solve_decision. Defined.

Record Member := {
  m_memberId : string;
  m_rebalanceTimeoutMs : Z;
  m_sessionTimeoutMs : Z;
  m_assignment : ByteString;
  m_lastHeartbeat : Z;
  m_heartbeatThread : option nat;
  m_protocolType : string;
  m_supportedProtocols : list (string * ByteString);
  m_clientId : string;
  m_clientHost : string;
}.

(** The variables of a group, and what runs beside it: the entry of the metastore,
    the objects of members that were removed and that a thread may still hold, the
    threads of the three kinds by their ids, and the answers put into the [MVar]s of
    join and sync requests. A rebalance thread polls [haveAllMembersRejoined] or
    nothing, and has a timeout. A sync thread has the generation, the members it
    waits for and a timeout. A heartbeat thread has its member. *)
Record Group (os : Type) := {
  groupId : string;
  groupInitialRebalanceDelay : Z;
  groupGenerationId : Z;
  state : GroupState;
  leader : option string;
  members : gmap string Member;
  delayedJoinResponses : gmap string nat;
  delayedRebalance : option nat;
  delayedSync : option nat;
  delayedSyncResponses : gmap string nat;
  metadataManager : GroupOffsetManager os;
  protocolType : option string;
  protocolName : option string;
  supportedProtocols : gset string;
  storedMetadata : bool;
  metaStore : option GroupMetadataValue;
  retired : gmap string Member;
  rebalances : gmap nat (bool * Z);
  syncs : gmap nat (Z * list string * Z);
  hearts : gmap nat string;
  next_tid : nat;
  joinAnswers : gmap nat JoinGroupResponse;
  syncAnswers : gmap nat SyncGroupResponse;
  next_mvar : nat;
}.
Arguments groupId {os}.
Arguments groupInitialRebalanceDelay {os}.
Arguments groupGenerationId {os}.
Arguments state {os}.
Arguments leader {os}.
Arguments members {os}.
Arguments delayedJoinResponses {os}.
Arguments delayedRebalance {os}.
Arguments delayedSync {os}.
Arguments delayedSyncResponses {os}.
Arguments metadataManager {os}.
Arguments protocolType {os}.
Arguments protocolName {os}.
Arguments supportedProtocols {os}.
Arguments storedMetadata {os}.
Arguments metaStore {os}.
Arguments retired {os}.
Arguments rebalances {os}.
Arguments syncs {os}.
Arguments hearts {os}.
Arguments next_tid {os}.
Arguments joinAnswers {os}.
Arguments syncAnswers {os}.
Arguments next_mvar {os}.
Arguments Build_Group {os}.

Module KafkaGroup.

Section group.
Context {os : Type}.
Notation G := (Group os).
Implicit Type g : G.

Definition set_groupGenerationId (x : Z) g : G :=
  Build_Group (groupId g) (groupInitialRebalanceDelay g) x (state g) (leader g) (members g)
    (delayedJoinResponses g) (delayedRebalance g) (delayedSync g) (delayedSyncResponses g)
    (metadataManager g) (protocolType g) (protocolName g) (supportedProtocols g) (storedMetadata
    g) (metaStore g) (retired g) (rebalances g) (syncs g) (hearts g) (next_tid g) (joinAnswers
    g) (syncAnswers g) (next_mvar g).
Definition set_state (x : GroupState) g : G :=
  Build_Group (groupId g) (groupInitialRebalanceDelay g) (groupGenerationId g) x (leader g)
    (members g) (delayedJoinResponses g) (delayedRebalance g) (delayedSync g)
    (delayedSyncResponses g) (metadataManager g) (protocolType g) (protocolName g)
    (supportedProtocols g) (storedMetadata g) (metaStore g) (retired g) (rebalances g) (syncs g)
    (hearts g) (next_tid g) (joinAnswers g) (syncAnswers g) (next_mvar g).
Definition set_leader (x : option string) g : G :=
  Build_Group (groupId g) (groupInitialRebalanceDelay g) (groupGenerationId g) (state g) x
    (members g) (delayedJoinResponses g) (delayedRebalance g) (delayedSync g)
    (delayedSyncResponses g) (metadataManager g) (protocolType g) (protocolName g)
    (supportedProtocols g) (storedMetadata g) (metaStore g) (retired g) (rebalances g) (syncs g)
    (hearts g) (next_tid g) (joinAnswers g) (syncAnswers g) (next_mvar g).
Definition set_members (x : gmap string Member) g : G :=
  Build_Group (groupId g) (groupInitialRebalanceDelay g) (groupGenerationId g) (state g) (leader
    g) x (delayedJoinResponses g) (delayedRebalance g) (delayedSync g) (delayedSyncResponses g)
    (metadataManager g) (protocolType g) (protocolName g) (supportedProtocols g) (storedMetadata
    g) (metaStore g) (retired g) (rebalances g) (syncs g) (hearts g) (next_tid g) (joinAnswers
    g) (syncAnswers g) (next_mvar g).
Definition set_delayedJoinResponses (x : gmap string nat) g : G :=
  Build_Group (groupId g) (groupInitialRebalanceDelay g) (groupGenerationId g) (state g) (leader
    g) (members g) x (delayedRebalance g) (delayedSync g) (delayedSyncResponses g)
    (metadataManager g) (protocolType g) (protocolName g) (supportedProtocols g) (storedMetadata
    g) (metaStore g) (retired g) (rebalances g) (syncs g) (hearts g) (next_tid g) (joinAnswers
    g) (syncAnswers g) (next_mvar g).
Definition set_delayedRebalance (x : option nat) g : G :=
  Build_Group (groupId g) (groupInitialRebalanceDelay g) (groupGenerationId g) (state g) (leader
    g) (members g) (delayedJoinResponses g) x (delayedSync g) (delayedSyncResponses g)
    (metadataManager g) (protocolType g) (protocolName g) (supportedProtocols g) (storedMetadata
    g) (metaStore g) (retired g) (rebalances g) (syncs g) (hearts g) (next_tid g) (joinAnswers
    g) (syncAnswers g) (next_mvar g).
Definition set_delayedSync (x : option nat) g : G :=
  Build_Group (groupId g) (groupInitialRebalanceDelay g) (groupGenerationId g) (state g) (leader
    g) (members g) (delayedJoinResponses g) (delayedRebalance g) x (delayedSyncResponses g)
    (metadataManager g) (protocolType g) (protocolName g) (supportedProtocols g) (storedMetadata
    g) (metaStore g) (retired g) (rebalances g) (syncs g) (hearts g) (next_tid g) (joinAnswers
    g) (syncAnswers g) (next_mvar g).
Definition set_delayedSyncResponses (x : gmap string nat) g : G :=
  Build_Group (groupId g) (groupInitialRebalanceDelay g) (groupGenerationId g) (state g) (leader
    g) (members g) (delayedJoinResponses g) (delayedRebalance g) (delayedSync g) x
    (metadataManager g) (protocolType g) (protocolName g) (supportedProtocols g) (storedMetadata
    g) (metaStore g) (retired g) (rebalances g) (syncs g) (hearts g) (next_tid g) (joinAnswers
    g) (syncAnswers g) (next_mvar g).
Definition set_metadataManager (x : GroupOffsetManager os) g : G :=
  Build_Group (groupId g) (groupInitialRebalanceDelay g) (groupGenerationId g) (state g) (leader
    g) (members g) (delayedJoinResponses g) (delayedRebalance g) (delayedSync g)
    (delayedSyncResponses g) x (protocolType g) (protocolName g) (supportedProtocols g)
    (storedMetadata g) (metaStore g) (retired g) (rebalances g) (syncs g) (hearts g) (next_tid
    g) (joinAnswers g) (syncAnswers g) (next_mvar g).
Definition set_protocolType (x : option string) g : G :=
  Build_Group (groupId g) (groupInitialRebalanceDelay g) (groupGenerationId g) (state g) (leader
    g) (members g) (delayedJoinResponses g) (delayedRebalance g) (delayedSync g)
    (delayedSyncResponses g) (metadataManager g) x (protocolName g) (supportedProtocols g)
    (storedMetadata g) (metaStore g) (retired g) (rebalances g) (syncs g) (hearts g) (next_tid
    g) (joinAnswers g) (syncAnswers g) (next_mvar g).
Definition set_protocolName (x : option string) g : G :=
  Build_Group (groupId g) (groupInitialRebalanceDelay g) (groupGenerationId g) (state g) (leader
    g) (members g) (delayedJoinResponses g) (delayedRebalance g) (delayedSync g)
    (delayedSyncResponses g) (metadataManager g) (protocolType g) x (supportedProtocols g)
    (storedMetadata g) (metaStore g) (retired g) (rebalances g) (syncs g) (hearts g) (next_tid
    g) (joinAnswers g) (syncAnswers g) (next_mvar g).
Definition set_supportedProtocols (x : gset string) g : G :=
  Build_Group (groupId g) (groupInitialRebalanceDelay g) (groupGenerationId g) (state g) (leader
    g) (members g) (delayedJoinResponses g) (delayedRebalance g) (delayedSync g)
    (delayedSyncResponses g) (metadataManager g) (protocolType g) (protocolName g) x
    (storedMetadata g) (metaStore g) (retired g) (rebalances g) (syncs g) (hearts g) (next_tid
    g) (joinAnswers g) (syncAnswers g) (next_mvar g).
Definition set_storedMetadata (x : bool) g : G :=
  Build_Group (groupId g) (groupInitialRebalanceDelay g) (groupGenerationId g) (state g) (leader
    g) (members g) (delayedJoinResponses g) (delayedRebalance g) (delayedSync g)
    (delayedSyncResponses g) (metadataManager g) (protocolType g) (protocolName g)
    (supportedProtocols g) x (metaStore g) (retired g) (rebalances g) (syncs g) (hearts g)
    (next_tid g) (joinAnswers g) (syncAnswers g) (next_mvar g).
Definition set_metaStore (x : option GroupMetadataValue) g : G :=
  Build_Group (groupId g) (groupInitialRebalanceDelay g) (groupGenerationId g) (state g) (leader
    g) (members g) (delayedJoinResponses g) (delayedRebalance g) (delayedSync g)
    (delayedSyncResponses g) (metadataManager g) (protocolType g) (protocolName g)
    (supportedProtocols g) (storedMetadata g) x (retired g) (rebalances g) (syncs g) (hearts g)
    (next_tid g) (joinAnswers g) (syncAnswers g) (next_mvar g).
Definition set_retired (x : gmap string Member) g : G :=
  Build_Group (groupId g) (groupInitialRebalanceDelay g) (groupGenerationId g) (state g) (leader
    g) (members g) (delayedJoinResponses g) (delayedRebalance g) (delayedSync g)
    (delayedSyncResponses g) (metadataManager g) (protocolType g) (protocolName g)
    (supportedProtocols g) (storedMetadata g) (metaStore g) x (rebalances g) (syncs g) (hearts
    g) (next_tid g) (joinAnswers g) (syncAnswers g) (next_mvar g).
Definition set_rebalances (x : gmap nat (bool * Z)) g : G :=
  Build_Group (groupId g) (groupInitialRebalanceDelay g) (groupGenerationId g) (state g) (leader
    g) (members g) (delayedJoinResponses g) (delayedRebalance g) (delayedSync g)
    (delayedSyncResponses g) (metadataManager g) (protocolType g) (protocolName g)
    (supportedProtocols g) (storedMetadata g) (metaStore g) (retired g) x (syncs g) (hearts g)
    (next_tid g) (joinAnswers g) (syncAnswers g) (next_mvar g).
Definition set_syncs (x : gmap nat (Z * list string * Z)) g : G :=
  Build_Group (groupId g) (groupInitialRebalanceDelay g) (groupGenerationId g) (state g) (leader
    g) (members g) (delayedJoinResponses g) (delayedRebalance g) (delayedSync g)
    (delayedSyncResponses g) (metadataManager g) (protocolType g) (protocolName g)
    (supportedProtocols g) (storedMetadata g) (metaStore g) (retired g) (rebalances g) x (hearts
    g) (next_tid g) (joinAnswers g) (syncAnswers g) (next_mvar g).
Definition set_hearts (x : gmap nat string) g : G :=
  Build_Group (groupId g) (groupInitialRebalanceDelay g) (groupGenerationId g) (state g) (leader
    g) (members g) (delayedJoinResponses g) (delayedRebalance g) (delayedSync g)
    (delayedSyncResponses g) (metadataManager g) (protocolType g) (protocolName g)
    (supportedProtocols g) (storedMetadata g) (metaStore g) (retired g) (rebalances g) (syncs g)
    x (next_tid g) (joinAnswers g) (syncAnswers g) (next_mvar g).
Definition set_next_tid (x : nat) g : G :=
  Build_Group (groupId g) (groupInitialRebalanceDelay g) (groupGenerationId g) (state g) (leader
    g) (members g) (delayedJoinResponses g) (delayedRebalance g) (delayedSync g)
    (delayedSyncResponses g) (metadataManager g) (protocolType g) (protocolName g)
    (supportedProtocols g) (storedMetadata g) (metaStore g) (retired g) (rebalances g) (syncs g)
    (hearts g) x (joinAnswers g) (syncAnswers g) (next_mvar g).
Definition set_joinAnswers (x : gmap nat JoinGroupResponse) g : G :=
  Build_Group (groupId g) (groupInitialRebalanceDelay g) (groupGenerationId g) (state g) (leader
    g) (members g) (delayedJoinResponses g) (delayedRebalance g) (delayedSync g)
    (delayedSyncResponses g) (metadataManager g) (protocolType g) (protocolName g)
    (supportedProtocols g) (storedMetadata g) (metaStore g) (retired g) (rebalances g) (syncs g)
    (hearts g) (next_tid g) x (syncAnswers g) (next_mvar g).
Definition set_syncAnswers (x : gmap nat SyncGroupResponse) g : G :=
  Build_Group (groupId g) (groupInitialRebalanceDelay g) (groupGenerationId g) (state g) (leader
    g) (members g) (delayedJoinResponses g) (delayedRebalance g) (delayedSync g)
    (delayedSyncResponses g) (metadataManager g) (protocolType g) (protocolName g)
    (supportedProtocols g) (storedMetadata g) (metaStore g) (retired g) (rebalances g) (syncs g)
    (hearts g) (next_tid g) (joinAnswers g) x (next_mvar g).
Definition set_next_mvar (x : nat) g : G :=
  Build_Group (groupId g) (groupInitialRebalanceDelay g) (groupGenerationId g) (state g) (leader
    g) (members g) (delayedJoinResponses g) (delayedRebalance g) (delayedSync g)
    (delayedSyncResponses g) (metadataManager g) (protocolType g) (protocolName g)
    (supportedProtocols g) (storedMetadata g) (metaStore g) (retired g) (rebalances g) (syncs g)
    (hearts g) (next_tid g) (joinAnswers g) (syncAnswers g) x.

(** ** Threads, [MVar]s and members *)

Definition member_of g (mid : string) : option Member :=
  match members g !! mid with Some m => Some m | None => retired g !! mid end.

(** A write to a variable of a member object. *)
Definition alter_member (f : Member -> Member) (mid : string) g : G :=
  match members g !! mid with
  | Some m => set_members (<[mid := f m]> (members g)) g
  | None => set_retired (alter f mid (retired g)) g
  end.

Definition set_assignment (a : ByteString) (m : Member) : Member :=
  Build_Member (m_memberId m) (m_rebalanceTimeoutMs m) (m_sessionTimeoutMs m) a (m_lastHeartbeat m)
    (m_heartbeatThread m) (m_protocolType m) (m_supportedProtocols m) (m_clientId m) (m_clientHost m).
Definition set_lastHeartbeat (t : Z) (m : Member) : Member :=
  Build_Member (m_memberId m) (m_rebalanceTimeoutMs m) (m_sessionTimeoutMs m) (m_assignment m) t
    (m_heartbeatThread m) (m_protocolType m) (m_supportedProtocols m) (m_clientId m) (m_clientHost m).
Definition set_heartbeatThread (t : option nat) (m : Member) : Member :=
  Build_Member (m_memberId m) (m_rebalanceTimeoutMs m) (m_sessionTimeoutMs m) (m_assignment m)
    (m_lastHeartbeat m) t (m_protocolType m) (m_supportedProtocols m) (m_clientId m) (m_clientHost m).
Definition set_joined (rebalanceMs sessionMs : Z) (ps : list (string * ByteString)) (m : Member) : Member :=
  Build_Member (m_memberId m) rebalanceMs sessionMs (m_assignment m) (m_lastHeartbeat m)
    (m_heartbeatThread m) (m_protocolType m) ps (m_clientId m) (m_clientHost m).

(** [tryPutMVar] *)
Definition try_put {A} (v : nat) (a : A) (answers : gmap nat A) : gmap nat A :=
  match answers !! v with Some _ => answers | None => <[v := a]> answers end.

Definition newEmptyMVar : IO G nat := fun g => (set_next_mvar (S (next_mvar g)) g, inr (next_mvar g)).

(** ** Member.hs *)

Definition newMemberFromReq (reqCtx : RequestContext) (req : JoinGroupRequest) (mid : string)
    (ps : list (string * ByteString)) : Member :=
  {| m_memberId := mid; m_rebalanceTimeoutMs := jq_rebalanceTimeoutMs req;
     m_sessionTimeoutMs := jq_sessionTimeoutMs req; m_assignment := []; m_lastHeartbeat := 0;
     m_heartbeatThread := None; m_protocolType := jq_protocolType req; m_supportedProtocols := ps;
     m_clientId := default "" (rc_clientId reqCtx); m_clientHost := rc_clientHost reqCtx |}.

Definition newMemberFromValue `{Base64} (groupValue : GroupMetadataValue) (value : MemberMetadataValue)
    : Member :=
  {| m_memberId := mv_memberId value; m_rebalanceTimeoutMs := mv_rebalanceTimeout value;
     m_sessionTimeoutMs := mv_sessionTimeout value; m_assignment := decodeBase64 (mv_assignment value);
     m_lastHeartbeat := 0; m_heartbeatThread := None; m_protocolType := gv_protocolType groupValue;
     m_supportedProtocols :=
       [(default "" (gv_prototcolName groupValue), decodeBase64 (mv_subscription value))];
     m_clientId := mv_clientId value; m_clientHost := mv_clientHost value |}.

Definition voteForProtocol (candidates : gset string) (member : Member) : exn + string :=
  match list_find (fun p => p ∈ candidates) (m_supportedProtocols member).*1 with
  | None => inl (ErrorCodeException INCONSISTENT_GROUP_PROTOCOL)
  | Some (_, protocol) => inr protocol
  end.

(** ** Protocols *)

Definition plainProtocols (ps : list (string * ByteString)) : gset string := list_to_set ps.*1.

Definition refineProtocols (protocols : option (list (string * ByteString)))
    : exn + list (string * ByteString) :=
  match protocols with
  | None | Some [] => inl (ErrorCodeException INCONSISTENT_GROUP_PROTOCOL)
  | Some ps => inr ps
  end.

Definition getMemberMetadata (member : Member) (protocol : string) : ByteString :=
  match list_find (fun p => p.1 = protocol) (m_supportedProtocols member) with
  | Some (_, (_, metadata)) => metadata
  | None => []
  end.

Definition updateSupportedProtocols (ps : list (string * ByteString)) g : G :=
  set_supportedProtocols
    (if decide (supportedProtocols g = ∅) then plainProtocols ps
     else plainProtocols ps ∩ supportedProtocols g) g.

(** [L.group] *)
Fixpoint group_adjacent (l : list string) : list (list string) :=
  match l with
  | [] => []
  | x :: l =>
      match group_adjacent l with
      | (y :: ys) :: rest => if decide (x = y) then (x :: y :: ys) :: rest else [x] :: (y :: ys) :: rest
      | rest => [x] :: rest
      end
  end.

(** ** State changes *)

Definition groupStateValidPrevs (s : GroupState) : list GroupState :=
  match s with
  | PreparingRebalance => [Stable; Empty; CompletingRebalance]
  | CompletingRebalance => [PreparingRebalance]
  | Stable => [CompletingRebalance]
  | Dead => [Stable; Empty; Dead; PreparingRebalance; CompletingRebalance]
  | Empty => [PreparingRebalance]
  end.

Definition transitionTo (toState : GroupState) g : G :=
  if decide (state g ∈ groupStateValidPrevs toState) then set_state toState g else g.

(** ** Creation *)

Definition newGroup (group : string) (manager : GroupOffsetManager os) (meta : option GroupMetadataValue)
    (delay : Z) : G :=
  {| groupId := group; groupInitialRebalanceDelay := delay; groupGenerationId := 0; state := Empty;
     leader := None; members := ∅; delayedJoinResponses := ∅; delayedRebalance := None;
     delayedSync := None; delayedSyncResponses := ∅; metadataManager := manager;
     protocolType := None; protocolName := None; supportedProtocols := ∅; storedMetadata := false;
     metaStore := meta; retired := ∅; rebalances := ∅; syncs := ∅; hearts := ∅; next_tid := 0;
     joinAnswers := ∅; syncAnswers := ∅; next_mvar := 0 |}.

Section ops.
Context {O : IterOrder string} {LE : ListExtra} {B64 : Base64}.

Definition addMember (member : Member) (delayedResponse : option nat) g : G :=
  let mid := m_memberId member in
  let g := if decide (members g = ∅) then set_protocolType (Some (m_protocolType member)) g else g in
  let g := if decide (leader g = None) then set_leader (Some mid) g else g in
  let g := set_members (<[mid := member]> (members g)) g in
  let g := updateSupportedProtocols (m_supportedProtocols member) g in
  match delayedResponse with
  | None => g
  | Some delayed => set_delayedJoinResponses (<[mid := delayed]> (delayedJoinResponses g)) g
  end.

(** ** Heartbeat threads *)

Definition updateLatestHeartbeat (now : Z) (mid : string) g : G :=
  alter_member (set_lastHeartbeat now) mid g.

(** One member of the loop: a new thread, whose id replaces the one the member has. *)
Definition setup_heart (clock : string -> Z) g (x : string * Member) : G :=
  let g := updateLatestHeartbeat (clock x.1) x.1 g in
  let tid := next_tid g in
  let g := set_next_tid (S tid) (set_hearts (<[tid := x.1]> (hearts g)) g) in
  alter_member (set_heartbeatThread (Some tid)) x.1 g.

Definition setupDelayedCheckHeartbeat (clock : string -> Z) g : G :=
  foldl (setup_heart clock) g (iter_list (members g)).

Definition newGroupFromValue (clock : string -> Z) (value : GroupMetadataValue)
    (manager : GroupOffsetManager os) (delay : Z) : G :=
  let g := newGroup (gv_groupId value) manager (Some value) delay in
  let g := set_state (match gv_members value with [] => Empty | _ => Stable end) g in
  let g := set_groupGenerationId (gv_generationId value) (set_leader (gv_leader value) g) in
  let g := set_protocolType (Some (gv_protocolType value)) (set_protocolName (gv_prototcolName value) g) in
  let g := set_storedMetadata true g in
  let g := foldl (fun g v => addMember (newMemberFromValue value v) None g) g (gv_members value) in
  setupDelayedCheckHeartbeat clock g.

(** ** Removal *)

Definition kill_heart (tid : option nat) g : G :=
  match tid with None => g | Some tid => set_hearts (delete tid (hearts g)) g end.

Definition elect g : option string :=
  match iter_list (delayedJoinResponses g) with
  | [] => fst <$> head (iter_list (members g))
  | (mid, _) :: _ => Some mid
  end.

Definition removeMember (mid : string) g : G :=
  let g := kill_heart (member_of g mid ≫= m_heartbeatThread) g in
  let g :=
    match members g !! mid with
    | Some m => set_members (delete mid (members g)) (set_retired (<[mid := m]> (retired g)) g)
    | None => g
    end in
  if decide (leader g = Some mid) then set_leader (elect g) g else g.

(** The loops remove the members that have no entry in a table of requests. *)
Definition remove_absent (waiting : G -> gmap string nat) g : G :=
  foldl (fun g x => match waiting g !! x.1 with None => removeMember x.1 g | Some _ => g end)
    g (iter_list (members g)).
Definition removeNotYetRejoinedMembers g : G := remove_absent delayedJoinResponses g.
Definition removeNotYetSyncedMembers g : G := remove_absent delayedSyncResponses g.

(** ** Parked requests *)

Definition makeJoinResponseError (mid : string) (errorCode : Z) : JoinGroupResponse :=
  {| jr_errorCode := errorCode; jr_generationId := -1; jr_protocolName := ""; jr_leader := "";
     jr_memberId := mid; jr_members := [] |}.

Definition cancelDelayedJoinResponse (mid : string) g : G :=
  match delayedJoinResponses g !! mid with
  | None => g
  | Some delayed =>
      set_delayedJoinResponses (delete mid (delayedJoinResponses g))
        (set_joinAnswers (try_put delayed (makeJoinResponseError mid UNKNOWN_MEMBER_ID) (joinAnswers g)) g)
  end.

Definition answer_sync (resp : SyncGroupResponse) (mid : string) (delayed : nat) g : G :=
  set_delayedSyncResponses (delete mid (delayedSyncResponses g))
    (set_syncAnswers (try_put delayed resp (syncAnswers g)) g).

Definition cancelDelayedSyncResponses g : G :=
  foldl (fun g x => answer_sync {| sr_errorCode := REBALANCE_IN_PROGRESS; sr_assignment := [] |} x.1 x.2 g)
    g (iter_list (delayedSyncResponses g)).

Definition cancelDelayedSync g : G :=
  match delayedSync g with
  | None => g
  | Some delayed => set_delayedSync None (set_syncs (delete delayed (syncs g)) g)
  end.

(** ** Rebalancing *)

Definition haveAllMembersRejoined g : bool :=
  foldl (fun (acc : bool) x =>
      if acc then bool_decide (is_Some (delayedJoinResponses g !! x.1)) else false)
    true (iter_list (members g)).

(** [p] says whether the thread polls [haveAllMembersRejoined]; otherwise it waits
    for its timeout only. *)
Definition makeDelayedRebalance (p : bool) (timeoutMs : Z) g : G :=
  let tid := next_tid g in
  set_delayedRebalance (Some tid)
    (set_next_tid (S tid) (set_rebalances (<[tid := (p, timeoutMs)]> (rebalances g)) g)).

Definition prepareRebalance (p : bool) (timeoutMs : Z) g : G :=
  let g := if decide (state g = CompletingRebalance) then cancelDelayedSyncResponses g else g in
  let g := cancelDelayedSync g in
  match delayedRebalance g with
  | None => transitionTo PreparingRebalance (makeDelayedRebalance p timeoutMs g)
  | Some _ => g
  end.

Definition computeRebalanceTimeoutMs g : Z :=
  foldl (fun x y => Z.max x (m_rebalanceTimeoutMs y.2)) 0 (iter_list (members g)).

Definition mostOccur (votes : list string) : option string :=
  maximumOn length (group_adjacent (merge_sort String.le votes)) ≫= head.

Definition chooseProtocolName : IO G string :=
  candicateProtocols ← gets supportedProtocols;
  members_ ← gets (fun g => (iter_list (members g)).*2);
  votes ← forM members_ (fun m => lift (voteForProtocol candicateProtocols m));
  match mostOccur votes with
  | Some chosenProtocol => mret chosenProtocol
  | None => throw EmptyList
  end.

Definition computeProtocolName : IO G string :=
  pn ← gets protocolName;
  match pn with
  | None => pn ← chooseProtocolName; modify (set_protocolName (Some pn));; mret pn
  | Some pn => mret pn
  end.

Definition getJoinResponseMember (protocol : string) (m : Member) : string * ByteString :=
  (m_memberId m, getMemberMetadata m protocol).

Definition join_response g (selected leaderMemberId : string) (leaderMembers : list (string * ByteString))
    (mid : string) : JoinGroupResponse :=
  {| jr_errorCode := 0; jr_generationId := groupGenerationId g; jr_protocolName := selected;
     jr_leader := leaderMemberId; jr_memberId := mid;
     jr_members := if decide (leaderMemberId = mid) then leaderMembers else [] |}.

Definition answer_join (resp : string -> JoinGroupResponse) g (x : string * nat) : G :=
  set_delayedJoinResponses (delete x.1 (delayedJoinResponses g))
    (set_joinAnswers (try_put x.2 (resp x.1) (joinAnswers g)) g).

Definition makeDelayedSync (generationId timeoutMs : Z) g : G :=
  let tid := next_tid g in
  set_delayedSync (Some tid) (set_next_tid (S tid)
    (set_syncs (<[tid := (generationId, (iter_list (members g)).*1, timeoutMs)]> (syncs g)) g)).

Definition doRelance (leaderMemberId : string) : IO G unit :=
  selectedProtocolName ← computeProtocolName;
  modify (transitionTo CompletingRebalance);;
  modify (fun g =>
    let leaderMembers := getJoinResponseMember selectedProtocolName <$> (iter_list (members g)).*2 in
    foldl (answer_join (join_response g selectedProtocolName leaderMemberId leaderMembers))
      g (iter_list (delayedJoinResponses g)));;
  modify (fun g => makeDelayedSync (groupGenerationId g) (computeRebalanceTimeoutMs g) g);;
  modify (set_delayedRebalance None).

(** ** The metastore *)

Definition getMemberValue (protocol : string) (assignments : gmap string ByteString) (member : Member)
    : MemberMetadataValue :=
  {| mv_memberId := m_memberId member; mv_clientId := m_clientId member;
     mv_clientHost := m_clientHost member; mv_sessionTimeout := m_sessionTimeoutMs member;
     mv_rebalanceTimeout := m_rebalanceTimeoutMs member;
     mv_subscription := encodeBase64 (getMemberMetadata member protocol);
     mv_assignment := encodeBase64 (default [] (assignments !! m_memberId member)) |}.

Definition getGroupValue (assignments : gmap string ByteString) g : GroupMetadataValue :=
  {| gv_groupId := groupId g; gv_generationId := groupGenerationId g;
     gv_protocolType := default "" (protocolType g); gv_prototcolName := protocolName g;
     gv_leader := leader g;
     gv_members := getMemberValue (default "" (protocolName g)) assignments <$> (iter_list (members g)).*2 |}.

(** [ok] says whether the metastore takes the value. *)
Definition storeGroup (ok : bool) (assignments : gmap string ByteString) : IO G unit :=
  value ← gets (getGroupValue assignments);
  if ok then modify (set_metaStore (Some value));; modify (set_storedMetadata true)
  else throw StoreFailed.

Definition rebalance (ok : bool) : IO G unit :=
  modify removeNotYetRejoinedMembers;;
  modify (fun g => set_groupGenerationId (i32 (groupGenerationId g + 1)) g);;
  l ← gets leader;
  match l with
  | None =>
      modify (set_protocolName None);;
      modify (transitionTo Empty);;
      modify (set_delayedRebalance None);;
      modify cancelDelayedSync;;
      storeGroup ok ∅
  | Some leaderMemberId => doRelance leaderMemberId
  end.

(** The action of the thread [makeDelayedSync] starts; a wrong generation is only
    logged. *)
Definition delayed_sync_action g : G :=
  match state g with
  | CompletingRebalance => set_delayedSync None (removeNotYetSyncedMembers g)
  | _ => g
  end.

(** What that thread polls. *)
Definition hasReceivedAllSyncs (curMembers : list string) g : bool :=
  foldl (fun (acc : bool) mid =>
      if acc then bool_decide (is_Some (delayedSyncResponses g !! mid)) else false)
    true curMembers.

(** ** Join *)

Definition checkSupportedProtocols (req : JoinGroupRequest) : IO G unit :=
  s ← gets state;
  match s with
  | Empty =>
      if decide (jq_protocolType req = "") then throw (ErrorCodeException INCONSISTENT_GROUP_PROTOCOL)
      else if decide (default [] (jq_protocols req) = [])
           then throw (ErrorCodeException INCONSISTENT_GROUP_PROTOCOL)
           else mret tt
  | _ =>
      t ← gets protocolType;
      if decide (Some (jq_protocolType req) = t) then
        ps ← gets supportedProtocols;
        refined ← lift (refineProtocols (jq_protocols req));
        if decide (ps ∩ plainProtocols refined = ∅)
        then throw (ErrorCodeException INCONSISTENT_GROUP_PROTOCOL)
        else mret tt
      else throw (ErrorCodeException INCONSISTENT_GROUP_PROTOCOL)
  end.

Definition generateMemberId (reqCtx : RequestContext) (uuid : string) : string :=
  default "" (rc_clientId reqCtx) +:+ "-" +:+ uuid.

Definition getMember (mid : string) : IO G Member :=
  ms ← gets members;
  match ms !! mid with
  | None => throw (ErrorCodeException UNKNOWN_MEMBER_ID)
  | Some member => mret member
  end.

Definition addMemberAndRebalance (reqCtx : RequestContext) (req : JoinGroupRequest) (mid : string)
    (delayedResponse : nat) : IO G unit :=
  isGroupEmpty ← gets (fun g => bool_decide (members g = ∅));
  ps ← lift (refineProtocols (jq_protocols req));
  modify (addMember (newMemberFromReq reqCtx req mid ps) (Some delayedResponse));;
  curState ← gets state;
  if decide (curState ∈ [Empty; Stable; CompletingRebalance]) then
    modify (fun g => prepareRebalance (negb isGroupEmpty)
      (if isGroupEmpty then i32 (groupInitialRebalanceDelay g) else jq_rebalanceTimeoutMs req) g)
  else mret tt.

Definition updateMember (mid : string) (req : JoinGroupRequest) (ps : list (string * ByteString))
    (delayedResponse : nat) g : G :=
  let g := updateSupportedProtocols ps g in
  let g := alter_member (set_joined (jq_rebalanceTimeoutMs req) (jq_sessionTimeoutMs req) ps) mid g in
  set_delayedJoinResponses (<[mid := delayedResponse]> (delayedJoinResponses g)) g.

Definition updateMemberAndRebalance (mid : string) (req : JoinGroupRequest) (delayedResponse : nat)
    : IO G unit :=
  ps ← lift (refineProtocols (jq_protocols req));
  modify (updateMember mid req ps delayedResponse);;
  curState ← gets state;
  if decide (curState ∈ [Empty; Stable; CompletingRebalance])
  then modify (prepareRebalance true (jq_rebalanceTimeoutMs req)) else mret tt.

Definition doCurrentMemeberJoinGroup (req : JoinGroupRequest) (delayedResponse : nat) : IO G unit :=
  getMember (jq_memberId req);;
  s ← gets state;
  match s with
  | PreparingRebalance | CompletingRebalance | Stable =>
      updateMemberAndRebalance (jq_memberId req) req delayedResponse
  | _ => throw (ErrorCodeException UNKNOWN_MEMBER_ID)
  end.

(** The result is the [MVar] the request waits for. *)
Definition joinGroup (reqCtx : RequestContext) (uuid : string) (req : JoinGroupRequest) : IO G nat :=
  delayedResponse ← newEmptyMVar;
  checkSupportedProtocols req;;
  s ← gets state;
  (if decide (s = Dead) then throw (ErrorCodeException UNKNOWN_MEMBER_ID) else mret tt);;
  (if decide (jq_memberId req = "")
   then addMemberAndRebalance reqCtx req (generateMemberId reqCtx uuid) delayedResponse
   else doCurrentMemeberJoinGroup req delayedResponse);;
  mret delayedResponse.

(** ** Sync *)

Definition getAssignmentMap (req : SyncGroupRequest) : gmap string ByteString :=
  foldl (fun m (x : string * ByteString) => <[x.1 := x.2]> m) ∅ (default [] (sq_assignments req)).

Definition propagate (assignments : gmap string ByteString) g (x : string * Member) : G :=
  let a := default [] (assignments !! x.1) in
  let g := alter_member (set_assignment a) x.1 g in
  match delayedSyncResponses g !! x.1 with
  | None => g
  | Some delayed => answer_sync {| sr_errorCode := 0; sr_assignment := a |} x.1 delayed g
  end.

Definition setAndPropagateAssignment (assignments : gmap string ByteString) g : G :=
  cancelDelayedSyncResponses (foldl (propagate assignments) g (iter_list (members g))).

Definition doSyncGroup (clock : string -> Z) (ok : bool) (req : SyncGroupRequest) (delayedResponse : nat)
    : IO G unit :=
  let mid := sq_memberId req in
  parked ← gets delayedSyncResponses;
  match parked !! mid with
  | None => modify (set_delayedSyncResponses (<[mid := delayedResponse]> parked))
  | Some _ => throw (ErrorCodeException UNKNOWN_SERVER_ERROR)
  end;;
  l ← gets leader;
  match l with
  | None => throw PatternFail
  | Some leaderMemberId =>
      if decide (mid = leaderMemberId) then
        let assignmentMap := getAssignmentMap req in
        storeGroup ok assignmentMap;;
        modify (setAndPropagateAssignment assignmentMap);;
        modify (setupDelayedCheckHeartbeat clock);;
        modify cancelDelayedSync;;
        modify (transitionTo Stable)
      else mret tt
  end.

Definition syncGroup (clock : string -> Z) (ok : bool) (req : SyncGroupRequest) : IO G nat :=
  delayed ← newEmptyMVar;
  member ← getMember (sq_memberId req);
  s ← gets state;
  match s with
  | CompletingRebalance => doSyncGroup clock ok req delayed
  | Stable => modify (fun g => set_syncAnswers (try_put delayed
      {| sr_errorCode := 0; sr_assignment := m_assignment member |} (syncAnswers g)) g)
  | PreparingRebalance => throw (ErrorCodeException REBALANCE_IN_PROGRESS)
  | _ => throw (ErrorCodeException UNKNOWN_MEMBER_ID)
  end;;
  mret delayed.

(** ** Leave and heartbeat *)

Definition removeMemberAndUpdateGroup (mid : string) : IO G unit :=
  modify (cancelDelayedJoinResponse mid);;
  modify (removeMember mid);;
  curState ← gets state;
  if decide (curState = PreparingRebalance) then
    d ← gets delayedRebalance;
    match d with
    | None => throw (ErrorCodeException UNKNOWN_SERVER_ERROR)
    | Some _ => mret tt
    end
  else if decide (curState ∈ [Empty; Stable; CompletingRebalance]) then
    modify (fun g => prepareRebalance true (computeRebalanceTimeoutMs g) g)
  else mret tt.

Definition leaveGroup (mid : string) : IO G unit :=
  getMember mid;;
  s ← gets state;
  match s with
  | Dead | Empty => throw (ErrorCodeException UNKNOWN_MEMBER_ID)
  | CompletingRebalance | Stable | PreparingRebalance => removeMemberAndUpdateGroup mid
  end.

Definition checkGroupGenerationId (generationId : Z) : IO G unit :=
  current ← gets groupGenerationId;
  if decide (current = generationId) then mret tt else throw (ErrorCodeException ILLEGAL_GENERATION).

Definition heartbeat (now : Z) (generationId : Z) (mid : string) : IO G unit :=
  checkGroupGenerationId generationId;;
  s ← gets state;
  match s with
  | PreparingRebalance | CompletingRebalance => throw (ErrorCodeException REBALANCE_IN_PROGRESS)
  | Dead | Empty => throw (ErrorCodeException UNKNOWN_MEMBER_ID)
  | Stable => mret tt
  end;;
  getMember mid;;
  modify (updateLatestHeartbeat now mid).

(** The delay until the next check; 0 or less when the member timed out. The object
    of a thread's member exists as long as the thread. *)
Definition checkHeartbeatAndMaybeRebalance (now : Z) (mid : string) : IO G Z :=
  m ← gets (fun g => member_of g mid);
  match m with
  | None => mret 0
  | Some member =>
      let nextDelayMs := i32 (m_sessionTimeoutMs member - i32 (i64 (now - m_lastHeartbeat member))) in
      (if decide (nextDelayMs <= 0) then
         modify (alter_member (set_heartbeatThread None) mid);;
         removeMemberAndUpdateGroup mid
       else mret tt);;
      mret nextDelayMs
  end.

(** ** Offsets *)

Definition on_offsets {A} (m : IO (GroupOffsetManager os) A) : IO G A := fun g =>
  let '(o, r) := m (metadataManager g) in (set_metadataManager o g, r).

Definition validateOffsetcommit (req : OffsetCommitRequest) : IO G unit :=
  currentState ← gets state;
  currentGenerationId ← gets groupGenerationId;
  if oc_generationId req <? 0 then
    if decide (currentState = Empty) then mret tt else throw (ErrorCodeException ILLEGAL_GENERATION)
  else if decide (oc_generationId req = currentGenerationId) then
    getMember (oc_memberId req);; mret tt
  else throw (ErrorCodeException ILLEGAL_GENERATION).

(** A null array stays null. *)
Definition makeErrorTopicResponse (code : Z) (ps : option (list (Z * Z))) : option (list (Z * Z)) :=
  option_map (map (fun p => (p.1, code))) ps.

Section commit.
Context {OS : OffsetStorage os} {TT : TopicTree}.

Definition commit_topic (validateReqTopic : string -> Z) (t : string * option (list (Z * Z)))
    : IO G (string * option (list (Z * Z))) :=
  let code := validateReqTopic t.1 in
  if code =? NONE then res ← on_offsets (storeOffsets t.1 t.2); mret (t.1, Some res)
  else mret (t.1, makeErrorTopicResponse code t.2).

(** A null array stays null. *)
Definition commit_topics (validateReqTopic : string -> Z) (ts : option (list (string * option (list (Z * Z)))))
    : IO G (option (list (string * option (list (Z * Z))))) :=
  match ts with
  | None => mret None
  | Some ts => res ← forM ts (commit_topic validateReqTopic); mret (Some res)
  end.

(** The group is stored with its first offsets, and the commit counts as a sign of
    life. *)
Definition finish_commit (ok : bool) (now : Z) (mid : string) : IO G unit :=
  storedBefore ← gets storedMetadata;
  match storedBefore with true => mret tt | false => storeGroup ok ∅ end;;
  modify (fun g => match members g !! mid with
                   | None => g
                   | Some _ => updateLatestHeartbeat now mid g
                   end).

Definition commitOffsets (validateReqTopic : string -> Z) (ok : bool) (now : Z) (req : OffsetCommitRequest)
    : IO G (option (list (string * option (list (Z * Z))))) :=
  validateOffsetcommit req;;
  s ← gets state;
  match s with
  | CompletingRebalance => throw (ErrorCodeException REBALANCE_IN_PROGRESS)
  | Dead => throw (ErrorCodeException UNKNOWN_MEMBER_ID)
  | _ =>
      topics ← commit_topics validateReqTopic (oc_topics req);
      finish_commit ok now (oc_memberId req);;
      mret topics
  end.
End commit.

Definition fetchOffsets (validateReqTopic : string -> Z) (t : string) (ps : option (list Z)) g
    : list (Z * Z * Z) :=
  let code := validateReqTopic t in
  if code =? NONE then GroupOffsets.fetchOffsets (metadataManager g) t ps
  else (fun i => (i, -1, code)) <$> default [] ps.

Definition fetchAllOffsets (validateReqTopic : string -> Z) g : list (string * list (Z * Z * Z)) :=
  filter (fun t => validateReqTopic t.1 = NONE) (GroupOffsets.fetchAllOffsets (metadataManager g)).

(** ** Overview *)

Record DescribedGroupMember := {
  dm_memberId : string; dm_clientId : string; dm_clientHost : string;
  dm_memberMetadata : ByteString; dm_memberAssignment : ByteString;
}.

Record DescribedGroup := {
  dg_errorCode : Z; dg_groupId : string; dg_groupState : string; dg_protocolType : string;
  dg_protocolData : string; dg_members : list DescribedGroupMember;
}.

Definition overview g : string * string := (groupId g, default "" (protocolType g)).

Definition describeMember (protocol : string) (member : Member) : DescribedGroupMember :=
  {| dm_memberId := m_memberId member; dm_clientId := m_clientId member;
     dm_clientHost := m_clientHost member; dm_memberMetadata := getMemberMetadata member protocol;
     dm_memberAssignment := m_assignment member |}.

Definition show_state (s : GroupState) : string :=
  match s with
  | PreparingRebalance => "PreparingRebalance" | CompletingRebalance => "CompletingRebalance"
  | Stable => "Stable" | Dead => "Dead" | Empty => "Empty"
  end.

Definition describe g : DescribedGroup :=
  let protocol := default "" (protocolName g) in
  {| dg_errorCode := 0; dg_groupId := groupId g; dg_groupState := show_state (state g);
     dg_protocolType := default "" (protocolType g); dg_protocolData := protocol;
     dg_members := describeMember protocol <$> (iter_list (members g)).*2 |}.

(** ** Steps *)

(** A request, or the turn of a thread. The polls of the threads read the tables
    without the lock, and a timeout may be short: a thread may take its turn at any
    time after its start. *)
Inductive event :=
| EJoin (reqCtx : RequestContext) (uuid : string) (req : JoinGroupRequest)
| ESync (clock : string -> Z) (ok : bool) (req : SyncGroupRequest)
| ELeave (mid : string)
| EHeartbeat (now generationId : Z) (mid : string)
| ECommit (validateReqTopic : string -> Z) (ok : bool) (now : Z) (req : OffsetCommitRequest)
| ERebalance (tid : nat) (ok : bool)
| ESyncTurn (tid : nat)
| ECheckHeart (tid : nat) (now : Z).

Section steps.
Context {OS : OffsetStorage os} {TT : TopicTree}.

Definition heart_turn (tid : nat) (now : Z) (mid : string) g : G :=
  let '(g, r) := checkHeartbeatAndMaybeRebalance now mid g in
  match r with
  | inr delay => if decide (0 < delay) then g else set_hearts (delete tid (hearts g)) g
  | inl _ => set_hearts (delete tid (hearts g)) g
  end.

Definition step (e : event) g : G :=
  match e with
  | EJoin reqCtx uuid req => (joinGroup reqCtx uuid req g).1
  | ESync clock ok req => (syncGroup clock ok req g).1
  | ELeave mid => (leaveGroup mid g).1
  | EHeartbeat now generationId mid => (heartbeat now generationId mid g).1
  | ECommit validateReqTopic ok now req => (commitOffsets validateReqTopic ok now req g).1
  | ERebalance tid ok =>
      match rebalances g !! tid with
      | None => g
      | Some _ => let g := (rebalance ok g).1 in set_rebalances (delete tid (rebalances g)) g
      end
  | ESyncTurn tid =>
      match syncs g !! tid with
      | None => g
      | Some _ => let g := delayed_sync_action g in set_syncs (delete tid (syncs g)) g
      end
  | ECheckHeart tid now =>
      match hearts g !! tid with
      | None => g
      | Some mid => heart_turn tid now mid g
      end
  end.

(** The id made for a new member is not in use: it has a random UUID. *)
Definition allowed (e : event) g : Prop :=
  match e with
  | EJoin reqCtx uuid req =>
      members g !! generateMemberId reqCtx uuid = None /\ retired g !! generateMemberId reqCtx uuid = None
  | _ => True
  end.

Inductive reachable (g0 : G) : G -> Prop :=
| reachable_start : reachable g0 g0
| reachable_step g e : reachable g0 g -> allowed e g -> reachable g0 (step e g).
End steps.
End ops.
End group.
End KafkaGroup.
