(* ===== verification/KafkaGroupSafety.v ===== *)
(** * The state of a consumer group is sound
      (src/hstream-kafka/HStream/Kafka/Group/Group.hs)

    The invariant of the group of KafkaGroup.v and its preservation by every
    request and every turn of a thread. *)

From stdpp Require Import base gmap strings list sorting.
From Stdlib Require Import ZArith Lia.
From S2P Require Import Prelude GroupOffsets KafkaGroup.
Import GroupOffsets KafkaGroup.

Module KafkaGroupSafety.

(** ** Answering parked requests *)

(** Every parked request has its answer afterwards, the answers there were stay, and
    there are no others. *)
Record answered {A} (parked : gmap string nat) (resp : string -> A) (a a' : gmap nat A) : Prop := {
  answered_old : forall v r, a !! v = Some r -> a' !! v = Some r;
  answered_new : forall k v, parked !! k = Some v -> a !! v = None -> a' !! v = Some (resp k);
  answered_only : forall v r, a' !! v = Some r ->
    a !! v = Some r \/ exists k, parked !! k = Some v /\ r = resp k;
}.

Definition distinct (parked : gmap string nat) : Prop :=
  forall k k' v, parked !! k = Some v -> parked !! k' = Some v -> k = k'.

Lemma try_put_old {A} v (r : A) a v' x : a !! v' = Some x -> try_put v r a !! v' = Some x.
Proof.
  unfold try_put. destruct (a !! v) eqn:E; [done|]. intros H. rewrite lookup_insert_ne; [done|congruence].
Qed.

Lemma try_put_new {A} v (r : A) a : a !! v = None -> try_put v r a !! v = Some r.
Proof. unfold try_put. intros ->. apply lookup_insert_eq. Qed.

Lemma try_put_inv {A} v (r : A) a v' x :
  try_put v r a !! v' = Some x -> a !! v' = Some x \/ v' = v /\ x = r.
Proof.
  unfold try_put. destruct (a !! v) eqn:E; [by left|]. rewrite lookup_insert_Some. naive_solver.
Qed.

(** The loop over a table of parked requests. *)
Definition answer_loop {A} (resp : string -> A) (xs : list (string * nat))
    (s : gmap string nat * gmap nat A) : gmap string nat * gmap nat A :=
  foldl (fun s x => (delete x.1 s.1, try_put x.2 (resp x.1) s.2)) s xs.

Lemma answer_loop_deleted {A} (resp : string -> A) xs s k :
  (answer_loop resp xs s).1 !! k = if decide (k ∈ xs.*1) then None else s.1 !! k.
Proof.
  revert s. induction xs as [|[k' v] xs IH]; intros s; [by rewrite decide_False by (by intros ?%elem_of_nil)|].
  unfold answer_loop in *. simpl. rewrite IH. simpl. destruct (decide (k ∈ xs.*1)).
  - rewrite decide_True; [done|]. by right.
  - destruct (decide (k = k')) as [->|].
    + by rewrite lookup_delete_eq, decide_True by left.
    + rewrite lookup_delete_ne by done. rewrite decide_False; [done|]. by intros [|]%elem_of_cons.
Qed.

Lemma answer_loop_spec {A} (resp : string -> A) xs (d : gmap string nat) a :
  distinct (list_to_map xs) -> NoDup xs.*1 ->
  answered (list_to_map xs) resp a (answer_loop resp xs (d, a)).2.
Proof.
  revert d a. induction xs as [|[k v] xs IH]; intros d a Hd Hnd.
  { split; simpl; [done| |by left]. intros k v. by rewrite lookup_empty. }
  apply NoDup_cons in Hnd as [Hk Hnd]. simpl in Hk.
  assert (Hxs : list_to_map xs !! k = None) by (by apply not_elem_of_list_to_map_1).
  assert (Hd' : distinct (list_to_map xs)).
  { intros k1 k2 w H1 H2. apply (Hd k1 k2 w); simpl; rewrite lookup_insert_ne; try done; congruence. }
  destruct (IH (delete k d) (try_put v (resp k) a) Hd' Hnd) as [Ho Hn Hl].
  unfold answer_loop in *. simpl. split.
  - intros w r H. by apply Ho, try_put_old.
  - intros k' w H Hw. simpl in H. apply lookup_insert_Some in H as [[<- <-]|[Hne H]].
    + by apply Ho, try_put_new.
    + apply Hn; [done|]. destruct (try_put v (resp k) a !! w) as [r|] eqn:E; [|done].
      apply try_put_inv in E as [|[-> _]]; [congruence|]. exfalso. apply Hne.
      apply (Hd k k' v); simpl; [apply lookup_insert_eq|by rewrite lookup_insert_ne].
  - intros w r [H|(k' & H & ->)]%Hl.
    + apply try_put_inv in H as [|[-> ->]]; [by left|]. right. exists k. by rewrite lookup_insert_eq.
    + right. exists k'. rewrite lookup_insert_ne; [done|congruence].
Qed.

Section proofs.
Context {os : Type} {O : IterOrder string} {LE : ListExtra} {B64 : Base64}.
Notation G := (Group os).
Implicit Type g : G.

Lemma answer_loop_table {A} (resp : string -> A) (m : gmap string nat) a :
  distinct m -> (answer_loop resp (iter_list m) (m, a)).1 = ∅ /\
  answered m resp a (answer_loop resp (iter_list m) (m, a)).2.
Proof.
  intros Hd. split.
  - apply map_eq. intros k. rewrite answer_loop_deleted, lookup_empty. case_decide as Hk; [done|].
    simpl. destruct (m !! k) as [v|] eqn:E; [|done]. exfalso. apply Hk, list_elem_of_fmap.
    exists (k, v). split; [done|]. by apply elem_of_iter_list.
  - pose proof (answer_loop_spec resp (iter_list m) m a) as H. rewrite iter_list_to_map in H.
    apply H; [done|]. apply NoDup_iter_list_fst.
Qed.

Lemma answer_joins_eq resp xs g :
  foldl (answer_join resp) g xs =
  set_delayedJoinResponses (answer_loop resp xs (delayedJoinResponses g, joinAnswers g)).1
    (set_joinAnswers (answer_loop resp xs (delayedJoinResponses g, joinAnswers g)).2 g).
Proof.
  revert g. induction xs as [|x xs IH]; intros g; [by destruct g|]. simpl. by rewrite IH.
Qed.

Definition sync_cancelled : SyncGroupResponse :=
  {| sr_errorCode := REBALANCE_IN_PROGRESS; sr_assignment := [] |}.

Lemma cancelDelayedSyncResponses_eq g : distinct (delayedSyncResponses g) ->
  exists a, cancelDelayedSyncResponses g = set_delayedSyncResponses ∅ (set_syncAnswers a g) /\
    answered (delayedSyncResponses g) (fun _ => sync_cancelled) (syncAnswers g) a.
Proof.
  intros Hd. destruct (answer_loop_table (fun _ => sync_cancelled) _ (syncAnswers g) Hd) as [E Ha].
  eexists. split; [|exact Ha]. rewrite <- E. clear. unfold cancelDelayedSyncResponses.
  generalize (iter_list (delayedSyncResponses g)) as xs. intros xs. revert g.
  induction xs as [|x xs IH]; intros g; [by destruct g|]. simpl. by rewrite IH.
Qed.

(** ** Removing members *)

Definition leader_ok (l : option string) (ms : gmap string Member) : Prop :=
  match l with Some x => is_Some (ms !! x) | None => ms = ∅ end.

(** What removals change. *)
Definition removed g g' : Prop :=
  exists l ms rt hs, g' = set_leader l (set_members ms (set_retired rt (set_hearts hs g))).

Lemma removed_refl g : removed g g.
Proof. exists (leader g), (members g), (retired g), (hearts g). by destruct g. Qed.

Lemma removed_trans g1 g2 g3 : removed g1 g2 -> removed g2 g3 -> removed g1 g3.
Proof. intros (l & ms & rt & hs & ->) (l' & ms' & rt' & hs' & ->). by exists l', ms', rt', hs'. Qed.

Lemma removeMember_members mid g : members (removeMember mid g) = delete mid (members g).
Proof.
  unfold removeMember. destruct (member_of g mid ≫= m_heartbeatThread) as [tid|]; simpl;
    destruct (members g !! mid) eqn:E; simpl; case_decide; simpl; try done; by rewrite delete_id.
Qed.

Lemma removeMember_removed mid g : removed g (removeMember mid g).
Proof.
  unfold removeMember.
  destruct (member_of g mid ≫= m_heartbeatThread) as [tid|]; simpl;
    destruct (members g !! mid) eqn:E; simpl; case_decide; simpl;
    match goal with |- removed g ?x => exists (leader x), (members x), (retired x), (hearts x) end;
    by destruct g.
Qed.

Lemma iter_list_nil {A} (m : gmap string A) : iter_list m = [] -> m = ∅.
Proof. intros H. rewrite <- (iter_list_to_map m), H. done. Qed.

Lemma removeMember_leader mid g :
  leader_ok (leader g) (members g) -> delayedJoinResponses g !! mid = None ->
  (forall k, is_Some (delayedJoinResponses g !! k) -> is_Some (members g !! k)) ->
  leader_ok (leader (removeMember mid g)) (members (removeMember mid g)).
Proof.
  intros Hl Hmid Hj. rewrite removeMember_members.
  destruct (decide (leader g = Some mid)) as [E|E].
  - assert (leader (removeMember mid g) =
      match iter_list (delayedJoinResponses g) with
      | [] => fst <$> head (iter_list (delete mid (members g)))
      | (k, _) :: _ => Some k
      end) as ->.
    { unfold removeMember, elect. destruct (member_of g mid ≫= m_heartbeatThread) as [tid|]; simpl;
        destruct (members g !! mid) eqn:Em; simpl; rewrite decide_True by done; simpl; try done;
        by rewrite delete_id. }
    destruct (iter_list (delayedJoinResponses g)) as [|[k v] xs] eqn:Ej.
    + destruct (iter_list (delete mid (members g))) as [|[k m] ms] eqn:Em; simpl; [by apply iter_list_nil|].
      exists m. apply elem_of_iter_list. rewrite Em. left.
    + assert (delayedJoinResponses g !! k = Some v) as Hk by (apply elem_of_iter_list; rewrite Ej; left).
      simpl. rewrite lookup_delete_ne by congruence. apply Hj. by eexists.
  - assert (leader (removeMember mid g) = leader g) as ->.
    { unfold removeMember. destruct (member_of g mid ≫= m_heartbeatThread) as [tid|]; simpl;
        destruct (members g !! mid) eqn:Em; simpl; by rewrite decide_False. }
    destruct (leader g) as [l|]; simpl in *; [rewrite lookup_delete_ne; congruence|].
    by rewrite Hl, delete_empty.
Qed.

(** The loop removes exactly the members without an entry. *)
Lemma remove_loop_spec (waiting : G -> gmap string nat) xs g :
  (forall g1 g2, removed g1 g2 -> waiting g2 = waiting g1) ->
  let g' := foldl (fun g (x : string * Member) => match waiting g !! x.1 with None => removeMember x.1 g | Some _ => g end) g xs in
  removed g g' /\
  forall k, members g' !! k =
    if decide (k ∈ xs.*1 /\ waiting g !! k = None) then None else members g !! k.
Proof.
  intros Hw. cbv zeta. revert g. induction xs as [|[x m] xs IH]; intros g; cbn [foldl fst fmap list_fmap].
  { split; [apply removed_refl|]. intros k. rewrite decide_False; [done|]. intros [Hk _]. by apply elem_of_nil in Hk. }
  set (g1 := match waiting g !! x with None => removeMember x g | Some _ => g end).
  assert (Hr : removed g g1).
  { subst g1. destruct (waiting g !! x); [apply removed_refl|apply removeMember_removed]. }
  destruct (IH g1) as [Hr2 Hm]. split; [by eapply removed_trans|]. intros k. rewrite Hm, (Hw _ _ Hr).
  assert (members g1 !! k = if decide (k = x /\ waiting g !! k = None) then None else members g !! k) as ->.
  { subst g1. destruct (waiting g !! x) eqn:E.
    - rewrite decide_False; [done|]. intros [-> ?]. congruence.
    - rewrite removeMember_members. destruct (decide (k = x)) as [->|].
      + by rewrite lookup_delete_eq, decide_True.
      + rewrite lookup_delete_ne by done. by rewrite decide_False by tauto. }
  destruct (decide (k = x)) as [->|].
  - destruct (waiting g !! x) eqn:E; repeat case_decide; set_solver.
  - repeat case_decide; set_solver.
Qed.

Lemma remove_absent_spec (waiting : G -> gmap string nat) g :
  (forall g1 g2, removed g1 g2 -> waiting g2 = waiting g1) ->
  removed g (remove_absent waiting g) /\
  forall k, members (remove_absent waiting g) !! k =
    match waiting g !! k with Some _ => members g !! k | None => None end.
Proof.
  intros Hw. destruct (remove_loop_spec waiting (iter_list (members g)) g Hw) as [Hr Hm].
  split; [exact Hr|]. intros k. unfold remove_absent. rewrite Hm.
  destruct (waiting g !! k) eqn:E; [by rewrite decide_False by naive_solver|].
  case_decide as Hd; [done|]. destruct (members g !! k) as [m|] eqn:Em; [|done]. exfalso. apply Hd.
  split; [|done]. apply list_elem_of_fmap. exists (k, m). split; [done|]. by apply elem_of_iter_list.
Qed.

Lemma remove_absent_leader (waiting : G -> gmap string nat) g :
  (forall g1 g2, removed g1 g2 -> waiting g2 = waiting g1) ->
  (forall k, waiting g !! k = None -> delayedJoinResponses g !! k = None) ->
  leader_ok (leader g) (members g) ->
  (forall k, is_Some (delayedJoinResponses g !! k) -> is_Some (members g !! k)) ->
  leader_ok (leader (remove_absent waiting g)) (members (remove_absent waiting g)).
Proof.
  intros Hw. unfold remove_absent. generalize (iter_list (members g)) as xs. intros xs. revert g.
  induction xs as [|[x m] xs IH]; intros g Hwj Hl Hj; [done|]. simpl.
  destruct (waiting g !! x) eqn:E; [by apply IH|].
  destruct (removeMember_removed x g) as (l & ms & rt & hs & Hg).
  pose proof (Hw _ _ (removeMember_removed x g)) as Hwx.
  assert (Hdj : delayedJoinResponses (removeMember x g) = delayedJoinResponses g) by (rewrite Hg; done).
  apply IH; rewrite ?Hwx, ?Hdj; [done|by apply removeMember_leader; auto|].
  intros k Hk. rewrite removeMember_members. rewrite lookup_delete_ne; [by apply Hj|].
  intros <-. rewrite (Hwj _ E) in Hk. by destruct Hk.
Qed.

Lemma removeMember_other mid g : leader g <> Some mid -> leader (removeMember mid g) = leader g.
Proof.
  intros E. unfold removeMember. destruct (member_of g mid ≫= m_heartbeatThread) as [tid|]; simpl;
    destruct (members g !! mid) eqn:Em; simpl; by rewrite decide_False.
Qed.

Lemma remove_absent_keeps (waiting : G -> gmap string nat) g l :
  (forall g1 g2, removed g1 g2 -> waiting g2 = waiting g1) ->
  leader g = Some l -> is_Some (waiting g !! l) -> leader (remove_absent waiting g) = Some l.
Proof.
  intros Hw. unfold remove_absent. generalize (iter_list (members g)) as xs. intros xs. revert g.
  induction xs as [|[x m] xs IH]; intros g Hl Hk; [done|]. simpl.
  destruct (waiting g !! x) eqn:E; [by apply IH|].
  apply IH; [|by rewrite (Hw _ _ (removeMember_removed x g))].
  rewrite removeMember_other; [done|]. intros H. rewrite H in Hl. injection Hl as ->. rewrite E in Hk. by destruct Hk.
Qed.

(** ** [MVar]s of parked requests *)

(** Parked requests have [MVar]s of their own, which are empty. *)
Record mvars_ok {A} (parked : gmap string nat) (a : gmap nat A) (next : nat) : Prop := {
  mvars_distinct : distinct parked;
  mvars_parked : forall k v, parked !! k = Some v -> a !! v = None /\ (v < next)%nat;
  mvars_answers : forall v, is_Some (a !! v) -> (v < next)%nat;
}.

Lemma mvars_next {A} p (a : gmap nat A) n : mvars_ok p a n -> mvars_ok p a (S n).
Proof.
  intros [Hd Hp Ha]. split; [done|..].
  - intros k v H. destruct (Hp k v H). split; [done|lia].
  - intros v H. specialize (Ha v H). lia.
Qed.

Lemma mvars_park {A} p (a : gmap nat A) n k : mvars_ok p a n -> mvars_ok (<[k := n]> p) a (S n).
Proof.
  intros [Hd Hp Ha]. assert (Hn : forall k', p !! k' <> Some n) by (intros k' H; destruct (Hp k' n H); lia).
  split.
  - intros k1 k2 v [[<- <-]|[? H1]]%lookup_insert_Some [[<- H2]|[? H2]]%lookup_insert_Some; subst; try done.
    + by apply Hn in H2.
    + by apply Hn in H1.
    + eauto.
  - intros k1 v [[<- <-]|[? H1]]%lookup_insert_Some.
    + split; [|lia]. destruct (a !! n) eqn:E; [|done]. assert (n < n)%nat; [|lia]. apply Ha. by eexists.
    + destruct (Hp _ _ H1). split; [done|lia].
  - intros v H. specialize (Ha v H). lia.
Qed.

Lemma mvars_answered {A} p (a a' : gmap nat A) resp n :
  mvars_ok p a n -> answered p resp a a' -> mvars_ok ∅ a' n.
Proof.
  intros [Hd Hp Ha] [_ _ Hl]. split.
  - intros k k' v. by rewrite lookup_empty.
  - intros k v. by rewrite lookup_empty.
  - intros v [r [H|(k & H & _)]%Hl]; [apply Ha; by eexists|]. by destruct (Hp k v H).
Qed.

Lemma mvars_put {A} p (a : gmap nat A) n k v r :
  mvars_ok p a n -> p !! k = Some v -> mvars_ok (delete k p) (try_put v r a) n.
Proof.
  intros [Hd Hp Ha] Hk. split.
  - intros k1 k2 w [? H1]%lookup_delete_Some [? H2]%lookup_delete_Some. eauto.
  - intros k1 w [Hne H1]%lookup_delete_Some. destruct (Hp _ _ H1) as [Hw ?]. split; [|done].
    destruct (try_put v r a !! w) eqn:E; [|done]. apply try_put_inv in E as [|[-> _]]; [congruence|].
    exfalso. eauto.
  - intros w [x Hx]. apply try_put_inv in Hx as [|[-> _]]; [apply Ha; by eexists|]. by destruct (Hp _ _ Hk).
Qed.

Lemma mvars_put_fresh {A} p (a : gmap nat A) n r : mvars_ok p a n -> mvars_ok p (try_put n r a) (S n).
Proof.
  intros [Hd Hp Ha]. split; [done|..].
  - intros k v H. destruct (Hp k v H) as [Hv ?]. split; [|lia].
    destruct (try_put n r a !! v) eqn:E; [|done]. apply try_put_inv in E as [|[-> _]]; [congruence|lia].
  - intros v [x Hx]. apply try_put_inv in Hx as [|[-> _]]; [|lia]. assert (v < n)%nat; [|lia]. apply Ha. by eexists.
Qed.

(** ** Members with the same ids and protocols *)

Definition members_like (ms ms' : gmap string Member) : Prop :=
  forall k, match ms !! k, ms' !! k with
            | None, None => True
            | Some m, Some m' => m_memberId m' = m_memberId m /\
                                 m_supportedProtocols m' = m_supportedProtocols m
            | _, _ => False
            end.

Lemma members_like_refl ms : members_like ms ms.
Proof. intros k. by destruct (ms !! k). Qed.

Lemma members_like_trans ms1 ms2 ms3 : members_like ms1 ms2 -> members_like ms2 ms3 -> members_like ms1 ms3.
Proof.
  intros H1 H2 k. specialize (H1 k). specialize (H2 k).
  destruct (ms1 !! k), (ms2 !! k), (ms3 !! k); naive_solver congruence.
Qed.

Lemma members_like_some ms ms' k : members_like ms ms' -> is_Some (ms !! k) <-> is_Some (ms' !! k).
Proof. intros H. specialize (H k). destruct (ms !! k), (ms' !! k); split; intros []; try done; by eexists. Qed.

Lemma members_like_inv ms ms' k m' : members_like ms ms' -> ms' !! k = Some m' ->
  exists m, ms !! k = Some m /\ m_memberId m' = m_memberId m /\ m_supportedProtocols m' = m_supportedProtocols m.
Proof. intros H E. specialize (H k). rewrite E in H. destruct (ms !! k); naive_solver. Qed.

Lemma members_like_empty ms ms' : members_like ms ms' -> ms = ∅ <-> ms' = ∅.
Proof.
  intros H. rewrite !map_empty. split; intros Hn k; specialize (H k); rewrite Hn in H;
    [by destruct (ms' !! k)|by destruct (ms !! k)].
Qed.

Lemma members_like_leader l ms ms' : members_like ms ms' -> leader_ok l ms -> leader_ok l ms'.
Proof. intros H. destruct l; simpl; [by apply (members_like_some _ _ _ H)|by apply (members_like_empty _ _ H)]. Qed.

Lemma members_like_insert ms k m m' : ms !! k = Some m -> m_memberId m' = m_memberId m ->
  m_supportedProtocols m' = m_supportedProtocols m -> members_like ms (<[k := m']> ms).
Proof.
  intros E H1 H2 k'. destruct (decide (k = k')) as [<-|].
  - by rewrite lookup_insert_eq, E.
  - rewrite lookup_insert_ne by done. by destruct (ms !! k').
Qed.

Definition keeps (f : Member -> Member) : Prop :=
  forall m, m_memberId (f m) = m_memberId m /\ m_supportedProtocols (f m) = m_supportedProtocols m.

Lemma alter_member_eq f mid g : keeps f ->
  exists ms rt, alter_member f mid g = set_members ms (set_retired rt g) /\ members_like (members g) ms.
Proof.
  intros Hf. unfold alter_member. destruct (members g !! mid) as [m|] eqn:E.
  - exists (<[mid := f m]> (members g)), (retired g). split; [by destruct g|].
    eapply members_like_insert; [done|apply Hf..].
  - exists (members g), (alter f mid (retired g)). split; [by destruct g|apply members_like_refl].
Qed.

(** ** The invariant *)

Record sound g : Prop := {
  s_leader : leader_ok (leader g) (members g);
  s_ids : forall k m, members g !! k = Some m -> m_memberId m = k;
  s_protocols : forall k m, members g !! k = Some m ->
    supportedProtocols g ⊆ plainProtocols (m_supportedProtocols m);
  s_joins : forall k, is_Some (delayedJoinResponses g !! k) -> is_Some (members g !! k);
  s_syncs : forall k, is_Some (delayedSyncResponses g !! k) -> is_Some (members g !! k);
  s_state : match state g with
            | Empty => members g = ∅ /\ delayedRebalance g = None /\ delayedSync g = None
            | PreparingRebalance =>
                delayedSyncResponses g = ∅ /\ is_Some (delayedRebalance g) /\ delayedSync g = None
            | CompletingRebalance => delayedJoinResponses g = ∅ /\ delayedRebalance g = None
            | Stable => delayedJoinResponses g = ∅ /\ delayedSyncResponses g = ∅ /\
                        delayedRebalance g = None /\ delayedSync g = None
            | Dead => False
            end;
  s_rebalances : forall tid, is_Some (rebalances g !! tid) -> delayedRebalance g = Some tid;
  s_alive : forall tid, delayedRebalance g = Some tid ->
    is_Some (rebalances g !! tid) \/ supportedProtocols g = ∅;
  s_sync_thread : forall tid, is_Some (syncs g !! tid) <-> delayedSync g = Some tid;
  s_join_vars : mvars_ok (delayedJoinResponses g) (joinAnswers g) (next_mvar g);
  s_sync_vars : mvars_ok (delayedSyncResponses g) (syncAnswers g) (next_mvar g);
}.

(** What the invariant depends on. *)
Lemma sound_frame g g' : sound g ->
  leader g' = leader g -> members_like (members g) (members g') ->
  supportedProtocols g' = supportedProtocols g ->
  delayedJoinResponses g' = delayedJoinResponses g -> delayedSyncResponses g' = delayedSyncResponses g ->
  state g' = state g -> delayedRebalance g' = delayedRebalance g -> delayedSync g' = delayedSync g ->
  rebalances g' = rebalances g -> syncs g' = syncs g -> joinAnswers g' = joinAnswers g ->
  syncAnswers g' = syncAnswers g -> next_mvar g' = next_mvar g -> sound g'.
Proof.
  intros [] E1 E2 E3 E4 E5 E6 E7 E8 E9 E10 E11 E12 E13.
  split; rewrite ?E1, ?E3, ?E4, ?E5, ?E6, ?E7, ?E8, ?E9, ?E10, ?E11, ?E12, ?E13; try done.
  - by eapply members_like_leader.
  - intros k m' H. destruct (members_like_inv _ _ _ _ E2 H) as (m & Hm & -> & _). eauto.
  - intros k m' H. destruct (members_like_inv _ _ _ _ E2 H) as (m & Hm & _ & ->). eauto.
  - intros k H. apply (members_like_some _ _ k E2). auto.
  - intros k H. apply (members_like_some _ _ k E2). auto.
  - revert s_state0. destruct (state g); try done. intros [Hm Hd]. split; [|done].
    by apply (members_like_empty _ _ E2).
Qed.

Ltac frame H := apply (sound_frame _ _ H); simpl; try reflexivity; try assumption; try apply members_like_refl.

Lemma empty_some {A} (m : gmap string A) : m = ∅ -> forall k, ~ is_Some (m !! k).
Proof. intros -> k [x Hx]. by rewrite lookup_empty in Hx. Qed.

Lemma no_keys {A B} (m : gmap string A) (m' : gmap string B) :
  (forall k, is_Some (m !! k) -> is_Some (m' !! k)) -> m' = ∅ -> m = ∅.
Proof.
  intros H He. apply map_empty. intros k. destruct (m !! k) as [x|] eqn:E; [|done].
  exfalso. apply (empty_some _ He k), H. by eexists.
Qed.

Lemma sound_empty g : sound g -> state g = Empty -> delayedJoinResponses g = ∅ /\ delayedSyncResponses g = ∅.
Proof.
  intros Hs E. pose proof (s_state _ Hs) as Hst. rewrite E in Hst. destruct Hst as [Hm _].
  split; eapply no_keys; try exact Hm; apply Hs.
Qed.

Lemma sound_new_mvar g : sound g -> sound (set_next_mvar (S (next_mvar g)) g).
Proof. intros []. split; try done; simpl; by apply mvars_next. Qed.

(** ** Preparing a rebalance *)

(** What is left of the invariant when a rebalance is prepared. *)
Record unsettled g : Prop := {
  u_leader : leader_ok (leader g) (members g);
  u_ids : forall k m, members g !! k = Some m -> m_memberId m = k;
  u_protocols : forall k m, members g !! k = Some m ->
    supportedProtocols g ⊆ plainProtocols (m_supportedProtocols m);
  u_joins : forall k, is_Some (delayedJoinResponses g !! k) -> is_Some (members g !! k);
  u_state : state g ∈ [Empty; Stable; CompletingRebalance];
  u_syncs : state g <> CompletingRebalance -> delayedSyncResponses g = ∅;
  u_rebalance : delayedRebalance g = None;
  u_rebalances : rebalances g = ∅;
  u_sync_thread : forall tid, is_Some (syncs g !! tid) <-> delayedSync g = Some tid;
  u_join_vars : mvars_ok (delayedJoinResponses g) (joinAnswers g) (next_mvar g);
  u_sync_vars : mvars_ok (delayedSyncResponses g) (syncAnswers g) (next_mvar g);
}.

Lemma cancelDelayedSync_eq g : (forall tid, is_Some (syncs g !! tid) <-> delayedSync g = Some tid) ->
  cancelDelayedSync g = set_delayedSync None (set_syncs ∅ g).
Proof.
  intros H. unfold cancelDelayedSync. destruct (delayedSync g) as [tid|] eqn:E.
  - f_equal. f_equal. apply map_empty. intros t. destruct (decide (tid = t)) as [<-|]; [apply lookup_delete_eq|].
    rewrite lookup_delete_ne by done. destruct (syncs g !! t) eqn:Et; [|done].
    assert (Some tid = Some t) as [=]; [|done]. apply H. by eexists.
  - assert (syncs g = ∅) as Hs; [|by rewrite <- E, <- Hs; destruct g].
    apply map_empty. intros t. destruct (syncs g !! t) eqn:Et; [|done].
    assert (None = Some t) as [=]. apply H. by eexists.
Qed.

Lemma prepareRebalance_eq p ms g : unsettled g ->
  exists a, prepareRebalance p ms g =
    set_state PreparingRebalance (makeDelayedRebalance p ms
      (set_delayedSync None (set_syncs ∅ (set_delayedSyncResponses ∅ (set_syncAnswers a g))))) /\
    answered (delayedSyncResponses g) (fun _ => sync_cancelled) (syncAnswers g) a.
Proof.
  intros []. unfold prepareRebalance.
  assert (exists a, (if decide (state g = CompletingRebalance) then cancelDelayedSyncResponses g else g) =
    set_delayedSyncResponses ∅ (set_syncAnswers a g) /\
    answered (delayedSyncResponses g) (fun _ => sync_cancelled) (syncAnswers g) a) as (a & -> & Ha).
  { case_decide as Hd; [by apply cancelDelayedSyncResponses_eq, (mvars_distinct _ _ _ u_sync_vars0)|].
    rewrite (u_syncs0 Hd). exists (syncAnswers g). split.
    - rewrite <- (u_syncs0 Hd). by destruct g.
    - split; [done| |by left]. intros k v. by rewrite lookup_empty. }
  exists a. split; [|done]. rewrite cancelDelayedSync_eq by done. simpl. rewrite u_rebalance0.
  unfold transitionTo. simpl. by rewrite decide_True by set_solver.
Qed.

Lemma prepareRebalance_sound p ms g : unsettled g -> sound (prepareRebalance p ms g).
Proof.
  intros Hu. destruct (prepareRebalance_eq p ms g Hu) as (a & -> & Ha). destruct Hu. split; simpl; try done.
  - intros k H. by apply empty_some in H.
  - intros tid. rewrite u_rebalances0, insert_empty. intros [x [<- _]%lookup_singleton_Some]. done.
  - intros tid [= <-]. left. by rewrite lookup_insert_eq.
  - intros tid. rewrite lookup_empty. split; [by intros []|done].
  - by eapply mvars_answered.
Qed.

Lemma no_threads g : sound g -> delayedRebalance g = None -> rebalances g = ∅.
Proof.
  intros Hs H. apply map_empty. intros t. destruct (rebalances g !! t) eqn:E; [|done].
  assert (delayedRebalance g = Some t); [|congruence]. apply s_rebalances; [done|]. by eexists.
Qed.

(** ** Removal *)

Lemma cancelDelayedJoinResponse_eq mid g : mvars_ok (delayedJoinResponses g) (joinAnswers g) (next_mvar g) ->
  exists a, cancelDelayedJoinResponse mid g =
    set_delayedJoinResponses (delete mid (delayedJoinResponses g)) (set_joinAnswers a g) /\
    mvars_ok (delete mid (delayedJoinResponses g)) a (next_mvar g) /\
    (forall v r, joinAnswers g !! v = Some r -> a !! v = Some r).
Proof.
  intros Hm. unfold cancelDelayedJoinResponse. destruct (delayedJoinResponses g !! mid) as [v|] eqn:E.
  - eexists. split_and!; [done|by apply mvars_put|intros; by apply try_put_old].
  - exists (joinAnswers g). rewrite delete_id by done. split_and!; [by destruct g|done|done].
Qed.

Lemma removeMember_sub mid g k m : members (removeMember mid g) !! k = Some m -> members g !! k = Some m.
Proof. rewrite removeMember_members. by intros [_ ?]%lookup_delete_Some. Qed.

(** A member that is not parked leaves the tables of joins as they are. *)
Lemma leave_joins mid g k :
  (forall k, is_Some (delayedJoinResponses g !! k) -> is_Some (members g !! k)) ->
  is_Some (delete mid (delayedJoinResponses g) !! k) -> is_Some (delete mid (members g) !! k).
Proof.
  intros H Hk. destruct (decide (mid = k)) as [<-|]; [by rewrite lookup_delete_eq in Hk; destruct Hk|].
  rewrite lookup_delete_ne in Hk by done. rewrite lookup_delete_ne by done. by apply H.
Qed.

Lemma removeMemberAndUpdateGroup_sound mid g : sound g -> sound (removeMemberAndUpdateGroup mid g).1.
Proof.
  intros Hs. unfold removeMemberAndUpdateGroup, mbind, io_bind, modify, gets, throw, mret, io_ret.
  destruct (cancelDelayedJoinResponse_eq mid g (s_join_vars _ Hs)) as (a & Ea & Hva & _).
  set (g1 := cancelDelayedJoinResponse mid g) in *.
  assert (Hl : leader_ok (leader (removeMember mid g1)) (members (removeMember mid g1))).
  { apply removeMember_leader; rewrite Ea; simpl; [apply Hs|by rewrite lookup_delete_eq|].
    intros k [_ Hk]%lookup_delete_is_Some. by apply Hs. }
  pose proof (removeMember_members mid g1) as Hm.
  destruct (removeMember_removed mid g1) as (l & ms & rt & hs & Eg).
  rewrite Eg, Ea in Hl, Hm. rewrite Eg, Ea. simpl in Hl, Hm. subst ms. cbv beta iota.
  pose proof (s_state _ Hs) as Hst. destruct Hs. case_decide as Hd; simpl in Hd.
  - simpl. rewrite Hd in Hst. destruct Hst as (H1 & H2 & H3). destruct (delayedRebalance g) as [tid|] eqn:Et;
      simpl; [|by destruct H2]. split; simpl; rewrite ?Hd, ?Et; try done.
    + intros k m [_ H]%lookup_delete_Some. eauto.
    + intros k m [_ H]%lookup_delete_Some. eauto.
    + intros k. by apply leave_joins.
    + intros k. rewrite H1. intros [? H]. by rewrite lookup_empty in H.
  - assert (Hset : state g ∈ [Empty; Stable; CompletingRebalance]) by (destruct (state g); try done; set_solver).
    rewrite decide_True by done. simpl. apply prepareRebalance_sound. split; simpl; try done.
    + intros k m [_ H]%lookup_delete_Some. eauto.
    + intros k m [_ H]%lookup_delete_Some. eauto.
    + intros k. by apply leave_joins.
    + intros Hne. destruct (state g) eqn:E; try done; [tauto|].
      eapply no_keys; [exact s_syncs0|tauto].
    + destruct (state g); try done; tauto.
    + apply map_empty. intros t. destruct (rebalances g !! t) eqn:Et; [|done].
      assert (delayedRebalance g = Some t) as Hr; [apply s_rebalances0; by eexists|].
      destruct (state g); try done; intuition congruence.
Qed.

(** ** Running actions *)

Lemma getMember_run mid g :
  getMember mid g = (g, match members g !! mid with
                        | Some m => inr m | None => inl (ErrorCodeException UNKNOWN_MEMBER_ID) end).
Proof. unfold getMember. rewrite bind_run. simpl. by destruct (members g !! mid). Qed.

(** ** Join *)

Lemma checkSupportedProtocols_spec req g :
  exists r, checkSupportedProtocols req g = (g, r) /\
    match r with
    | inl e => e = ErrorCodeException INCONSISTENT_GROUP_PROTOCOL
    | inr _ => exists ps, refineProtocols (jq_protocols req) = inr ps /\
        (state g = Empty \/ supportedProtocols g ∩ plainProtocols ps <> ∅)
    end.
Proof.
  unfold checkSupportedProtocols, mbind, io_bind, gets, throw, mret, io_ret, lift.
  destruct (state g) eqn:E;
    try (case_decide; [|by eexists]; destruct (refineProtocols (jq_protocols req)) as [e|ps] eqn:Er;
         [eexists; split; [done|]; unfold refineProtocols in Er; repeat case_match; by simplify_eq|];
         case_decide; [by eexists|]; eexists; split; [done|]; exists ps; split; [done|by right]).
  repeat case_decide; try by eexists. eexists. split; [done|].
  destruct (jq_protocols req) as [[|p ps]|]; try done. exists (p :: ps). split; [done|by left].
Qed.

(** The state when a request was parked for a member. *)
Definition parked_join mid pt l ms ps g : G :=
  set_delayedJoinResponses (<[mid := next_mvar g]> (delayedJoinResponses g))
    (set_supportedProtocols ps (set_members ms (set_leader l (set_protocolType pt
      (set_next_mvar (S (next_mvar g)) g))))).

Lemma parked_join_sound mid pt l ms ps g : sound g ->
  leader_ok l ms -> (forall k m, ms !! k = Some m -> m_memberId m = k) ->
  (forall k m, ms !! k = Some m -> ps ⊆ plainProtocols (m_supportedProtocols m)) ->
  (forall k, is_Some (members g !! k) -> is_Some (ms !! k)) -> is_Some (ms !! mid) ->
  (state g = Empty \/ supportedProtocols g <> ∅) ->
  (state g = PreparingRebalance -> sound (parked_join mid pt l ms ps g)) /\
  (state g ∈ [Empty; Stable; CompletingRebalance] -> unsettled (parked_join mid pt l ms ps g)).
Proof.
  intros Hs Hl Hid Hp Hms Hmid Hst. pose proof (s_state _ Hs) as Hstate.
  assert (Hj : forall k, is_Some (<[mid := next_mvar g]> (delayedJoinResponses g) !! k) -> is_Some (ms !! k)).
  { intros k. destruct (decide (mid = k)) as [<-|]; [done|]. rewrite lookup_insert_ne by done.
    intros H. by apply Hms, (s_joins _ Hs). }
  split; intros E.
  - rewrite E in Hstate. destruct Hst as [|Hps]; [congruence|]. split; simpl; try done; try apply Hs.
    + intros k H. by apply Hms, (s_syncs _ Hs).
    + rewrite E. tauto.
    + intros tid H. destruct (s_alive _ Hs tid H); [by left|done].
    + by apply mvars_park, Hs.
    + by apply mvars_next, Hs.
  - assert (Hd : delayedRebalance g = None) by (revert Hstate; destruct (state g); tauto || set_solver).
    split; simpl; try done; try apply Hs.
    + intros Hne. revert Hstate. destruct (state g) eqn:Es; [set_solver|done|tauto|done|].
      intros _. by apply sound_empty.
    + by apply no_threads.
    + by apply mvars_park, Hs.
    + by apply mvars_next, Hs.
Qed.

(** The protocols a group supports after a member brought its own. *)
Definition merged g (ps : list (string * ByteString)) : gset string :=
  if decide (supportedProtocols g = ∅) then plainProtocols ps else plainProtocols ps ∩ supportedProtocols g.

Lemma merged_new g ps : merged g ps ⊆ plainProtocols ps.
Proof. unfold merged. case_decide; set_solver. Qed.

Lemma merged_old g ps k m : sound g -> (state g = Empty \/ supportedProtocols g <> ∅) ->
  members g !! k = Some m -> merged g ps ⊆ plainProtocols (m_supportedProtocols m).
Proof.
  intros Hs [E|Hne] Hk.
  - pose proof (s_state _ Hs) as Hst. rewrite E in Hst. destruct Hst as [Hm _]. by rewrite Hm, lookup_empty in Hk.
  - unfold merged. rewrite decide_False by done. pose proof (s_protocols _ Hs k m Hk). set_solver.
Qed.

Lemma addMember_eq member v g :
  addMember member (Some v) g =
  set_delayedJoinResponses (<[m_memberId member := v]> (delayedJoinResponses g))
    (set_supportedProtocols (merged g (m_supportedProtocols member))
      (set_members (<[m_memberId member := member]> (members g))
        (set_leader (if decide (leader g = None) then Some (m_memberId member) else leader g)
          (set_protocolType (if decide (members g = ∅) then Some (m_protocolType member) else protocolType g) g)))).
Proof.
  unfold addMember, updateSupportedProtocols, merged.
  destruct (decide (members g = ∅)); simpl; destruct (decide (leader g = None)); simpl; by destruct g.
Qed.

Lemma settle_join mid pt l ms ps g (act : G -> G) : sound g ->
  (state g = PreparingRebalance -> sound (parked_join mid pt l ms ps g)) /\
  (state g ∈ [Empty; Stable; CompletingRebalance] -> unsettled (parked_join mid pt l ms ps g)) ->
  (forall g, unsettled g -> sound (act g)) ->
  sound (if decide (state g ∈ [Empty; Stable; CompletingRebalance])
         then act (parked_join mid pt l ms ps g) else parked_join mid pt l ms ps g).
Proof.
  intros Hs [H1 H2] Ha. case_decide as Hd; [by apply Ha, H2|]. apply H1. pose proof (s_state _ Hs) as H.
  destruct (state g); try done; set_solver.
Qed.

Lemma addMemberAndRebalance_eq reqCtx req mid ps g : refineProtocols (jq_protocols req) = inr ps ->
  (addMemberAndRebalance reqCtx req mid (next_mvar g) (set_next_mvar (S (next_mvar g)) g)).1 =
  let isGroupEmpty := bool_decide (members g = ∅) in
  let member := newMemberFromReq reqCtx req mid ps in
  let g1 := parked_join mid (if decide (members g = ∅) then Some (m_protocolType member) else protocolType g)
    (if decide (leader g = None) then Some mid else leader g) (<[mid := member]> (members g)) (merged g ps) g in
  if decide (state g ∈ [Empty; Stable; CompletingRebalance])
  then prepareRebalance (negb isGroupEmpty)
         (if isGroupEmpty then i32 (groupInitialRebalanceDelay g) else jq_rebalanceTimeoutMs req) g1
  else g1.
Proof.
  intros Hps. unfold addMemberAndRebalance, mbind, io_bind, gets, lift, modify, mret, io_ret.
  rewrite Hps. cbv beta iota. rewrite addMember_eq. cbv zeta.
  destruct (decide (state g ∈ [Empty; Stable; CompletingRebalance])) as [Hd|Hd].
  - rewrite decide_True by exact Hd. reflexivity.
  - rewrite decide_False by exact Hd. reflexivity.
Qed.

Lemma addMemberAndRebalance_sound reqCtx req mid ps g : sound g ->
  refineProtocols (jq_protocols req) = inr ps -> (state g = Empty \/ supportedProtocols g <> ∅) ->
  members g !! mid = None ->
  sound (addMemberAndRebalance reqCtx req mid (next_mvar g) (set_next_mvar (S (next_mvar g)) g)).1.
Proof.
  intros Hs Hps Hst Hmid. rewrite (addMemberAndRebalance_eq reqCtx req mid ps g Hps).
  cbv zeta. apply settle_join; [done| |intros; by apply prepareRebalance_sound].
  apply parked_join_sound; try done.
  - pose proof (s_leader _ Hs) as Hl. destruct (leader g) as [l|]; simpl in *.
    + destruct (decide (mid = l)) as [<-|]; [by rewrite lookup_insert_eq|by rewrite lookup_insert_ne].
    + by rewrite lookup_insert_eq.
  - intros k m [[<- <-]|[_ H]]%lookup_insert_Some; [done|by apply Hs].
  - intros k m [[<- <-]|[_ H]]%lookup_insert_Some; [apply merged_new|by eapply merged_old].
  - intros k H. destruct (decide (mid = k)) as [<-|]; [by rewrite lookup_insert_eq|by rewrite lookup_insert_ne].
  - by rewrite lookup_insert_eq.
Qed.

Lemma updateMemberAndRebalance_sound mid req ps m g : sound g ->
  refineProtocols (jq_protocols req) = inr ps -> supportedProtocols g <> ∅ -> members g !! mid = Some m ->
  sound (updateMemberAndRebalance mid req (next_mvar g) (set_next_mvar (S (next_mvar g)) g)).1.
Proof.
  intros Hs Hps Hst Hmid.
  assert (Eg : (updateMemberAndRebalance mid req (next_mvar g) (set_next_mvar (S (next_mvar g)) g)).1 =
    let g1 := parked_join mid (protocolType g) (leader g)
      (<[mid := set_joined (jq_rebalanceTimeoutMs req) (jq_sessionTimeoutMs req) ps m]> (members g))
      (merged g ps) g in
    if decide (state g ∈ [Empty; Stable; CompletingRebalance])
    then prepareRebalance true (jq_rebalanceTimeoutMs req) g1 else g1).
  { unfold updateMemberAndRebalance, mbind, io_bind, gets, lift, modify, mret, io_ret. rewrite Hps.
    cbv beta iota zeta. unfold updateMember, alter_member.
    change (members (updateSupportedProtocols ps (set_next_mvar (S (next_mvar g)) g))) with (members g).
    rewrite Hmid.
    destruct (decide (state g ∈ [Empty; Stable; CompletingRebalance])) as [Hd|Hd].
    - rewrite decide_True by exact Hd. reflexivity.
    - rewrite decide_False by exact Hd. reflexivity. }
  rewrite Eg. apply settle_join; [done| |intros; by apply prepareRebalance_sound].
  apply parked_join_sound; try done; try (by right).
  - pose proof (s_leader _ Hs) as Hl. destruct (leader g) as [l|]; simpl in *; [|by rewrite Hl, lookup_empty in Hmid].
    destruct (decide (mid = l)) as [<-|]; [by rewrite lookup_insert_eq|by rewrite lookup_insert_ne].
  - intros k x [[<- <-]|[_ H]]%lookup_insert_Some; [by apply (s_ids _ Hs) in Hmid|by apply Hs].
  - intros k x [[<- <-]|[_ H]]%lookup_insert_Some; [apply merged_new|eapply merged_old; eauto].
  - intros k H. destruct (decide (mid = k)) as [<-|]; [by rewrite lookup_insert_eq|by rewrite lookup_insert_ne].
  - by rewrite lookup_insert_eq.
Qed.

Lemma generateMemberId_nonempty reqCtx uuid : generateMemberId reqCtx uuid <> "".
Proof. unfold generateMemberId. by destruct (default "" (rc_clientId reqCtx)). Qed.

Lemma joinGroup_sound reqCtx uuid req g : sound g -> members g !! generateMemberId reqCtx uuid = None ->
  sound (joinGroup reqCtx uuid req g).1.
Proof.
  intros Hs Hnew. pose proof (sound_new_mvar _ Hs) as Hs0.
  unfold joinGroup. rewrite bind_run. cbv beta iota delta [newEmptyMVar]. rewrite bind_run.
  destruct (checkSupportedProtocols_spec req (set_next_mvar (S (next_mvar g)) g)) as (r & -> & Hr).
  destruct r as [e|[]]; [done|]. destruct Hr as (ps & Hps & Hst). simpl in Hst.
  rewrite bind_run. cbv beta iota delta [gets]. rewrite bind_run. change (state (set_next_mvar (S (next_mvar g)) g)) with (state g).
  case_decide as Hd; [done|]. cbv beta iota delta [mret io_ret]. rewrite bind_run.
  assert (Hst' : state g = Empty \/ supportedProtocols g <> ∅) by (destruct Hst; [by left|right; set_solver]).
  case_decide as Hm.
  - pose proof (addMemberAndRebalance_sound reqCtx req _ ps g Hs Hps Hst' Hnew) as H.
    by destruct (addMemberAndRebalance _ _ _ _ _) as [? []].
  - unfold doCurrentMemeberJoinGroup. rewrite bind_run, getMember_run. change (members (set_next_mvar (S (next_mvar g)) g)) with (members g).
    destruct (members g !! jq_memberId req) as [m|] eqn:Em; [|done].
    rewrite bind_run. cbv beta iota delta [gets]. change (state (set_next_mvar (S (next_mvar g)) g)) with (state g).
    assert (Hgoal : state g <> Empty ->
      sound (updateMemberAndRebalance (jq_memberId req) req (next_mvar g) (set_next_mvar (S (next_mvar g)) g)).1)
      by (intros; eapply updateMemberAndRebalance_sound; eauto; tauto).
    destruct (state g); try done; (destruct (updateMemberAndRebalance _ _ _ _) as [? []]; by apply Hgoal).
Qed.

(** ** Assignments *)

Definition sync_ok (assignments : gmap string ByteString) (mid : string) : SyncGroupResponse :=
  {| sr_errorCode := 0; sr_assignment := default [] (assignments !! mid) |}.

(** The parked requests of the members of a list. *)
Definition parked_of (d : gmap string nat) (xs : list (string * Member)) : list (string * nat) :=
  omap (fun x => (fun v => (x.1, v)) <$> d !! x.1) xs.
#[local] Arguments parked_of : simpl never.

Lemma parked_of_cons d k m xs :
  parked_of d ((k, m) :: xs) = match d !! k with Some v => (k, v) :: parked_of d xs | None => parked_of d xs end.
Proof. unfold parked_of. simpl. by destruct (d !! k). Qed.

Lemma elem_of_parked_of d xs k v : (k, v) ∈ parked_of d xs <-> k ∈ xs.*1 /\ d !! k = Some v.
Proof.
  unfold parked_of. rewrite list_elem_of_omap. setoid_rewrite list_elem_of_fmap. split.
  - intros ([k' m] & Hx & H). simpl in H. destruct (d !! k') eqn:E; [|done].
    injection H as <- <-. split; [|done]. by exists (k', m).
  - intros [(x & -> & Hx) H]. exists x. by rewrite H.
Qed.

Lemma parked_of_NoDup d xs : NoDup xs.*1 -> NoDup (parked_of d xs).*1.
Proof.
  induction xs as [|[k m] xs IH]; intros H; [constructor|]. apply NoDup_cons in H as [Hk H]. simpl in Hk.
  rewrite parked_of_cons. destruct (d !! k) as [v|]; simpl; [|by apply IH]. constructor; [|by apply IH].
  intros (y & -> & Hy)%list_elem_of_fmap. destruct y as [k' w]. apply (elem_of_parked_of d xs) in Hy as [Hy _]. done.
Qed.

Lemma parked_of_all d (ms : gmap string Member) :
  (forall k, is_Some (d !! k) -> is_Some (ms !! k)) -> list_to_map (parked_of d (iter_list ms)) = d.
Proof.
  intros H. apply map_eq. intros k. apply option_eq. intros v.
  rewrite <- elem_of_list_to_map by (apply parked_of_NoDup, NoDup_iter_list_fst).
  rewrite elem_of_parked_of. split; [by intros [_ ?]|]. intros E. split; [|done].
  destruct (H k) as [m Hm]; [by eexists|]. apply list_elem_of_fmap. exists (k, m). split; [done|]. by apply elem_of_iter_list.
Qed.

Lemma parked_of_delete d k xs : k ∉ xs.*1 -> parked_of (delete k d) xs = parked_of d xs.
Proof.
  induction xs as [|[k' m] xs IH]; intros H; [done|]. simpl in H.
  apply not_elem_of_cons in H as [Hne H]. by rewrite !parked_of_cons, lookup_delete_ne, IH.
Qed.

Lemma propagate_loop asg xs g : NoDup xs.*1 -> (forall x, x ∈ xs -> is_Some (members g !! x.1)) ->
  exists ms, foldl (propagate asg) g xs =
    set_members ms (set_delayedSyncResponses
      (answer_loop (sync_ok asg) (parked_of (delayedSyncResponses g) xs) (delayedSyncResponses g, syncAnswers g)).1
      (set_syncAnswers
        (answer_loop (sync_ok asg) (parked_of (delayedSyncResponses g) xs) (delayedSyncResponses g, syncAnswers g)).2 g)) /\
    forall k, ms !! k = if decide (k ∈ xs.*1) then set_assignment (default [] (asg !! k)) <$> members g !! k
                        else members g !! k.
Proof.
  revert g. induction xs as [|[x m] xs IH]; intros g Hnd Hin.
  { exists (members g). split; [by destruct g|]. intros k. by rewrite decide_False by (by intros ?%elem_of_nil). }
  apply NoDup_cons in Hnd as [Hx Hnd]. simpl in Hx. destruct (Hin (x, m)) as [m' Hm']; [left|]. simpl in Hm'.
  set (g1 := propagate asg g (x, m)).
  assert (E1 : g1 = set_members (<[x := set_assignment (default [] (asg !! x)) m']> (members g))
    (set_delayedSyncResponses (delete x (delayedSyncResponses g)) (set_syncAnswers
      (match delayedSyncResponses g !! x with
       | None => syncAnswers g | Some v => try_put v (sync_ok asg x) (syncAnswers g) end) g))).
  { subst g1. unfold propagate, alter_member. simpl. rewrite Hm'. simpl.
    destruct (delayedSyncResponses g !! x) eqn:E; [done|]. rewrite delete_id by done. by destruct g. }
  destruct (IH g1 Hnd) as (ms & E & Hms).
  { intros y Hy. rewrite E1. simpl. destruct (decide (x = y.1)) as [->|]; [by rewrite lookup_insert_eq|].
    rewrite lookup_insert_ne by done. apply Hin. by right. }
  exists ms. cbn [foldl]. fold g1. rewrite E, E1. simpl. split.
  - rewrite parked_of_delete, parked_of_cons by done.
    destruct (delayedSyncResponses g !! x) eqn:Ex; [done|]. simpl. by rewrite delete_id by done.
  - intros k. rewrite Hms, E1. cbn [members set_members set_delayedSyncResponses set_syncAnswers fmap list_fmap fst].
    destruct (decide (k = x)) as [->|Hne].
    + rewrite lookup_insert_eq, decide_False, decide_True by (done || left). by rewrite Hm'.
    + rewrite lookup_insert_ne by done. do 2 case_decide; set_solver.
Qed.

Lemma elem_of_iter_some {A} (m : gmap string A) x : x ∈ iter_list m -> is_Some (m !! x.1).
Proof. destruct x as [k a]. intros H%elem_of_iter_list. by eexists. Qed.

Lemma elem_of_iter_keys {A} (m : gmap string A) k : k ∈ (iter_list m).*1 <-> is_Some (m !! k).
Proof.
  rewrite list_elem_of_fmap. split.
  - intros (x & -> & Hx). by apply elem_of_iter_some.
  - intros [a Ha]. exists (k, a). split; [done|]. by apply elem_of_iter_list.
Qed.

(** All members have their assignment and all parked requests their answer. *)
Lemma setAndPropagateAssignment_eq asg g :
  (forall k, is_Some (delayedSyncResponses g !! k) -> is_Some (members g !! k)) ->
  distinct (delayedSyncResponses g) ->
  exists ms a, setAndPropagateAssignment asg g =
      set_members ms (set_delayedSyncResponses ∅ (set_syncAnswers a g)) /\
    (forall k, ms !! k = set_assignment (default [] (asg !! k)) <$> members g !! k) /\
    answered (delayedSyncResponses g) (sync_ok asg) (syncAnswers g) a.
Proof.
  intros Hd Hdis. unfold setAndPropagateAssignment.
  destruct (propagate_loop asg (iter_list (members g)) g (NoDup_iter_list_fst _) (elem_of_iter_some _))
    as (ms & -> & Hms).
  set (loop := answer_loop _ _ _).
  assert (Hloop : loop.1 = ∅).
  { apply map_eq. intros k. subst loop. rewrite answer_loop_deleted, lookup_empty. case_decide as Hk; [done|].
    simpl. destruct (delayedSyncResponses g !! k) as [v|] eqn:E; [|done]. exfalso. apply Hk, list_elem_of_fmap.
    exists (k, v). split; [done|]. apply elem_of_parked_of. split; [|done]. apply elem_of_iter_keys, Hd. by eexists. }
  rewrite Hloop. exists ms, loop.2. split_and!.
  - destruct (cancelDelayedSyncResponses_eq (set_members ms (set_delayedSyncResponses ∅ (set_syncAnswers loop.2 g))))
      as (a & -> & [Ho _ Hl]); [by intros k k' v; simpl; rewrite lookup_empty|].
    simpl in *. assert (a = loop.2) as ->; [|done]. apply map_eq. intros v. apply option_eq. intros r. split; [|apply Ho].
    intros [|(k & H & _)]%Hl; [done|]. by rewrite lookup_empty in H.
  - intros k. rewrite Hms. case_decide as Hk; [done|]. destruct (members g !! k) eqn:E; [|done].
    exfalso. apply Hk, elem_of_iter_keys. by eexists.
  - pose proof (answer_loop_spec (sync_ok asg) (parked_of (delayedSyncResponses g) (iter_list (members g)))
      (delayedSyncResponses g) (syncAnswers g)) as Ha.
    rewrite parked_of_all in Ha by done. apply Ha; [done|]. apply parked_of_NoDup, NoDup_iter_list_fst.
Qed.

(** ** Heartbeat threads *)

Lemma setup_heart_eq clock xs g :
  exists ms rt hs n, foldl (setup_heart clock) g xs =
    set_members ms (set_retired rt (set_hearts hs (set_next_tid n g))) /\ members_like (members g) ms.
Proof.
  revert g. induction xs as [|x xs IH]; intros g.
  { exists (members g), (retired g), (hearts g), (next_tid g). split; [by destruct g|apply members_like_refl]. }
  cbn [foldl]. destruct (IH (setup_heart clock g x)) as (ms & rt & hs & n & E & Hl). rewrite E.
  unfold setup_heart, updateLatestHeartbeat in *.
  destruct (alter_member_eq (set_lastHeartbeat (clock x.1)) x.1 g) as (ms1 & rt1 & E1 & H1); [done|].
  rewrite E1 in *.
  match type of Hl with members_like (members (alter_member ?f ?k ?g')) _ =>
    destruct (alter_member_eq f k g') as (ms2 & rt2 & E2 & H2); [done|] end.
  rewrite E2 in *. exists ms, rt, hs, n. split; [done|].
  eapply members_like_trans; [exact H1|]. eapply members_like_trans; [exact H2|exact Hl].
Qed.

Lemma setupDelayedCheckHeartbeat_eq clock g :
  exists ms rt hs n, setupDelayedCheckHeartbeat clock g =
    set_members ms (set_retired rt (set_hearts hs (set_next_tid n g))) /\ members_like (members g) ms.
Proof. apply setup_heart_eq. Qed.

Lemma members_like_assigned (asg : string -> ByteString) ms ms' :
  (forall k, ms' !! k = set_assignment (asg k) <$> ms !! k) -> members_like ms ms'.
Proof. intros H k. rewrite H. by destruct (ms !! k). Qed.

Lemma updateLatestHeartbeat_sound now mid g : sound g -> sound (updateLatestHeartbeat now mid g).
Proof.
  intros Hs. unfold updateLatestHeartbeat.
  destruct (alter_member_eq (set_lastHeartbeat now) mid g) as (ms & rt & -> & Hl); [done|]. by frame Hs.
Qed.

(** ** Sync *)

Lemma storeGroup_run ok asg g :
  storeGroup ok asg g =
  if ok then (set_storedMetadata true (set_metaStore (Some (getGroupValue asg g)) g), inr tt) else (g, inl StoreFailed).
Proof. unfold storeGroup. rewrite bind_run. simpl. by destruct ok. Qed.

Lemma storeGroup_sound ok asg g : sound g -> sound (storeGroup ok asg g).1.
Proof. intros Hs. rewrite storeGroup_run. destruct ok; [by frame Hs|done]. Qed.

(** The state when the leader's assignments are in. *)
Lemma leader_synced_sound clock asg g : sound g -> state g = CompletingRebalance ->
  sound (transitionTo Stable (cancelDelayedSync (setupDelayedCheckHeartbeat clock (setAndPropagateAssignment asg g)))).
Proof.
  intros Hs E. destruct (setAndPropagateAssignment_eq asg g (s_syncs _ Hs)) as (ms & a & -> & Hms & Ha);
    [by eapply mvars_distinct, Hs|].
  destruct (setupDelayedCheckHeartbeat_eq clock
    (set_members ms (set_delayedSyncResponses ∅ (set_syncAnswers a g)))) as (ms' & rt & hs & n & -> & Hl).
  rewrite cancelDelayedSync_eq by apply Hs. unfold transitionTo. simpl. rewrite E.
  rewrite decide_True by set_solver. simpl in Hl.
  assert (Hl' : members_like (members g) ms')
    by (eapply members_like_trans; [exact (members_like_assigned (fun k => default [] (asg !! k)) _ _ Hms)|done]).
  pose proof (s_state _ Hs) as Hst. rewrite E in Hst.
  assert (Hc : sound (set_members ms' g)) by frame Hs.
  split; simpl; try done; try apply Hc.
  - intros k H. by apply empty_some in H.
  - split_and!; tauto || done.
  - intros tid. rewrite lookup_empty. split; [by intros []|done].
  - eapply mvars_answered; [apply Hs|done].
Qed.

Lemma doSyncGroup_sound clock ok req m g : sound g -> state g = CompletingRebalance ->
  members g !! sq_memberId req = Some m ->
  sound (doSyncGroup clock ok req (next_mvar g) (set_next_mvar (S (next_mvar g)) g)).1.
Proof.
  intros Hs E Hm. unfold doSyncGroup. rewrite bind_run. cbv beta iota delta [gets].
  change (delayedSyncResponses (set_next_mvar (S (next_mvar g)) g)) with (delayedSyncResponses g).
  rewrite bind_run. destruct (delayedSyncResponses g !! sq_memberId req) as [v|] eqn:Ep;
    [by apply sound_new_mvar|].
  cbv beta iota delta [modify]. rewrite bind_run. cbv beta iota delta [gets].
  match goal with |- context [leader ?x] => set (g1 := x) end.
  assert (Hs1 : sound g1).
  { pose proof (s_state _ Hs) as Hst. rewrite E in Hst. subst g1. split; simpl; try apply Hs; rewrite ?E; try done.
    - intros k [<-|[_ Hk]]%lookup_insert_is_Some; [by eexists|]. by apply (s_syncs _ Hs).
    - by apply mvars_next, Hs.
    - by apply mvars_park, Hs. }
  change (leader g1) with (leader g). destruct (leader g) as [l|]; [|exact Hs1].
  case_decide; [|exact Hs1]. rewrite bind_run, storeGroup_run. destruct ok; [|exact Hs1].
  rewrite !bind_run. cbv beta iota delta [modify]. apply (leader_synced_sound clock (getAssignmentMap req));
    [by frame Hs1|done].
Qed.

Lemma syncGroup_sound clock ok req g : sound g -> sound (syncGroup clock ok req g).1.
Proof.
  intros Hs. pose proof (sound_new_mvar _ Hs) as Hs0. unfold syncGroup. rewrite bind_run.
  cbv beta iota delta [newEmptyMVar]. rewrite bind_run, getMember_run.
  change (members (set_next_mvar (S (next_mvar g)) g)) with (members g).
  destruct (members g !! sq_memberId req) as [m|] eqn:Em; [|done]. rewrite bind_run.
  cbv beta iota delta [gets]. rewrite bind_run.
  change (state (set_next_mvar (S (next_mvar g)) g)) with (state g). destruct (state g) eqn:E; try done.
  - pose proof (doSyncGroup_sound clock ok req m g Hs E Em) as H. by destruct (doSyncGroup _ _ _ _ _) as [? []].
  - simpl. split; simpl; try apply Hs. by apply mvars_next, Hs. by apply mvars_put_fresh, Hs.
Qed.

Lemma syncGroup_no_pattern_fail clock ok req g : sound g -> (syncGroup clock ok req g).2 <> inl PatternFail.
Proof.
  intros Hs. unfold syncGroup. rewrite bind_run. cbv beta iota delta [newEmptyMVar]. rewrite bind_run, getMember_run.
  change (members (set_next_mvar (S (next_mvar g)) g)) with (members g).
  destruct (members g !! sq_memberId req) as [m|] eqn:Em; [|done]. run.
  change (state (set_next_mvar (S (next_mvar g)) g)) with (state g). destruct (state g); try done.
  unfold doSyncGroup. run. change (delayedSyncResponses (set_next_mvar (S (next_mvar g)) g)) with (delayedSyncResponses g).
  destruct (delayedSyncResponses g !! sq_memberId req); [done|]. run.
  change (leader (set_delayedSyncResponses _ _)) with (leader g). pose proof (s_leader _ Hs) as Hl.
  destruct (leader g) as [l|]; simpl in Hl; [|by rewrite Hl, lookup_empty in Em].
  case_decide; [|done]. rewrite bind_run, storeGroup_run. by destruct ok.
Qed.

(** ** Choosing a protocol *)

Definition votes_for (p : string) (votes : list string) : list string := filter (fun v => v = p) votes.

(** The groups of a sorted list: one for each value, with its occurrences. *)
Record grouped (l : list string) (gs : list (list string)) : Prop := {
  gr_filter : forall gr, gr ∈ gs -> exists x, x ∈ l /\ gr = votes_for x l;
  gr_all : forall x, x ∈ l -> votes_for x l ∈ gs;
  gr_first : head gs = match l with [] => None | y :: _ => Some (votes_for y l) end;
  gr_nodup : NoDup (head <$> gs);
}.

Lemma votes_for_head x l : x ∈ l -> head (votes_for x l) = Some x.
Proof.
  intros Hx. unfold votes_for. destruct (filter (fun v => v = x) l) as [|y ys] eqn:E.
  - exfalso. assert (Hin : x ∈ filter (fun v => v = x) l) by (by apply list_elem_of_filter). rewrite E in Hin.
    by apply elem_of_nil in Hin.
  - assert (y ∈ filter (fun v => v = x) l) as [-> _]%list_elem_of_filter by (rewrite E; left). done.
Qed.

Lemma votes_for_eq x l : votes_for x (x :: l) = x :: votes_for x l.
Proof. unfold votes_for. by rewrite filter_cons_True. Qed.

Lemma votes_for_ne x y l : x <> y -> votes_for y (x :: l) = votes_for y l.
Proof. intros H. unfold votes_for. by rewrite filter_cons_False. Qed.

Lemma grouped_same x l ys rest : x ∈ l -> grouped l (ys :: rest) -> head l = Some x ->
  grouped (x :: l) ((x :: ys) :: rest).
Proof.
  intros Hx [Hf Ha Hh Hnd] Hhead. destruct l as [|y l]; [done|]. injection Hhead as ->.
  injection Hh as ->. apply NoDup_cons in Hnd as [Hnot Hnd]. rewrite votes_for_head in Hnot by done.
  assert (Hrest : forall gr, gr ∈ rest -> exists z, z ∈ x :: l /\ z <> x /\ gr = votes_for z (x :: l)).
  { intros gr Hgr. destruct (Hf gr) as (z & Hz & ->); [by right|]. exists z. split_and!; [done| |done].
    intros ->. apply Hnot, list_elem_of_fmap. exists (votes_for x (x :: l)). split; [|done]. by rewrite votes_for_head. }
  split.
  - intros gr [->|Hgr]%elem_of_cons; [exists x; split; [left|by rewrite (votes_for_eq x (x :: l))]|].
    destruct (Hrest gr Hgr) as (z & Hz & Hne & ->). exists z. split; [by right|]. by rewrite (votes_for_ne x z (x :: l)).
  - intros z Hz. destruct (decide (z = x)) as [->|Hne]; [rewrite (votes_for_eq x (x :: l)); left|].
    rewrite votes_for_ne by done. right. apply elem_of_cons in Hz as [|Hz]; [done|].
    specialize (Ha z Hz). apply elem_of_cons in Ha as [Hv|Hv]; [|done]. exfalso.
    assert (Some z = Some x) as [=]; [|done]. rewrite <- (votes_for_head z (x :: l) Hz), Hv.
    apply votes_for_head. left.
  - by rewrite (votes_for_eq x (x :: l)).
  - rewrite fmap_cons. by constructor.
Qed.

Lemma grouped_new x l gs : x ∉ l -> grouped l gs -> grouped (x :: l) ([x] :: gs).
Proof.
  intros Hx [Hf Ha Hh Hnd].
  assert (Hself : votes_for x l = []).
  { unfold votes_for. destruct (filter _ l) as [|y ys] eqn:E; [done|]. exfalso. apply Hx.
    assert (y ∈ filter (fun v => v = x) l) as [-> Hy]%list_elem_of_filter by (rewrite E; left). done. }
  split.
  - intros gr [->|Hgr]%elem_of_cons; [exists x; split; [left|by rewrite votes_for_eq, Hself]|].
    destruct (Hf gr Hgr) as (z & Hz & ->). exists z. split; [by right|]. rewrite votes_for_ne; [done|congruence].
  - intros z Hz. destruct (decide (z = x)) as [->|Hne]; [rewrite votes_for_eq, Hself; left|].
    rewrite votes_for_ne by done. right. apply Ha. by apply elem_of_cons in Hz as [|].
  - by rewrite votes_for_eq, Hself.
  - rewrite fmap_cons. constructor; [|done]. intros (gr & Hgr1 & Hgr)%list_elem_of_fmap.
    destruct (Hf gr Hgr) as (z & Hz & ->). rewrite votes_for_head in Hgr1 by done. simpl in Hgr1. congruence.
Qed.

Lemma group_adjacent_grouped l : StronglySorted String.le l -> grouped l (group_adjacent l).
Proof.
  induction l as [|x l IH]; intros Hs.
  { split; simpl; [by intros ? ?%elem_of_nil|by intros ? ?%elem_of_nil|done|constructor]. }
  inversion Hs as [|? ? Hs' Hx]; subst. specialize (IH Hs'). cbn [group_adjacent].
  destruct l as [|y l]; [by apply (grouped_new x [] []); [intros ?%elem_of_nil|]|].
  pose proof (gr_first _ _ IH : head _ = Some (votes_for y (y :: l))) as Hh. rewrite votes_for_eq in Hh.
  destruct (group_adjacent (y :: l)) as [|[|z zs] rest]; [done..|]. injection Hh as -> ->.
  case_decide as Hxy; [subst; by apply grouped_same; [left|..]|].
  apply grouped_new; [|done]. intros Hin. apply Hxy. apply (anti_symm String.le).
  - by apply Forall_cons in Hx as [? _].
  - inversion Hs' as [|? ? _ Hy]; subst. apply elem_of_cons in Hin as [->|Hin]; [reflexivity|].
    by eapply Forall_forall in Hin.
Qed.

(** The winner got at least as many votes as any other. *)
Lemma mostOccur_spec votes : votes <> [] ->
  exists p, mostOccur votes = Some p /\ p ∈ votes /\
    forall q, (length (votes_for q votes) <= length (votes_for p votes))%nat.
Proof.
  intros Hv. unfold mostOccur. set (l := merge_sort String.le votes).
  assert (Hp : l ≡ₚ votes) by apply merge_sort_Permutation.
  destruct (group_adjacent_grouped l (StronglySorted_merge_sort _ _)) as [Hf Ha Hh _].
  destruct (maximumOn_some (list string) length (group_adjacent l)) as [gr Hgr].
  { intros E. rewrite E in Hh. destruct l as [|y l']; [|done]. apply Permutation_nil in Hp. done. }
  rewrite Hgr. destruct (maximumOn_max _ _ _ _ Hgr) as [Hin Hmax]. destruct (Hf gr Hin) as (p & Hpl & ->).
  exists p. simpl. split_and!; [by apply votes_for_head|by rewrite <- Hp|]. intros q.
  assert (Hlen : forall x, length (votes_for x votes) = length (votes_for x l)).
  { intros x. unfold votes_for. by rewrite Hp. }
  rewrite !Hlen. destruct (decide (q ∈ l)) as [Hq|Hq]; [by apply Hmax, Ha|].
  unfold votes_for at 1. destruct (filter (fun v => v = q) l) as [|y ys] eqn:E; [simpl; lia|]. exfalso. apply Hq.
  assert (y ∈ filter (fun v => v = q) l) as [-> Hy]%list_elem_of_filter by (rewrite E; left). done.
Qed.

Lemma voteForProtocol_spec c m : match voteForProtocol c m with
  | inr p => p ∈ c /\ p ∈ (m_supportedProtocols m).*1
  | inl _ => c ∩ plainProtocols (m_supportedProtocols m) = ∅
  end.
Proof.
  unfold voteForProtocol. destruct (list_find _ _) as [[i p]|] eqn:E.
  - apply list_find_Some in E as (Hi & Hp & _). split; [done|]. by eapply list_elem_of_lookup_2.
  - apply list_find_None in E. unfold plainProtocols. apply elem_of_equiv_empty_L. intros x Hx.
    apply elem_of_intersection in Hx as [Hc Hx%elem_of_list_to_set]. rewrite Forall_forall in E. by apply (E x Hx).
Qed.

Lemma votes_run c (ms : list Member) g :
  (exists votes, forM ms (fun m => lift (voteForProtocol c m)) g = (g, inr votes) /\
     Forall2 (fun m v => voteForProtocol c m = inr v) ms votes) \/
  (exists m e, m ∈ ms /\ voteForProtocol c m = inl e /\
     exists e', forM ms (fun m => lift (voteForProtocol c m)) g = (g, inl e')).
Proof.
  induction ms as [|m ms IH]; [left; by exists []|]. rewrite forM_cons. unfold lift at 1 3.
  destruct (voteForProtocol c m) as [e|v] eqn:Ev.
  - right. exists m, e. split_and!; [left|done|]. by exists e.
  - destruct IH as [(votes & E & Hf)|(m' & e & Hm & Hv & e' & E)].
    + left. exists (v :: votes). rewrite E. split; [done|by constructor].
    + right. exists m', e. split_and!; [by right|done|]. exists e'. by rewrite E.
Qed.

(** The protocol is one that every member supports, chosen by the most votes; there
    is none only when there is no common protocol. *)
Lemma chooseProtocolName_spec g : members g <> ∅ ->
  (forall k m, members g !! k = Some m -> supportedProtocols g ⊆ plainProtocols (m_supportedProtocols m)) ->
  exists r, chooseProtocolName g = (g, r) /\
    match r with
    | inl _ => supportedProtocols g = ∅
    | inr p => p ∈ supportedProtocols g /\
        exists votes, Forall2 (fun m v => voteForProtocol (supportedProtocols g) m = inr v)
            (iter_list (members g)).*2 votes /\
          forall q, (length (votes_for q votes) <= length (votes_for p votes))%nat
    end.
Proof.
  intros Hne Hp. unfold chooseProtocolName. rewrite bind_run. cbv beta iota delta [gets]. rewrite bind_run.
  cbv beta iota. rewrite bind_run.
  destruct (votes_run (supportedProtocols g) (iter_list (members g)).*2 g) as [(votes & E & Hf)|(m & e & Hm & Hv & e' & E)].
  - rewrite E. assert (Hvotes : votes <> []).
    { intros ->. inversion Hf as [Hnil|]. symmetry in Hnil. apply fmap_nil_inv, iter_list_nil in Hnil. done. }
    destruct (mostOccur_spec votes Hvotes) as (p & -> & Hin & Hmax). eexists. split; [done|]. split; [|by eauto].
    apply list_elem_of_lookup in Hin as [i Hi]. destruct (Forall2_lookup_r _ _ _ _ _ Hf Hi) as (m & _ & Hm).
    pose proof (voteForProtocol_spec (supportedProtocols g) m) as Hs. rewrite Hm in Hs. tauto.
  - rewrite E. eexists. split; [done|]. simpl. pose proof (voteForProtocol_spec (supportedProtocols g) m) as Hs.
    rewrite Hv in Hs. apply list_elem_of_fmap in Hm as ([k m'] & -> & Hk%elem_of_iter_list).
    specialize (Hp k _ Hk). set_solver.
Qed.

Lemma computeProtocolName_spec g : members g <> ∅ ->
  (forall k m, members g !! k = Some m -> supportedProtocols g ⊆ plainProtocols (m_supportedProtocols m)) ->
  exists r, match r with
            | inl e => computeProtocolName g = (g, inl e) /\ protocolName g = None /\ supportedProtocols g = ∅
            | inr p => computeProtocolName g = (set_protocolName (Some p) g, inr p) /\
                (protocolName g = Some p \/ protocolName g = None /\ p ∈ supportedProtocols g)
            end.
Proof.
  intros Hne Hp. unfold computeProtocolName. rewrite bind_run. cbv beta iota delta [gets].
  destruct (protocolName g) as [p|] eqn:E.
  - exists (inr p). split; [|by left]. unfold mret, io_ret. rewrite <- E. by destruct g.
  - rewrite bind_run. destruct (chooseProtocolName_spec g Hne Hp) as ([e|p] & Er & Hr); rewrite Er.
    + by exists (inl e).
    + exists (inr p). split; [done|]. right. tauto.
Qed.

(** ** The rebalance thread *)

Lemma removed_waiting (waiting : G -> gmap string nat) :
  waiting = delayedJoinResponses \/ waiting = delayedSyncResponses ->
  forall g1 g2, removed g1 g2 -> waiting g2 = waiting g1.
Proof. intros [->| ->] g1 g2 (l & ms & rt & hs & ->); done. Qed.

Definition next_generation g : Z := i32 (groupGenerationId g + 1).

(** The members that stay, and their leader. *)
Lemma removeNotYetRejoinedMembers_eq g : sound g ->
  exists l ms rt hs, removeNotYetRejoinedMembers g = set_leader l (set_members ms (set_retired rt (set_hearts hs g))) /\
    leader_ok l ms /\
    (forall k, ms !! k = match delayedJoinResponses g !! k with Some _ => members g !! k | None => None end) /\
    (forall l0, leader g = Some l0 -> is_Some (delayedJoinResponses g !! l0) -> l = Some l0).
Proof.
  intros Hs. destruct (remove_absent_spec delayedJoinResponses g) as [Hr Hm]; [apply removed_waiting; by left|].
  pose proof (remove_absent_leader delayedJoinResponses g) as Hl. unfold removeNotYetRejoinedMembers.
  destruct Hr as (l & ms & rt & hs & E). rewrite E in *. simpl in *. exists l, ms, rt, hs.
  split_and!; [done| |done|].
  - apply Hl; [apply removed_waiting; by left|done|apply Hs..].
  - intros l0 H0 Hk. pose proof (remove_absent_keeps delayedJoinResponses g l0 (removed_waiting _ (or_introl eq_refl)) H0 Hk) as H.
    by rewrite E in H.
Qed.

(** The state in which a rebalance has found its members. *)
Definition gathered l ms rt hs g : G :=
  set_groupGenerationId (next_generation g) (set_leader l (set_members ms (set_retired rt (set_hearts hs g)))).

(** The state after a rebalance that found no member. *)
Definition emptied ms rt hs g : G :=
  set_delayedSync None (set_syncs ∅ (set_delayedRebalance None (set_state Empty
    (set_protocolName None (gathered None ms rt hs g))))).

Lemma emptied_eq ms rt hs g : sound g -> state g = PreparingRebalance ->
  cancelDelayedSync (set_delayedRebalance None (transitionTo Empty
    (set_protocolName None (gathered None ms rt hs g)))) = emptied ms rt hs g.
Proof.
  intros Hs Hst. unfold transitionTo. rewrite decide_True by (simpl; rewrite Hst; set_solver).
  rewrite cancelDelayedSync_eq by apply Hs. done.
Qed.

Lemma rebalance_run ok g : sound g ->
  exists l ms rt hs, leader_ok l ms /\
    (forall k, ms !! k = match delayedJoinResponses g !! k with Some _ => members g !! k | None => None end) /\
    (forall l0, leader g = Some l0 -> is_Some (delayedJoinResponses g !! l0) -> l = Some l0) /\
    rebalance ok g =
    match l with
    | Some leaderMemberId => doRelance leaderMemberId (gathered l ms rt hs g)
    | None => storeGroup ok ∅ (cancelDelayedSync (set_delayedRebalance None (transitionTo Empty
                (set_protocolName None (gathered l ms rt hs g)))))
    end.
Proof.
  intros Hs. destruct (removeNotYetRejoinedMembers_eq g Hs) as (l & ms & rt & hs & E & Hl & Hm & Hk).
  exists l, ms, rt, hs. split_and!; [done..|]. unfold rebalance. rewrite bind_run. cbv beta iota delta [modify].
  rewrite E, bind_run. cbv beta iota. rewrite bind_run. cbv beta iota delta [gets].
  change (leader (set_groupGenerationId _ _)) with l. destruct l; [done|]. rewrite !bind_run. done.
Qed.

Lemma gathered_joins (ms : gmap string Member) g k : sound g ->
  (forall k, ms !! k = match delayedJoinResponses g !! k with Some _ => members g !! k | None => None end) ->
  is_Some (delayedJoinResponses g !! k) <-> is_Some (ms !! k).
Proof.
  intros Hs Hm. rewrite Hm. split.
  - intros H. destruct (s_joins _ Hs k H) as [m Hk]. destruct H as [v ->]. by eexists.
  - destruct (delayedJoinResponses g !! k); [by eexists|by intros []].
Qed.

(** The end of a rebalance: all parked joins are answered. *)
Lemma doRelance_run lid g : leader_ok (Some lid) (members g) -> state g = PreparingRebalance ->
  distinct (delayedJoinResponses g) ->
  (forall k m, members g !! k = Some m -> supportedProtocols g ⊆ plainProtocols (m_supportedProtocols m)) ->
  (exists e, doRelance lid g = (g, inl e) /\ protocolName g = None /\ supportedProtocols g = ∅) \/
  exists p a, (protocolName g = Some p \/ protocolName g = None /\ p ∈ supportedProtocols g) /\
    answered (delayedJoinResponses g)
      (join_response g p lid (getJoinResponseMember p <$> (iter_list (members g)).*2)) (joinAnswers g) a /\
    doRelance lid g = (set_delayedRebalance None (makeDelayedSync (groupGenerationId g) (computeRebalanceTimeoutMs g)
      (set_delayedJoinResponses ∅ (set_joinAnswers a (set_state CompletingRebalance (set_protocolName (Some p) g))))),
      inr tt).
Proof.
  intros Hl Hst Hd Hp. assert (Hne : members g <> ∅).
  { intros E. destruct Hl as [m Hm]. by rewrite E, lookup_empty in Hm. }
  unfold doRelance. rewrite bind_run.
  destruct (computeProtocolName_spec g Hne Hp) as [[e|p] Hr].
  - destruct Hr as (-> & ? & ?). left. by exists e.
  - right. destruct Hr as [-> Hpn].
    destruct (answer_loop_table (join_response g p lid (getJoinResponseMember p <$> (iter_list (members g)).*2))
      (delayedJoinResponses g) (joinAnswers g) Hd) as [E Ha].
    exists p. eexists. split_and!; [done|exact Ha|]. rewrite !bind_run. cbv beta iota zeta delta [modify].
    assert (Ht : transitionTo CompletingRebalance (set_protocolName (Some p) g) =
      set_state CompletingRebalance (set_protocolName (Some p) g)).
    { unfold transitionTo. rewrite decide_True; [done|]. simpl. rewrite Hst. set_solver. }
    rewrite Ht. unfold mbind, io_bind. cbv beta iota. rewrite answer_joins_eq. simpl delayedJoinResponses. simpl joinAnswers.
    change (join_response (set_state CompletingRebalance (set_protocolName (Some p) g)) p lid) with (join_response g p lid).
    rewrite <- E. done.
Qed.

Lemma rebalance_sound ok tid g : sound g -> is_Some (rebalances g !! tid) ->
  sound (set_rebalances (delete tid (rebalances (rebalance ok g).1)) (rebalance ok g).1).
Proof.
  intros Hs Ht. pose proof (s_rebalances _ Hs tid Ht) as Hd.
  assert (Hst : state g = PreparingRebalance).
  { pose proof (s_state _ Hs) as H. rewrite Hd in H. destruct (state g); intuition congruence. }
  assert (Hthreads : delete tid (rebalances g) = ∅).
  { apply map_empty. intros t. destruct (decide (tid = t)) as [<-|]; [apply lookup_delete_eq|].
    rewrite lookup_delete_ne by done. destruct (rebalances g !! t) eqn:E; [|done].
    assert (delayedRebalance g = Some t); [|congruence]. apply (s_rebalances _ Hs). by eexists. }
  pose proof (s_state _ Hs) as Hstate. rewrite Hst in Hstate. destruct Hstate as (Hsy & _ & Hds).
  destruct (rebalance_run ok g Hs) as (l & ms & rt & hs & Hl & Hm & _ & ->).
  assert (Hsub : forall k m, ms !! k = Some m -> members g !! k = Some m).
  { intros k m. rewrite Hm. by destruct (delayedJoinResponses g !! k). }
  assert (Hj := fun k => gathered_joins ms g k Hs Hm).
  destruct l as [lid|].
  - destruct (doRelance_run lid (gathered (Some lid) ms rt hs g)) as [(e & -> & Hpn & Hps)|(p & a & Hp & Ha & ->)];
      simpl in *; [done|done|by eapply mvars_distinct, Hs|intros k m H; by eapply (s_protocols _ Hs), Hsub| |].
    + split; simpl; rewrite ?Hthreads, ?Hst, ?Hd; try done; try apply Hs.
      * intros k m H. by apply (s_ids _ Hs), Hsub.
      * intros k m H. by eapply (s_protocols _ Hs), Hsub.
      * intros k. by apply Hj.
      * intros k. rewrite Hsy. intros H. by apply empty_some in H.
      * intros t H. rewrite lookup_empty in H. by destruct H.
      * intros t [= <-]. by right.
    + split; simpl; rewrite ?Hthreads; try done; try apply Hs.
      * intros k m H. by apply (s_ids _ Hs), Hsub.
      * intros k m H. by eapply (s_protocols _ Hs), Hsub.
      * intros k H. by apply empty_some in H.
      * intros k. rewrite Hsy. intros H. by apply empty_some in H.
      * intros t H. rewrite lookup_empty in H. by destruct H.
      * assert (syncs g = ∅) as ->.
        { apply map_empty. intros t. destruct (syncs g !! t) eqn:E; [|done].
          assert (delayedSync g = Some t); [|congruence]. apply (s_sync_thread _ Hs). by eexists. }
        intros t. rewrite insert_empty. split.
        -- by intros [x [<- _]%lookup_singleton_Some].
        -- intros [= <-]. rewrite lookup_singleton_eq. by eexists.
      * eapply mvars_answered; [apply Hs|exact Ha].
  - assert (Hjo : delayedJoinResponses g = ∅).
    { eapply no_keys; [intros k; apply Hj|done]. }
    rewrite emptied_eq, storeGroup_run by done.
    assert (Hx : sound (set_rebalances ∅ (emptied ms rt hs g))).
    { split; simpl; try done; try apply Hs.
      - simpl in Hl. rewrite Hl. intros k m H. by rewrite lookup_empty in H.
      - simpl in Hl. rewrite Hl. intros k m H. by rewrite lookup_empty in H.
      - rewrite Hjo. intros k H. by apply empty_some in H.
      - rewrite Hsy. intros k H. by apply empty_some in H.
      - intros t H. rewrite lookup_empty in H. by destruct H.
      - intros t. rewrite lookup_empty. split; [by intros []|done]. }
    destruct ok; simpl; rewrite Hthreads; [|exact Hx]. frame Hx.
Qed.

(** ** The other steps *)

Lemma delayed_sync_sound tid g : sound g -> is_Some (syncs g !! tid) ->
  sound (set_syncs (delete tid (syncs (delayed_sync_action g))) (delayed_sync_action g)).
Proof.
  intros Hs Ht. pose proof (proj1 (s_sync_thread _ Hs tid) Ht) as Hd.
  assert (Hst : state g = CompletingRebalance).
  { pose proof (s_state _ Hs) as H. rewrite Hd in H. destruct (state g); intuition congruence. }
  assert (Hthreads : delete tid (syncs g) = ∅).
  { apply map_empty. intros t. destruct (decide (tid = t)) as [<-|]; [apply lookup_delete_eq|].
    rewrite lookup_delete_ne by done. destruct (syncs g !! t) eqn:E; [|done].
    assert (delayedSync g = Some t); [|congruence]. apply (s_sync_thread _ Hs). by eexists. }
  pose proof (s_state _ Hs) as Hstate. rewrite Hst in Hstate. destruct Hstate as [Hj Hr].
  unfold delayed_sync_action. rewrite Hst.
  destruct (remove_absent_spec delayedSyncResponses g) as [Hrm Hm]; [apply removed_waiting; by right|].
  pose proof (remove_absent_leader delayedSyncResponses g) as Hl. unfold removeNotYetSyncedMembers.
  destruct Hrm as (l & ms & rt & hs & E). rewrite E in *. simpl in *.
  assert (Hsub : forall k m, ms !! k = Some m -> members g !! k = Some m).
  { intros k m. rewrite Hm. by destruct (delayedSyncResponses g !! k). }
  split; simpl; rewrite ?Hthreads, ?Hst; try done; try apply Hs.
  - apply Hl; [apply removed_waiting; by right|intros k _; by rewrite Hj|apply Hs..].
  - intros k m H. by apply (s_ids _ Hs), Hsub.
  - intros k m H. by eapply (s_protocols _ Hs), Hsub.
  - intros k. rewrite Hj. intros H. by apply empty_some in H.
  - intros k H. rewrite Hm. destruct (s_syncs _ Hs k H) as [m Hk]. destruct H as [v ->]. by eexists.
  - intros t. rewrite lookup_empty. split; [by intros []|done].
Qed.

Lemma heart_turn_sound tid now mid g : sound g -> sound (heart_turn tid now mid g).
Proof.
  intros Hs. unfold heart_turn.
  assert (H : sound (checkHeartbeatAndMaybeRebalance now mid g).1).
  { unfold checkHeartbeatAndMaybeRebalance. rewrite bind_run. cbv beta iota delta [gets].
    destruct (member_of g mid) as [m|]; [|done]. rewrite bind_run. case_decide; [|done].
    rewrite bind_run. cbv beta iota delta [modify].
    destruct (alter_member_eq (set_heartbeatThread None) mid g) as (ms & rt & -> & Hl); [done|].
    pose proof (removeMemberAndUpdateGroup_sound mid (set_members ms (set_retired rt g))) as Hr.
    destruct (removeMemberAndUpdateGroup mid _) as [g' [e|[]]]; apply Hr; frame Hs. }
  destruct (checkHeartbeatAndMaybeRebalance now mid g) as [g' [e|d]]; simpl in H; [frame H|].
  case_decide; [done|frame H].
Qed.

Lemma leaveGroup_sound mid g : sound g -> sound (leaveGroup mid g).1.
Proof.
  intros Hs. unfold leaveGroup. rewrite bind_run, getMember_run. destruct (members g !! mid); [|done].
  rewrite bind_run. cbv beta iota delta [gets]. destruct (state g); try done; by apply removeMemberAndUpdateGroup_sound.
Qed.

Lemma heartbeat_run now generationId mid g :
  heartbeat now generationId mid g =
  if decide (groupGenerationId g = generationId) then
    match state g with
    | PreparingRebalance | CompletingRebalance => (g, inl (ErrorCodeException REBALANCE_IN_PROGRESS))
    | Dead | Empty => (g, inl (ErrorCodeException UNKNOWN_MEMBER_ID))
    | Stable => match members g !! mid with
                | Some _ => (updateLatestHeartbeat now mid g, inr tt)
                | None => (g, inl (ErrorCodeException UNKNOWN_MEMBER_ID))
                end
    end
  else (g, inl (ErrorCodeException ILLEGAL_GENERATION)).
Proof.
  unfold heartbeat. rewrite bind_run. unfold checkGroupGenerationId. run. case_decide; [|done]. run.
  destruct (state g); try done. rewrite bind_run, getMember_run. by destruct (members g !! mid).
Qed.

Lemma heartbeat_sound now generationId mid g : sound g -> sound (heartbeat now generationId mid g).1.
Proof.
  intros Hs. rewrite heartbeat_run. case_decide; [|done]. destruct (state g); try done.
  destruct (members g !! mid); [|done]. by apply updateLatestHeartbeat_sound.
Qed.

Section commit.
Context {OS : OffsetStorage os} {TT : TopicTree}.

Lemma on_offsets_run {A} (m : IO (GroupOffsetManager os) A) g :
  on_offsets m g = (set_metadataManager (m (metadataManager g)).1 g, (m (metadataManager g)).2).
Proof. unfold on_offsets. by destruct (m (metadataManager g)). Qed.

Lemma commit_topic_eq v t g : exists o r, commit_topic v t g = (set_metadataManager o g, r).
Proof.
  unfold commit_topic. case_match; [|exists (metadataManager g); eexists; by destruct g].
  rewrite bind_run, on_offsets_run. destruct (storeOffsets _ _ _).2; by do 2 eexists.
Qed.

Lemma commit_topics_eq v ts g : exists o r, forM ts (commit_topic v) g = (set_metadataManager o g, r).
Proof.
  revert g. induction ts as [|t ts IH]; intros g; [exists (metadataManager g); eexists; by destruct g|].
  rewrite forM_cons. destruct (commit_topic_eq v t g) as (o & [e|r] & ->); [by do 2 eexists|].
  destruct (IH (set_metadataManager o g)) as (o' & [e|r'] & ->); by do 2 eexists.
Qed.

(** What a commit may change. *)
Definition committed g g' : Prop :=
  exists o mm st ms rt,
    g' = set_metadataManager o (set_metaStore mm (set_storedMetadata st (set_members ms (set_retired rt g)))) /\
    members_like (members g) ms.

Lemma committed_refl g : committed g g.
Proof.
  exists (metadataManager g), (metaStore g), (storedMetadata g), (members g), (retired g).
  split; [by destruct g|apply members_like_refl].
Qed.

Lemma committed_trans g1 g2 g3 : committed g1 g2 -> committed g2 g3 -> committed g1 g3.
Proof.
  intros (o & mm & st & ms & rt & -> & H) (o' & mm' & st' & ms' & rt' & -> & H').
  exists o', mm', st', ms', rt'. split; [done|]. by eapply members_like_trans.
Qed.

Lemma committed_offsets o g : committed g (set_metadataManager o g).
Proof.
  exists o, (metaStore g), (storedMetadata g), (members g), (retired g).
  split; [by destruct g|apply members_like_refl].
Qed.

Lemma committed_sound g g' : sound g -> committed g g' -> sound g'.
Proof. intros Hs (o & mm & st & ms & rt & -> & Hl). frame Hs. Qed.

Lemma commit_topics_committed v ts g : committed g (commit_topics v ts g).1.
Proof.
  destruct ts as [ts|]; simpl; [|apply committed_refl]. rewrite bind_run.
  destruct (commit_topics_eq v ts g) as (o & [e|r] & ->); apply committed_offsets.
Qed.

Lemma finish_commit_committed ok now mid g : committed g (finish_commit ok now mid g).1.
Proof.
  assert (Hlast : forall g, committed g (match members g !! mid with
    | None => g | Some _ => updateLatestHeartbeat now mid g end)).
  { clear g. intros g. destruct (members g !! mid); [|apply committed_refl]. unfold updateLatestHeartbeat.
    destruct (alter_member_eq (set_lastHeartbeat now) mid g) as (ms & rt & -> & Hl); [done|].
    exists (metadataManager g), (metaStore g), (storedMetadata g), ms, rt. split; [by destruct g|done]. }
  unfold finish_commit. run. destruct (storedMetadata g); [apply Hlast|].
  rewrite storeGroup_run. destruct ok; [|apply committed_refl]. eapply committed_trans; [|apply Hlast].
  exists (metadataManager g), (Some (getGroupValue ∅ g)), true, (members g), (retired g). split; [by destruct g|apply members_like_refl].
Qed.

Lemma validateOffsetcommit_run req g :
  validateOffsetcommit req g = (g,
    if oc_generationId req <? 0
    then if decide (state g = Empty) then inr tt else inl (ErrorCodeException ILLEGAL_GENERATION)
    else if decide (oc_generationId req = groupGenerationId g)
         then match members g !! oc_memberId req with
              | Some _ => inr tt | None => inl (ErrorCodeException UNKNOWN_MEMBER_ID) end
         else inl (ErrorCodeException ILLEGAL_GENERATION)).
Proof.
  unfold validateOffsetcommit. run. destruct (oc_generationId req <? 0); [by destruct (decide (state g = Empty))|].
  case_decide; [|done].
  rewrite bind_run, getMember_run. by destruct (members g !! oc_memberId req).
Qed.

Lemma commitOffsets_committed v ok now req g : committed g (commitOffsets v ok now req g).1.
Proof.
  unfold commitOffsets. rewrite bind_run, validateOffsetcommit_run.
  destruct (if oc_generationId req <? 0 then _ else _) as [e|[]]; [apply committed_refl|]. run.
  assert (Hbody : committed g ((topics ← commit_topics v (oc_topics req);
    finish_commit ok now (oc_memberId req);; mret topics) g).1).
  { rewrite bind_run. pose proof (commit_topics_committed v (oc_topics req) g) as H1.
    destruct (commit_topics v (oc_topics req) g) as [g1 [e|ts]]; [exact H1|]. simpl in H1.
    rewrite bind_run. pose proof (finish_commit_committed ok now (oc_memberId req) g1) as H2.
    destruct (finish_commit ok now (oc_memberId req) g1) as [g2 [e|[]]]; by eapply committed_trans. }
  destruct (state g); [exact Hbody|apply committed_refl|exact Hbody|apply committed_refl|exact Hbody].
Qed.

Lemma commitOffsets_sound v ok now req g : sound g -> sound (commitOffsets v ok now req g).1.
Proof. intros Hs. by eapply committed_sound, commitOffsets_committed. Qed.

Lemma step_sound e g : sound g -> allowed e g -> sound (step e g).
Proof.
  intros Hs Ha. destruct e; cbn [step].
  - apply joinGroup_sound; [done|apply Ha].
  - by apply syncGroup_sound.
  - by apply leaveGroup_sound.
  - by apply heartbeat_sound.
  - by apply commitOffsets_sound.
  - destruct (rebalances g !! tid) eqn:E; [|done]. apply rebalance_sound; [done|by eexists].
  - destruct (syncs g !! tid) eqn:E; [|done]. apply delayed_sync_sound; [done|by eexists].
  - destruct (hearts g !! tid); [|done]. by apply heart_turn_sound.
Qed.

Lemma newGroup_sound name manager meta delay : sound (newGroup name manager meta delay : G).
Proof.
  split; simpl; try done.
  - intros k [? H]. by rewrite lookup_empty in H.
  - intros k [? H]. by rewrite lookup_empty in H.
  - intros t [? H]. by rewrite lookup_empty in H.
  - intros t. rewrite lookup_empty. split; [by intros []|done].
  - split; [intros k k' v H; by rewrite lookup_empty in H|intros k v H; by rewrite lookup_empty in H|].
    intros v [? H]. by rewrite lookup_empty in H.
  - split; [intros k k' v H; by rewrite lookup_empty in H|intros k v H; by rewrite lookup_empty in H|].
    intros v [? H]. by rewrite lookup_empty in H.
Qed.

Lemma reachable_sound g0 g : sound g0 -> reachable g0 g -> sound g.
Proof. induction 2; [done|]. by apply step_sound. Qed.
End commit.

(** ** Groups loaded from the metastore *)

(** A stored group has each member once, and its leader among them. *)
Definition value_ok (v : GroupMetadataValue) : Prop :=
  NoDup (mv_memberId <$> gv_members v) /\
  match gv_leader v with
  | Some l => l ∈ mv_memberId <$> gv_members v
  | None => gv_members v = []
  end.

Lemma getGroupValue_ok asg g : sound g -> value_ok (getGroupValue asg g).
Proof.
  intros Hs. unfold value_ok. simpl.
  assert (E : mv_memberId <$> (getMemberValue (default "" (protocolName g)) asg <$> (iter_list (members g)).*2) =
    (iter_list (members g)).*1).
  { rewrite <- !list_fmap_compose. apply list_fmap_ext. intros i [k m] H. simpl.
    by apply (s_ids _ Hs), elem_of_iter_list, (list_elem_of_lookup_2 _ i). }
  rewrite E. split; [apply NoDup_iter_list_fst|]. pose proof (s_leader _ Hs) as Hl.
  destruct (leader g); simpl in Hl; [by apply elem_of_iter_keys|].
  assert (Hn : iter_list (members g) = []); [|by rewrite Hn].
  apply Permutation_nil. by rewrite iter_list_perm, Hl, map_to_list_empty.
Qed.

(** The members that were added so far. *)
Definition loaded_members v (xs : list MemberMetadataValue) (ms : gmap string Member) : gmap string Member :=
  foldl (fun ms x => <[mv_memberId x := newMemberFromValue v x]> ms) ms xs.

Lemma add_loaded v xs g : (leader g = None -> xs = []) ->
  exists pt ps, foldl (fun g x => addMember (newMemberFromValue v x) None g) g xs =
    set_protocolType pt (set_supportedProtocols ps (set_members (loaded_members v xs (members g)) g)) /\
    (protocolType g = Some (gv_protocolType v) -> pt = Some (gv_protocolType v)) /\
    ((supportedProtocols g ⊆ {[default "" (gv_prototcolName v)]}) -> ps ⊆ {[default "" (gv_prototcolName v)]}).
Proof.
  revert g. induction xs as [|x xs IH]; intros g Hl.
  { exists (protocolType g), (supportedProtocols g). split; [by destruct g|done]. }
  cbn [foldl]. destruct (leader g) as [l|] eqn:El; [|by specialize (Hl eq_refl)].
  set (g1 := addMember (newMemberFromValue v x) None g).
  assert (E1 : g1 = set_protocolType (if decide (members g = ∅) then Some (gv_protocolType v) else protocolType g)
    (set_supportedProtocols (merged g (m_supportedProtocols (newMemberFromValue v x)))
      (set_members (<[mv_memberId x := newMemberFromValue v x]> (members g)) g))).
  { subst g1. unfold addMember, updateSupportedProtocols, merged.
    destruct (decide (members g = ∅)); simpl; rewrite El; simpl; destruct g; simpl in *; by subst. }
  destruct (IH g1) as (pt & ps & E & Hpt & Hps); [intros H; rewrite E1 in H; simpl in H; congruence|].
  exists pt, ps. rewrite E1 in Hpt, Hps. rewrite E, E1. split_and!; [done|..]; simpl in *.
  - intros H. apply Hpt. by destruct (decide (members g = ∅)).
  - intros H. apply Hps. etrans; [apply merged_new|]. unfold plainProtocols. simpl. by rewrite (right_id_L ∅ (∪)).
Qed.

Lemma loaded_members_lookup v xs ms k : NoDup (mv_memberId <$> xs) ->
  loaded_members v xs ms !! k =
  match list_find (fun x => mv_memberId x = k) xs with
  | Some (_, x) => Some (newMemberFromValue v x)
  | None => ms !! k
  end.
Proof.
  revert ms. induction xs as [|x xs IH]; intros ms Hnd; [done|]. rewrite fmap_cons in Hnd.
  apply NoDup_cons in Hnd as [Hx Hnd]. unfold loaded_members in *. cbn [foldl list_find]. rewrite IH by done.
  case_decide as E.
  - destruct (list_find _ xs) as [[i y]|] eqn:F; simpl; [|by rewrite E, lookup_insert_eq].
    apply list_find_Some in F as (Hi & Hy & _). exfalso. apply Hx, list_elem_of_fmap. exists y.
    split; [congruence|]. by eapply list_elem_of_lookup_2.
  - destruct (list_find _ xs) as [[i y]|]; simpl; [done|]. by rewrite lookup_insert_ne.
Qed.

Lemma loaded_members_elem v xs k : NoDup (mv_memberId <$> xs) ->
  is_Some (loaded_members v xs ∅ !! k) <-> k ∈ mv_memberId <$> xs.
Proof.
  intros Hnd. rewrite loaded_members_lookup by done. destruct (list_find _ xs) as [[i x]|] eqn:E.
  - apply list_find_Some in E as (Hi & Hx & _). split; [|by eexists]. intros _. apply list_elem_of_fmap.
    exists x. split; [done|]. by eapply list_elem_of_lookup_2.
  - rewrite lookup_empty. split; [by intros []|]. intros (x & Hk & Hx)%list_elem_of_fmap.
    apply list_find_None in E. rewrite Forall_forall in E. by destruct (E x Hx).
Qed.

(** What a loaded group has. *)
Lemma newGroupFromValue_eq clock v manager delay : value_ok v ->
  let g : G := newGroupFromValue clock v manager delay in
    members_like (loaded_members v (gv_members v) ∅) (members g) /\
    groupId g = gv_groupId v /\ groupGenerationId g = gv_generationId v /\ leader g = gv_leader v /\
    state g = (match gv_members v with [] => Empty | _ => Stable end) /\
    protocolName g = gv_prototcolName v /\ protocolType g = Some (gv_protocolType v) /\
    supportedProtocols g ⊆ {[default "" (gv_prototcolName v)]} /\
    delayedJoinResponses g = ∅ /\ delayedSyncResponses g = ∅ /\ delayedRebalance g = None /\
    delayedSync g = None /\ rebalances g = ∅ /\ syncs g = ∅ /\ joinAnswers g = ∅ /\ syncAnswers g = ∅.
Proof.
  intros [_ Hv]. unfold newGroupFromValue.
  match goal with |- context [foldl _ ?x (gv_members v)] => destruct (add_loaded v (gv_members v) x)
    as (pt & ps & E & Hpt & Hps) end.
  { simpl. intros H. by rewrite H in Hv. }
  rewrite E. clear E.
  match goal with |- context [setupDelayedCheckHeartbeat clock ?x] =>
    destruct (setupDelayedCheckHeartbeat_eq clock x) as (ms & rt & hs & n & -> & Hl) end.
  simpl in *. rewrite Hpt by done. split_and!; try done. apply Hps, empty_subseteq.
Qed.

Lemma newGroupFromValue_sound clock v manager delay : value_ok v ->
  sound (newGroupFromValue clock v manager delay : G).
Proof.
  intros Hv. pose proof Hv as [Hnd Hvl]. destruct (newGroupFromValue_eq clock v manager delay Hv)
    as (Hlike & _ & _ & El & Est & _ & _ & Hps & E1 & E2 & E3 & E4 & E5 & E6 & E7 & E8).
  set (g := newGroupFromValue clock v manager delay : G) in *.
  assert (Hm : forall k m, members g !! k = Some m -> m_memberId m = k /\
    m_supportedProtocols m = [(default "" (gv_prototcolName v), snd (hd ("", []) (m_supportedProtocols m)))]).
  { intros k m H. destruct (members_like_inv _ _ _ _ Hlike H) as (m' & Hm' & -> & ->).
    rewrite loaded_members_lookup in Hm' by done. destruct (list_find _ _) as [[i x]|] eqn:F; [|by rewrite lookup_empty in Hm'].
    apply list_find_Some in F as (_ & Hx & _). by injection Hm' as <-. }
  assert (Hlead : leader_ok (leader g) (members g)).
  { rewrite El. destruct (gv_leader v) as [l|]; simpl.
    - apply (members_like_some _ _ l Hlike). by apply loaded_members_elem.
    - apply (members_like_empty _ _ Hlike). by rewrite Hvl. }
  split; rewrite ?E1, ?E2, ?E3, ?E4, ?E5, ?E6, ?E7, ?E8; try done.
  - intros k m H. by apply Hm.
  - intros k m H. destruct (Hm k m H) as [_ ->]. unfold plainProtocols. simpl. by rewrite (right_id_L ∅ (∪)).
  - intros k H. by apply empty_some in H.
  - intros k H. by apply empty_some in H.
  - rewrite Est. destruct (gv_members v) eqn:Em; [|done]. split; [|done]. by apply (members_like_empty _ _ Hlike).
  - intros t [? H]. by rewrite lookup_empty in H.
  - intros t. rewrite lookup_empty. split; [by intros []|done].
  - split; [intros k k' w H; by rewrite lookup_empty in H|intros k w H; by rewrite lookup_empty in H|].
    intros w [? H]. by rewrite lookup_empty in H.
  - split; [intros k k' w H; by rewrite lookup_empty in H|intros k w H; by rewrite lookup_empty in H|].
    intros w [? H]. by rewrite lookup_empty in H.
Qed.

(** ** What heartbeat threads leave of the members *)

(** A member without the fields heartbeats write. *)
Definition strip (m : Member) : Member := set_heartbeatThread None (set_lastHeartbeat 0 m).

Definition stripped g : gmap string Member := strip <$> members g.

Lemma alter_member_stripped f mid g : (forall m, strip (f m) = strip m) ->
  stripped (alter_member f mid g) = stripped g.
Proof.
  intros Hf. unfold stripped, alter_member. destruct (members g !! mid) as [m|] eqn:E; simpl; [|done].
  rewrite fmap_insert, Hf. apply insert_id. by rewrite lookup_fmap, E.
Qed.

Lemma setupDelayedCheckHeartbeat_stripped clock g : stripped (setupDelayedCheckHeartbeat clock g) = stripped g.
Proof.
  unfold setupDelayedCheckHeartbeat. generalize (iter_list (members g)) as xs. intros xs. revert g.
  induction xs as [|x xs IH]; intros g; [done|]. cbn [foldl]. rewrite IH. unfold setup_heart.
  rewrite alter_member_stripped by done.
  change (stripped (set_next_tid _ _)) with (stripped (updateLatestHeartbeat (clock x.1) x.1 g)).
  by apply alter_member_stripped.
Qed.

(** The state after the sync of the leader. *)
Lemma leader_sync_run clock req m g : sound g -> state g = CompletingRebalance ->
  leader g = Some (sq_memberId req) -> members g !! sq_memberId req = Some m ->
  delayedSyncResponses g !! sq_memberId req = None ->
  let asg := getAssignmentMap req in
  exists g', syncGroup clock true req g = (g', inr (next_mvar g)) /\
    state g' = Stable /\ groupGenerationId g' = groupGenerationId g /\ leader g' = leader g /\ groupId g' = groupId g /\
    metadataManager g' = metadataManager g /\
    protocolName g' = protocolName g /\ delayedSyncResponses g' = ∅ /\
    metaStore g' = Some (getGroupValue asg g) /\
    (forall k, stripped g' !! k = set_assignment (default [] (asg !! k)) <$> stripped g !! k) /\
    answered (<[sq_memberId req := next_mvar g]> (delayedSyncResponses g)) (sync_ok asg) (syncAnswers g) (syncAnswers g').
Proof.
  intros Hs Hst Hl Hm Hp asg. set (parked := <[sq_memberId req := next_mvar g]> (delayedSyncResponses g)).
  set (g1 := set_storedMetadata true (set_metaStore (Some (getGroupValue asg g))
    (set_delayedSyncResponses parked (set_next_mvar (S (next_mvar g)) g)))).
  assert (Hv : mvars_ok parked (syncAnswers g) (S (next_mvar g))) by apply mvars_park, Hs.
  destruct (setAndPropagateAssignment_eq asg g1) as (ms & a & E & Hms & Ha).
  { simpl. intros k [<-|[_ Hk]]%lookup_insert_is_Some; [by eexists|by apply (s_syncs _ Hs)]. }
  { by eapply mvars_distinct. }
  pose proof (setupDelayedCheckHeartbeat_stripped clock (setAndPropagateAssignment asg g1)) as Hstrip.
  destruct (setupDelayedCheckHeartbeat_eq clock (setAndPropagateAssignment asg g1)) as (ms' & rt & hs & n & E' & _).
  rewrite E' in Hstrip. rewrite E in Hstrip. simpl in Hstrip.
  eexists. split.
  { unfold syncGroup. rewrite bind_run. cbv beta iota delta [newEmptyMVar]. rewrite bind_run, getMember_run.
    change (members (set_next_mvar (S (next_mvar g)) g)) with (members g). rewrite Hm. run.
    change (state (set_next_mvar (S (next_mvar g)) g)) with (state g). rewrite Hst. unfold doSyncGroup. run.
    change (delayedSyncResponses (set_next_mvar (S (next_mvar g)) g)) with (delayedSyncResponses g).
    rewrite Hp. run. change (leader (set_delayedSyncResponses _ _)) with (leader g). rewrite Hl.
    rewrite decide_True by done. rewrite bind_run, storeGroup_run. cbv beta iota. run.
    change (set_storedMetadata true _) with g1. fold asg. rewrite E', E. rewrite cancelDelayedSync_eq by apply Hs.
    unfold transitionTo. rewrite decide_True by (simpl; rewrite Hst; set_solver). reflexivity. }
  simpl. split_and!; try done. intros k. unfold stripped in *. simpl in *. rewrite Hstrip, !lookup_fmap, Hms.
  by destruct (members g !! k).
Qed.

Lemma loaded_members_in v xs ms x : NoDup (mv_memberId <$> xs) -> x ∈ xs ->
  loaded_members v xs ms !! mv_memberId x = Some (newMemberFromValue v x).
Proof.
  intros Hnd Hx. rewrite loaded_members_lookup by done. destruct (list_find _ xs) as [[i y]|] eqn:E.
  - apply list_find_Some in E as (Hi & Hy & _). repeat f_equal. apply list_elem_of_lookup in Hx as [j Hj].
    assert (i = j) as ->; [|congruence]. eapply NoDup_lookup; [exact Hnd|by rewrite list_lookup_fmap, Hi|].
    rewrite list_lookup_fmap, Hj. simpl. by rewrite Hy.
  - apply list_find_None in E. rewrite Forall_forall in E. by destruct (E x Hx).
Qed.

Lemma newGroupFromValue_stripped clock v manager delay : value_ok v ->
  stripped (newGroupFromValue clock v manager delay : G) = loaded_members v (gv_members v) ∅.
Proof.
  intros [Hnd Hv]. unfold newGroupFromValue. rewrite setupDelayedCheckHeartbeat_stripped.
  match goal with |- context [foldl _ ?x (gv_members v)] => destruct (add_loaded v (gv_members v) x) as (pt & ps & -> & _) end.
  { simpl. intros H. by rewrite H in Hv. }
  unfold stripped. simpl. apply map_eq. intros k. rewrite lookup_fmap, loaded_members_lookup by done.
  destruct (list_find _ _) as [[i x]|]; [done|]. by rewrite lookup_empty.
Qed.

Lemma stored_members_lookup asg g k : sound g ->
  let v := getGroupValue asg g in
  loaded_members v (gv_members v) ∅ !! k =
  (fun m => newMemberFromValue v (getMemberValue (default "" (protocolName g)) asg m)) <$> members g !! k.
Proof.
  intros Hs v. destruct (getGroupValue_ok asg g Hs) as [Hnd _]. fold v in Hnd.
  destruct (members g !! k) as [m|] eqn:E; simpl.
  - pose proof (loaded_members_in v (gv_members v) ∅ (getMemberValue (default "" (protocolName g)) asg m) Hnd) as H.
    simpl in H. rewrite (s_ids _ Hs k m E) in H. apply H. apply list_elem_of_fmap. exists m. split; [done|].
    apply list_elem_of_fmap. exists (k, m). split; [done|]. by apply elem_of_iter_list.
  - destruct (loaded_members v (gv_members v) ∅ !! k) as [lm|] eqn:F; [|done]. exfalso.
    assert (Hk : k ∈ mv_memberId <$> gv_members v) by (apply (loaded_members_elem v); [done|by eexists]).
    apply list_elem_of_fmap in Hk as (x & -> & Hx). apply list_elem_of_fmap in Hx as (m & -> & Hm).
    apply list_elem_of_fmap in Hm as ([k' m'] & -> & Hk'%elem_of_iter_list). simpl in E.
    rewrite (s_ids _ Hs k' m' Hk') in E. congruence.
Qed.
End proofs.
End KafkaGroupSafety.
