(* ===== verification/KafkaGroupRuns.v ===== *)
(** * What a consumer group guarantees
      (src/hstream-kafka/HStream/Kafka/Group/Group.hs)

    Theorems on every state a new group reaches: rebalances, assignments, fencing
    by the generation, and the cases in which the group does not recover. *)

From stdpp Require Import base gmap strings list sorting.
From Stdlib Require Import ZArith Lia.
From S2P Require Import Prelude GroupOffsets KafkaGroup KafkaGroupSafety.
Import GroupOffsets KafkaGroup KafkaGroupSafety.

Module KafkaGroupRuns.

Section runs.
Context {os : Type} {O : IterOrder string} {LE : ListExtra} {B64 : Base64}.
Context {OS : OffsetStorage os} {TT : TopicTree}.
Notation G := (Group os).
Implicit Type g : G.

(** A group is created new, or loaded from what the metastore has of it. *)
Inductive starts : G -> Prop :=
| starts_new name manager meta delay : starts (newGroup name manager meta delay)
| starts_loaded clock v manager delay : value_ok v -> starts (newGroupFromValue clock v manager delay).

(** The states a group reaches. *)
Definition live g : Prop := exists g0, starts g0 /\ reachable g0 g.

Lemma live_sound g : live g -> sound g.
Proof.
  intros (g0 & Hs & Hr). eapply reachable_sound; [|exact Hr].
  destruct Hs; [apply newGroup_sound|by apply newGroupFromValue_sound].
Qed.

Lemma live_step e g : live g -> allowed e g -> live (step e g).
Proof. intros (g0 & Hs & Hr) Ha. exists g0. split; [done|]. by constructor. Qed.

Lemma rebalance_thread_state g tid x : sound g -> rebalances g !! tid = Some x -> state g = PreparingRebalance.
Proof.
  intros Hs Ht. assert (Hd : delayedRebalance g = Some tid) by (apply s_rebalances; [done|by eexists]).
  pose proof (s_state _ Hs) as H. rewrite Hd in H. destruct (state g); intuition congruence.
Qed.

(** C10: In every state a new or a loaded group reaches: the leader is a member, and there is one
    exactly when there are members; a join waits only in PreparingRebalance and a
    sync only in CompletingRebalance, for a member, on an [MVar] that is empty; an
    Empty group has no members; a rebalance is pending exactly in
    PreparingRebalance; every member supports the group's protocols; and the
    pattern for the leader in [doSyncGroup] does not fail. *)
Theorem group_sound g : live g ->
  leader_ok (leader g) (members g) /\
  (forall k v, delayedJoinResponses g !! k = Some v ->
     state g = PreparingRebalance /\ is_Some (members g !! k) /\ joinAnswers g !! v = None) /\
  (forall k v, delayedSyncResponses g !! k = Some v ->
     state g = CompletingRebalance /\ is_Some (members g !! k) /\ syncAnswers g !! v = None) /\
  (state g = Empty -> members g = ∅) /\
  (is_Some (delayedRebalance g) <-> state g = PreparingRebalance) /\
  (forall k m, members g !! k = Some m -> supportedProtocols g ⊆ plainProtocols (m_supportedProtocols m)) /\
  (forall clock ok req, (syncGroup clock ok req g).2 <> inl PatternFail).
Proof.
  intros Hs%live_sound. pose proof (s_state _ Hs) as Hst. split_and!.
  - apply Hs.
  - intros k v Hk. split_and!; [|apply (s_joins _ Hs); by eexists|by eapply mvars_parked, Hk; apply Hs].
    destruct (state g) eqn:E; try done; exfalso.
    1,2: destruct Hst as [Hj _]; by rewrite Hj, lookup_empty in Hk.
    destruct (sound_empty g Hs E) as [Hj _]. by rewrite Hj, lookup_empty in Hk.
  - intros k v Hk. split_and!; [|apply (s_syncs _ Hs); by eexists|by eapply mvars_parked, Hk; apply Hs].
    destruct (state g) eqn:E; try done; exfalso.
    + destruct Hst as [Hj _]. by rewrite Hj, lookup_empty in Hk.
    + destruct Hst as (_ & Hj & _). by rewrite Hj, lookup_empty in Hk.
    + destruct (sound_empty g Hs E) as [_ Hj]. by rewrite Hj, lookup_empty in Hk.
  - intros E. rewrite E in Hst. tauto.
  - destruct (state g); split; try done; intros; try tauto; destruct Hst; try done;
      repeat match goal with H : _ /\ _ |- _ => destruct H end;
      match goal with H : is_Some _, H' : delayedRebalance g = None |- _ => rewrite H' in H; by destruct H end.
  - apply Hs.
  - intros clock ok req. apply (syncGroup_no_pattern_fail clock ok req g Hs).
Qed.

(** ** Rebalances *)

(** What the turn of the rebalance thread does to a group with a common protocol. *)
Record round g g' : Prop := {
  rd_generation : groupGenerationId g' = i32 (groupGenerationId g + 1);
  rd_thread : rebalances g' = ∅;
  rd_joins : delayedJoinResponses g' = ∅;
  rd_members : forall k, members g' !! k =
    match delayedJoinResponses g !! k with Some _ => members g !! k | None => None end;
  rd_empty : delayedJoinResponses g = ∅ -> state g' = Empty /\ leader g' = None /\ protocolName g' = None;
  rd_answers : delayedJoinResponses g <> ∅ -> state g' = CompletingRebalance /\
    exists l p, leader g' = Some l /\ is_Some (delayedJoinResponses g !! l) /\
      (forall l0, leader g = Some l0 -> is_Some (delayedJoinResponses g !! l0) -> l = l0) /\
      protocolName g' = Some p /\
      (protocolName g = Some p \/ protocolName g = None /\ p ∈ supportedProtocols g) /\
      forall k v, delayedJoinResponses g !! k = Some v ->
        joinAnswers g' !! v = Some
          {| jr_errorCode := 0; jr_generationId := groupGenerationId g'; jr_protocolName := p;
             jr_leader := l; jr_memberId := k;
             jr_members := if decide (l = k)
                           then getJoinResponseMember p <$> (iter_list (members g')).*2 else [] |};
}.

Lemma rebalance_turn g tid x ok : sound g -> rebalances g !! tid = Some x -> supportedProtocols g <> ∅ ->
  round g (step (ERebalance tid ok) g).
Proof.
  intros Hs Ht Hps. cbn [step]. rewrite Ht. pose proof (rebalance_thread_state g tid x Hs Ht) as Hst.
  assert (Hthreads : delete tid (rebalances g) = ∅).
  { apply map_empty. intros t. destruct (decide (tid = t)) as [<-|]; [apply lookup_delete_eq|].
    rewrite lookup_delete_ne by done. destruct (rebalances g !! t) eqn:E; [|done].
    pose proof (s_rebalances _ Hs tid (ex_intro _ _ Ht)). pose proof (s_rebalances _ Hs t (ex_intro _ _ E)). congruence. }
  destruct (rebalance_run ok g Hs) as (l & ms & rt & hs & Hl & Hm & Hk & ->).
  assert (Hj := fun k => gathered_joins ms g k Hs Hm). destruct l as [lid|].
  - destruct (doRelance_run lid (gathered (Some lid) ms rt hs g)) as [(e & _ & _ & E)|(p & a & Hp & Ha & ->)];
      simpl in *; [done|done|by eapply mvars_distinct, Hs| |done|].
    { intros k m H. rewrite Hm in H. destruct (delayedJoinResponses g !! k); [|done]. by eapply (s_protocols _ Hs). }
    split; simpl; try done.
    + intros E. exfalso. apply Hj in Hl. rewrite E in Hl. by apply empty_some in Hl.
    + intros _. split; [done|]. exists lid, p. split_and!; [done|by apply Hj| |done|done|].
      * intros l0 H1 H2. specialize (Hk l0 H1 H2). congruence.
      * intros k v H. destruct Ha as [_ Hnew _]. rewrite (Hnew k v H); [done|].
        by eapply mvars_parked, H; apply Hs.
  - assert (Hjo : delayedJoinResponses g = ∅) by (eapply no_keys; [intros k; apply Hj|done]).
    rewrite emptied_eq, storeGroup_run by done. destruct ok; split; simpl; done.
Qed.

(** C7: In a group with a common protocol, the turn of the rebalance thread starts the
    next generation with exactly the members that have a join waiting. With none the
    group becomes Empty. Otherwise every waiting join is answered with this
    generation, the same leader, which is one of them and the old leader if it joined
    again, and the same protocol; only the leader's answer has the members with
    their metadata. *)
Theorem rebalance_round g tid x ok : live g -> rebalances g !! tid = Some x -> supportedProtocols g <> ∅ ->
  round g (step (ERebalance tid ok) g).
Proof. intros Hs%live_sound. apply rebalance_turn, Hs. Qed.


(** A group keeps the protocol of its first generation: a member that joins later
    and does not support it is told to use it, and the leader gets no metadata for
    that member, although the group has a protocol that all members support. *)
Theorem protocol_kept g tid x ok p k v m : live g -> rebalances g !! tid = Some x ->
  supportedProtocols g <> ∅ -> protocolName g = Some p ->
  delayedJoinResponses g !! k = Some v -> members g !! k = Some m -> p ∉ (m_supportedProtocols m).*1 ->
  let g' := step (ERebalance tid ok) g in
  (exists r, joinAnswers g' !! v = Some r /\ jr_errorCode r = 0 /\ jr_protocolName r = p) /\
  (forall q, q ∈ supportedProtocols g -> q ∈ (m_supportedProtocols m).*1) /\
  exists l w r, leader g' = Some l /\ delayedJoinResponses g !! l = Some w /\
    joinAnswers g' !! w = Some r /\ (k, []) ∈ jr_members r.
Proof.
  intros Hs%live_sound Ht Hps Hp Hk Hm Hno. cbv zeta.
  assert (Hne : delayedJoinResponses g <> ∅) by (intros E; by rewrite E, lookup_empty in Hk).
  destruct (rebalance_turn g tid x ok Hs Ht Hps) as [_ _ _ Hmem _ Hans].
  destruct (Hans Hne) as (_ & l & p' & Hl & [w Hw] & _ & _ & Hp' & Ha).
  assert (p' = p) as -> by (destruct Hp' as [|[]]; congruence). split_and!.
  - eexists. split; [by apply Ha|done].
  - intros q Hq. pose proof (s_protocols _ Hs k m Hm q Hq) as H. by apply elem_of_list_to_set in H.
  - exists l, w. eexists. split_and!; [done|done|by apply Ha|]. simpl. rewrite decide_True by done.
    apply list_elem_of_fmap. exists m. split.
    + unfold getJoinResponseMember, getMemberMetadata. rewrite (s_ids _ Hs k m Hm).
      destruct (list_find _ _) as [[i [n d]]|] eqn:E; [|done]. apply list_find_Some in E as (Hi & Hn & _).
      simpl in Hn. subst n. exfalso. apply Hno, list_elem_of_fmap. exists (p, d). split; [done|].
      by eapply list_elem_of_lookup_2.
    + apply list_elem_of_fmap. exists (k, m). split; [done|]. apply elem_of_iter_list. by rewrite Hmem, Hk.
Qed.

(** ** Assignments *)

(** C17: When the leader of a group in CompletingRebalance syncs and the metastore takes
    the group: its request and every waiting sync are answered with exactly the
    assignment the leader gave for that member, or the empty one; the group is
    Stable; every member keeps its assignment, and a later sync of a member answers
    it; no sync waits any more. *)
Theorem leader_sync_delivers clock req m g : live g -> state g = CompletingRebalance ->
  leader g = Some (sq_memberId req) -> members g !! sq_memberId req = Some m ->
  delayedSyncResponses g !! sq_memberId req = None ->
  let asg := getAssignmentMap req in
  exists g', syncGroup clock true req g = (g', inr (next_mvar g)) /\
    state g' = Stable /\ delayedSyncResponses g' = ∅ /\
    syncAnswers g' !! next_mvar g = Some (sync_ok asg (sq_memberId req)) /\
    (forall k v, delayedSyncResponses g !! k = Some v -> syncAnswers g' !! v = Some (sync_ok asg k)) /\
    (forall clock' ok req' m', members g !! sq_memberId req' = Some m' ->
       exists g'' v, syncGroup clock' ok req' g' = (g'', inr v) /\
         syncAnswers g'' !! v = Some (sync_ok asg (sq_memberId req'))).
Proof.
  intros Hs%live_sound Hst Hl Hm Hp asg.
  destruct (leader_sync_run clock req m g Hs Hst Hl Hm Hp)
    as (g' & E & Est & _ & _ & _ & _ & _ & Ed & _ & Hms & [Ho Hn Hlast]). fold asg in Hms, Hn, Hlast.
  pose proof (syncGroup_sound clock true req g Hs) as Hs'. rewrite E in Hs'. simpl in Hs'.
  assert (Hfresh : syncAnswers g !! next_mvar g = None).
  { destruct (syncAnswers g !! next_mvar g) eqn:F; [|done].
    pose proof (mvars_answers _ _ _ (s_sync_vars _ Hs) _ (ex_intro _ _ F)). lia. }
  exists g'. split_and!; [done..| | |].
  - apply Hn; [by rewrite lookup_insert_eq|done].
  - intros k v Hk. destruct (mvars_parked _ _ _ (s_sync_vars _ Hs) k v Hk) as [Hv _]. apply Hn; [|done].
    rewrite lookup_insert_ne; [done|congruence].
  - intros clock' ok req' m' Hm'. specialize (Hms (sq_memberId req')). unfold stripped in Hms.
    rewrite !lookup_fmap, Hm' in Hms. destruct (members g' !! sq_memberId req') as [x|] eqn:Ex; [|done].
    apply (f_equal (fmap m_assignment)) in Hms. injection Hms as Hasg. unfold syncGroup. rewrite bind_run. cbv beta iota delta [newEmptyMVar].
    rewrite bind_run, getMember_run. change (members (set_next_mvar _ g')) with (members g'). rewrite Ex. run.
    change (state (set_next_mvar _ g')) with (state g'). rewrite Est. do 2 eexists. split; [done|].
    simpl. rewrite try_put_new.
    + unfold sync_ok. by rewrite Hasg.
    + destruct (syncAnswers g' !! next_mvar g') eqn:F; [|done].
      pose proof (mvars_answers _ _ _ (s_sync_vars _ Hs') _ (ex_intro _ _ F)). lia.
Qed.

(** What a loaded group [r] has of the group [g]. *)
Record restores g (r : G) : Prop := {
  rs_state : state r = state g;
  rs_generation : groupGenerationId r = groupGenerationId g;
  rs_leader : leader r = leader g;
  rs_protocol : protocolName r = protocolName g;
  rs_members : forall k, match members g !! k, members r !! k with
    | Some x, Some y =>
        m_assignment y = m_assignment x /\
        getMemberMetadata y (default "" (protocolName g)) = getMemberMetadata x (default "" (protocolName g)) /\
        m_sessionTimeoutMs y = m_sessionTimeoutMs x /\ m_rebalanceTimeoutMs y = m_rebalanceTimeoutMs x /\
        m_clientId y = m_clientId x /\ m_clientHost y = m_clientHost x
    | None, None => True
    | _, _ => False
    end;
}.

Lemma leader_sync_restores clock req m g : sound g -> state g = CompletingRebalance ->
  leader g = Some (sq_memberId req) -> members g !! sq_memberId req = Some m ->
  delayedSyncResponses g !! sq_memberId req = None ->
  exists g' v, syncGroup clock true req g = (g', inr (next_mvar g)) /\
    groupId g' = groupId g /\ metadataManager g' = metadataManager g /\
    metaStore g' = Some v /\ value_ok v /\ gv_groupId v = groupId g /\
    forall clock' manager delay, restores g' (newGroupFromValue clock' v manager delay).
Proof.
  intros Hs Hst Hl Hm Hp.
  destruct (leader_sync_run clock req m g Hs Hst Hl Hm Hp)
    as (g' & E & Est & Hgen & Hlead & Hid & Hman & Hpn & _ & Hmeta & Hms & _).
  set (asg := getAssignmentMap req) in *. pose proof (getGroupValue_ok asg g Hs) as Hv.
  exists g', (getGroupValue asg g). split_and!; try done. intros clock' manager delay.
  destruct (newGroupFromValue_eq clock' _ manager delay Hv) as (_ & _ & E1 & E2 & E3 & E4 & _).
  split; rewrite ?E1, ?E2, ?E3, ?E4, ?Hgen, ?Hlead, ?Hpn, ?Est; try done.
  - simpl. assert (Hin : (sq_memberId req, m) ∈ iter_list (members g)) by (by apply elem_of_iter_list).
    destruct (iter_list (members g)); [by apply elem_of_nil in Hin|done].
  - intros k. pose proof (newGroupFromValue_stripped clock' _ manager delay Hv) as Hr.
    pose proof (stored_members_lookup asg g k Hs) as Hk. cbv zeta in Hk. rewrite <- Hr in Hk.
    specialize (Hms k). unfold stripped in Hms, Hk.
    rewrite (lookup_fmap strip (members g)), lookup_fmap in Hms. rewrite lookup_fmap in Hk.
    destruct (members g !! k) as [y|] eqn:Ey, (members g' !! k) as [x|],
      (members (newGroupFromValue clock' (getGroupValue asg g) manager delay) !! k) as [z|]; try done.
    assert (Hx : strip x = set_assignment (default [] (asg !! k)) (strip y)) by (simpl in Hms; congruence).
    assert (Hz : strip z = newMemberFromValue (getGroupValue asg g)
      (getMemberValue (default "" (protocolName g)) asg y)) by (simpl in Hk; congruence).
    change (m_assignment (strip z) = m_assignment (strip x) /\
      getMemberMetadata (strip z) (default "" (protocolName g)) = getMemberMetadata (strip x) (default "" (protocolName g)) /\
      m_sessionTimeoutMs (strip z) = m_sessionTimeoutMs (strip x) /\
      m_rebalanceTimeoutMs (strip z) = m_rebalanceTimeoutMs (strip x) /\
      m_clientId (strip z) = m_clientId (strip x) /\ m_clientHost (strip z) = m_clientHost (strip x)).
    rewrite Hx, Hz. split_and!; try done; simpl.
    + by rewrite base64_roundtrip, (s_ids _ Hs k y Ey).
    + unfold getMemberMetadata at 1. simpl. by rewrite decide_True, base64_roundtrip by done.
Qed.

(** C18: What the leader's sync writes to the metastore restores the group: the group
    another server loads from it has the same state, generation, leader and protocol
    and the same members, with their assignments, their metadata for the protocol,
    their timeouts and their clients; and the theorems on [live] groups hold of it. *)
Theorem reload_restores clock clock' req m g manager delay : live g -> state g = CompletingRebalance ->
  leader g = Some (sq_memberId req) -> members g !! sq_memberId req = Some m ->
  delayedSyncResponses g !! sq_memberId req = None ->
  let g' := (syncGroup clock true req g).1 in
  exists v, metaStore g' = Some v /\
    let r := newGroupFromValue clock' v manager delay in live r /\ restores g' r.
Proof.
  intros Hs%live_sound Hst Hl Hm Hp. cbv zeta.
  destruct (leader_sync_restores clock req m g Hs Hst Hl Hm Hp) as (g' & v & -> & _ & _ & Hmeta & Hv & _ & Hr).
  exists v. split_and!; [done| |apply Hr]. exists (newGroupFromValue clock' v manager delay).
  split; [by constructor|constructor].
Qed.

(** ** Members that are gone *)

Lemma cancelDelayedSyncResponses_members g : members (cancelDelayedSyncResponses g) = members g.
Proof.
  unfold cancelDelayedSyncResponses. generalize (iter_list (delayedSyncResponses g)) as xs. intros xs. revert g.
  induction xs as [|x xs IH]; intros g; [done|]. cbn [foldl]. by rewrite IH.
Qed.

Lemma transitionTo_members s g : members (transitionTo s g) = members g.
Proof. unfold transitionTo. by case_decide. Qed.

Lemma prepareRebalance_members p ms g : members (prepareRebalance p ms g) = members g.
Proof.
  unfold prepareRebalance.
  assert (E : members (if decide (state g = CompletingRebalance) then cancelDelayedSyncResponses g else g) = members g)
    by (case_decide; [apply cancelDelayedSyncResponses_members|done]).
  unfold cancelDelayedSync. rewrite <- E.
  generalize (if decide (state g = CompletingRebalance) then cancelDelayedSyncResponses g else g) as h. intros h.
  destruct (delayedSync h); simpl; destruct (delayedRebalance h); by rewrite ?transitionTo_members.
Qed.

Lemma removeMemberAndUpdateGroup_members mid g :
  members (removeMemberAndUpdateGroup mid g).1 = delete mid (members g).
Proof.
  unfold removeMemberAndUpdateGroup. run.
  assert (E : members (removeMember mid (cancelDelayedJoinResponse mid g)) = delete mid (members g)).
  { rewrite removeMember_members. unfold cancelDelayedJoinResponse. by destruct (delayedJoinResponses g !! mid). }
  case_decide; [run; by destruct (delayedRebalance _)|]. case_decide; [|done]. simpl. by rewrite prepareRebalance_members.
Qed.

Lemma alter_member_dom f mid g k : is_Some (members (alter_member f mid g) !! k) <-> is_Some (members g !! k).
Proof.
  unfold alter_member. destruct (members g !! mid) as [m|] eqn:E; simpl; [|done].
  destruct (decide (mid = k)) as [<-|]; [|by rewrite lookup_insert_ne]. rewrite lookup_insert_eq, E. by split; eexists.
Qed.

Lemma alter_member_None f mid g k : members g !! k = None -> members (alter_member f mid g) !! k = None.
Proof. rewrite !eq_None_not_Some, alter_member_dom. done. Qed.

Lemma joinGroup_members reqCtx uuid req g k : k <> generateMemberId reqCtx uuid ->
  members g !! k = None -> members (joinGroup reqCtx uuid req g).1 !! k = None.
Proof.
  intros Hne Hk. unfold joinGroup. rewrite bind_run. cbv beta iota delta [newEmptyMVar]. rewrite bind_run.
  destruct (checkSupportedProtocols_spec req (set_next_mvar (S (next_mvar g)) g)) as (r & -> & Hr).
  destruct r as [e|[]]; [done|]. destruct Hr as (ps & Hps & _). run. case_decide; [done|]. run.
  case_decide.
  - pose proof (addMemberAndRebalance_eq reqCtx req (generateMemberId reqCtx uuid) ps g Hps) as E.
    destruct (addMemberAndRebalance _ _ _ _ _) as [g' [e|[]]]; simpl in E |- *; rewrite E;
      case_decide; rewrite ?prepareRebalance_members; simpl; by rewrite lookup_insert_ne.
  - unfold doCurrentMemeberJoinGroup. rewrite bind_run, getMember_run.
    change (members (set_next_mvar (S (next_mvar g)) g)) with (members g).
    destruct (members g !! jq_memberId req) as [m|] eqn:Em; [|done]. run.
    assert (Hupd : members (updateMemberAndRebalance (jq_memberId req) req (next_mvar g)
      (set_next_mvar (S (next_mvar g)) g)).1 !! k = None).
    { unfold updateMemberAndRebalance. rewrite Hps. run.
      assert (Hu : members (updateMember (jq_memberId req) req ps (next_mvar g)
        (set_next_mvar (S (next_mvar g)) g)) !! k = None).
      { by apply alter_member_None. }
      case_decide; simpl; by rewrite ?prepareRebalance_members. }
    destruct (state _); try done; by destruct (updateMemberAndRebalance _ _ _ _) as [? [e|[]]].
Qed.

(** A sync changes the members only when the leader brings the assignments. *)
Lemma syncGroup_cases clock ok req g :
  (ok = true /\ state g = CompletingRebalance /\ leader g = Some (sq_memberId req) /\
   is_Some (members g !! sq_memberId req) /\ delayedSyncResponses g !! sq_memberId req = None) \/
  members (syncGroup clock ok req g).1 = members g /\
  (groupId (syncGroup clock ok req g).1, metaStore (syncGroup clock ok req g).1) = (groupId g, metaStore g).
Proof.
  unfold syncGroup. rewrite bind_run. cbv beta iota delta [newEmptyMVar]. rewrite bind_run, getMember_run.
  change (members (set_next_mvar (S (next_mvar g)) g)) with (members g).
  destruct (members g !! sq_memberId req) as [m|] eqn:Em; [|by right]. run.
  change (state (set_next_mvar (S (next_mvar g)) g)) with (state g).
  destruct (state g) eqn:Est; try (by right). unfold doSyncGroup. run.
  change (delayedSyncResponses (set_next_mvar (S (next_mvar g)) g)) with (delayedSyncResponses g).
  destruct (delayedSyncResponses g !! sq_memberId req) eqn:Ep; [by right|]. run.
  change (leader (set_delayedSyncResponses _ _)) with (leader g). destruct (leader g) as [l|] eqn:El; [|by right].
  case_decide as Hl; [|by right]. rewrite bind_run, storeGroup_run. destruct ok; [|by right].
  left. by subst l.
Qed.

Lemma syncGroup_members clock ok req g k : sound g ->
  members g !! k = None -> members (syncGroup clock ok req g).1 !! k = None.
Proof.
  intros Hs Hk. destruct (syncGroup_cases clock ok req g) as [(-> & Est & El & [m Em] & Ep)|[-> _]]; [|done].
  destruct (leader_sync_run clock req m g Hs Est El Em Ep) as (g' & -> & _ & _ & _ & _ & _ & _ & _ & _ & Hms & _).
  specialize (Hms k). unfold stripped in Hms. rewrite (lookup_fmap strip (members g)), lookup_fmap, Hk in Hms.
  simpl. by destruct (members g' !! k).
Qed.

Lemma rebalance_members ok g k : sound g -> state g = PreparingRebalance ->
  members g !! k = None -> members (rebalance ok g).1 !! k = None.
Proof.
  intros Hs Hst Hk. destruct (rebalance_run ok g Hs) as (l & ms & rt & hs & Hl & Hm & _ & ->).
  assert (Hms : ms !! k = None) by (rewrite Hm; by destruct (delayedJoinResponses g !! k)).
  destruct l as [lid|].
  - destruct (doRelance_run lid (gathered (Some lid) ms rt hs g)) as [(e & -> & _)|(p & a & _ & _ & ->)];
      simpl; try done; [by eapply mvars_distinct, Hs|].
    intros k' m H. rewrite Hm in H. destruct (delayedJoinResponses g !! k'); [|done]. by eapply (s_protocols _ Hs).
  - rewrite emptied_eq, storeGroup_run by done. by destruct ok.
Qed.

Lemma step_gone e g k : sound g -> members g !! k = None ->
  (forall reqCtx uuid req, e = EJoin reqCtx uuid req -> k <> generateMemberId reqCtx uuid) ->
  members (step e g) !! k = None.
Proof.
  intros Hs Hk He. destruct e; cbn [step].
  - by apply joinGroup_members, Hk; eapply He.
  - by apply syncGroup_members.
  - unfold leaveGroup. rewrite bind_run, getMember_run. destruct (members g !! mid); [|done]. run.
    assert (members (removeMemberAndUpdateGroup mid g).1 !! k = None); [|by destruct (state g)].
    rewrite removeMemberAndUpdateGroup_members. by apply lookup_delete_None; right.
  - rewrite heartbeat_run. case_decide; [|done]. destruct (state g), (members g !! mid); try done.
    by apply alter_member_None.
  - destruct (commitOffsets_committed validateReqTopic ok now req g) as (o & mm & st & ms & rt & -> & Hl).
    simpl. specialize (Hl k). rewrite Hk in Hl. by destruct (ms !! k).
  - destruct (rebalances g !! tid) eqn:E; [|done]. apply rebalance_members; [done|by eapply rebalance_thread_state|done].
  - destruct (syncs g !! tid); [|done]. unfold delayed_sync_action.
    destruct (state g); try done. simpl. unfold removeNotYetSyncedMembers.
    destruct (remove_absent_spec delayedSyncResponses g) as [_ ->]; [apply removed_waiting; by right|].
    by destruct (delayedSyncResponses g !! k).
  - destruct (hearts g !! tid) as [mid|]; [|done]. unfold heart_turn.
    assert (H : members (checkHeartbeatAndMaybeRebalance now mid g).1 !! k = None).
    { unfold checkHeartbeatAndMaybeRebalance. run. destruct (member_of g mid); [|done]. run. case_decide; [|done]. run.
      pose proof (removeMemberAndUpdateGroup_members mid (alter_member (set_heartbeatThread None) mid g)) as E.
      assert (members (alter_member (set_heartbeatThread None) mid g) !! k = None)
        by (by apply alter_member_None).
      destruct (removeMemberAndUpdateGroup mid _) as [g' [e|[]]]; simpl in E |- *; rewrite E; apply lookup_delete_None; by right. }
    destruct (checkHeartbeatAndMaybeRebalance now mid g) as [g' [e|d]]; simpl in *; [done|by case_decide].
Qed.

(** The runs in which no new member is given the id [k]. *)
Inductive later (k : string) (g : G) : G -> Prop :=
| later_start : later k g g
| later_step g' e : later k g g' -> allowed e g' ->
    (forall reqCtx uuid req, e = EJoin reqCtx uuid req -> k <> generateMemberId reqCtx uuid) ->
    later k g (step e g').

Lemma later_gone k g g' : sound g -> members g !! k = None -> later k g g' -> sound g' /\ members g' !! k = None.
Proof.
  intros Hs Hk. induction 1 as [|g' e _ [Hs' Hk'] Ha He]; [done|]. split; [by apply step_sound|by apply step_gone].
Qed.

(** C20: A member that is no longer in the group, because it left, did not rejoin, did
    not sync or timed out, is fenced in every later state: its heartbeats, its
    commits with a generation, and its leave are refused and change nothing, and
    its syncs and joins are refused. *)
Theorem gone_is_fenced k g g' : live g -> members g !! k = None -> k <> "" -> later k g g' ->
  (forall now generationId, exists e, heartbeat now generationId k g' = (g', inl e)) /\
  (forall v ok now req, oc_memberId req = k -> 0 <= oc_generationId req ->
     exists e, commitOffsets v ok now req g' = (g', inl e)) /\
  leaveGroup k g' = (g', inl (ErrorCodeException UNKNOWN_MEMBER_ID)) /\
  (forall clock ok req, sq_memberId req = k ->
     (syncGroup clock ok req g').2 = inl (ErrorCodeException UNKNOWN_MEMBER_ID)) /\
  (forall reqCtx uuid req, jq_memberId req = k -> exists e, (joinGroup reqCtx uuid req g').2 = inl e).
Proof.
  intros Hs%live_sound Hk Hne Hlater. destruct (later_gone k g g' Hs Hk Hlater) as [Hs' Hk']. split_and!.
  - intros now gen. rewrite heartbeat_run, Hk'. case_decide; [|by eexists]. destruct (state g'); by eexists.
  - intros v ok now req <- Hgen. unfold commitOffsets. rewrite bind_run, validateOffsetcommit_run, Hk'.
    rewrite (proj2 (Z.ltb_ge _ _) Hgen). case_decide; by eexists.
  - unfold leaveGroup. by rewrite bind_run, getMember_run, Hk'.
  - intros clock ok req <-. unfold syncGroup. rewrite bind_run. cbv beta iota delta [newEmptyMVar].
    rewrite bind_run, getMember_run. change (members (set_next_mvar _ g')) with (members g'). by rewrite Hk'.
  - intros reqCtx uuid req <-. unfold joinGroup. rewrite bind_run. cbv beta iota delta [newEmptyMVar]. rewrite bind_run.
    destruct (checkSupportedProtocols_spec req (set_next_mvar (S (next_mvar g')) g')) as ([e|[]] & -> & _); [by eexists|].
    run. case_decide; [by eexists|]. run. rewrite decide_False by done. unfold doCurrentMemeberJoinGroup.
    rewrite bind_run, getMember_run. change (members (set_next_mvar _ g')) with (members g'). rewrite Hk'. by eexists.
Qed.

(** ** Groups that do not recover *)

(** A group whose rebalance thread died for want of a common protocol; [v] is the
    [MVar] of a join. *)
Record stuck (v : nat) g : Prop := {
  st_state : state g = PreparingRebalance;
  st_protocols : supportedProtocols g = ∅;
  st_thread : rebalances g = ∅;
  st_var : (v < next_mvar g)%nat;
  st_answer : forall r, joinAnswers g !! v = Some r -> jr_errorCode r = UNKNOWN_MEMBER_ID;
}.

Lemma stuck_frame v g g' : stuck v g -> state g' = state g -> supportedProtocols g' = supportedProtocols g ->
  rebalances g' = rebalances g -> (next_mvar g <= next_mvar g')%nat -> joinAnswers g' = joinAnswers g -> stuck v g'.
Proof. intros [] E1 E2 E3 E4 E5. split; rewrite ?E1, ?E2, ?E3, ?E5; try done. lia. Qed.

Lemma stuck_join v reqCtx uuid req g : stuck v g ->
  joinGroup reqCtx uuid req g =
  (set_next_mvar (S (next_mvar g)) g, inl (ErrorCodeException INCONSISTENT_GROUP_PROTOCOL)).
Proof.
  intros []. unfold joinGroup. rewrite bind_run. cbv beta iota delta [newEmptyMVar]. rewrite bind_run.
  destruct (checkSupportedProtocols_spec req (set_next_mvar (S (next_mvar g)) g)) as ([e|[]] & -> & Hr); [by rewrite Hr|].
  destruct Hr as (ps & _ & [H|H]); simpl in H; [congruence|]. rewrite st_protocols0 in H. set_solver.
Qed.

Lemma stuck_remove v mid g : sound g -> stuck v g -> stuck v (removeMemberAndUpdateGroup mid g).1.
Proof.
  intros Hs Hst. unfold removeMemberAndUpdateGroup. run.
  assert (H : stuck v (removeMember mid (cancelDelayedJoinResponse mid g))).
  { destruct (removeMember_removed mid (cancelDelayedJoinResponse mid g)) as (l & ms & rt & hs & ->).
    unfold cancelDelayedJoinResponse. destruct (delayedJoinResponses g !! mid) as [w|]; [|by apply (stuck_frame v g)].
    destruct Hst. split; try done. simpl. intros r [Hr|[_ ->]]%try_put_inv; [by apply st_answer0|done]. }
  rewrite (st_state _ _ H), decide_True by done. run. by destruct (delayedRebalance _).
Qed.

Lemma alter_member_stuck v f mid g : keeps f -> stuck v g -> stuck v (alter_member f mid g).
Proof. intros Hf Hst. destruct (alter_member_eq f mid g Hf) as (ms & rt & -> & _). by apply (stuck_frame v g). Qed.

Lemma stuck_step v e g : sound g -> stuck v g -> stuck v (step e g).
Proof.
  intros Hs Hst. pose proof (st_state _ _ Hst) as Est. destruct e; cbn [step].
  - rewrite (stuck_join v) by done. apply (stuck_frame v g); simpl; try done; lia.
  - unfold syncGroup. rewrite bind_run. cbv beta iota delta [newEmptyMVar]. rewrite bind_run, getMember_run.
    change (members (set_next_mvar (S (next_mvar g)) g)) with (members g).
    assert (H : stuck v (set_next_mvar (S (next_mvar g)) g)) by (apply (stuck_frame v g); simpl; try done; lia).
    destruct (members g !! sq_memberId req); [|done]. run.
    change (state (set_next_mvar (S (next_mvar g)) g)) with (state g). by rewrite Est.
  - unfold leaveGroup. rewrite bind_run, getMember_run. destruct (members g !! mid); [|done]. run. rewrite Est.
    by apply stuck_remove.
  - rewrite heartbeat_run, Est. by case_decide.
  - destruct (commitOffsets_committed validateReqTopic ok now req g) as (o & mm & st & ms & rt & -> & _).
    by apply (stuck_frame v g).
  - by rewrite (st_thread _ _ Hst), lookup_empty.
  - destruct (syncs g !! tid) as [x|] eqn:E; [|done].
    assert (Hd : delayedSync g = Some tid) by (apply (s_sync_thread _ Hs); by eexists).
    pose proof (s_state _ Hs) as H. rewrite Est in H. destruct H as (_ & _ & H). congruence.
  - destruct (hearts g !! tid) as [mid|]; [|done]. unfold heart_turn.
    assert (H : stuck v (checkHeartbeatAndMaybeRebalance now mid g).1).
    { unfold checkHeartbeatAndMaybeRebalance. run. destruct (member_of g mid); [|done]. run. case_decide; [|done]. run.
      pose proof (stuck_remove v mid (alter_member (set_heartbeatThread None) mid g)) as Hr.
      destruct (alter_member_eq (set_heartbeatThread None) mid g) as (ms & rt & E & Hl); [done|].
      assert (Hs' : sound (alter_member (set_heartbeatThread None) mid g)) by (rewrite E; by apply (sound_frame g)).
      assert (Hst' : stuck v (alter_member (set_heartbeatThread None) mid g)) by (by apply alter_member_stuck).
      specialize (Hr Hs' Hst'). by destruct (removeMemberAndUpdateGroup mid _) as [g' [e|[]]]. }
    destruct (checkHeartbeatAndMaybeRebalance now mid g) as [g' [e|d]]; simpl in H;
      [|case_decide; [done|]]; by apply (stuck_frame v g').
Qed.


Lemma remove_absent_hearts waiting g : hearts g = ∅ -> hearts (remove_absent waiting g) = ∅.
Proof.
  unfold remove_absent. generalize (iter_list (members g)) as xs. intros xs. revert g.
  induction xs as [|[y m] xs IH]; intros g H; [done|]. simpl. apply IH. destruct (waiting g !! y); [done|].
  unfold removeMember. destruct (member_of g y ≫= m_heartbeatThread) as [tid|]; simpl; rewrite ?H;
    destruct (members g !! y); simpl; case_decide; simpl; by rewrite ?delete_empty.
Qed.

Lemma repeated_sync clock ok req m v g : state g = CompletingRebalance ->
  members g !! sq_memberId req = Some m -> delayedSyncResponses g !! sq_memberId req = Some v ->
  (syncGroup clock ok req g).2 = inl (ErrorCodeException UNKNOWN_SERVER_ERROR).
Proof.
  intros Hst Hm Hv. unfold syncGroup. rewrite bind_run. cbv beta iota delta [newEmptyMVar].
  rewrite bind_run, getMember_run. change (members (set_next_mvar _ g)) with (members g). rewrite Hm. run.
  change (state (set_next_mvar _ g)) with (state g). rewrite Hst. unfold doSyncGroup. run.
  change (delayedSyncResponses (set_next_mvar _ g)) with (delayedSyncResponses g). by rewrite Hv.
Qed.

(** C36: When the leader of a new group's first generation does not sync in time, the
    thread that waits for it removes it but starts no rebalance: the syncs of the
    other members still wait, no thread is left to answer them, and a member that
    repeats its sync gets UNKNOWN_SERVER_ERROR. *)
Theorem sync_timeout_strands g tid x k v : live g -> hearts g = ∅ -> syncs g !! tid = Some x ->
  delayedSyncResponses g !! k = Some v ->
  let g' := step (ESyncTurn tid) g in
  state g' = CompletingRebalance /\ delayedSyncResponses g' !! k = Some v /\ syncAnswers g' !! v = None /\
  rebalances g' = ∅ /\ syncs g' = ∅ /\ hearts g' = ∅ /\
  (forall i, is_Some (members g' !! i) <-> is_Some (delayedSyncResponses g !! i)) /\
  (forall clock ok req, sq_memberId req = k ->
     (syncGroup clock ok req g').2 = inl (ErrorCodeException UNKNOWN_SERVER_ERROR)).
Proof.
  intros Hs%live_sound Hh Ht Hk. cbv zeta.
  assert (Hs' : sound (step (ESyncTurn tid) g)) by (by apply step_sound).
  pose proof (proj1 (s_sync_thread _ Hs tid) (ex_intro _ _ Ht)) as Hd.
  assert (Hst : state g = CompletingRebalance).
  { pose proof (s_state _ Hs) as H. rewrite Hd in H. destruct (state g); intuition congruence. }
  cbn [step] in *. rewrite Ht in *. unfold delayed_sync_action in *. rewrite Hst in *.
  pose proof (remove_absent_hearts delayedSyncResponses g Hh) as Hh'. unfold removeNotYetSyncedMembers in *.
  destruct (remove_absent_spec delayedSyncResponses g) as [(l & ms & rt & hs & E) Hm]; [apply removed_waiting; by right|].
  rewrite E in *. simpl in *. subst hs.
  assert (Hmem : forall i, is_Some (ms !! i) <-> is_Some (delayedSyncResponses g !! i)).
  { intros i. rewrite Hm. split; [destruct (delayedSyncResponses g !! i); [by eexists|by intros []]|].
    intros H. destruct (s_syncs _ Hs i H) as [m Hi]. destruct H as [w ->]. by eexists. }
  assert (Hr : rebalances g = ∅).
  { apply no_threads; [done|]. pose proof (s_state _ Hs) as H. rewrite Hst in H. tauto. }
  split_and!; try done.
  - by eapply mvars_parked, Hk; apply Hs.
  - apply map_empty. intros t. pose proof (s_sync_thread _ Hs' t) as H. simpl in H.
    destruct (delete tid (syncs g) !! t); [|done]. assert (None = Some t) as [=]. apply H. by eexists.
  - intros clock ok req <-. destruct (proj2 (Hmem _) (ex_intro _ _ Hk)) as [m Em]. by eapply repeated_sync.
Qed.

(** The thread that checks the heartbeats of a member is not stopped when the next
    generation starts another one. When such an old thread finds its member timed
    out after the member has left, a Stable group, whose members are all alive and
    stay as they are, starts a rebalance. *)
Theorem stale_check_rebalances g tid mid m now : live g -> state g = Stable ->
  hearts g !! tid = Some mid -> members g !! mid = None -> retired g !! mid = Some m ->
  i32 (m_sessionTimeoutMs m - i32 (i64 (now - m_lastHeartbeat m))) <= 0 ->
  let g' := step (ECheckHeart tid now) g in
  state g' = PreparingRebalance /\ members g' = members g /\ is_Some (delayedRebalance g') /\
  forall now' k, (heartbeat now' (groupGenerationId g') k g').2 = inl (ErrorCodeException REBALANCE_IN_PROGRESS).
Proof.
  intros Hs%live_sound Hst Ht Hmid Hret Hdelay. cbv zeta. cbn [step]. rewrite Ht. unfold heart_turn.
  set (g1 := set_retired (alter (set_heartbeatThread None) mid (retired g)) g).
  assert (E1 : alter_member (set_heartbeatThread None) mid g = g1) by (unfold alter_member; by rewrite Hmid).
  assert (Hj : delayedJoinResponses g = ∅) by (pose proof (s_state _ Hs) as H; rewrite Hst in H; tauto).
  assert (Hs1 : sound g1) by (apply (sound_frame g); done || apply members_like_refl).
  pose proof (removeMemberAndUpdateGroup_members mid g1) as Hmem. simpl in Hmem. rewrite delete_id in Hmem by exact Hmid.
  pose proof (removeMemberAndUpdateGroup_sound mid g1 Hs1) as Hs2.
  assert (Hrun : state (removeMemberAndUpdateGroup mid g1).1 = PreparingRebalance /\
    exists r, (removeMemberAndUpdateGroup mid g1).2 = inr r).
  { unfold removeMemberAndUpdateGroup. run.
    assert (Ec : cancelDelayedJoinResponse mid g1 = g1)
      by (unfold cancelDelayedJoinResponse; simpl; by rewrite Hj, lookup_empty).
    rewrite Ec. destruct (removeMember_removed mid g1) as (l & ms & rt & hs & Er).
    pose proof (removeMember_members mid g1) as Hm. pose proof (removeMember_leader mid g1 (s_leader _ Hs1)) as Hl.
    rewrite Er in *. simpl in Hm, Hl. rewrite delete_id in Hm by exact Hmid. subst ms.
    change (state (set_leader _ _)) with (state g). rewrite Hst, decide_False by done.
    rewrite decide_True by (right; left). simpl. split; [|by eexists]. pose proof (s_state _ Hs) as Hstate. rewrite Hst in Hstate.
    match goal with |- state (prepareRebalance ?p ?t ?h) = _ => destruct (prepareRebalance_eq p t h) as (a & -> & _) end; [|done].
    split; simpl; try apply Hs; try tauto.
    - apply Hl; [by rewrite Hj, lookup_empty|]. rewrite Hj. intros k H. by apply empty_some in H.
    - rewrite Hst. right. left.
    - apply no_threads; tauto. }
  unfold checkHeartbeatAndMaybeRebalance. run. unfold member_of. rewrite Hmid, Hret. run.
  rewrite decide_True by done. run. rewrite E1. destruct (removeMemberAndUpdateGroup mid g1) as [g2 r].
  simpl in *. destruct Hrun as [Hprep [[] ->]]. cbv beta iota. rewrite decide_False by lia. simpl.
  rewrite Hprep. split_and!; try done.
  - pose proof (s_state _ Hs2) as H. rewrite Hprep in H. tauto.
  - intros now' k. rewrite heartbeat_run. simpl. by rewrite decide_True, Hprep by done.
Qed.
End runs.
End KafkaGroupRuns.

Module KafkaGroupRunsWitness.
Import CheckpointStore.CheckpointStoreWitness GroupOffsetsWitness KafkaGroupRuns.

(** [maximumOn], the last of the greatest. *)
Definition max_on {A} (f : A -> nat) (l : list A) : option A :=
  foldl (fun acc x => match acc with
                      | None => Some x
                      | Some y => if Nat.leb (f y) (f x) then Some x else Some y
                      end) None l.

Lemma max_on_spec {A} (f : A -> nat) (l : list A) :
  match max_on f l with
  | Some x => x ∈ l /\ forall y, y ∈ l -> (f y <= f x)%nat
  | None => l = []
  end.
Proof.
  unfold max_on. induction l as [|a l IH] using rev_ind; [done|]. rewrite foldl_app. simpl.
  destruct (foldl _ None l) as [x|].
  - destruct IH as [Hx Hm]. destruct (Nat.leb_spec (f x) (f a)); (split; [apply elem_of_app|intros y Hy;
      apply elem_of_app in Hy as [Hy| ->%list_elem_of_singleton]; try specialize (Hm y Hy); lia]).
    + right. by apply list_elem_of_singleton.
    + by left.
  - subst l. split; [left|]. by intros y ->%list_elem_of_singleton.
Qed.

#[refine] Instance list_extra : ListExtra := {| maximumOn := @max_on |}.
Proof.
  - intros A f l x E. pose proof (max_on_spec f l) as H. by rewrite E in H.
  - intros A f l Hl. pose proof (max_on_spec f l) as H. by destruct (max_on f l); [eexists|].
Defined.

(** Some encoding of lists of numbers as text. *)
Fixpoint pos_text (p : positive) : string :=
  match p with
  | xH => ""
  | xO p => String Ascii.zero (pos_text p)
  | xI p => String Ascii.one (pos_text p)
  end.
Fixpoint text_pos (s : string) : positive :=
  match s with
  | EmptyString => xH
  | String c s => if decide (c = Ascii.zero) then xO (text_pos s) else xI (text_pos s)
  end.

#[refine] Instance text_base64 : Base64 :=
  {| encodeBase64 b := pos_text (encode b); decodeBase64 s := default [] (decode (text_pos s)) |}.
Proof.
  intros b. assert (E : forall p, text_pos (pos_text p) = p) by (induction p as [p IH|p IH|]; simpl; congruence).
  by rewrite E, decode_encode.
Defined.

Notation G := (Group MemStore).

Definition start : G := newGroup "g" (mkGroupOffsetManager ∅ "g") None 3000.

Definition join (uuid mid : string) (ps : list string) : event :=
  EJoin {| rc_clientId := Some "c"; rc_clientHost := "h" |} uuid
    {| jq_sessionTimeoutMs := 10; jq_rebalanceTimeoutMs := 60; jq_memberId := mid;
       jq_protocolType := "consumer"; jq_protocols := Some ((fun p => (p, [7])) <$> ps) |}.

Definition sync_req (mid : string) (asg : list (string * ByteString)) : SyncGroupRequest :=
  {| sq_memberId := mid; sq_assignments := Some asg |}.
Definition clock0 (mid : string) : Z := 0.
Definition sync (mid : string) (asg : list (string * ByteString)) : event := ESync clock0 true (sync_req mid asg).

Definition run_events (es : list event) : G := foldl (fun g e => step e g) start es.

Fixpoint all_allowed (es : list event) (g : G) : bool :=
  match es with
  | [] => true
  | e :: es =>
      match e with
      | EJoin reqCtx uuid _ =>
          bool_decide (members g !! generateMemberId reqCtx uuid = None) &&
          bool_decide (retired g !! generateMemberId reqCtx uuid = None)
      | _ => true
      end && all_allowed es (step e g)
  end.

Lemma run_live es : all_allowed es start = true -> live (run_events es).
Proof.
  intros H. exists start. split; [constructor|]. unfold run_events.
  assert (Hgen : forall g, reachable start g -> all_allowed es g = true ->
    reachable start (foldl (fun g e => step e g) g es)); [|apply Hgen; [constructor|done]].
  clear H. induction es as [|e es IH]; intros g Hr H; [done|]. cbn [all_allowed] in H.
  apply andb_prop in H as [Ha H]. cbn [foldl]. apply IH; [|done]. constructor; [done|].
  destruct e; try done. apply andb_prop in Ha as [H1 H2]. split; [by apply bool_decide_eq_true in H1|by apply bool_decide_eq_true in H2].
Qed.

(** Two members join; they rebalance and get their assignments. *)
Definition two_joined : list event := [join "1" "" ["range"; "rr"]; join "2" "" ["range"; "rr"]].
Definition two_waiting : list event := two_joined ++ [ERebalance 0 true; sync "c-2" []].
Definition two_stable : list event := two_waiting ++ [sync "c-1" [("c-1", [1]); ("c-2", [2])]].

Lemma group_sound_witness : leader_ok (leader (run_events two_waiting)) (members (run_events two_waiting)).
Proof.
  destruct (group_sound (run_events two_waiting)) as (H & _); [apply run_live; by vm_compute|exact H].
Defined.

Lemma rebalance_round_witness :
  round (run_events two_joined) (step (ERebalance 0 true) (run_events two_joined)).
Proof.
  apply (rebalance_round (run_events two_joined) 0 (false, 3000) true); [apply run_live| |]; by vm_compute.
Defined.


(** A third member joins that does not know the protocol in use. *)
Definition third : list event :=
  two_stable ++ [join "3" "" ["rr"]; join "x1" "c-1" ["range"; "rr"]; join "x2" "c-2" ["range"; "rr"]].

Lemma protocol_kept_witness :
  exists r, joinAnswers (step (ERebalance 4 true) (run_events third)) !! 4%nat = Some r /\
    jr_errorCode r = 0 /\ jr_protocolName r = "range".
Proof.
  destruct (protocol_kept (run_events third) 4 (true, 60) true "range" "c-3" 4
    (newMemberFromReq {| rc_clientId := Some "c"; rc_clientHost := "h" |}
      {| jq_sessionTimeoutMs := 10; jq_rebalanceTimeoutMs := 60; jq_memberId := "";
         jq_protocolType := "consumer"; jq_protocols := None |} "c-3" [("rr", [7])])) as (H & _);
    [apply run_live; by vm_compute|by vm_compute|by vm_compute|by vm_compute|by vm_compute|by vm_compute| |exact H].
  intros H. apply list_elem_of_singleton in H. discriminate.
Defined.

Definition leader_req : SyncGroupRequest := sync_req "c-1" [("c-1", [1]); ("c-2", [2])].

(** The leader as it waits for the assignments. *)
Definition leader_member : Member :=
  {| m_memberId := "c-1"; m_rebalanceTimeoutMs := 60; m_sessionTimeoutMs := 10; m_assignment := [];
     m_lastHeartbeat := 0; m_heartbeatThread := None; m_protocolType := "consumer";
     m_supportedProtocols := [("range", [7]); ("rr", [7])]; m_clientId := "c"; m_clientHost := "h" |}.

Lemma leader_sync_delivers_witness :
  exists g', syncGroup clock0 true leader_req (run_events two_waiting) =
      (g', inr (next_mvar (run_events two_waiting))) /\
    syncAnswers g' !! 2%nat = Some {| sr_errorCode := 0; sr_assignment := [2] |}.
Proof.
  destruct (leader_sync_delivers clock0 leader_req leader_member (run_events two_waiting))
    as (g' & E & _ & _ & _ & H & _);
    [apply run_live; by vm_compute|by vm_compute|by vm_compute|by vm_compute|by vm_compute|].
  exists g'. split; [exact E|]. apply (H "c-2" 2%nat). by vm_compute.
Defined.

Lemma reload_restores_witness :
  exists v, metaStore (syncGroup clock0 true leader_req (run_events two_waiting)).1 = Some v /\
    groupGenerationId (newGroupFromValue clock0 v (mkGroupOffsetManager (∅ : MemStore) "g") 3000) =
    groupGenerationId (syncGroup clock0 true leader_req (run_events two_waiting)).1.
Proof.
  destruct (reload_restores clock0 clock0 leader_req leader_member (run_events two_waiting)
    (mkGroupOffsetManager ∅ "g") 3000) as (v & E & _ & H);
    [apply run_live; by vm_compute|by vm_compute|by vm_compute|by vm_compute|by vm_compute|].
  exists v. split; [exact E|apply H].
Defined.

(** The second member leaves. *)
Definition one_left : list event := two_stable ++ [ELeave "c-2"].

Lemma gone_is_fenced_witness : exists e,
  heartbeat 5 2 "c-2" (step (ERebalance 4 true) (run_events one_left)) =
  (step (ERebalance 4 true) (run_events one_left), inl e).
Proof.
  destruct (gone_is_fenced "c-2" (run_events one_left) (step (ERebalance 4 true) (run_events one_left)))
    as (H & _); [apply run_live; by vm_compute|by vm_compute|done| |apply H].
  apply (later_step "c-2" _ (run_events one_left) (ERebalance 4 true)); [constructor|done|discriminate].
Defined.

(** All members leave, and one with another protocol joins. *)
Definition disjoint : list event :=
  one_left ++ [ELeave "c-1"; ERebalance 4 true; join "3" "" ["sticky"]].


Lemma sync_timeout_strands_witness :
  delayedSyncResponses (step (ESyncTurn 1) (run_events two_waiting)) !! "c-2" = Some 2%nat.
Proof.
  destruct (sync_timeout_strands (run_events two_waiting) 1 (1, ["c-1"; "c-2"], 60) "c-2" 2) as (_ & H & _);
    [apply run_live; by vm_compute|by vm_compute|by vm_compute|by vm_compute|exact H].
Defined.

(** Two generations, of which the second member leaves a thread behind. *)
Definition rejoined : list event :=
  two_stable ++ [join "x1" "c-1" ["range"; "rr"]; join "x2" "c-2" ["range"; "rr"]; ERebalance 4 true;
    sync "c-1" []; ELeave "c-2"; join "x3" "c-1" ["range"; "rr"]; ERebalance 8 true; sync "c-1" []].

(** The member as it left. *)
Definition left_member : Member :=
  {| m_memberId := "c-2"; m_rebalanceTimeoutMs := 60; m_sessionTimeoutMs := 10; m_assignment := [];
     m_lastHeartbeat := 0; m_heartbeatThread := Some 7%nat; m_protocolType := "consumer";
     m_supportedProtocols := [("range", [7]); ("rr", [7])]; m_clientId := "c"; m_clientHost := "h" |}.

Lemma stale_check_rebalances_witness :
  state (step (ECheckHeart 3 50) (run_events rejoined)) = PreparingRebalance.
Proof.
  destruct (stale_check_rebalances (run_events rejoined) 3 "c-2" left_member 50) as (H & _);
    [apply run_live; by vm_compute|by vm_compute|by vm_compute|by vm_compute|by vm_compute|by vm_compute|exact H].
Defined.
End KafkaGroupRunsWitness.
