(* ===== verification/KafkaCoordinator.v ===== *)
(** * The group coordinator and its handlers
      (src/hstream-kafka/HStream/Kafka/Group/GroupCoordinator.hs and
      Server/Handler/Group.hs and Offset.hs)

    A server keeps the groups it coordinates in a table. The handlers check the
    access rights, find the group, run the operation of KafkaGroup.v and turn an
    [ErrorCodeException] into a response. Groups move between servers through the
    metastore and the checkpoint stores, which all servers share. *)

From stdpp Require Import base gmap strings list sorting.
From Stdlib Require Import ZArith Lia.
From S2P Require Import Prelude GroupOffsets KafkaGroup KafkaGroupSafety KafkaGroupRuns.
Import GroupOffsets KafkaGroup KafkaGroupSafety KafkaGroupRuns.

Module KafkaCoordinator.

(** ** Access rights *)

Inductive ResourceType := Res_GROUP | Res_TOPIC.
Inductive AclOperation := AclOp_READ | AclOp_DESCRIBE.
Notation Authorizer := (ResourceType -> string -> AclOperation -> bool).

(** The answer of a handler: a response, or an [MVar] its thread waits for. *)
Inductive reply (A : Type) := Respond (a : A) | WaitFor (mvar : nat).
Arguments Respond {A} a.
Arguments WaitFor {A} mvar.

Record OffsetFetchResponse := {
  of_errorCode : Z;
  of_topics : option (list (string * option (list (Z * Z * Z))));
}.

Section coordinator.
Context {os : Type} {O : IterOrder string} {LE : ListExtra} {B64 : Base64}.
Context {OS : OffsetStorage os} {TT : TopicTree}.
Notation G := (Group os).

(** A server's groups, and what the servers share: the metastore's groups and the
    checkpoint stores by group name. [fresh] is a store that was just allocated. *)
Record Server := {
  groups : gmap string G;
  groupConfig : Z;
  meta : gmap string GroupMetadataValue;
  stores : gmap string os;
}.
Context (fresh : os).
Implicit Type s : Server.

Definition set_groups (gs : gmap string G) s : Server := Build_Server gs (groupConfig s) (meta s) (stores s).

(** The manager of a group, on its checkpoint store. *)
Definition open_manager (gid : string) s : GroupOffsetManager os :=
  mkGroupOffsetManager (default fresh (stores s !! gid)) gid.

(** An operation of a group sees what the metastore and the store of the group have
    now, and leaves there what it wrote. *)
Definition attach (gid : string) s (g : G) : G :=
  set_metaStore (meta s !! gid)
    (set_metadataManager (set_storage (default fresh (stores s !! gid)) (metadataManager g)) g).
Definition detach (gid : string) s (g : G) : Server :=
  {| groups := groups s; groupConfig := groupConfig s;
     meta := partial_alter (fun _ => metaStore g) gid (meta s);
     stores := <[gid := offsetStorage (metadataManager g)]> (stores s) |}.

Definition with_group {A} (gid : string) (g : G) (m : IO G A) : IO Server A := fun s =>
  let '(g, r) := m (attach gid s g) in
  let s := detach gid s g in (set_groups (<[gid := g]> (groups s)) s, r).

(** ** GroupCoordinator.hs *)

Definition getOrMaybeCreateGroup (gid mid : string) : IO Server G := fun s =>
  match groups s !! gid with
  | None =>
      if decide (mid = "") then
        let ng := newGroup gid (open_manager gid s) (meta s !! gid) (groupConfig s) in
        (detach gid (set_groups (<[gid := ng]> (groups s)) s) ng, inr ng)
      else (s, inl (ErrorCodeException UNKNOWN_MEMBER_ID))
  | Some g => (s, inr g)
  end.

Definition getGroup (gid : string) : IO Server G := fun s =>
  match groups s !! gid with
  | None => (s, inl (ErrorCodeException GROUP_ID_NOT_FOUND))
  | Some g => (s, inr g)
  end.

Definition getAllGroups s : list G := (iter_list (groups s)).*2.
Definition getGroups s (ids : list string) : list (string * option G) := (fun gid => (gid, groups s !! gid)) <$> ids.
Definition getGroupM s (gid : string) : option G := groups s !! gid.

Definition addGroupByValue (clock : string -> Z) (value : GroupMetadataValue) (manager : GroupOffsetManager os)
    s : Server :=
  match groups s !! gv_groupId value with
  | None => set_groups (<[gv_groupId value := newGroupFromValue clock value manager (groupConfig s)]> (groups s)) s
  | Some _ => s
  end.

Definition loadGroupAndOffsets (clock : string -> Z) (gid : string) : IO Server unit := fun s =>
  match loadOffsetsFromStorage (open_manager gid s) with
  | (_, inl e) => (s, inl e)
  | (manager, inr _) =>
      match meta s !! gid with
      | None => (s, inr tt)
      | Some value => (addGroupByValue clock value manager s, inr tt)
      end
  end.

(** The group leaves the table; its threads still hold it. *)
Definition unloadGroup (gid : string) s : Server := set_groups (delete gid (groups s)) s.

(** ** Handler/Group.hs *)

(** [E.handle] of the handlers: other exceptions go on. *)
Definition handle_code {A} (makeErrorResponse : Z -> A) (m : IO Server (reply A)) : IO Server (reply A) := fun s =>
  match m s with
  | (s, inl (ErrorCodeException code)) => (s, inr (Respond (makeErrorResponse code)))
  | r => r
  end.

Section handlers.
Context (authorize : Authorizer).

Definition join_error (req : JoinGroupRequest) (code : Z) : JoinGroupResponse :=
  makeJoinResponseError (jq_memberId req) code.

Definition handleJoinGroup (gid : string) (reqCtx : RequestContext) (uuid : string) (req : JoinGroupRequest)
    : IO Server (reply JoinGroupResponse) :=
  handle_code (join_error req)
    (if authorize Res_GROUP gid AclOp_READ then
       group ← getOrMaybeCreateGroup gid (jq_memberId req);
       v ← with_group gid group (joinGroup reqCtx uuid req);
       mret (WaitFor v)
     else mret (Respond (join_error req GROUP_AUTHORIZATION_FAILED))).

Definition sync_error (code : Z) : SyncGroupResponse := {| sr_errorCode := code; sr_assignment := [] |}.

Definition handleSyncGroup (gid : string) (clock : string -> Z) (ok : bool) (req : SyncGroupRequest)
    : IO Server (reply SyncGroupResponse) :=
  handle_code sync_error
    (if authorize Res_GROUP gid AclOp_READ then
       group ← getGroup gid;
       v ← with_group gid group (syncGroup clock ok req);
       mret (WaitFor v)
     else mret (Respond (sync_error GROUP_AUTHORIZATION_FAILED))).

(** The response is its error code. *)
Definition handleHeartbeat (gid : string) (now generationId : Z) (mid : string) : IO Server (reply Z) :=
  handle_code id
    (if authorize Res_GROUP gid AclOp_READ then
       group ← getGroup gid;
       with_group gid group (heartbeat now generationId mid);;
       mret (Respond 0)
     else mret (Respond GROUP_AUTHORIZATION_FAILED)).

Definition handleLeaveGroup (gid mid : string) : IO Server (reply Z) :=
  handle_code id
    (if authorize Res_GROUP gid AclOp_READ then
       group ← getGroup gid;
       with_group gid group (leaveGroup mid);;
       mret (Respond 0)
     else mret (Respond GROUP_AUTHORIZATION_FAILED)).

Definition handleListGroups s : list (string * string) :=
  filter (fun x => authorize Res_GROUP x.1 AclOp_DESCRIBE = true) (overview <$> getAllGroups s).

Definition makeErrorGroup (gid : string) (code : Z) (st : string) : DescribedGroup :=
  {| dg_errorCode := code; dg_groupId := gid; dg_groupState := st; dg_protocolType := "";
     dg_protocolData := ""; dg_members := [] |}.

(** [is_coordinator] compares the node [lookupKafkaPersist] finds with this server. *)
Definition handleDescribeGroups (is_coordinator : string -> bool) (ids : option (list string)) s
    : list DescribedGroup :=
  (fun x => if authorize Res_GROUP x.1 AclOp_DESCRIBE then
              if is_coordinator x.1 then
                match x.2 with
                | Some group => describe group
                | None => makeErrorGroup x.1 NONE (show_state Dead)
                end
              else makeErrorGroup x.1 NOT_COORDINATOR ""
            else makeErrorGroup x.1 GROUP_AUTHORIZATION_FAILED "") <$> getGroups s (default [] ids).

(** ** Handler/Offset.hs *)

Definition topic_check (op : AclOperation) (topic : string) : Z :=
  if authorize Res_TOPIC topic op then NONE else TOPIC_AUTHORIZATION_FAILED.

Definition commit_error (req : OffsetCommitRequest) (code : Z) : option (list (string * option (list (Z * Z)))) :=
  option_map (map (fun t => (t.1, makeErrorTopicResponse code t.2))) (oc_topics req).

Definition handleOffsetCommit (gid : string) (ok : bool) (now : Z) (req : OffsetCommitRequest)
    : IO Server (reply (option (list (string * option (list (Z * Z)))))) :=
  handle_code (commit_error req)
    (group ← (if oc_generationId req <? 0 then getOrMaybeCreateGroup gid "" else getGroup gid);
     if authorize Res_GROUP gid AclOp_READ then
       topics ← with_group gid group (commitOffsets (topic_check AclOp_READ) ok now req);
       mret (Respond topics)
     else mret (Respond (commit_error req GROUP_AUTHORIZATION_FAILED))).

Definition fetch_error_topic (code : Z) (t : string * option (list Z)) : string * option (list (Z * Z * Z)) :=
  (t.1, option_map (map (fun i => (i, -1, code))) t.2).

(** No operation of the handler throws, so that its [E.handle] has no effect. *)
Definition handleOffsetFetch (gid : string) (topics : option (list (string * option (list Z)))) s
    : OffsetFetchResponse :=
  if authorize Res_GROUP gid AclOp_DESCRIBE then
    {| of_errorCode := NONE;
       of_topics :=
         Some (match topics with
               | None =>
                   match getGroupM s gid with
                   | None => []
                   | Some group =>
                       (fun t => (t.1, Some t.2)) <$> fetchAllOffsets (topic_check AclOp_DESCRIBE) group
                   end
               | Some ts =>
                   (fun t => match getGroupM s gid with
                             | None => fetch_error_topic NONE t
                             | Some group =>
                                 (t.1, Some (fetchOffsets (topic_check AclOp_DESCRIBE) t.1 t.2 group))
                             end) <$> ts
               end) |}
  else
    {| of_errorCode := TOPIC_AUTHORIZATION_FAILED;
       of_topics := option_map (map (fetch_error_topic TOPIC_AUTHORIZATION_FAILED)) topics |}.
End handlers.

(** ** Threads of a group that was unloaded *)

(** The turn of a thread of a group the server has unloaded: only the metastore and
    the store see it. *)
Definition orphan_turn (gid : string) (e : event) s (g : G) : Server * G :=
  let g := step e (attach gid s g) in (detach gid s g, g).
End coordinator.
Arguments Server : clear implicits.

(** ** What an operation writes to the metastore *)

Section meta.
Context {os : Type} {O : IterOrder string} {LE : ListExtra} {B64 : Base64}.
Context {OS : OffsetStorage os} {TT : TopicTree}.
Notation G := (Group os).
Implicit Type g : G.

Definition ident g : string * option GroupMetadataValue := (groupId g, metaStore g).

(** The entry of the metastore stays, or is that of a sound state of the group. *)
Definition writes_ok g g' : Prop :=
  ident g' = ident g \/ exists v, ident g' = (groupId g, Some v) /\ value_ok v /\ gv_groupId v = groupId g.

Lemma writes_same g g' : ident g' = ident g -> writes_ok g g'.
Proof. by left. Qed.

Lemma transitionTo_ident s g : ident (transitionTo s g) = ident g.
Proof. unfold transitionTo. by case_decide. Qed.

Lemma prepareRebalance_ident p ms g : ident (prepareRebalance p ms g) = ident g.
Proof.
  unfold prepareRebalance.
  assert (E : ident (if decide (state g = CompletingRebalance) then cancelDelayedSyncResponses g else g) = ident g).
  { case_decide; [|done]. unfold cancelDelayedSyncResponses. generalize (iter_list (delayedSyncResponses g)) as xs.
    intros xs. revert g H. induction xs as [|x xs IH]; intros g H; [done|]. cbn [foldl]. by rewrite IH. }
  unfold cancelDelayedSync. rewrite <- E.
  generalize (if decide (state g = CompletingRebalance) then cancelDelayedSyncResponses g else g) as h. intros h.
  destruct (delayedSync h); simpl; destruct (delayedRebalance h); by rewrite ?transitionTo_ident.
Qed.

Lemma removed_ident g g' : removed g g' -> ident g' = ident g.
Proof. by intros (l & ms & rt & hs & ->). Qed.

Lemma removeMemberAndUpdateGroup_ident mid g : ident (removeMemberAndUpdateGroup mid g).1 = ident g.
Proof.
  unfold removeMemberAndUpdateGroup. run.
  assert (E : ident (removeMember mid (cancelDelayedJoinResponse mid g)) = ident g).
  { rewrite (removed_ident _ _ (removeMember_removed mid _)). unfold cancelDelayedJoinResponse.
    by destruct (delayedJoinResponses g !! mid). }
  case_decide; [run; by destruct (delayedRebalance _)|]. case_decide; [|done]. simpl. by rewrite prepareRebalance_ident.
Qed.

Lemma alter_member_ident f mid g : ident (alter_member f mid g) = ident g.
Proof. unfold alter_member. by destruct (members g !! mid). Qed.

Lemma joinGroup_ident reqCtx uuid req g : ident (joinGroup reqCtx uuid req g).1 = ident g.
Proof.
  unfold joinGroup. rewrite bind_run. cbv beta iota delta [newEmptyMVar]. rewrite bind_run.
  destruct (checkSupportedProtocols_spec req (set_next_mvar (S (next_mvar g)) g)) as (r & -> & Hr).
  destruct r as [e|[]]; [done|]. destruct Hr as (ps & Hps & _). run. case_decide; [done|]. run.
  case_decide.
  - pose proof (addMemberAndRebalance_eq reqCtx req (generateMemberId reqCtx uuid) ps g Hps) as E.
    destruct (addMemberAndRebalance _ _ _ _ _) as [g' [e|[]]]; simpl in E |- *; rewrite E;
      case_decide; by rewrite ?prepareRebalance_ident.
  - unfold doCurrentMemeberJoinGroup. rewrite bind_run, getMember_run.
    destruct (members _ !! jq_memberId req); [|done]. run.
    assert (Hupd : ident (updateMemberAndRebalance (jq_memberId req) req (next_mvar g)
      (set_next_mvar (S (next_mvar g)) g)).1 = ident g).
    { unfold updateMemberAndRebalance. rewrite Hps. run.
      assert (Hu : ident (updateMember (jq_memberId req) req ps (next_mvar g) (set_next_mvar (S (next_mvar g)) g)) = ident g)
        by (unfold updateMember; exact (alter_member_ident _ _ (updateSupportedProtocols ps (set_next_mvar (S (next_mvar g)) g)))).
      case_decide; simpl; by rewrite ?prepareRebalance_ident. }
    destruct (state _); try done; by destruct (updateMemberAndRebalance _ _ _ _) as [? [e|[]]].
Qed.

Lemma syncGroup_writes clock ok req g : sound g -> writes_ok g (syncGroup clock ok req g).1.
Proof.
  intros Hs. destruct (syncGroup_cases clock ok req g) as [(-> & Est & El & [m Em] & Ep)|[_ E]].
  - destruct (leader_sync_restores clock req m g Hs Est El Em Ep) as (g' & v & -> & Hid & _ & Hmeta & Hv & Hg & _).
    right. exists v. unfold ident. simpl. by rewrite Hid, Hmeta.
  - by left.
Qed.

Lemma storeGroup_writes ok asg g : sound g -> writes_ok g (storeGroup ok asg g).1.
Proof.
  intros Hs. rewrite storeGroup_run. destruct ok; [|by left]. right. eexists. split; [done|].
  split; [by apply getGroupValue_ok|done].
Qed.

Lemma writes_trans g1 g2 g3 : ident g2 = ident g1 -> writes_ok g2 g3 -> writes_ok g1 g3.
Proof.
  intros E [H|(v & H & Hv & Hg)]; [left; congruence|right]. exists v. unfold ident in *. injection E as E1 E2.
  rewrite <- E1. done.
Qed.

Lemma commitOffsets_writes v ok now req g : sound g -> writes_ok g (commitOffsets v ok now req g).1.
Proof.
  intros Hs. unfold commitOffsets. rewrite bind_run, validateOffsetcommit_run.
  destruct (if oc_generationId req <? 0 then _ else _) as [e|[]]; [by left|]. run.
  assert (Hbody : writes_ok g ((topics ← commit_topics v (oc_topics req);
    finish_commit ok now (oc_memberId req);; mret topics) g).1).
  { rewrite bind_run. assert (Hts : exists o r, commit_topics v (oc_topics req) g = (set_metadataManager o g, r)).
    { unfold commit_topics. destruct (oc_topics req) as [ts|].
      - rewrite bind_run. destruct (commit_topics_eq v ts g) as (o & [e|r] & ->); by do 2 eexists.
      - exists (metadataManager g). eexists. by destruct g. }
    destruct Hts as (o & [e|ts] & ->); [by left|]. rewrite bind_run.
    set (g1 := set_metadataManager o g). assert (Hs1 : sound g1) by (apply (sound_frame g); done || apply members_like_refl).
    assert (Hf : writes_ok g1 (finish_commit ok now (oc_memberId req) g1).1).
    { unfold finish_commit. run. assert (Hlast : forall h, ident (match members h !! oc_memberId req with
        | None => h | Some _ => updateLatestHeartbeat now (oc_memberId req) h end) = ident h).
      { intros h. destruct (members h !! oc_memberId req); [apply alter_member_ident|done]. }
      destruct (storedMetadata g1); [left; apply Hlast|].
      pose proof (storeGroup_writes ok ∅ g1 Hs1) as Hw. destruct (storeGroup ok ∅ g1) as [g2 [e|[]]]; [done|].
      simpl in *. unfold writes_ok in *. by rewrite Hlast. }
    apply (writes_trans g g1); [done|]. by destruct (finish_commit ok now (oc_memberId req) g1) as [g2 [e|[]]]. }
  destruct (state g); [exact Hbody|by left|exact Hbody|by left|exact Hbody].
Qed.

Lemma rebalance_writes ok g : sound g -> state g = PreparingRebalance -> writes_ok g (rebalance ok g).1.
Proof.
  intros Hs Hst. destruct (rebalance_run ok g Hs) as (l & ms & rt & hs & Hl & Hm & _ & ->). destruct l as [lid|].
  - destruct (doRelance_run lid (gathered (Some lid) ms rt hs g)) as [(e & -> & _)|(p & a & _ & _ & ->)];
      simpl; try (by left); [done|done|by eapply mvars_distinct, Hs|].
    intros k' m H. rewrite Hm in H. destruct (delayedJoinResponses g !! k'); [|done]. by eapply (s_protocols _ Hs).
  - rewrite emptied_eq, storeGroup_run by done. destruct ok; [|by left]. right. eexists. split; [done|]. split; [|done].
    simpl in Hl. unfold value_ok. simpl. subst ms.
    assert (Hn : iter_list (∅ : gmap string Member) = []) by (apply Permutation_nil; by rewrite iter_list_perm, map_to_list_empty).
    rewrite Hn. split; [constructor|done].
Qed.

Lemma step_writes e g : sound g -> writes_ok g (step e g).
Proof.
  intros Hs. destruct e; cbn [step].
  - left. apply joinGroup_ident.
  - by apply syncGroup_writes.
  - left. unfold leaveGroup. rewrite bind_run, getMember_run. destruct (members g !! mid); [|done]. run.
    pose proof (removeMemberAndUpdateGroup_ident mid g). by destruct (state g).
  - left. rewrite heartbeat_run. case_decide; [|done]. destruct (state g), (members g !! mid); try done. apply alter_member_ident.
  - by apply commitOffsets_writes.
  - destruct (rebalances g !! tid) eqn:E; [|by left].
    pose proof (rebalance_writes ok g Hs (rebalance_thread_state g tid _ Hs E)) as H. by destruct (rebalance ok g) as [g' r].
  - destruct (syncs g !! tid); [|by left]. left. unfold delayed_sync_action. destruct (state g); try done.
    unfold removeNotYetSyncedMembers.
    destruct (remove_absent_spec delayedSyncResponses g) as [Hr _]; [apply removed_waiting; by right|].
    apply removed_ident in Hr. done.
  - destruct (hearts g !! tid) as [mid|]; [|by left]. left. unfold heart_turn.
    assert (H : ident (checkHeartbeatAndMaybeRebalance now mid g).1 = ident g).
    { unfold checkHeartbeatAndMaybeRebalance. run. destruct (member_of g mid); [|done]. run. case_decide; [|done]. run.
      pose proof (removeMemberAndUpdateGroup_ident mid (alter_member (set_heartbeatThread None) mid g)) as E.
      rewrite alter_member_ident in E. by destruct (removeMemberAndUpdateGroup mid _) as [g' [e|[]]]. }
    destruct (checkHeartbeatAndMaybeRebalance now mid g) as [g' [e|d]]; simpl in *; [done|by case_decide].
Qed.
End meta.

(** ** Servers that share the metastore and the stores *)

Section cluster.
Context {os : Type} {O : IterOrder string} {LE : ListExtra} {B64 : Base64}.
Context {OS : OffsetStorage os} {TT : TopicTree}.
Context (fresh : os) (authorize : Authorizer).
Notation G := (Group os).
Notation Server := (Server os).
Implicit Types (g : G) (s : Server).

(** The groups of each server, and those that were unloaded while threads ran. *)
Record Cluster := {
  nodes : gmap nat (gmap string G);
  orphans : list (string * G);
  c_config : Z;
  c_meta : gmap string GroupMetadataValue;
  c_stores : gmap string os;
}.
Implicit Type c : Cluster.

Definition view (n : nat) c : Server :=
  {| groups := default ∅ (nodes c !! n); groupConfig := c_config c; meta := c_meta c; stores := c_stores c |}.
Definition put (n : nat) s (os' : list (string * G)) c : Cluster :=
  {| nodes := <[n := groups s]> (nodes c); orphans := os'; c_config := c_config c;
     c_meta := meta s; c_stores := stores s |}.

(** A request to a server, the turn of a thread, or the move of a group. *)
Inductive action :=
| AJoin (gid : string) (reqCtx : RequestContext) (uuid : string) (req : JoinGroupRequest)
| ASync (gid : string) (clock : string -> Z) (ok : bool) (req : SyncGroupRequest)
| AHeartbeat (gid : string) (now generationId : Z) (mid : string)
| ALeave (gid mid : string)
| ACommit (gid : string) (ok : bool) (now : Z) (req : OffsetCommitRequest)
| AThread (gid : string) (e : event)
| ALoad (clock : string -> Z) (gid : string)
| AUnload (gid : string)
| AOrphan (i : nat) (e : event).

Definition is_thread (e : event) : bool :=
  match e with ERebalance _ _ | ESyncTurn _ | ECheckHeart _ _ => true | _ => false end.

Definition thread_turn (gid : string) (e : event) s : Server :=
  match groups s !! gid with
  | Some g => if is_thread e then (with_group fresh gid g (fun g => (step e g, inr tt)) s).1 else s
  | None => s
  end.

Definition serve (a : action) s : Server :=
  match a with
  | AJoin gid reqCtx uuid req => (handleJoinGroup fresh authorize gid reqCtx uuid req s).1
  | ASync gid clock ok req => (handleSyncGroup fresh authorize gid clock ok req s).1
  | AHeartbeat gid now generationId mid => (handleHeartbeat fresh authorize gid now generationId mid s).1
  | ALeave gid mid => (handleLeaveGroup fresh authorize gid mid s).1
  | ACommit gid ok now req => (handleOffsetCommit fresh authorize gid ok now req s).1
  | AThread gid e => thread_turn gid e s
  | ALoad clock gid => (loadGroupAndOffsets fresh clock gid s).1
  | AUnload gid => unloadGroup gid s
  | AOrphan _ _ => s
  end.

Definition act (n : nat) (a : action) c : Cluster :=
  let s := view n c in
  match a with
  | AUnload gid =>
      put n (serve a s) (match groups s !! gid with Some g => orphans c ++ [(gid, g)] | None => orphans c end) c
  | AOrphan i e =>
      match orphans c !! i with
      | Some (gid, g) =>
          if is_thread e then
            let '(s, g) := orphan_turn fresh gid e s g in put n s (<[i := (gid, g)]> (orphans c)) c
          else c
      | None => c
      end
  | _ => put n (serve a s) (orphans c) c
  end.

(** The id made for a new member is not in use in its group. *)
Definition permitted (n : nat) (a : action) c : Prop :=
  match a with
  | AJoin gid reqCtx uuid req => forall g, groups (view n c) !! gid = Some g -> allowed (EJoin reqCtx uuid req) g
  | _ => True
  end.

Inductive runs (c0 : Cluster) : Cluster -> Prop :=
| runs_start : runs c0 c0
| runs_act c n a : runs c0 c -> permitted n a c -> runs c0 (act n a c).

Definition boot (config : Z) (st : gmap string os) : Cluster :=
  {| nodes := ∅; orphans := []; c_config := config; c_meta := ∅; c_stores := st |}.

(** ** The invariant *)

Definition group_ok (gid : string) g : Prop := sound g /\ groupId g = gid.
Definition meta_ok (m : gmap string GroupMetadataValue) : Prop :=
  forall gid v, m !! gid = Some v -> value_ok v /\ gv_groupId v = gid.
Definition table_ok (gs : gmap string G) : Prop := forall gid g, gs !! gid = Some g -> group_ok gid g.
Definition server_ok s : Prop := table_ok (groups s) /\ meta_ok (meta s).

Lemma attach_ok gid s g : group_ok gid g -> group_ok gid (attach fresh gid s g).
Proof. intros [Hs E]. split; [|done]. apply (sound_frame g); done || apply members_like_refl. Qed.

Lemma table_insert gs gid g : table_ok gs -> group_ok gid g -> table_ok (<[gid := g]> gs).
Proof. intros Ht Hg gid' g' [[<- <-]|[_ H]]%lookup_insert_Some; [done|by apply Ht]. Qed.

Lemma detach_meta_ok gid s h g : meta_ok (meta s) -> groupId h = gid -> metaStore h = meta s !! gid ->
  writes_ok h g -> meta_ok (meta (detach gid s g)).
Proof.
  intros Hm Hid Hmeta Hw gid' v. simpl. destruct (decide (gid = gid')) as [<-|Hne].
  - rewrite lookup_partial_alter_eq. destruct Hw as [E|(w & E & Hv & Hg)]; unfold ident in E; injection E as _ ->.
    + rewrite Hmeta. apply Hm.
    + intros [= <-]. split; [done|congruence].
  - rewrite lookup_partial_alter_ne by done. apply Hm.
Qed.

Lemma with_group_ok {A} gid g (m : IO G A) s : server_ok s -> group_ok gid g ->
  (forall h, sound h -> members h = members g -> retired h = retired g -> sound (m h).1 /\ writes_ok h (m h).1) ->
  server_ok (with_group fresh gid g m s).1.
Proof.
  intros [Ht Hm] Hg Hop. destruct (attach_ok gid s g Hg) as [Hs Hid].
  destruct (Hop (attach fresh gid s g) Hs eq_refl eq_refl) as [Hs' Hw].
  unfold with_group. destruct (m (attach fresh gid s g)) as [g' r]. simpl in Hs', Hw. split.
  - simpl. apply table_insert; [done|]. split; [done|]. rewrite <- Hid.
    destruct Hw as [E|(v & E & _)]; by injection E.
  - simpl. by apply (detach_meta_ok gid s (attach fresh gid s g)).
Qed.

Lemma getOrMaybeCreateGroup_ok gid mid s : server_ok s ->
  server_ok (getOrMaybeCreateGroup fresh gid mid s).1 /\
  match (getOrMaybeCreateGroup fresh gid mid s).2 with
  | inr g => group_ok gid g /\ (groups s !! gid = Some g \/ members g = ∅ /\ retired g = ∅)
  | inl _ => (getOrMaybeCreateGroup fresh gid mid s).1 = s
  end.
Proof.
  intros [Ht Hm]. unfold getOrMaybeCreateGroup. destruct (groups s !! gid) as [g|] eqn:E.
  { split; [done|]. simpl. split; [by apply Ht|by left]. }
  case_decide; [|done]. simpl.
  assert (Hg : group_ok gid (newGroup gid (open_manager fresh gid s) (meta s !! gid) (groupConfig s)))
    by (split; [apply newGroup_sound|done]).
  split; [|split; [done|by right]]. split; [by apply table_insert|].
  apply (detach_meta_ok gid s (newGroup gid (open_manager fresh gid s) (meta s !! gid) (groupConfig s))); try done. by left.
Qed.

Lemma handle_code_state {A} (f : Z -> A) m s : (handle_code f m s).1 = (m s).1.
Proof. unfold handle_code. by destruct (m s) as [s' [[]|]]. Qed.

(** A handler that runs an operation on a group the server has. *)
Lemma on_group_ok {A B} gid (m : IO G A) (f : A -> B) s : server_ok s ->
  (forall h, sound h -> sound (m h).1 /\ writes_ok h (m h).1) ->
  server_ok ((group ← getGroup gid; v ← with_group fresh gid group m; mret (f v)) s).1.
Proof.
  intros Hs Hop. rewrite bind_run. unfold getGroup. destruct (groups s !! gid) as [g|] eqn:E; [|done].
  rewrite bind_run. pose proof (with_group_ok gid g m s Hs (proj1 Hs gid g E) (fun h Hh _ _ => Hop h Hh)) as H.
  by destruct (with_group fresh gid g m s) as [s' [e|v]].
Qed.

Lemma step_ok e h : sound h -> allowed e h -> sound (step e h) /\ writes_ok h (step e h).
Proof. intros Hs Ha. split; [by apply step_sound|by apply step_writes]. Qed.

Lemma load_ok clock gid s : server_ok s -> server_ok (loadGroupAndOffsets fresh clock gid s).1.
Proof.
  intros [Ht Hm]. unfold loadGroupAndOffsets. destruct (loadOffsetsFromStorage _) as [manager [e|[]]]; [done|].
  destruct (meta s !! gid) as [v|] eqn:E; [|done]. destruct (Hm gid v E) as [Hv Hg]. simpl. unfold addGroupByValue.
  destruct (groups s !! gv_groupId v) eqn:F; [done|]. split; [|done]. simpl. apply table_insert; [done|].
  split; [by apply newGroupFromValue_sound|]. by destruct (newGroupFromValue_eq clock v manager (groupConfig s) Hv) as (_ & -> & _).
Qed.

Lemma serve_ok a s : server_ok s ->
  match a with
  | AJoin gid reqCtx uuid req => forall g, groups s !! gid = Some g -> allowed (EJoin reqCtx uuid req) g
  | _ => True
  end -> server_ok (serve a s).
Proof.
  intros Hs Ha. destruct a; cbn [serve]; rewrite ?handle_code_state.
  - unfold handleJoinGroup. rewrite handle_code_state. destruct (authorize Res_GROUP gid AclOp_READ); [|done]. rewrite bind_run.
    destruct (getOrMaybeCreateGroup_ok gid (jq_memberId req) s Hs) as [Hs1 Hg].
    destruct (getOrMaybeCreateGroup fresh gid (jq_memberId req) s) as [s1 [e|g]]; [done|]. simpl in Hs1, Hg. rewrite bind_run.
    destruct Hg as [Hg Hfresh].
    pose proof (with_group_ok gid g (joinGroup reqCtx uuid req) s1 Hs1 Hg) as H.
    destruct (with_group fresh gid g (joinGroup reqCtx uuid req) s1) as [s2 [e|v]]; apply H; intros h Hh Em Er;
      apply (step_ok (EJoin reqCtx uuid req) h Hh); simpl; rewrite Em, Er;
      (destruct Hfresh as [Hin|[-> ->]]; [exact (Ha g Hin)|by rewrite !lookup_empty]).
  - unfold handleSyncGroup. rewrite handle_code_state. destruct (authorize Res_GROUP gid AclOp_READ); [|done].
    apply on_group_ok; [done|]. intros h Hh. by apply (step_ok (ESync clock ok req)).
  - unfold handleHeartbeat. rewrite handle_code_state. destruct (authorize Res_GROUP gid AclOp_READ); [|done].
    apply (on_group_ok gid _ (fun _ => Respond 0)); [done|]. intros h Hh. by apply (step_ok (EHeartbeat now generationId mid)).
  - unfold handleLeaveGroup. rewrite handle_code_state. destruct (authorize Res_GROUP gid AclOp_READ); [|done].
    apply (on_group_ok gid _ (fun _ => Respond 0)); [done|]. intros h Hh. by apply (step_ok (ELeave mid)).
  - unfold handleOffsetCommit. rewrite handle_code_state, bind_run.
    assert (Hget : let r := (if oc_generationId req <? 0 then getOrMaybeCreateGroup fresh gid "" else getGroup gid) s in
      server_ok r.1 /\ match r.2 with inr g => group_ok gid g | inl _ => True end).
    { destruct (oc_generationId req <? 0).
      - destruct (getOrMaybeCreateGroup_ok gid "" s Hs) as [H1 H2]. split; [done|].
        destruct (getOrMaybeCreateGroup fresh gid "" s).2; tauto.
      - unfold getGroup. destruct (groups s !! gid) eqn:E; split; try done. by apply Hs. }
    destruct ((if oc_generationId req <? 0 then getOrMaybeCreateGroup fresh gid "" else getGroup gid) s) as [s1 [e|g]]; destruct Hget as [Hs1 Hg]; [done|]. simpl in *.
    destruct (authorize Res_GROUP gid AclOp_READ); [|done]. rewrite bind_run.
    pose proof (with_group_ok gid g (commitOffsets (topic_check authorize AclOp_READ) ok now req) s1 Hs1 Hg) as H.
    destruct (with_group fresh gid g _ s1) as [s2 [e|v]]; apply H; intros h Hh _ _;
      by apply (step_ok (ECommit (topic_check authorize AclOp_READ) ok now req)).
  - unfold thread_turn. destruct (groups s !! gid) as [g|] eqn:E; [|done]. destruct (is_thread e) eqn:Et; [|done].
    apply with_group_ok; [done|by apply Hs|]. intros h Hh _ _. apply step_ok; [done|]. by destruct e.
  - by apply load_ok.
  - destruct Hs as [Ht Hm]. split; [|done]. simpl. intros gid' g [_ H]%lookup_delete_Some. by apply Ht.
  - done.
Qed.

Definition cluster_ok c : Prop :=
  (forall n gs, nodes c !! n = Some gs -> table_ok gs) /\
  (forall gid g, (gid, g) ∈ orphans c -> group_ok gid g) /\ meta_ok (c_meta c).

Lemma view_ok n c : cluster_ok c -> server_ok (view n c).
Proof.
  intros (Hn & _ & Hm). split; [|done]. simpl. destruct (nodes c !! n) as [gs|] eqn:E; [by eapply Hn|].
  intros gid g H. simpl in H. by rewrite lookup_empty in H.
Qed.

Lemma put_ok n s xs c : cluster_ok c -> server_ok s -> (forall gid g, (gid, g) ∈ xs -> group_ok gid g) ->
  cluster_ok (put n s xs c).
Proof.
  intros (Hn & _ & _) [Ht Hm] Hx. split_and!; [|done|done]. simpl. intros n' gs [[<- <-]|[_ H]]%lookup_insert_Some; [done|by eapply Hn].
Qed.

Lemma act_ok n a c : cluster_ok c -> permitted n a c -> cluster_ok (act n a c).
Proof.
  intros Hc Hp. pose proof (view_ok n c Hc) as Hs. pose proof Hc as (_ & Ho & Hm).
  destruct a; cbn [act];
    try (apply put_ok; [done|by apply serve_ok|done]).
  - apply put_ok; [done|by apply serve_ok|]. destruct (groups (view n c) !! gid) as [g|] eqn:E; [|done].
    intros gid' g' [H|H]%elem_of_app; [by apply Ho|]. apply list_elem_of_singleton in H. injection H as -> ->. by apply Hs.
  - destruct (orphans c !! i) as [[gid g]|] eqn:E; [|done]. destruct (is_thread e) eqn:Et; [|done]. unfold orphan_turn.
    assert (Hg : group_ok gid g) by (apply Ho; by eapply list_elem_of_lookup_2).
    destruct (attach_ok gid (view n c) g Hg) as [Hh Hid].
    destruct (step_ok e (attach fresh gid (view n c) g) Hh) as [Hs' Hw]; [by destruct e|].
    apply put_ok; [done| |].
    + split; [apply Hs|]. by apply (detach_meta_ok gid (view n c) (attach fresh gid (view n c) g)).
    + intros gid' g' [j Hj]%list_elem_of_lookup. apply list_lookup_insert_Some in Hj as [(_ & H & _)|[_ H]];
        [|by eapply Ho, list_elem_of_lookup_2]. injection H as <- <-.
      split; [done|]. trans (groupId (attach fresh gid (view n c) g)); [|exact Hid].
      destruct Hw as [F|(v & F & _)]; by injection F.
Qed.

Lemma runs_ok config st c : runs (boot config st) c -> cluster_ok c.
Proof.
  induction 1 as [|c n a _ IH Hp]; [|by apply act_ok]. split_and!; simpl.
  - intros n gs H. by rewrite lookup_empty in H.
  - by intros gid g H%elem_of_nil.
  - intros gid v H. by rewrite lookup_empty in H.
Qed.

(** ** Theorems *)

(** C6: Several servers share the metastore and the stores of offsets, answer requests
    in any order, run the threads of their groups, load groups and unload them. In
    every state they reach: every group of a server, and every group that was
    unloaded but still has threads, satisfies the invariant and has the name it is
    filed under; and every group in the metastore has each member once, its leader
    among them, and its own name, so that loading it gives such a group. *)
Theorem cluster_sound config st c : runs (boot config st) c ->
  (forall n gid g, groups (view n c) !! gid = Some g -> sound g /\ groupId g = gid) /\
  (forall gid g, (gid, g) ∈ orphans c -> sound g /\ groupId g = gid) /\
  (forall gid v, c_meta c !! gid = Some v -> value_ok v /\ gv_groupId v = gid).
Proof.
  intros Hc%runs_ok. split_and!; [|apply Hc..]. intros n gid g H. by apply (view_ok n c Hc).
Qed.

Lemma newGroupFromValue_manager clock v manager delay : value_ok v ->
  metadataManager (newGroupFromValue clock v manager delay : G) = manager.
Proof.
  intros [_ Hv]. unfold newGroupFromValue.
  match goal with |- context [foldl _ ?x (gv_members v)] => destruct (add_loaded v (gv_members v) x) as (pt & ps & -> & _) end.
  { simpl. intros H. by rewrite H in Hv. }
  match goal with |- context [setupDelayedCheckHeartbeat clock ?x] =>
    destruct (setupDelayedCheckHeartbeat_eq clock x) as (ms & rt & hs & n & -> & _) end. done.
Qed.

Lemma view_put n s xs c : view n (put n s xs c) = Build_Server (groups s) (c_config c) (meta s) (stores s).
Proof. unfold view. simpl. by rewrite lookup_insert_eq. Qed.

Lemma view_put_ne n n' s xs c : n <> n' -> groups (view n' (put n s xs c)) = groups (view n' c).
Proof. intros H. simpl. by rewrite lookup_insert_ne. Qed.

(** What the sync of the leader does to its server. *)
Lemma leader_sync_server gid g clock req m s : server_ok s -> groups s !! gid = Some g ->
  authorize Res_GROUP gid AclOp_READ = true -> state g = CompletingRebalance ->
  leader g = Some (sq_memberId req) -> members g !! sq_memberId req = Some m ->
  delayedSyncResponses g !! sq_memberId req = None ->
  exists g1 v, (handleSyncGroup fresh authorize gid clock true req s).1 =
      Build_Server (<[gid := g1]> (groups s)) (groupConfig s) (<[gid := v]> (meta s))
        (<[gid := default fresh (stores s !! gid)]> (stores s)) /\
    value_ok v /\ gv_groupId v = gid /\ state g1 = Stable /\
    metadataManager g1 = metadataManager (attach fresh gid s g) /\
    forall clock' manager delay, restores g1 (newGroupFromValue clock' v manager delay).
Proof.
  intros [Ht Hm] Eg Hauth Hst Hl Hmem Hp. destruct (attach_ok gid s g (Ht gid g Eg)) as [Hs Hid].
  destruct (leader_sync_restores clock req m (attach fresh gid s g) Hs Hst Hl Hmem Hp)
    as (g1 & v & E & Hid1 & Hman & Hmeta & Hv & Hgv & Hr).
  destruct (leader_sync_run clock req m (attach fresh gid s g) Hs Hst Hl Hmem Hp) as (g1' & E' & Hst1 & _).
  assert (g1' = g1) as -> by congruence. exists g1, v. split_and!; try done; [|congruence].
  unfold handleSyncGroup. rewrite handle_code_state, Hauth, bind_run. unfold getGroup. rewrite Eg, bind_run.
  unfold with_group. rewrite E. unfold detach, set_groups. simpl. rewrite Hman, Hmeta. done.
Qed.


(** C34: Unloading a group does not stop its threads. When such a thread finds that no
    member has rejoined, it writes a group without members to the metastore, over
    what the server that has the group now has stored there; that server's own
    groups do not change. *)
Theorem orphan_erases_group config st c i gid g tid x n : runs (boot config st) c ->
  orphans c !! i = Some (gid, g) -> rebalances g !! tid = Some x -> delayedJoinResponses g = ∅ ->
  let c' := act n (AOrphan i (ERebalance tid true)) c in
  (exists v, c_meta c' !! gid = Some v /\ gv_members v = [] /\ gv_leader v = None) /\
  forall n', groups (view n' c') = groups (view n' c).
Proof.
  intros Hc%runs_ok Ho Ht Hj. cbv zeta. cbn [act is_thread]. rewrite Ho. unfold orphan_turn.
  assert (Hg : group_ok gid g) by (apply Hc; by eapply list_elem_of_lookup_2).
  destruct (attach_ok gid (view n c) g Hg) as [Hs Hid]. set (h := attach fresh gid (view n c) g) in *.
  cbn [step]. change (rebalances h) with (rebalances g). rewrite Ht.
  pose proof (rebalance_thread_state h tid x Hs Ht) as Hst.
  destruct (rebalance_run true h Hs) as (l & ms & rt & hs & Hl & Hm & _ & ->).
  assert (ms = ∅) as ->.
  { apply map_empty. intros k. rewrite Hm. change (delayedJoinResponses h) with (delayedJoinResponses g). by rewrite Hj, lookup_empty. }
  destruct l as [lid|]; [simpl in Hl; rewrite lookup_empty in Hl; by destruct Hl|].
  rewrite emptied_eq, storeGroup_run by done. split.
  - eexists. simpl. rewrite lookup_partial_alter_eq. split; [done|]. split; [|done]. simpl.
    assert (Hn : iter_list (∅ : gmap string Member) = []) by (apply Permutation_nil; by rewrite iter_list_perm, map_to_list_empty).
    by rewrite Hn.
  - intros n'. destruct (decide (n = n')) as [<-|]; [by rewrite view_put|by rewrite view_put_ne].
Qed.

(** Without the right to read a group, joins, syncs, heartbeats and leaves are
    answered with GROUP_AUTHORIZATION_FAILED and change nothing; but a commit without
    a generation, also answered so, first creates the group and its checkpoint
    store when the server does not have it. *)
Theorem denied_commit_creates gid s : authorize Res_GROUP gid AclOp_READ = false -> groups s !! gid = None ->
  (forall reqCtx uuid req, handleJoinGroup fresh authorize gid reqCtx uuid req s =
     (s, inr (Respond (join_error req GROUP_AUTHORIZATION_FAILED)))) /\
  (forall clock ok req, handleSyncGroup fresh authorize gid clock ok req s =
     (s, inr (Respond (sync_error GROUP_AUTHORIZATION_FAILED)))) /\
  (forall now generationId mid, handleHeartbeat fresh authorize gid now generationId mid s =
     (s, inr (Respond GROUP_AUTHORIZATION_FAILED))) /\
  (forall mid, handleLeaveGroup fresh authorize gid mid s = (s, inr (Respond GROUP_AUTHORIZATION_FAILED))) /\
  (forall ok now req, oc_generationId req < 0 -> exists s',
     handleOffsetCommit fresh authorize gid ok now req s =
       (s', inr (Respond (commit_error req GROUP_AUTHORIZATION_FAILED))) /\
     is_Some (groups s' !! gid) /\ is_Some (stores s' !! gid)).
Proof.
  intros Ha Hg. split_and!.
  - intros. unfold handleJoinGroup, handle_code. by rewrite Ha.
  - intros. unfold handleSyncGroup, handle_code. by rewrite Ha.
  - intros. unfold handleHeartbeat, handle_code. by rewrite Ha.
  - intros. unfold handleLeaveGroup, handle_code. by rewrite Ha.
  - intros ok now req Hgen. unfold handleOffsetCommit, handle_code. rewrite bind_run, (proj2 (Z.ltb_lt _ _) Hgen).
    unfold getOrMaybeCreateGroup. rewrite Hg, decide_True by done. rewrite Ha. eexists. split; [done|].
    simpl. by rewrite !lookup_insert_eq.
Qed.
End cluster.
End KafkaCoordinator.

Module KafkaCoordinatorWitness.
Import CheckpointStore.CheckpointStoreWitness GroupOffsetsWitness KafkaCoordinator KafkaGroupRunsWitness.

Definition all_rights (r : ResourceType) (name : string) (op : AclOperation) : bool := true.
Definition no_rights (r : ResourceType) (name : string) (op : AclOperation) : bool := false.

Notation C := (@Cluster MemStore).
Definition c0 : C := boot 3000 ∅.
Notation at_node n a c := (act (∅ : MemStore) all_rights n a c).

Definition join_at (uuid : string) : action :=
  match join uuid "" ["range"] with
  | EJoin reqCtx uuid req => AJoin "g" reqCtx uuid req
  | _ => AOrphan 0 (ESyncTurn 0)
  end.

(** Two members join the group on server 1, and the second one waits for the leader. *)
Definition c1 : C := at_node 1%nat (join_at "1") c0.
Definition c2 : C := at_node 1%nat (join_at "2") c1.
Definition c3 : C := at_node 1%nat (AThread "g" (ERebalance 0 true)) c2.
Definition c4 : C := at_node 1%nat (ASync "g" clock0 true (sync_req "c-2" [])) c3.

Definition the_group (c : C) : Group MemStore :=
  default (newGroup "" (mkGroupOffsetManager ∅ "") None 0) (groups (view 1 c) !! "g").

Lemma fresh_join uuid (c : C) :
  bool_decide (members (the_group c) !! ("c-" +:+ uuid) = None) = true ->
  bool_decide (retired (the_group c) !! ("c-" +:+ uuid) = None) = true ->
  permitted 1 (join_at uuid) c.
Proof.
  intros H1 H2 g Hg. apply bool_decide_eq_true in H1. apply bool_decide_eq_true in H2.
  unfold the_group in H1, H2. rewrite Hg in H1, H2. done.
Qed.

Lemma c4_runs : runs ∅ all_rights c0 c4.
Proof.
  repeat (apply runs_act; [|first [exact I|apply fresh_join; by vm_compute]]). constructor.
Qed.

Lemma cluster_sound_witness : sound (the_group c4) /\ groupId (the_group c4) = "g".
Proof.
  destruct (cluster_sound ∅ all_rights 3000 ∅ c4 c4_runs) as (H & _). apply (H 1%nat). by vm_compute.
Defined.

(** The leader as it waits for the assignments. *)
Definition waiting_leader : Member :=
  {| m_memberId := "c-1"; m_rebalanceTimeoutMs := 60; m_sessionTimeoutMs := 10; m_assignment := [];
     m_lastHeartbeat := 0; m_heartbeatThread := None; m_protocolType := "consumer";
     m_supportedProtocols := [("range", [7])]; m_clientId := "c"; m_clientHost := "h" |}.

Lemma c4_agrees : agrees (metadataManager (attach (∅ : MemStore) "g" (view 1 c4) (the_group c4))).
Proof.
  assert (E : metadataManager (attach (∅ : MemStore) "g" (view 1 c4) (the_group c4)) = mkGroupOffsetManager ∅ "g")
    by (vm_compute; reflexivity).
  rewrite E. apply mk_agrees. vm_compute. reflexivity.
Qed.


(** The members leave one server while the group is on another. *)
Definition c5 : C := at_node 1%nat (ALeave "g" "c-1") (at_node 1%nat (ASync "g" clock0 true leader_req) c4).
Definition c6 : C := at_node 2%nat (ALoad clock0 "g") (at_node 1%nat (AUnload "g") c5).

Definition the_orphan : Group MemStore :=
  match orphans c6 with (_, g) :: _ => g | [] => the_group c6 end.

Lemma c6_runs : runs ∅ all_rights c0 c6.
Proof. do 4 (apply runs_act; [|exact I]). exact c4_runs. Qed.

Lemma orphan_erases_group_witness :
  (exists v, c_meta c6 !! "g" = Some v /\ length (gv_members v) = 2%nat) /\
  exists v, c_meta (at_node 1%nat (AOrphan 0 (ERebalance 4 true)) c6) !! "g" = Some v /\ gv_members v = [].
Proof.
  split; [eexists; split; [by vm_compute|by vm_compute]|].
  destruct (orphan_erases_group ∅ all_rights 3000 ∅ c6 0 "g" the_orphan 4 (true, 60) 1 c6_runs)
    as ((v & E & H & _) & _); [by vm_compute|by vm_compute|by vm_compute|]. exists v. split; [exact E|exact H].
Defined.

Lemma denied_commit_creates_witness : exists s',
  handleOffsetCommit (∅ : MemStore) no_rights "g" true 0
    {| oc_generationId := -1; oc_memberId := ""; oc_topics := None |} (view 1 c0) =
    (s', inr (Respond None)) /\ is_Some (groups s' !! "g").
Proof.
  destruct (denied_commit_creates (∅ : MemStore) no_rights "g" (view 1 c0)) as (_ & _ & _ & _ & H);
    [done|by vm_compute|].
  destruct (H true 0 {| oc_generationId := -1; oc_memberId := ""; oc_topics := None |}) as (s' & E & Hs & _);
    [by vm_compute|]. exists s'. split; [exact E|exact Hs].
Defined.
End KafkaCoordinatorWitness.
