(* ===== verification/StoreMemory.v ===== *)
(** * Memory that C++ and Haskell share
      (structures of src/hstream-store/include/hs_logdevice.h, [copyString] of
      src/hstream-store/cbits/utils.cpp)

    A flat memory of bytes with [malloc] and [free], in which reading a byte
    that was never written, touching memory that is not allocated and freeing
    a block twice are undefined; the layout of a C structure on x86-64; and the
    accesses that hsc2hs's [#peek] makes of it. *)

From stdpp Require Import base gmap list strings fin_maps.
From Stdlib Require Import ZArith Lia.
From S2P Require Import Prelude.
Open Scope Z_scope.

Module StoreMemory.

(** ** The heap *)

(** An allocated byte is written ([Some b]) or not yet ([None]). [blocks]: the
    sizes of the blocks that were allocated and not freed. [brk]: addresses
    from here on were never given out. *)
Record heap := { mem : gmap Z (option Z); blocks : gmap Z Z; brk : Z }.

(** A computation on the heap; [None]: undefined, or the process is killed. *)
Definition M (A : Type) : Type := heap -> option (A * heap).
Definition ret {A} (a : A) : M A := fun h => Some (a, h).
Definition bind {A B} (m : M A) (f : A -> M B) : M B :=
  fun h => match m h with Some (a, h) => f a h | None => None end.
Definition undefined {A} : M A := fun _ => None.

Declare Scope heap_scope.
Delimit Scope heap_scope with heap.
Notation "'let*' x := m 'in' k" := (bind m (fun x => k))
  (at level 200, x name, m at level 100, k at level 200, right associativity) : heap_scope.
Notation "m ;; k" := (bind m (fun _ => k))
  (at level 100, k at level 200, right associativity) : heap_scope.
Open Scope heap_scope.

(** The first address that a pointer cannot hold. *)
Definition ADDRESS_END : Z := 2 ^ 64.

(** [malloc]: a block that overlaps no other, or null when there is no room. *)
Definition malloc (n : Z) : M Z := fun h =>
  if brk h + Z.max 1 n <=? ADDRESS_END then
    Some (brk h, {| mem := map_seqZ (brk h) (replicate (Z.to_nat n) None) ∪ mem h;
                    blocks := <[brk h := n]> (blocks h);
                    brk := brk h + Z.max 1 n |})
  else Some (0, h).

(** [free]; a null pointer is ignored. *)
Definition free (p : Z) : M unit := fun h =>
  if p =? 0 then Some (tt, h)
  else match blocks h !! p with
       | Some n =>
           Some (tt, {| mem := filter (fun '(a, _) => ~ (p <= a < p + n)) (mem h);
                        blocks := delete p (blocks h); brk := brk h |})
       | None => None
       end.

(** Bytes written to and read from an address. *)
Definition put (a : Z) (bs : list Z) (c : gmap Z (option Z)) : gmap Z (option Z) :=
  map_seqZ a (Some <$> bs) ∪ c.
Fixpoint get (a : Z) (n : nat) (c : gmap Z (option Z)) : option (list Z) :=
  match n with
  | O => Some []
  | S n => b ← c !! a ≫= id; bs ← get (a + 1) n c; Some (b :: bs)
  end.
Fixpoint writable (a : Z) (n : nat) (c : gmap Z (option Z)) : bool :=
  match n with
  | O => true
  | S n => bool_decide (is_Some (c !! a)) && writable (a + 1) n c
  end.

Definition store (a : Z) (bs : list Z) : M unit := fun h =>
  if writable a (length bs) (mem h) then
    Some (tt, {| mem := put a bs (mem h); blocks := blocks h; brk := brk h |})
  else None.
Definition load (a : Z) (n : nat) : M (list Z) := fun h =>
  bs ← get a n (mem h); Some (bs, h).

(** Little-endian integers. *)
Fixpoint le (n : nat) (v : Z) : list Z :=
  match n with O => [] | S n => v mod 256 :: le n (v / 256) end.
Definition unle (bs : list Z) : Z := foldr (fun b v => b + 256 * v) 0 bs.

(** ** Structures *)

(** The types of their members: the integers of C, [char*] and other pointers,
    and [bool]. *)
Inductive ctype := uint8_t | uint16_t | uint64_t | int64_t | pointer | bool_t.
Definition width (t : ctype) : nat :=
  match t with uint8_t | bool_t => 1 | uint16_t => 2 | _ => 8 end.
Definition decode (t : ctype) (v : Z) : Z :=
  match t with
  | int64_t => i64 v
  | _ => v
  end.

Definition struct := list (string * ctype).

(** Members in order, each at the next multiple of its size; the structure's
    size is a multiple of its largest alignment. *)
Definition align_up (o a : Z) : Z := (o + a - 1) / a * a.
Fixpoint offset_from (o : Z) (s : struct) (f : string) : option (Z * ctype) :=
  match s with
  | [] => None
  | (g, t) :: s =>
      let o := align_up o (Z.of_nat (width t)) in
      if bool_decide (f = g) then Some (o, t)
      else offset_from (o + Z.of_nat (width t)) s f
  end.
Definition offsetof (s : struct) (f : string) : option (Z * ctype) := offset_from 0 s f.
Fixpoint end_from (o : Z) (s : struct) : Z :=
  match s with
  | [] => o
  | (_, t) :: s => end_from (align_up o (Z.of_nat (width t)) + Z.of_nat (width t)) s
  end.
Definition sizeof (s : struct) : Z :=
  align_up (end_from 0 s)
    (foldr (fun ft a => Z.max (Z.of_nat (width ft.2)) a) 1 s).

(** [p->f = v]; a name that is no member does not compile. *)
Definition set_field (s : struct) (f : string) (p v : Z) : M unit :=
  match offsetof s f with
  | Some (o, t) => store (p + o) (le (width t) v)
  | None => undefined
  end.

(** [(#peek s, f) p] at a Haskell type of the representation [t]: hsc2hs only
    takes the offset from the structure. *)
Definition peek (t : ctype) (s : struct) (f : string) (p : Z) : M Z :=
  match offsetof s f with
  | Some (o, _) => let* bs := load (p + o) (width t) in ret (decode t (unle bs))
  | None => undefined
  end.

(** ** Strings *)

(** [copyString]: null for the empty string; [std::bad_alloc] leaves an
    [extern "C"] function and ends the process. *)
Definition copyString (data : list Z) : M Z :=
  if bool_decide (data = []) then ret 0
  else
    let* p := malloc (Z.of_nat (length data)) in
    if p =? 0 then undefined else store p data ;; ret p.

(** [c_str] and [strdup]: the bytes up to the first zero, and a zero. Null
    when there is no room, as the C library says. *)
Fixpoint until_nul (data : list Z) : list Z :=
  match data with
  | [] => []
  | b :: data => if b =? 0 then [] else b :: until_nul data
  end.
Definition strdup (data : list Z) : M Z :=
  let s := until_nul data ++ [0] in
  let* p := malloc (Z.of_nat (length s)) in
  if p =? 0 then ret 0 else store p s ;; ret p.

(** [Z.fromPtr]: the bytes at a pointer. *)
Definition fromPtr (p len : Z) : M (list Z) := load p (Z.to_nat len).

(** [CBytes.fromCString]: the bytes before the zero, none for a null pointer.
    The string ends before the end of the memory that was given out. *)
Fixpoint scan (fuel : nat) (a : Z) (c : gmap Z (option Z)) : option (list Z) :=
  match fuel with
  | O => None
  | S fuel =>
      b ← c !! a ≫= id;
      if b =? 0 then Some [] else bs ← scan fuel (a + 1) c; Some (b :: bs)
  end.
Definition fromCString (p : Z) : M (list Z) := fun h =>
  if p =? 0 then Some ([], h)
  else bs ← scan (Z.to_nat (brk h - p)) p (mem h); Some (bs, h).

(** ** Lemmas *)

Lemma heap_bind {A B} (m : M A) (f : A -> M B) h a h' : m h = Some (a, h') -> bind m f h = f a h'.
Proof. unfold bind. by intros ->. Qed.

Lemma le_length n v : length (le n v) = n.
Proof. revert v. induction n as [|n IH]; intros v; simpl; [done|]. by rewrite IH. Qed.

Lemma unle_le n v : unle (le n v) = v mod 256 ^ Z.of_nat n.
Proof.
  revert v. induction n as [|n IH]; intros v; [by rewrite Z.mod_1_r|].
  change (unle (le (S n) v)) with (v mod 256 + 256 * unle (le n (v / 256))). rewrite IH.
  rewrite Nat2Z.inj_succ, Z.pow_succ_r by lia.
  rewrite Z.rem_mul_r by lia. done.
Qed.

(** What a member of type [t] holds after [v] was assigned to it. *)
Definition wrap (t : ctype) (v : Z) : Z :=
  match t with
  | uint8_t | bool_t => u8 v | uint16_t => u16 v | uint64_t | pointer => u64 v | int64_t => i64 v
  end.

Lemma decode_le t v : decode t (unle (le (width t) v)) = wrap t v.
Proof.
  rewrite unle_le. destruct t; simpl; try done.
  change (256 ^ Z.of_nat 8) with (2 ^ 64). unfold i64. by rewrite Zplus_mod_idemp_l.
Qed.

Lemma put_same a bs c i b :
  bs !! i = Some b -> put a bs c !! (a + Z.of_nat i) = Some (Some b).
Proof.
  intros H. unfold put. apply lookup_union_Some_l. apply lookup_map_seqZ_Some.
  split; [lia|]. rewrite list_lookup_fmap. replace (Z.to_nat (a + Z.of_nat i - a)) with i by lia.
  by rewrite H.
Qed.

Lemma put_other a bs c x :
  x < a \/ a + Z.of_nat (length bs) <= x -> put a bs c !! x = c !! x.
Proof.
  intros H. unfold put. apply lookup_union_r. apply lookup_map_seqZ_None.
  rewrite length_fmap. lia.
Qed.

Lemma get_agree a n c c' :
  (forall x, a <= x < a + Z.of_nat n -> c !! x = c' !! x) -> get a n c = get a n c'.
Proof.
  revert a. induction n as [|n IH]; intros a H; simpl; [done|].
  rewrite (H a) by lia. rewrite (IH (a + 1)); [done|]. intros x Hx. apply H. lia.
Qed.

Lemma get_bytes a n c bs :
  length bs = n -> (forall i b, bs !! i = Some b -> c !! (a + Z.of_nat i) = Some (Some b)) ->
  get a n c = Some bs.
Proof.
  revert a bs. induction n as [|n IH]; intros a [|b bs] Hl H; simplify_eq/=; [done|].
  pose proof (H 0%nat b eq_refl) as H0. rewrite Z.add_0_r in H0. rewrite H0. simpl.
  rewrite (IH (a + 1) bs eq_refl); [done|].
  intros i b' Hi. replace (a + 1 + Z.of_nat i) with (a + Z.of_nat (S i)) by lia. by apply H.
Qed.

Lemma get_put_same a bs c : get a (length bs) (put a bs c) = Some bs.
Proof. apply get_bytes; [done|]. intros i b. apply put_same. Qed.

Lemma get_put_other a n b bs c :
  a + Z.of_nat n <= b \/ b + Z.of_nat (length bs) <= a ->
  get a n (put b bs c) = get a n c.
Proof. intros H. apply get_agree. intros x Hx. apply put_other. lia. Qed.

Lemma writable_spec a n c :
  writable a n c = true <-> forall x, a <= x < a + Z.of_nat n -> is_Some (c !! x).
Proof.
  revert a. induction n as [|n IH]; intros a; simpl.
  - split; [lia|done].
  - rewrite andb_true_iff, bool_decide_eq_true, IH. split.
    + intros [H0 H] x Hx. destruct (decide (x = a)) as [->|]; [done|]. apply H. lia.
    + intros H. split; [apply H; lia|]. intros x Hx. apply H. lia.
Qed.

Lemma put_is_Some a bs c x : is_Some (c !! x) -> is_Some (put a bs c !! x).
Proof. intros H. unfold put. rewrite lookup_union_is_Some. by right. Qed.

(** A heap in which nothing lies beyond [brk]. *)
Definition heap_ok (h : heap) : Prop :=
  0 < brk h <= ADDRESS_END /\
  forall a, brk h <= a -> mem h !! a = None /\ blocks h !! a = None.

(** The allocated bytes from [a] on. *)
Definition region (h : heap) (a n : Z) : Prop :=
  forall x, a <= x < a + n -> is_Some (mem h !! x).

Lemma region_bound h a n : heap_ok h -> region h a n -> 0 < n -> a + n <= brk h.
Proof.
  intros [_ Hok] Hr Hn. destruct (decide (a + n <= brk h)); [done|].
  destruct (Hr (Z.max a (brk h))) as [v Hv]; [lia|]. destruct (Hok (Z.max a (brk h))); [lia|].
  congruence.
Qed.

Lemma store_run a bs h :
  region h a (Z.of_nat (length bs)) ->
  store a bs h = Some (tt, {| mem := put a bs (mem h); blocks := blocks h; brk := brk h |}).
Proof. intros H. unfold store. by rewrite (proj2 (writable_spec _ _ _) H). Qed.

Lemma heap_ok_put a bs h :
  heap_ok h -> region h a (Z.of_nat (length bs)) ->
  heap_ok {| mem := put a bs (mem h); blocks := blocks h; brk := brk h |}.
Proof.
  intros Hok Hr. pose proof Hok as [Hb Hn]. split; [done|]. simpl. intros x Hx. destruct (Hn x Hx).
  split; [|done]. rewrite put_other; [done|]. destruct bs as [|b bs]; [simpl; lia|]. right.
  pose proof (region_bound h a _ Hok Hr ltac:(simpl; lia)). lia.
Qed.

(** The memory below [b] is untouched. *)
Definition same_below (b : Z) (h h' : heap) : Prop :=
  forall x, x < b -> mem h' !! x = mem h !! x /\ blocks h' !! x = blocks h !! x.

Lemma same_below_trans b h h1 h2 : same_below b h h1 -> same_below b h1 h2 -> same_below b h h2.
Proof. intros H1 H2 x Hx. destruct (H1 x Hx) as [<- <-]. by apply H2. Qed.
Lemma same_below_weaken b b' h h' : same_below b h h' -> b' <= b -> same_below b' h h'.
Proof. intros H Hb x Hx. apply H. lia. Qed.

Lemma malloc_run n h :
  heap_ok h -> 0 < n -> brk h + n <= ADDRESS_END ->
  exists h', malloc n h = Some (brk h, h') /\ heap_ok h' /\ brk h' = brk h + n /\
    same_below (brk h) h h' /\ region h' (brk h) n /\ blocks h' !! brk h = Some n /\
    (forall x, x <> brk h -> blocks h' !! x = blocks h !! x).
Proof.
  intros [Hb Hn] Hpos Hroom. unfold malloc. replace (Z.max 1 n) with n by lia.
  rewrite (proj2 (Z.leb_le _ _) Hroom). eexists. split; [done|].
  assert (forall x, x < brk h \/ brk h + n <= x ->
    (map_seqZ (brk h) (replicate (Z.to_nat n) None) ∪ mem h) !! x = mem h !! x) as Hold.
  { intros x Hx. apply lookup_union_r, lookup_map_seqZ_None. rewrite length_replicate. lia. }
  split; [|split; [done|split; [|split; [|split]]]]; simpl.
  - split; simpl; [lia|]. intros a Ha. rewrite Hold by lia.
    rewrite lookup_insert_ne by lia. apply Hn. lia.
  - intros x Hx. simpl. rewrite Hold by lia. by rewrite lookup_insert_ne by lia.
  - intros x Hx. simpl. apply lookup_union_is_Some. left.
    exists None. apply lookup_map_seqZ_Some. split; [lia|].
    apply lookup_replicate_2. lia.
  - apply lookup_insert_eq.
  - intros x Hx. by rewrite lookup_insert_ne by done.
Qed.

(** A block that holds [bs]. *)
Definition block_at (h : heap) (p : Z) (bs : list Z) : Prop :=
  0 < p /\ blocks h !! p = Some (Z.of_nat (length bs)) /\ get p (length bs) (mem h) = Some bs.

(** What an allocation that is filled leaves. *)
Definition allocated (bs : list Z) (h : heap) (p : Z) (h' : heap) : Prop :=
  p = brk h /\ heap_ok h' /\ brk h' = brk h + Z.of_nat (length bs) /\
  same_below (brk h) h h' /\ block_at h' p bs /\
  (forall x, x <> brk h -> blocks h' !! x = blocks h !! x).

Lemma alloc_run bs h :
  heap_ok h -> bs <> [] -> brk h + Z.of_nat (length bs) <= ADDRESS_END ->
  exists h1 h', malloc (Z.of_nat (length bs)) h = Some (brk h, h1) /\ (brk h =? 0) = false /\
    store (brk h) bs h1 = Some (tt, h') /\ allocated bs h (brk h) h'.
Proof.
  intros Hok Hne Hroom. assert (0 < Z.of_nat (length bs)) by (destruct bs; simpl; [done|lia]).
  destruct (malloc_run _ h Hok ltac:(eassumption) Hroom)
    as (h1 & Hm & Hok1 & Hb1 & Hsame & Hr & Hblk & Hother).
  exists h1. eexists. split; [done|]. split; [destruct Hok; lia|].
  split; [by apply store_run|]. split; [done|].
  split; [by apply heap_ok_put|]. split; [done|]. split; [|split; [|done]].
  - intros x Hx. simpl. rewrite put_other by lia. by apply Hsame.
  - split; [by destruct Hok as [[? _] _]|]. split; [done|]. apply get_put_same.
Qed.

Lemma free_run p n h :
  heap_ok h -> 0 < p -> blocks h !! p = Some n ->
  exists h', free p h = Some (tt, h') /\ heap_ok h' /\ brk h' = brk h /\
    (forall x, p <= x < p + n -> mem h' !! x = None) /\
    (forall x, x < p \/ p + n <= x -> mem h' !! x = mem h !! x) /\
    blocks h' !! p = None /\ (forall x, x <> p -> blocks h' !! x = blocks h !! x).
Proof.
  intros [Hb Hn] Hp Hblk. unfold free. rewrite (proj2 (Z.eqb_neq _ _)) by lia. rewrite Hblk.
  eexists. split; [done|].
  assert (forall x, x < p \/ p + n <= x ->
    filter (fun '(a, _) => ~ (p <= a < p + n)) (mem h) !! x = mem h !! x) as Hout.
  { intros x Hx. destruct (mem h !! x) as [v|] eqn:E.
    - apply map_lookup_filter_Some. split; [done|]. lia.
    - apply map_lookup_filter_None. by left. }
  assert (forall x, p <= x < p + n ->
    filter (fun '(a, _) => ~ (p <= a < p + n)) (mem h) !! x = None) as Hin.
  { intros x Hx. apply map_lookup_filter_None. right. intros v _. lia. }
  split; [|split; [done|split; [done|split; [done|split]]]]; simpl.
  - split; [done|]. simpl. intros a Ha. destruct (Hn a Ha) as [Hm Hbl]. split.
    + destruct (decide (p <= a < p + n)); [by apply Hin|]. rewrite Hout by lia. done.
    + rewrite lookup_delete_ne; [done|]. intros ->. congruence.
  - apply lookup_delete_eq.
  - intros x Hx. by apply lookup_delete_ne.
Qed.

(** A string is null when it is empty. *)
Definition string_at (h : heap) (p : Z) (bs : list Z) : Prop :=
  if bool_decide (bs = []) then p = 0 else block_at h p bs.

Lemma copyString_run bs h :
  heap_ok h -> brk h + Z.of_nat (length bs) <= ADDRESS_END ->
  exists p h', copyString bs h = Some (p, h') /\ heap_ok h' /\
    brk h' = brk h + Z.of_nat (length bs) /\ same_below (brk h) h h' /\ string_at h' p bs /\
    p = (if bool_decide (bs = []) then 0 else brk h) /\
    (forall x, x <> p -> blocks h' !! x = blocks h !! x).
Proof.
  intros Hok Hroom. unfold copyString, string_at. case_bool_decide as He.
  - subst bs. exists 0, h. simpl. rewrite Z.add_0_r. by split_and!; try apply Hok.
  - destruct (alloc_run bs h Hok He Hroom) as (h1 & h' & Hm & Hz & Hs & Hal).
    exists (brk h), h'. split.
    + rewrite (heap_bind _ _ _ _ _ Hm), Hz. by rewrite (heap_bind _ _ _ _ _ Hs).
    + destruct Hal as (_ & Hok' & Hb' & Hsame & Hblk & Hother). by repeat split; try apply Hok';
        try apply Hsame; try apply Hblk.
Qed.

Lemma strdup_run bs h :
  heap_ok h -> brk h + Z.of_nat (length (until_nul bs ++ [0])) <= ADDRESS_END ->
  exists h', strdup bs h = Some (brk h, h') /\ allocated (until_nul bs ++ [0]) h (brk h) h'.
Proof.
  intros Hok Hroom.
  destruct (alloc_run (until_nul bs ++ [0]) h Hok ltac:(by destruct (until_nul bs)) Hroom)
    as (h1 & h' & Hm & Hz & Hs & Hal).
  exists h'. split; [|done]. unfold strdup. rewrite (heap_bind _ _ _ _ _ Hm), Hz.
  by rewrite (heap_bind _ _ _ _ _ Hs).
Qed.

Lemma until_nul_nonzero bs : Forall (fun b => b <> 0) (until_nul bs).
Proof. induction bs as [|b bs IH]; simpl; [done|]. case (Z.eqb_spec b 0); by constructor. Qed.

Lemma scan_run fuel a s c :
  Forall (fun b => b <> 0) s -> (length s < fuel)%nat ->
  get a (length (s ++ [0])) c = Some (s ++ [0]) -> scan fuel a c = Some s.
Proof.
  revert fuel a. induction s as [|b s IH]; intros [|fuel] a Hs Hf Hg; simpl in *; try lia.
  - destruct (c !! a) as [[v|]|]; simplify_eq/=. done.
  - inversion Hs as [|? ? Hb Hs']; subst. destruct (c !! a) as [[v|]|]; simplify_eq/=.
    destruct (get (a + 1) (length (s ++ [0])) c) as [bs|] eqn:E; simplify_eq/=.
    rewrite (proj2 (Z.eqb_neq _ _) Hb). rewrite (IH fuel (a + 1)); [done|done|lia|done].
Qed.

Lemma fromCString_run h p s :
  block_at h p (s ++ [0]) -> Forall (fun b => b <> 0) s ->
  p + Z.of_nat (length (s ++ [0])) <= brk h -> fromCString p h = Some (s, h).
Proof.
  intros (Hp & _ & Hg) Hs Hb. unfold fromCString. rewrite (proj2 (Z.eqb_neq _ _)) by lia.
  rewrite (scan_run _ _ s); [done|done| |done]. rewrite length_app in Hb. simpl in Hb. lia.
Qed.

Lemma fromPtr_run h p bs :
  string_at h p bs -> fromPtr p (Z.of_nat (length bs)) h = Some (bs, h).
Proof.
  unfold string_at, fromPtr, load. rewrite Nat2Z.id. case_bool_decide as He.
  - intros ->. subst bs. done.
  - intros (_ & _ & ->). done.
Qed.

(** Members do not overlap and lie within the structure. *)
Lemma align_up_ge o a : 0 < a -> o <= align_up o a.
Proof. intros H. unfold align_up. Z.div_mod_to_equations. nia. Qed.
Lemma width_pos t : 0 < Z.of_nat (width t).
Proof. by destruct t. Qed.

Lemma offset_from_bounds o s f o' t :
  offset_from o s f = Some (o', t) -> o <= o' /\ o' + Z.of_nat (width t) <= end_from o s.
Proof.
  assert (forall s o, o <= end_from o s) as Hend.
  { clear. induction s as [|[g t] s IH]; intros o; simpl; [lia|].
    pose proof (align_up_ge o _ (width_pos t)). pose proof (width_pos t).
    specialize (IH (align_up o (Z.of_nat (width t)) + Z.of_nat (width t))). lia. }
  revert o. induction s as [|[g u] s IH]; intros o; simpl; [done|].
  pose proof (align_up_ge o _ (width_pos u)). case_bool_decide.
  - intros [= <- <-]. split; [lia|]. apply Hend.
  - intros Hf. apply IH in Hf. pose proof (width_pos u). lia.
Qed.

Lemma offset_from_disjoint o s f g o1 t1 o2 t2 :
  offset_from o s f = Some (o1, t1) -> offset_from o s g = Some (o2, t2) -> f <> g ->
  o1 + Z.of_nat (width t1) <= o2 \/ o2 + Z.of_nat (width t2) <= o1.
Proof.
  revert o. induction s as [|[k u] s IH]; intros o; simpl; [done|].
  intros Hf Hg Hne. destruct (decide (f = k)) as [->|Hf'], (decide (g = k)) as [->|Hg'].
  - done.
  - rewrite bool_decide_true in Hf by done. rewrite bool_decide_false in Hg by done.
    injection Hf as <- <-. apply offset_from_bounds in Hg. lia.
  - rewrite bool_decide_false in Hf by done. rewrite bool_decide_true in Hg by done.
    injection Hg as <- <-. apply offset_from_bounds in Hf. lia.
  - rewrite bool_decide_false in Hf by done. rewrite bool_decide_false in Hg by done.
    by eapply IH.
Qed.

Lemma offsetof_bounds s f o t :
  offsetof s f = Some (o, t) -> 0 <= o /\ o + Z.of_nat (width t) <= sizeof s.
Proof.
  intros H. apply offset_from_bounds in H. destruct H as [H1 H2]. split; [done|].
  unfold sizeof. etransitivity; [exact H2|]. apply align_up_ge.
  clear. induction s as [|[g t] s IH]; simpl; lia.
Qed.

(** The members that were assigned. *)
Definition fields (h : heap) (p : Z) (s : struct) (fvs : list (string * Z)) : Prop :=
  Forall (fun fv => exists o t, offsetof s fv.1 = Some (o, t) /\
    get (p + o) (width t) (mem h) = Some (le (width t) fv.2)) fvs.

(** The structure at [p] is being filled, starting from the heap [h0]; nothing
    else that was below its [brk] changes. *)
Record filled (p : Z) (s : struct) (fvs : list (string * Z)) (h0 h : heap) : Prop := {
  fl_ok : heap_ok h;
  fl_brk : brk h0 <= brk h;
  fl_region : region h p (sizeof s);
  fl_below : p + sizeof s <= brk h0;
  fl_fields : fields h p s fvs;
  fl_frame x : x < brk h0 -> x < p \/ p + sizeof s <= x -> mem h !! x = mem h0 !! x;
  fl_blocks x : x < brk h0 -> blocks h !! x = blocks h0 !! x;
}.

Lemma filled_start p s h :
  heap_ok h -> region h p (sizeof s) -> 0 < sizeof s -> filled p s [] h h.
Proof.
  intros Hok Hr Hs. split; try done; [by apply region_bound|by constructor].
Qed.

Lemma fields_agree h h' p s fvs :
  (forall x, p <= x < p + sizeof s -> mem h' !! x = mem h !! x) ->
  fields h p s fvs -> fields h' p s fvs.
Proof.
  intros Hx Hf. eapply Forall_impl; [exact Hf|]. intros [f v] (o & t & Ho & Hg). exists o, t. split; [done|].
  rewrite <- Hg. apply get_agree. intros x Hr. apply Hx.
  pose proof (offsetof_bounds _ _ _ _ Ho). lia.
Qed.

Lemma filled_set p s fvs h0 h f v :
  filled p s fvs h0 h -> is_Some (offsetof s f) -> f ∉ fvs.*1 ->
  exists h', set_field s f p v h = Some (tt, h') /\ filled p s ((f, v) :: fvs) h0 h' /\
    brk h' = brk h /\ blocks h' = blocks h /\
    (forall x, x < p \/ p + sizeof s <= x -> mem h' !! x = mem h !! x).
Proof.
  intros [Hok Hbrk Hr Hbel Hf Hfr Hbl] [[o t] Ho] Hnew. unfold set_field. rewrite Ho.
  pose proof (offsetof_bounds _ _ _ _ Ho) as Hbnd.
  assert (region h (p + o) (Z.of_nat (length (le (width t) v)))) as Hro.
  { rewrite le_length. intros x Hx. apply Hr. lia. }
  rewrite (store_run _ _ _ Hro). eexists. split; [done|].
  assert (forall x, x < p \/ p + sizeof s <= x ->
    put (p + o) (le (width t) v) (mem h) !! x = mem h !! x) as Hout.
  { intros x Hx. apply put_other. rewrite le_length. lia. }
  split; [|done]. split; simpl; try done.
  - by apply heap_ok_put.
  - intros x Hx. apply put_is_Some. by apply Hr.
  - constructor.
    + exists o, t. split; [done|]. simpl.
      rewrite <- (le_length (width t) v) at 1. apply get_put_same.
    + apply Forall_forall. intros [g w] Hin. pose proof (proj1 (Forall_forall _ _) Hf _ Hin)
        as (o' & t' & Ho' & Hg). exists o', t'. split; [done|]. simpl in *. rewrite <- Hg.
      apply get_put_other. rewrite le_length.
      destruct (offset_from_disjoint 0 s f g o t o' t' Ho Ho').
      { intros ->. apply Hnew. by apply (list_elem_of_fmap_2 fst _ (g, w)). }
      all: lia.
  - intros x Hx Hx'. rewrite Hout by done. by apply Hfr.
Qed.

(** Allocating does not disturb it. *)
Lemma filled_frame p s fvs h0 h h' :
  filled p s fvs h0 h -> heap_ok h' -> brk h <= brk h' -> same_below (brk h) h h' ->
  filled p s fvs h0 h'.
Proof.
  intros [Hok Hbrk Hr Hbel Hf Hfr Hbl] Hok' Hb Hs. split; try done; try lia.
  - intros x Hx. rewrite (proj1 (Hs x ltac:(lia))). by apply Hr.
  - eapply fields_agree; [|done]. intros x Hx. by apply Hs; lia.
  - intros x Hx Hx'. rewrite (proj1 (Hs x ltac:(lia))). by apply Hfr.
  - intros x Hx. rewrite (proj2 (Hs x ltac:(lia))). by apply Hbl.
Qed.

(** A member is read at any type of its width. *)
Lemma fields_peek h p s fvs f v o t t' :
  fields h p s fvs -> (f, v) ∈ fvs -> offsetof s f = Some (o, t) -> width t' = width t ->
  peek t' s f p h = Some (wrap t' v, h).
Proof.
  intros Hf Hin Ho Hw. pose proof (proj1 (Forall_forall _ _) Hf _ Hin) as (o' & t1 & Ho' & Hg).
  simpl in *. rewrite Ho in Ho'. injection Ho' as <- <-.
  unfold peek, bind, load. rewrite Ho, Hw, Hg. simpl. unfold ret.
  by rewrite <- Hw, decode_le.
Qed.

(** The blocks above are as they were after members are assigned. *)
Lemma block_at_frame h h' q bs :
  block_at h q bs -> blocks h' !! q = blocks h !! q ->
  (forall x, q <= x < q + Z.of_nat (length bs) -> mem h' !! x = mem h !! x) -> block_at h' q bs.
Proof.
  intros (Hq & Hb & Hg) Hb' Hm. split; [done|]. split; [by rewrite Hb'|].
  rewrite <- Hg. by apply get_agree.
Qed.

Lemma string_at_frame h h' q bs :
  string_at h q bs -> blocks h' !! q = blocks h !! q ->
  (forall x, q <= x < q + Z.of_nat (length bs) -> mem h' !! x = mem h !! x) -> string_at h' q bs.
Proof. unfold string_at. case_bool_decide; [done|]. by apply block_at_frame. Qed.

(** The same with the member looked up. *)
Fixpoint assoc (f : string) (fvs : list (string * Z)) : option Z :=
  match fvs with
  | [] => None
  | (g, v) :: fvs => if String.eqb f g then Some v else assoc f fvs
  end.

Lemma peek_assoc h p s fvs f v o t t' :
  fields h p s fvs -> assoc f fvs = Some v -> offsetof s f = Some (o, t) -> width t' = width t ->
  peek t' s f p h = Some (wrap t' v, h).
Proof.
  intros Hf Ha. apply (fields_peek h p s fvs f v); [done|].
  clear Hf. induction fvs as [|[g w] fvs IH]; simpl in Ha; [done|].
  destruct (String.eqb_spec f g) as [->|]; [injection Ha as ->; apply elem_of_cons; by left|].
  apply elem_of_cons. right. by apply IH.
Qed.

End StoreMemory.
