(* ===== verification/StoreRecords.v ===== *)
(** * Records and callback data that cross from C++ to Haskell
      (structures of src/hstream-store/include/hs_logdevice.h; cbits/logdevice/
      hs_reader.cpp, hs_writer.cpp, hs_logconfigtypes.cpp,
      hs_versioned_config_store.cpp; HStream/Store/Internal/Types.hsc and
      LogDevice/Reader.hs)

    LogDevice's records and the results of asynchronous calls are written to
    memory of Haskell's as C structures, byte by byte as [StoreMemory] has it;
    payloads and messages are [malloc]ed by C++ and freed by Haskell. *)

From stdpp Require Import base gmap list strings.
From Stdlib Require Import ZArith Lia.
From S2P Require Import Prelude CheckpointStore Reader StoreMemory.
Import Reader StoreMemory.
Open Scope Z_scope.
Open Scope heap_scope.

Module StoreRecords.

(** ** Structures of hs_logdevice.h *)

Definition data_record_t : struct :=
  [("logid", uint64_t); ("lsn", uint64_t); ("timestamp", int64_t); ("batch_offset", int64_t);
   ("payload", pointer); ("payload_len", uint64_t); ("byte_offset", uint64_t)].
Definition gap_record_t : struct :=
  [("logid", uint64_t); ("gaptype", uint8_t); ("lo", uint64_t); ("hi", uint64_t)].
Definition log_tail_attributes_t : struct :=
  [("last_released_real_lsn", uint64_t); ("last_timestamp", int64_t); ("offsets", uint64_t)].
Definition append_cb_data_t : struct :=
  [("st", uint16_t); ("logid", uint64_t); ("lsn", uint64_t); ("timestamp", int64_t)].
Definition make_directory_cb_data_t : struct :=
  [("st", uint16_t); ("directory", pointer); ("failure_reason", pointer)].
Definition make_loggroup_cb_data_t : struct :=
  [("st", uint16_t); ("loggroup", pointer); ("failure_reason", pointer)].
Definition logsconfig_status_cb_data_t : struct :=
  [("st", uint16_t); ("version", uint64_t); ("failure_reason", pointer)].
Definition vcs_value_callback_data_t : struct :=
  [("st", uint16_t); ("val_len", int64_t); ("value", pointer)].
Definition vcs_write_callback_data_t : struct :=
  [("st", uint16_t); ("version", uint64_t); ("val_len", int64_t); ("value", pointer)].
Definition log_head_attributes_cb_data_t : struct :=
  [("st", uint16_t); ("head_attributes", pointer)].
Definition log_tail_attributes_cb_data_t : struct :=
  [("st", uint16_t); ("tail_attributes", pointer)].
Definition is_log_empty_cb_data_t : struct := [("st", uint16_t); ("empty", bool_t)].

(** ** What C++ writes *)

Section cpp.
Context `{!ReaderCodes}.

(** One turn of the loop of [READ]: [p] is [&data_out[i]]. *)
Definition write_record (p : Z) (r : DataRecord) : M unit :=
  set_field data_record_t "logid" p (d_logid r) ;;
  set_field data_record_t "lsn" p (d_lsn r) ;;
  set_field data_record_t "timestamp" p (d_timestamp r) ;;
  set_field data_record_t "batch_offset" p (d_batch_offset r) ;;
  let* payload := copyString (d_payload r) in
  set_field data_record_t "payload" p payload ;;
  set_field data_record_t "payload_len" p (Z.of_nat (length (d_payload r))) ;;
  set_field data_record_t "byte_offset" p (d_byte_offset r).

Fixpoint write_records (p : Z) (data : list DataRecord) : M unit :=
  match data with
  | [] => ret tt
  | r :: data => write_record p r ;; write_records (p + sizeof data_record_t) data
  end.

(** [READ], given what the reader's [read] left: the status it returns and
    [*len_out]. A failed assertion ends the process. *)
Definition READ_mem (asserts : bool) (rr : read_result) (data_out gap_out : Z) : M (Z * Z) :=
  if 0 <=? nread rr then
    write_records data_out (data rr) ;; ret (E_OK, nread rr)
  else if asserts && negb (err rr =? E_GAP) then undefined
  else if gap_out =? 0 then
    ret (if g_type (gap rr) =? GapType_DATALOSS then E_DATALOSS else E_OK, nread rr)
  else
    set_field gap_record_t "logid" gap_out (g_logid (gap rr)) ;;
    set_field gap_record_t "gaptype" gap_out (u8 (g_type (gap rr))) ;;
    set_field gap_record_t "lo" gap_out (g_lo (gap rr)) ;;
    set_field gap_record_t "hi" gap_out (g_hi (gap rr)) ;;
    ret (E_OK, nread rr).

(** The callbacks. [cb_data] is where the result goes, if not null. *)
Definition append_cb (cb_data st : Z) (r : DataRecord) : M unit :=
  if cb_data =? 0 then ret tt
  else
    set_field append_cb_data_t "st" cb_data st ;;
    set_field append_cb_data_t "logid" cb_data (d_logid r) ;;
    set_field append_cb_data_t "lsn" cb_data (d_lsn r) ;;
    set_field append_cb_data_t "timestamp" cb_data (d_timestamp r).

Definition logsconfig_status_cb (data st version : Z) (failure_reason : list Z) : M unit :=
  if data =? 0 then ret tt
  else
    set_field logsconfig_status_cb_data_t "st" data st ;;
    set_field logsconfig_status_cb_data_t "version" data version ;;
    let* s := strdup failure_reason in
    set_field logsconfig_status_cb_data_t "failure_reason" data s.

(** [new T] for an object of [n] bytes; [std::bad_alloc] ends the process. *)
Definition new_object (n : Z) : M Z :=
  let* p := malloc n in if p =? 0 then undefined else ret p.

(** The callbacks of [ld_client_make_loggroup] and [ld_client_make_directory]:
    the new object holds the unique pointer to the group or directory. *)
Definition make_loggroup_cb (data st : Z) (loggroup_ptr : bool) (failure_reason : list Z) : M unit :=
  if data =? 0 then ret tt
  else
    set_field make_loggroup_cb_data_t "st" data st ;;
    let* g := (if loggroup_ptr then new_object 8 else ret 0) in
    set_field make_loggroup_cb_data_t "loggroup" data g ;;
    let* s := strdup failure_reason in
    set_field make_loggroup_cb_data_t "failure_reason" data s.

Definition make_directory_cb (data st : Z) (directory_ptr : bool) (failure_reason : list Z) : M unit :=
  if data =? 0 then ret tt
  else
    set_field make_directory_cb_data_t "st" data st ;;
    let* g := (if directory_ptr then new_object 8 else ret 0) in
    set_field make_directory_cb_data_t "directory" data g ;;
    let* s := strdup failure_reason in
    set_field make_directory_cb_data_t "failure_reason" data s.

(** [get_head_attributes] and [ld_client_get_tail_attributes]; the tail is the
    sequence number, the time and the byte offset. *)
Definition head_attributes_cb (data st : Z) (head_attrs_ptr : bool) : M unit :=
  if data =? 0 then ret tt
  else
    set_field log_head_attributes_cb_data_t "st" data st ;;
    let* p := (if head_attrs_ptr then new_object 8 else ret 0) in
    set_field log_head_attributes_cb_data_t "head_attributes" data p.

Definition tail_attributes_cb (cb_data st : Z) (tail_attr_ptr : option (Z * Z * Z)) : M unit :=
  if cb_data =? 0 then ret tt
  else
    set_field log_tail_attributes_cb_data_t "st" cb_data st ;;
    match tail_attr_ptr with
    | Some (lsn, timestamp, offset) =>
        let* p := new_object (sizeof log_tail_attributes_t) in
        set_field log_tail_attributes_t "last_released_real_lsn" p lsn ;;
        set_field log_tail_attributes_t "last_timestamp" p timestamp ;;
        set_field log_tail_attributes_t "offsets" p offset ;;
        set_field log_tail_attributes_cb_data_t "tail_attributes" cb_data p
    | None => set_field log_tail_attributes_cb_data_t "tail_attributes" cb_data 0
    end.

(** The accessors of the tail. *)
Definition ld_client_get_tail_attributes_lsn (p : Z) : M Z :=
  peek uint64_t log_tail_attributes_t "last_released_real_lsn" p.
Definition ld_client_get_tail_attributes_last_timestamp (p : Z) : M Z :=
  peek int64_t log_tail_attributes_t "last_timestamp" p.
Definition ld_client_get_tail_attributes_bytes_offset (p : Z) : M Z :=
  peek uint64_t log_tail_attributes_t "offsets" p.
Definition free_logdevice_tail_attributes (p : Z) : M unit := free p.

(** The versioned config store: getting, and updating. *)
Definition vcs_value_cb (cb_data st : Z) (val : list Z) : M unit :=
  if cb_data =? 0 then ret tt
  else
    set_field vcs_value_callback_data_t "st" cb_data st ;;
    if st =? E_OK then
      set_field vcs_value_callback_data_t "val_len" cb_data (Z.of_nat (length val)) ;;
      let* s := copyString val in
      set_field vcs_value_callback_data_t "value" cb_data s
    else ret tt.

Definition vcs_write_cb (E_VERSION_MISMATCH cb_data st version : Z) (val : list Z) : M unit :=
  if cb_data =? 0 then ret tt
  else
    set_field vcs_write_callback_data_t "st" cb_data st ;;
    if (st =? E_OK) || (st =? E_VERSION_MISMATCH) then
      set_field vcs_write_callback_data_t "version" cb_data version ;;
      set_field vcs_write_callback_data_t "val_len" cb_data (Z.of_nat (length val)) ;;
      let* s := copyString val in
      set_field vcs_write_callback_data_t "value" cb_data s
    else ret tt.

Definition is_log_empty_cb (data st : Z) (empty : bool) : M unit :=
  if data =? 0 then ret tt
  else
    set_field is_log_empty_cb_data_t "st" data st ;;
    set_field is_log_empty_cb_data_t "empty" data (if empty then 1 else 0).
End cpp.

(** ** What Haskell reads *)

(** [DataRecord] of Types.hsc; a byte offset that was not asked for is
    invalid. *)
Inductive RecordByteOffset := ByteOffset (n : Z) | RecordByteOffsetInvalid.
Record HsDataRecord := {
  recordPayload : list Z; recordAttrLogID : Z; recordAttrLSN : Z; recordAttrTimestamp : Z;
  recordAttrBatchOffset : Z; recordAttrByteOffset : RecordByteOffset;
}.
Record HsGapRecord := { gapLogID : Z; gapType : Z; gapLoLSN : Z; gapHiLSN : Z }.
Record AppendCallBackData := {
  appendCbRetCode : Z; appendCbLogID : Z; appendCbLSN : Z; appendCbTimestamp : Z;
}.
Record LogsConfigStatusCbData := {
  logsConfigCbRetCode : Z; logsConfigCbVersion : Z; logsConfigCbFailInfo : list Z;
}.
Record MakeLogGroupCbData := {
  makeLogGroupCbRetCode : Z; makeLogGroupCbGrpPtr : Z; makeLogGroupFailInfo : list Z;
}.
Record MakeDirectoryCbData := {
  makeDirectoryCbRetCode : Z; makeDirectoryCbDirPtr : Z; makeDirectoryFailInfo : list Z;
}.
Record VcsWriteCallbackData := {
  vcsWriteCallbackSt : Z; vcsWriteCallbackVersion : Z; vcsWriteCallbackValue : list Z;
}.

(** LogDevice's codes that only Haskell uses. *)
Class TypesCodes := { C_BYTE_OFFSET_INVALID : Z; C_VERSION_MISMATCH : Z }.
Definition C_EMPTY_VERSION : Z := 0.

Section haskell.
Context `{!ReaderCodes, !TypesCodes}.

Definition byte_offset_of (x : Z) : RecordByteOffset :=
  if x =? C_BYTE_OFFSET_INVALID then RecordByteOffsetInvalid else ByteOffset x.

Definition peekDataRecordAttr (payload : list Z) (ptr : Z) : M HsDataRecord :=
  let* logid := peek uint64_t data_record_t "logid" ptr in
  let* lsn := peek uint64_t data_record_t "lsn" ptr in
  let* timestamp := peek int64_t data_record_t "timestamp" ptr in
  let* batchOffset := peek int64_t data_record_t "batch_offset" ptr in
  let* byteOffset := peek uint64_t data_record_t "byte_offset" ptr in
  ret {| recordPayload := payload; recordAttrLogID := logid; recordAttrLSN := lsn;
         recordAttrTimestamp := timestamp; recordAttrBatchOffset := batchOffset;
         recordAttrByteOffset := byte_offset_of byteOffset |}.

(** [payload_len] is read as an [Int]. *)
Definition peekDataRecord (ptr offset : Z) : M HsDataRecord :=
  let ptr' := ptr + offset * sizeof data_record_t in
  let* len := peek int64_t data_record_t "payload_len" ptr' in
  let* payload_ptr := peek pointer data_record_t "payload" ptr' in
  let* payload := fromPtr payload_ptr len in
  let* r := peekDataRecordAttr payload ptr' in
  let* payload_ptr := peek pointer data_record_t "payload" ptr' in
  free payload_ptr ;; ret r.

(** [forM [0..len-1] (peekDataFromPtr ptr)] *)
Fixpoint peek_from (ptr i : Z) (len : nat) : M (list HsDataRecord) :=
  match len with
  | O => ret []
  | S len =>
      let* r := peekDataRecord ptr i in
      let* rs := peek_from ptr (i + 1) len in
      ret (r :: rs)
  end.
Definition peekDataRecords (len ptr : Z) : M (list HsDataRecord) := peek_from ptr 0 (Z.to_nat len).

Definition peekGapRecord (ptr : Z) : M HsGapRecord :=
  let* logid := peek uint64_t gap_record_t "logid" ptr in
  let* gaptype := peek uint8_t gap_record_t "gaptype" ptr in
  let* lo := peek uint64_t gap_record_t "lo" ptr in
  let* hi := peek uint64_t gap_record_t "hi" ptr in
  ret {| gapLogID := logid; gapType := gaptype; gapLoLSN := lo; gapHiLSN := hi |}.

(** An exception carries LogDevice's code. *)
Definition outcome (A : Type) : Type := (Z + A)%type.

(** [tryReaderRead'], on what the reader's [read] leaves. *)
Definition tryReaderRead' (asserts : bool) (rr : read_result) (record gap : Z) :
    M (outcome (option HsGapRecord + list HsDataRecord)) :=
  let* out := READ_mem asserts rr record gap in
  if negb (out.1 =? E_OK) then ret (inl out.1)
  else if 0 <? out.2 then let* rs := peekDataRecords out.2 record in ret (inr (inr rs))
  else if out.2 =? 0 then ret (inr (inr []))
  else if gap =? 0 then ret (inr (inl None))
  else let* g := peekGapRecord gap in ret (inr (inl (Some g))).

(** [allocaBytes]: the memory is given back when the action returns or throws. *)
Definition allocaBytes {A} (n : Z) (f : Z -> M A) : M A :=
  let* p := malloc n in
  if p =? 0 then undefined
  else let* a := f p in free p ;; ret a.

(** [readerRead]: [results] are what successive reads leave; [None]: it is
    waiting for the next. *)
Fixpoint read_go (asserts : bool) (results : list read_result) (pp : Z) :
    M (option (outcome (list HsDataRecord))) :=
  match results with
  | [] => ret None
  | rr :: results =>
      let* m_records := tryReaderRead' asserts rr pp 0 in
      match m_records with
      | inl code => ret (Some (inl code))
      | inr (inr rs) => ret (Some (inr rs))
      | inr (inl _) => read_go asserts results pp
      end
  end.
Definition readerRead (asserts : bool) (results : list read_result) (maxlen : Z) :
    M (option (outcome (list HsDataRecord))) :=
  allocaBytes (maxlen * sizeof data_record_t) (read_go asserts results).

(** [readerReadSome]: at most [maxretries] reads. *)
Fixpoint some_go (asserts : bool) (results : list read_result) (retries : nat) (pp : Z) :
    M (option (outcome (list HsDataRecord))) :=
  match retries with
  | O => ret (Some (inr []))
  | S retries =>
      match results with
      | [] => ret None
      | rr :: results =>
          let* m_records := tryReaderRead' asserts rr pp 0 in
          match m_records with
          | inl code => ret (Some (inl code))
          | inr (inr []) | inr (inl _) => some_go asserts results retries pp
          | inr (inr rs) => ret (Some (inr rs))
          end
      end
  end.
Definition readerReadSome (asserts : bool) (results : list read_result) (maxlen : Z)
    (maxretries : nat) : M (option (outcome (list HsDataRecord))) :=
  allocaBytes (maxlen * sizeof data_record_t) (some_go asserts results maxretries).

(** [readerReadAllowGap]; where [refineLogRecord] calls [error] the model is
    [undefined]. *)
Definition refineLogRecord (r : outcome (option HsGapRecord + list HsDataRecord)) :
    M (outcome (HsGapRecord + list HsDataRecord)) :=
  match r with
  | inl code => ret (inl code)
  | inr (inl (Some g)) => ret (inr (inl g))
  | inr (inl None) => undefined
  | inr (inr payload) => ret (inr (inr payload))
  end.
Definition readerReadAllowGap (asserts : bool) (rr : read_result) (maxlen : Z) :
    M (outcome (HsGapRecord + list HsDataRecord)) :=
  allocaBytes (maxlen * sizeof data_record_t) (fun payload =>
  allocaBytes (sizeof gap_record_t) (fun gap =>
    let* r := tryReaderRead' asserts rr payload gap in refineLogRecord r)).

Definition peekAppendCallBackData (ptr : Z) : M AppendCallBackData :=
  let* retcode := peek uint16_t append_cb_data_t "st" ptr in
  let* logid := peek uint64_t append_cb_data_t "logid" ptr in
  let* lsn := peek uint64_t append_cb_data_t "lsn" ptr in
  let* ts := peek int64_t append_cb_data_t "timestamp" ptr in
  ret {| appendCbRetCode := retcode; appendCbLogID := logid; appendCbLSN := lsn;
         appendCbTimestamp := ts |}.

Definition peekLogsConfigStatusCbData (ptr : Z) : M LogsConfigStatusCbData :=
  let* retcode := peek uint16_t logsconfig_status_cb_data_t "st" ptr in
  let* version := peek uint64_t logsconfig_status_cb_data_t "version" ptr in
  let* failinfo_ptr := peek pointer logsconfig_status_cb_data_t "failure_reason" ptr in
  let* failinfo := fromCString failinfo_ptr in
  free failinfo_ptr ;;
  ret {| logsConfigCbRetCode := retcode; logsConfigCbVersion := version;
         logsConfigCbFailInfo := failinfo |}.

Definition peekMakeLogGroupCbData (ptr : Z) : M MakeLogGroupCbData :=
  let* retcode := peek uint16_t make_loggroup_cb_data_t "st" ptr in
  let* loggroup_ptr := peek pointer make_loggroup_cb_data_t "loggroup" ptr in
  let* failinfo_ptr := peek pointer make_loggroup_cb_data_t "failure_reason" ptr in
  let* failinfo := fromCString failinfo_ptr in
  let* failinfo_ptr := peek pointer make_loggroup_cb_data_t "failure_reason" ptr in
  free failinfo_ptr ;;
  ret {| makeLogGroupCbRetCode := retcode; makeLogGroupCbGrpPtr := loggroup_ptr;
         makeLogGroupFailInfo := failinfo |}.

Definition peekMakeDirectoryCbData (ptr : Z) : M MakeDirectoryCbData :=
  let* retcode := peek uint16_t make_directory_cb_data_t "st" ptr in
  let* directory_ptr := peek pointer make_directory_cb_data_t "directory" ptr in
  let* failinfo_ptr := peek pointer make_directory_cb_data_t "failure_reason" ptr in
  let* failinfo := fromCString failinfo_ptr in
  free failinfo_ptr ;;
  ret {| makeDirectoryCbRetCode := retcode; makeDirectoryCbDirPtr := directory_ptr;
         makeDirectoryFailInfo := failinfo |}.

Definition peekLogHeadAttrsCbData (ptr : Z) : M (Z * Z) :=
  let* retcode := peek uint16_t log_head_attributes_cb_data_t "st" ptr in
  let* p := peek pointer log_head_attributes_cb_data_t "head_attributes" ptr in
  ret (retcode, p).

Definition peekLogTailAttrsCbData (ptr : Z) : M (Z * Z) :=
  let* retcode := peek uint16_t log_tail_attributes_cb_data_t "st" ptr in
  let* p := peek pointer log_tail_attributes_cb_data_t "tail_attributes" ptr in
  ret (retcode, p).

Definition peekIsLogEmptyCbData (ptr : Z) : M (Z * Z) :=
  let* retcode := peek uint16_t is_log_empty_cb_data_t "st" ptr in
  let* empty := peek bool_t is_log_empty_cb_data_t "empty" ptr in
  ret (retcode, empty).

Definition peekVcsValueCallbackData (ptr : Z) : M (Z * list Z) :=
  let* st := peek uint16_t vcs_value_callback_data_t "st" ptr in
  if st =? E_OK then
    let* len := peek int64_t vcs_value_callback_data_t "val_len" ptr in
    let* p := peek pointer vcs_value_callback_data_t "value" ptr in
    let* value := fromPtr p len in
    let* p := peek pointer vcs_value_callback_data_t "value" ptr in
    free p ;; ret (st, value)
  else ret (st, []).

(** [getSt] takes the offset of the other structure. *)
Definition peekVcsWriteCallbackData (ptr : Z) : M VcsWriteCallbackData :=
  let* st := peek uint16_t vcs_value_callback_data_t "st" ptr in
  if (st =? E_OK) || (st =? C_VERSION_MISMATCH) then
    let* version := peek uint64_t vcs_write_callback_data_t "version" ptr in
    let* len := peek int64_t vcs_write_callback_data_t "val_len" ptr in
    let* p := peek pointer vcs_write_callback_data_t "value" ptr in
    let* value := fromPtr p len in
    let* p := peek pointer vcs_write_callback_data_t "value" ptr in
    free p ;;
    ret {| vcsWriteCallbackSt := st; vcsWriteCallbackVersion := version;
           vcsWriteCallbackValue := value |}
  else
    ret {| vcsWriteCallbackSt := st; vcsWriteCallbackVersion := C_EMPTY_VERSION;
           vcsWriteCallbackValue := [] |}.

(** [withAsync']: memory for the result, which the callback fills before the
    waiting thread reads it. *)
Definition withAsync' {A} (size : Z) (peek_data : Z -> M A) (callback : Z -> M unit) : M A :=
  allocaBytes size (fun p => callback p ;; peek_data p).
End haskell.

(** ** Writing *)

Ltac new_member := apply (bool_decide_unpack _); vm_compute; exact I.
Ltac is_member := vm_compute; eexists; reflexivity.

(** The next assignment to the structure that [HF] says is being filled. *)
Ltac set_next HF h' Hb Hbl Hm :=
  match type of HF with
  | filled ?p ?s ?fvs ?h0 ?h =>
      match goal with
      | |- context [set_field s ?f p ?v] =>
          let E := fresh "E" in let HF' := fresh "HF" in
          destruct (filled_set p s fvs h0 h f v HF) as (h' & E & HF' & Hb & Hbl & Hm);
          [is_member|new_member|];
          first [rewrite (heap_bind _ _ _ _ _ E) | rewrite E]; clear E HF; rename HF' into HF
      end
  end.

Definition record_fields (r : DataRecord) (q : Z) : list (string * Z) :=
  [("byte_offset", d_byte_offset r); ("payload_len", Z.of_nat (length (d_payload r)));
   ("payload", q); ("batch_offset", d_batch_offset r); ("timestamp", d_timestamp r);
   ("lsn", d_lsn r); ("logid", d_logid r)].

(** What [write_record] leaves. *)
Record written (p : Z) (r : DataRecord) (h : heap) (q : Z) (h' : heap) : Prop := {
  wr_filled : filled p data_record_t (record_fields r q) h h';
  wr_brk : brk h' = brk h + Z.of_nat (length (d_payload r));
  wr_payload : string_at h' q (d_payload r);
  wr_ptr : q = if bool_decide (d_payload r = []) then 0 else brk h;
  wr_blocks x : x <> q -> blocks h' !! x = blocks h !! x;
}.

Lemma write_record_run p r h :
  heap_ok h -> region h p (sizeof data_record_t) ->
  brk h + Z.of_nat (length (d_payload r)) <= ADDRESS_END ->
  exists q h', write_record p r h = Some (tt, h') /\ written p r h q h'.
Proof.
  intros Hok Hr Hroom. pose proof (filled_start p data_record_t h Hok Hr eq_refl) as HF.
  unfold write_record.
  set_next HF h1 Eb1 Ebl1 Em1. set_next HF h2 Eb2 Ebl2 Em2.
  set_next HF h3 Eb3 Ebl3 Em3. set_next HF h4 Eb4 Ebl4 Em4.
  assert (brk h4 = brk h) as Eb by congruence.
  assert (blocks h4 = blocks h) as Ebl by congruence.
  destruct (copyString_run (d_payload r) h4 (fl_ok _ _ _ _ _ HF)) as
    (q & h5 & Ec & Hok5 & Hb5 & Hs5 & Hstr & Hq & Hother); [by rewrite Eb|].
  rewrite (heap_bind _ _ _ _ _ Ec).
  apply (filled_frame _ _ _ _ _ h5) in HF; [|done|lia|done].
  pose proof (fl_below _ _ _ _ _ HF) as Hbel.
  set_next HF h6 Eb6 Ebl6 Em6. set_next HF h7 Eb7 Ebl7 Em7. set_next HF h8 Eb8 Ebl8 Em8.
  exists q, h8. split; [done|]. split; [done|congruence| | |].
  - eapply string_at_frame; [exact Hstr|by rewrite Ebl8, Ebl7, Ebl6|].
    intros x Hx. rewrite Em8, Em7, Em6; [done|..]; rewrite Hq in Hx;
      case_bool_decide as He; rewrite ?He in Hx; simpl in Hx; lia.
  - by rewrite Hq, Eb.
  - intros x Hx. by rewrite Ebl8, Ebl7, Ebl6, Hother, Ebl.
Qed.

(** The records in the array at [a]; their payloads follow one another from
    [base]. *)
Fixpoint records_at (h : heap) (a base : Z) (rs : list DataRecord) : Prop :=
  match rs with
  | [] => True
  | r :: rs =>
      (exists q, fields h a data_record_t (record_fields r q) /\ string_at h q (d_payload r) /\
         q = if bool_decide (d_payload r = []) then 0 else base) /\
      (forall x, base < x < base + Z.of_nat (length (d_payload r)) -> blocks h !! x = None) /\
      records_at h (a + sizeof data_record_t) (base + Z.of_nat (length (d_payload r))) rs
  end.
Definition total (rs : list DataRecord) : Z :=
  foldr (fun r n => Z.of_nat (length (d_payload r)) + n) 0 rs.
Definition array_size (n : nat) : Z := sizeof data_record_t * Z.of_nat n.

Lemma total_nonneg rs : 0 <= total rs.
Proof. induction rs as [|r rs IH]; simpl; lia. Qed.

Lemma records_at_frame h h' a base rs :
  0 < base ->
  (forall x, a <= x < a + array_size (length rs) -> mem h' !! x = mem h !! x) ->
  (forall x, base <= x < base + total rs -> mem h' !! x = mem h !! x /\ blocks h' !! x = blocks h !! x) ->
  records_at h a base rs -> records_at h' a base rs.
Proof.
  revert a base. induction rs as [|r rs IH]; intros a base Hb Ha Hp; [done|].
  pose proof (total_nonneg rs). unfold array_size in *. simpl in Hp.
  change (length (r :: rs)) with (S (length rs)) in Ha. change (sizeof data_record_t) with 56 in *.
  intros ((q & Hf & Hs & Hq) & Hin & Hrs). split; [|split].
  - exists q. split; [|split; [|done]].
    + eapply fields_agree; [|exact Hf]. change (sizeof data_record_t) with 56. intros x Hx. apply Ha. lia.
    + revert Hs. unfold string_at. case_bool_decide as He; [done|]. subst q. intros Hs.
      assert (0 < Z.of_nat (length (d_payload r))) by (destruct (d_payload r); simpl; [done|lia]).
      eapply block_at_frame; [exact Hs|apply Hp; lia|]. intros x Hx. apply Hp. lia.
  - intros x Hx. rewrite (proj2 (Hp x ltac:(lia))). by apply Hin.
  - apply IH; [lia| | |done].
    + intros x Hx. apply Ha. change (sizeof data_record_t) with 56 in *. lia.
    + intros x Hx. apply Hp. lia.
Qed.

Lemma write_records_run p rs h :
  heap_ok h -> region h p (array_size (length rs)) -> p + array_size (length rs) <= brk h ->
  brk h + total rs <= ADDRESS_END ->
  exists h', write_records p rs h = Some (tt, h') /\ heap_ok h' /\ brk h' = brk h + total rs /\
    records_at h' p (brk h) rs /\
    (forall x, x < brk h -> x < p \/ p + array_size (length rs) <= x -> mem h' !! x = mem h !! x) /\
    (forall x, x < brk h -> is_Some (mem h !! x) -> is_Some (mem h' !! x)) /\
    (forall x, x < brk h -> blocks h' !! x = blocks h !! x).
Proof.
  revert p h. induction rs as [|r rs IH]; intros p h Hok Hr Hbel Hroom.
  { exists h. simpl. by rewrite Z.add_0_r. }
  pose proof (total_nonneg rs). unfold array_size in *. simpl in Hroom.
  change (length (r :: rs)) with (S (length rs)) in *. change (sizeof data_record_t) with 56 in *.
  destruct (write_record_run p r h Hok) as (q & h1 & E1 & [HF Hb1 Hs1 Hq1 Hbl1]).
  { intros x Hx. apply Hr. change (sizeof data_record_t) with 56 in *. lia. }
  { lia. }
  destruct HF as [Hok1 Hbrk1 Hreg1 _ Hf1 Hfr1 Hfb1]. change (sizeof data_record_t) with 56 in *.
  assert (forall x, x < brk h -> is_Some (mem h !! x) -> is_Some (mem h1 !! x)) as Hkeep.
  { intros x Hx Hx'. destruct (decide (p <= x < p + 56)); [by apply Hreg1|]. rewrite Hfr1; [done|lia|lia]. }
  destruct (IH (p + 56) h1 Hok1) as (h2 & E2 & Hok2 & Hb2 & Hrs & Hfr2 & Hk2 & Hbl2).
  { intros x Hx. apply Hkeep; [lia|]. apply Hr. lia. }
  { lia. }
  { lia. }
  exists h2. split; [simpl; by rewrite (heap_bind _ _ _ _ _ E1)|]. split; [done|].
  split; [simpl; lia|]. split; [split; [|split]|split; [|split]].
  - exists q. split; [|split; [|done]].
    + eapply fields_agree; [|exact Hf1]. change (sizeof data_record_t) with 56.
      intros x Hx. apply Hfr2; lia.
    + revert Hs1. unfold string_at. case_bool_decide as He; [done|]. subst q. intros Hs1.
      assert (0 < Z.of_nat (length (d_payload r))) by (destruct (d_payload r); simpl; [done|lia]).
      eapply block_at_frame; [exact Hs1|apply Hbl2; lia|]. intros x Hx. apply Hfr2; lia.
  - intros x Hx. rewrite Hbl2 by lia. rewrite Hbl1; [by apply Hok; lia|].
    rewrite Hq1. case_bool_decide; destruct Hok; lia.
  - change (sizeof data_record_t) with 56. by rewrite <- Hb1.
  - intros x Hx Ho. rewrite Hfr2 by lia. apply Hfr1; lia.
  - intros x Hx Hx'. apply Hk2; [lia|]. by apply Hkeep.
  - intros x Hx. rewrite Hbl2 by lia. by apply Hfb1.
Qed.

(** ** Reading *)

(** The next [#peek] of the structure that [Hf] describes. *)
Ltac peek_next Hf :=
  match type of Hf with
  | fields ?h ?p ?s ?fvs =>
      match goal with
      | |- context [bind (peek ?t s ?f p) _ h] =>
          erewrite (heap_bind (peek t s f p) _ h _ h);
          [|eapply (peek_assoc h p s fvs f); [exact Hf|reflexivity|vm_compute; reflexivity|reflexivity]];
          cbn beta
      end
  end.

Section reading.
Context `{!ReaderCodes, !TypesCodes}.

(** The record that Haskell should see. *)
Definition hs_record (r : DataRecord) : HsDataRecord :=
  {| recordPayload := d_payload r; recordAttrLogID := d_logid r; recordAttrLSN := d_lsn r;
     recordAttrTimestamp := d_timestamp r; recordAttrBatchOffset := d_batch_offset r;
     recordAttrByteOffset := byte_offset_of (d_byte_offset r) |}.

(** The members of LogDevice's records are of these types. *)
Definition record_ok (r : DataRecord) : Prop :=
  is_u64 (d_logid r) /\ is_u64 (d_lsn r) /\ is_i64 (d_timestamp r) /\ is_i64 (d_batch_offset r) /\
  is_u64 (d_byte_offset r) /\ Z.of_nat (length (d_payload r)) < 2 ^ 63.

Lemma peekDataRecordAttr_run h a r q :
  record_ok r -> fields h a data_record_t (record_fields r q) ->
  peekDataRecordAttr (d_payload r) a h = Some (hs_record r, h).
Proof.
  intros (H1 & H2 & H3 & H4 & H5 & _) Hf. unfold peekDataRecordAttr.
  do 5 peek_next Hf. unfold ret, hs_record, wrap.
  by rewrite !u64_id, !i64_id.
Qed.

(** What freeing the payload at [base] leaves. *)
Definition released (base len : Z) (h h' : heap) : Prop :=
  heap_ok h' /\ brk h' = brk h /\
  (forall x, x < base \/ base + len <= x -> mem h' !! x = mem h !! x /\ blocks h' !! x = blocks h !! x) /\
  (forall x, base <= x < base + len -> mem h' !! x = None /\ blocks h' !! x = None).

Lemma free_payload h q base bs :
  heap_ok h -> string_at h q bs -> q = (if bool_decide (bs = []) then 0 else base) ->
  (forall x, base < x < base + Z.of_nat (length bs) -> blocks h !! x = None) ->
  exists h', free q h = Some (tt, h') /\ released base (Z.of_nat (length bs)) h h'.
Proof.
  intros Hok Hs Hq Hin. unfold string_at in Hs. case_bool_decide as He.
  - exists h. subst. split; [done|]. split; [done|]. split; [done|]. split; [done|]. simpl. lia.
  - destruct Hs as (Hp & Hb & _). subst q.
    assert (0 < Z.of_nat (length bs)) by (destruct bs; simpl; [done|lia]).
    destruct (free_run _ _ _ Hok Hp Hb) as (h' & E & Hok' & Hbrk & Hm1 & Hm2 & Hb1 & Hb2).
    exists h'. split; [done|]. split; [done|]. split; [done|]. split; intros x Hx.
    + split; [by apply Hm2|]. apply Hb2. lia.
    + split; [by apply Hm1|]. destruct (decide (x = base)) as [->|]; [done|].
      rewrite Hb2 by done. apply Hin. lia.
Qed.

Lemma peekDataRecord_run ptr i r rs h base :
  heap_ok h -> record_ok r -> 0 < base ->
  base + Z.of_nat (length (d_payload r)) <= ADDRESS_END ->
  records_at h (ptr + i * sizeof data_record_t) base (r :: rs) ->
  exists h', peekDataRecord ptr i h = Some (hs_record r, h') /\
    released base (Z.of_nat (length (d_payload r))) h h'.
Proof.
  intros Hok Hr Hb Hend ((q & Hf & Hs & Hq) & Hin & _). unfold peekDataRecord.
  cbv zeta. set (a := ptr + i * sizeof data_record_t) in *. do 2 peek_next Hf.
  assert (wrap pointer q = q) as Eq.
  { unfold wrap. apply u64_id. rewrite Hq. unfold is_u64. case_bool_decide; [lia|].
    assert (0 < Z.of_nat (length (d_payload r))) by (destruct (d_payload r); simpl; [done|lia]).
    unfold ADDRESS_END in *. lia. }
  assert (wrap int64_t (Z.of_nat (length (d_payload r))) = Z.of_nat (length (d_payload r))) as El.
  { unfold wrap. apply i64_id. destruct Hr as (_ & _ & _ & _ & _ & Hl). unfold is_i64. lia. }
  rewrite Eq, El. rewrite (heap_bind _ _ _ _ _ (fromPtr_run _ _ _ Hs)).
  rewrite (heap_bind _ _ _ _ _ (peekDataRecordAttr_run _ _ _ _ Hr Hf)).
  peek_next Hf. rewrite Eq. destruct (free_payload _ _ _ _ Hok Hs Hq Hin) as (h' & E & Hrel).
  exists h'. split; [|done]. by rewrite (heap_bind _ _ _ _ _ E).
Qed.

Lemma peek_from_run ptr i rs h base :
  heap_ok h -> Forall record_ok rs -> 0 < base -> base + total rs <= ADDRESS_END ->
  ptr + i * sizeof data_record_t + array_size (length rs) <= base ->
  records_at h (ptr + i * sizeof data_record_t) base rs ->
  exists h', peek_from ptr i (length rs) h = Some (hs_record <$> rs, h') /\
    released base (total rs) h h'.
Proof.
  revert i h base. induction rs as [|r rs IH]; intros i h base Hok Hall Hb Hend Harr Hrs.
  { exists h. split; [done|]. split; [done|]. split; [done|]. split; [done|]. simpl. lia. }
  inversion Hall as [|? ? Hr Hall']; subst. simpl in Hend. pose proof (total_nonneg rs).
  destruct (peekDataRecord_run ptr i r rs h base Hok Hr Hb ltac:(lia) Hrs)
    as (h1 & E1 & Hok1 & Hb1 & Hout1 & Hin1).
  destruct Hrs as (_ & _ & Hrs). unfold array_size in *.
  change (length (r :: rs)) with (S (length rs)) in *.
  set (k := sizeof data_record_t) in *. assert (k = 56) as Ek by done. clearbody k.
  replace (ptr + i * k + k) with (ptr + (i + 1) * k) in Hrs by lia.
  destruct (IH (i + 1) h1 (base + Z.of_nat (length (d_payload r))) Hok1 Hall')
    as (h2 & E2 & Hok2 & Hb2 & Hout2 & Hin2); [lia|lia|lia| |].
  { eapply records_at_frame; [lia| | |exact Hrs]; unfold array_size; intros x Hx.
    - change (sizeof data_record_t) with 56 in Hx. apply Hout1. lia.
    - apply Hout1. lia. }
  exists h2. split.
  - simpl. rewrite (heap_bind _ _ _ _ _ E1). by rewrite (heap_bind _ _ _ _ _ E2).
  - split; [done|]. split; [congruence|]. simpl. split; intros x Hx.
    + destruct (Hout2 x ltac:(lia)) as [-> ->]. apply Hout1. lia.
    + destruct (decide (x < base + Z.of_nat (length (d_payload r)))).
      * destruct (Hout2 x ltac:(lia)) as [-> ->]. apply Hin1. lia.
      * apply Hin2. lia.
Qed.

(** A computation that changes only the memory in [R] of what was there, and
    gives back what it allocates. *)
Record kept (R : Z -> Prop) (h h' : heap) : Prop := {
  kp_ok : heap_ok h';
  kp_brk : brk h <= brk h';
  kp_alloc x : x < brk h -> is_Some (mem h !! x) -> is_Some (mem h' !! x);
  kp_frame x : x < brk h -> ~ R x -> mem h' !! x = mem h !! x;
  kp_blocks x : x < brk h -> blocks h' !! x = blocks h !! x;
  kp_above x : brk h <= x -> mem h' !! x = None /\ blocks h' !! x = None;
}.
Definition within (p n x : Z) : Prop := p <= x < p + n.

Lemma kept_refl R h : heap_ok h -> kept R h h.
Proof. intros Hok. split; try done. apply Hok. Qed.

Lemma kept_weaken (R R' : Z -> Prop) h h' :
  (forall x, x < brk h -> R x -> R' x) -> kept R h h' -> kept R' h h'.
Proof. intros HR [H1 H2 H3 H4 H5 H6]. split; try done. intros x Hx Hn. apply H4; [done|]. naive_solver. Qed.

Lemma kept_trans R h h1 h2 : kept R h h1 -> brk h1 = brk h -> kept R h1 h2 -> kept R h h2.
Proof.
  intros [H1 H2 H3 H4 H5 H6] Hb [G1 G2 G3 G4 G5 G6]. rewrite Hb in *.
  split; try done; try lia; auto.
  - intros x Hx Hn. rewrite G4, H4; done.
  - intros x Hx. rewrite G5, H5; done.
Qed.

(** The caller's memory after a call: everything is given back. *)
Definition restored (h h' : heap) : Prop := mem h' = mem h /\ blocks h' = blocks h /\ heap_ok h'.

Lemma kept_restored h h' : heap_ok h -> kept (fun _ => False) h h' -> restored h h'.
Proof.
  intros Hok [H1 H2 _ H4 H5 H6]. split; [|split; [|done]]; apply map_eq; intros x;
    (destruct (decide (x < brk h)); [auto|]);
    (rewrite (proj1 (H6 x ltac:(lia))) || rewrite (proj2 (H6 x ltac:(lia))));
    symmetry; apply Hok; lia.
Qed.

Lemma alloca_kept {A} R n (f : Z -> M A) h a :
  heap_ok h -> 0 < n -> brk h + n <= ADDRESS_END ->
  (forall h1, heap_ok h1 -> region h1 (brk h) n -> brk h1 = brk h + n -> same_below (brk h) h h1 ->
     exists h2, f (brk h) h1 = Some (a, h2) /\ kept (fun x => R x \/ within (brk h) n x) h1 h2) ->
  exists h', allocaBytes n f h = Some (a, h') /\ kept R h h'.
Proof.
  intros Hok Hn Hroom Hf. unfold allocaBytes.
  destruct (malloc_run n h Hok Hn Hroom) as (h1 & E1 & Hok1 & Hb1 & Hs1 & Hr1 & Hblk1 & Hoth1).
  rewrite (heap_bind _ _ _ _ _ E1). pose proof Hok as [Hpos Hnone].
  rewrite (proj2 (Z.eqb_neq _ _)) by lia.
  destruct (Hf h1 Hok1 Hr1 Hb1 Hs1) as (h2 & E2 & [Hok2 Hb2 Hal2 Hfr2 Hbl2 Hab2]).
  rewrite (heap_bind _ _ _ _ _ E2).
  destruct (free_run (brk h) n h2 Hok2) as (h3 & E3 & Hok3 & Hb3 & Hi3 & Ho3 & Hd3 & He3);
    [lia|by rewrite Hbl2 by lia|].
  rewrite (heap_bind _ _ _ _ _ E3). exists h3. split; [done|].
  split; [done|lia| | | |]; intros x Hx.
  - intros Hx'. rewrite Ho3 by lia. apply Hal2; [lia|]. by rewrite (proj1 (Hs1 x Hx)).
  - intros HR. rewrite Ho3 by lia. rewrite Hfr2; [by apply Hs1|lia|]. unfold within. intros [?|?]; [done|lia].
  - rewrite He3 by lia. rewrite Hbl2 by lia. by apply Hs1.
  - destruct (decide (x < brk h + n)).
    + split; [apply Hi3; lia|]. destruct (decide (x = brk h)) as [->|]; [done|].
      rewrite He3 by done. rewrite Hbl2 by lia. rewrite Hoth1 by done. apply Hnone. lia.
    + rewrite Ho3, He3 by lia. apply Hab2. lia.
Qed.

Lemma alloca_restores {A} n (f : Z -> M A) h a :
  heap_ok h -> 0 < n -> brk h + n <= ADDRESS_END ->
  (forall h1, heap_ok h1 -> region h1 (brk h) n -> brk h1 = brk h + n ->
     exists h2, f (brk h) h1 = Some (a, h2) /\ kept (within (brk h) n) h1 h2) ->
  exists h', allocaBytes n f h = Some (a, h') /\ restored h h'.
Proof.
  intros Hok Hn Hroom Hf.
  destruct (alloca_kept (fun _ => False) n f h a Hok Hn Hroom) as (h' & E & Hk).
  - intros h1 H1 H2 H3 _. destruct (Hf h1 H1 H2 H3) as (h2 & E & Hk). exists h2. split; [done|].
    eapply kept_weaken; [|done]. auto.
  - exists h'. split; [done|]. by apply kept_restored.
Qed.

(** What LogDevice's [read] may leave: up to [maxlen] records, or a gap. *)
Definition result_ok (maxlen : Z) (rr : read_result) : Prop :=
  (nread rr < 0 /\ err rr = E_GAP) \/
  (nread rr = Z.of_nat (length (data rr)) /\ nread rr <= maxlen /\ Forall record_ok (data rr)).

(** A gap that [readerRead] passes over. *)
Definition skipped (rr : read_result) : bool :=
  (nread rr <? 0) && negb (g_type (gap rr) =? GapType_DATALOSS).

Lemma try_records asserts maxlen rr p g h :
  result_ok maxlen rr -> 0 <= nread rr -> heap_ok h ->
  region h p (maxlen * sizeof data_record_t) -> brk h + total (data rr) <= ADDRESS_END ->
  exists h', tryReaderRead' asserts rr p g h = Some (inr (inr (hs_record <$> data rr)), h') /\
    kept (within p (maxlen * sizeof data_record_t)) h h'.
Proof.
  intros [[? _]|(Hn & Hmax & Hall)] Hpos Hok Hr Hroom; [lia|].
  change (sizeof data_record_t) with 56 in *.
  unfold tryReaderRead', READ_mem. rewrite (proj2 (Z.leb_le _ _) Hpos).
  destruct (decide (data rr = [])) as [He|Hne].
  { rewrite He in *. simpl in *. unfold bind, ret. simpl. rewrite Z.eqb_refl, Hn. simpl.
    exists h. split; [done|]. by apply kept_refl. }
  assert (0 < Z.of_nat (length (data rr))) by (destruct (data rr); simpl; [done|lia]).
  assert (region h p (array_size (length (data rr)))) as Hra.
  { unfold array_size. change (sizeof data_record_t) with 56. intros x Hx. apply Hr. lia. }
  pose proof (region_bound h p _ Hok Hr ltac:(lia)) as Hbel.
  pose proof (total_nonneg (data rr)).
  destruct (write_records_run p (data rr) h Hok Hra) as (h1 & E1 & Hok1 & Hb1 & Hrs & Hfr & Hk & Hbl).
  { unfold array_size. change (sizeof data_record_t) with 56. lia. }
  { done. }
  erewrite heap_bind; [|rewrite (heap_bind _ _ _ _ _ E1); reflexivity].
  cbn [fst snd]. rewrite Z.eqb_refl. cbn [negb]. rewrite (proj2 (Z.ltb_lt _ _)) by lia.
  unfold peekDataRecords. rewrite Hn, Nat2Z.id.
  destruct (peek_from_run p 0 (data rr) h1 (brk h)) as (h2 & E2 & Hok2 & Hb2 & Hout & Hin);
    [done|done|by destruct Hok; lia|done| | |].
  { unfold array_size. change (sizeof data_record_t) with 56. lia. }
  { by rewrite Z.mul_0_l, Z.add_0_r. }
  rewrite (heap_bind _ _ _ _ _ E2). exists h2. split; [done|]. split; [done|lia| | | |].
  - intros x Hx Hx'. rewrite (proj1 (Hout x ltac:(lia))). by apply Hk.
  - intros x Hx Hx'. rewrite (proj1 (Hout x ltac:(lia))). apply Hfr; [done|].
    unfold within, array_size in *. change (sizeof data_record_t) with 56. lia.
  - intros x Hx. rewrite (proj2 (Hout x ltac:(lia))). by apply Hbl.
  - intros x Hx. destruct (decide (x < brk h + total (data rr))); [apply Hin; lia|].
    apply Hok2. lia.
Qed.

Lemma try_gap asserts maxlen rr p h :
  E_DATALOSS <> E_OK -> result_ok maxlen rr -> nread rr < 0 ->
  tryReaderRead' asserts rr p 0 h =
  Some (if skipped rr then inr (inl None) else inl E_DATALOSS, h).
Proof.
  intros Hne [[_ He]|[? _]] Hn; [|lia]. unfold tryReaderRead', READ_mem, skipped.
  rewrite (proj2 (Z.leb_gt _ _) Hn), (proj2 (Z.ltb_lt _ _) Hn), He, Z.eqb_refl, andb_false_r.
  simpl. unfold bind, ret. simpl. destruct (g_type (gap rr) =? GapType_DATALOSS); simpl.
  - by rewrite (proj2 (Z.eqb_neq _ _) Hne).
  - rewrite Z.eqb_refl. simpl. rewrite (proj2 (Z.ltb_ge _ _)) by lia.
    by rewrite (proj2 (Z.eqb_neq _ _)) by lia.
Qed.

Lemma read_go_run asserts gaps rr rest maxlen p h :
  E_DATALOSS <> E_OK -> heap_ok h -> region h p (maxlen * sizeof data_record_t) ->
  Forall (fun g => result_ok maxlen g /\ skipped g = true) gaps ->
  result_ok maxlen rr -> skipped rr = false -> brk h + total (data rr) <= ADDRESS_END ->
  exists h', read_go asserts (gaps ++ rr :: rest) p h =
      Some (Some (if nread rr <? 0 then inl E_DATALOSS else inr (hs_record <$> data rr)), h') /\
    kept (within p (maxlen * sizeof data_record_t)) h h'.
Proof.
  intros Hne Hok Hr Hgaps Hrr Hsk Hroom.
  induction Hgaps as [|g gaps [Hg Hgs] Hgaps IH]; cbn [app read_go].
  - destruct (Z.ltb_spec (nread rr) 0) as [Hn|Hn].
    + rewrite (heap_bind _ _ _ _ _ (try_gap asserts maxlen rr p h Hne Hrr Hn)), Hsk.
      exists h. split; [done|]. by apply kept_refl.
    + destruct (try_records asserts maxlen rr p 0 h Hrr Hn Hok Hr Hroom) as (h' & E & Hk).
      rewrite (heap_bind _ _ _ _ _ E). by exists h'.
  - assert (nread g < 0) as Hn.
    { unfold skipped in Hgs. apply andb_true_iff in Hgs as [Hgs _]. by apply Z.ltb_lt. }
    rewrite (heap_bind _ _ _ _ _ (try_gap asserts maxlen g p h Hne Hg Hn)), Hgs. exact IH.
Qed.

(** A gap is read back. *)
Definition hs_gap (g : GapRecord) : HsGapRecord :=
  {| gapLogID := g_logid g; gapType := u8 (g_type g); gapLoLSN := g_lo g; gapHiLSN := g_hi g |}.
Definition gap_ok (g : GapRecord) : Prop :=
  is_u64 (g_logid g) /\ is_u64 (g_lo g) /\ is_u64 (g_hi g).

Lemma try_gap_out asserts maxlen rr p g h :
  result_ok maxlen rr -> nread rr < 0 -> gap_ok (gap rr) -> heap_ok h ->
  0 < g -> region h g (sizeof gap_record_t) ->
  exists h', tryReaderRead' asserts rr p g h = Some (inr (inl (Some (hs_gap (gap rr)))), h') /\
    kept (within g (sizeof gap_record_t)) h h'.
Proof.
  intros [[_ He]|[? _]] Hn (Hg1 & Hg2 & Hg3) Hok Hg Hr; [|lia]. unfold tryReaderRead', READ_mem.
  rewrite (proj2 (Z.leb_gt _ _) Hn), He, Z.eqb_refl, andb_false_r.
  rewrite (proj2 (Z.eqb_neq g 0)) by lia.
  pose proof (filled_start g gap_record_t h Hok Hr eq_refl) as HF. unfold bind at 1.
  set_next HF h1 Eb1 Ebl1 Em1. set_next HF h2 Eb2 Ebl2 Em2.
  set_next HF h3 Eb3 Ebl3 Em3. set_next HF h4 Eb4 Ebl4 Em4.
  unfold ret at 1. cbn [fst snd]. rewrite Z.eqb_refl. cbn [negb].
  rewrite (proj2 (Z.ltb_ge _ _)) by lia. rewrite (proj2 (Z.eqb_neq (nread rr) 0)) by lia.
  pose proof (fl_fields _ _ _ _ _ HF) as Hf. unfold peekGapRecord.
  exists h4. split.
  - erewrite heap_bind; [reflexivity|]. do 4 peek_next Hf. unfold ret, hs_gap, wrap.
    rewrite !u64_id by done. do 3 f_equal. unfold u8. by rewrite Zmod_mod.
  - destruct HF as [Hok4 Hb4 Hr4 _ _ Hfr4 Hbl4]. split; try done.
    + intros x Hx Hx'. destruct (decide (within g (sizeof gap_record_t) x)); [by apply Hr4|].
      rewrite Hfr4; [done|done|]. unfold within in *. lia.
    + intros x Hx Hw. apply Hfr4; [done|]. unfold within in *. lia.
    + intros x Hx. apply Hok4. congruence || (rewrite Eb4, Eb3, Eb2, Eb1; done).
Qed.
End reading.

(** ** Callback data *)

Lemma filled_kept p s fvs h h' :
  filled p s fvs h h' ->
  (forall x, brk h <= x -> mem h' !! x = None /\ blocks h' !! x = None) ->
  kept (within p (sizeof s)) h h'.
Proof.
  intros [H1 H2 H3 H4 H5 H6 H7] Hab. split; try done.
  - intros x Hx Hx'. destruct (decide (within p (sizeof s) x)); [by apply H3|].
    rewrite H6; [done|done|]. unfold within in *. lia.
  - intros x Hx Hw. apply H6; [done|]. unfold within in *. lia.
Qed.

Lemma filled_kept_same p s fvs h h' :
  filled p s fvs h h' -> brk h' = brk h -> kept (within p (sizeof s)) h h'.
Proof. intros HF Hb. eapply filled_kept; [done|]. intros x Hx. apply (fl_ok _ _ _ _ _ HF). lia. Qed.

Lemma filled_rebase p s fvs h0 h : filled p s fvs h0 h -> filled p s fvs h h.
Proof. intros [H1 H2 H3 H4 H5 H6 H7]. split; try done. lia. Qed.

(** Memory of a member that is freed after the structure was read. *)
Lemma filled_free p s fvs h0 h h' base len :
  filled p s fvs h0 h -> brk h0 <= base -> base + len = brk h ->
  (forall x, brk h0 <= x < base -> mem h !! x = None /\ blocks h !! x = None) ->
  released base len h h' -> kept (within p (sizeof s)) h0 h'.
Proof.
  intros HF Hb Hl Hmid (Hok & Hbrk & Hout & Hin).
  pose proof HF as [H1 H2 H3 H4 H5 H6 H7].
  split; try done; [lia| | | |].
  - intros x Hx Hx'. rewrite (proj1 (Hout x ltac:(lia))).
    destruct (decide (within p (sizeof s) x)); [by apply H3|].
    rewrite H6; [done|done|]. unfold within in *. lia.
  - intros x Hx Hw. rewrite (proj1 (Hout x ltac:(lia))). apply H6; [done|]. unfold within in *. lia.
  - intros x Hx. rewrite (proj2 (Hout x ltac:(lia))). by apply H7.
  - intros x Hx. destruct (decide (x < base)).
    + destruct (Hout x ltac:(lia)) as [-> ->]. apply Hmid. lia.
    + destruct (decide (x < base + len)); [apply Hin; lia|]. apply Hok. lia.
Qed.

Lemma pointer_id p : 0 <= p < ADDRESS_END -> wrap pointer p = p.
Proof. intros H. apply u64_id. exact H. Qed.

(** A message that is duplicated, stored in a member, read and freed. *)
Lemma strdup_member p s fvs h f bs :
  heap_ok h -> filled p s fvs h h -> is_Some (offsetof s f) -> f ∉ fvs.*1 ->
  brk h + Z.of_nat (length (until_nul bs ++ [0])) <= ADDRESS_END ->
  exists h1 h2 h3, strdup bs h = Some (brk h, h1) /\
    set_field s f p (brk h) h1 = Some (tt, h2) /\ fields h2 p s ((f, brk h) :: fvs) /\
    fromCString (brk h) h2 = Some (until_nul bs, h2) /\ free (brk h) h2 = Some (tt, h3) /\
    kept (within p (sizeof s)) h h3 /\ wrap pointer (brk h) = brk h.
Proof.
  intros Hok HF Hf Hnew Hroom.
  destruct (strdup_run bs h Hok Hroom) as (h1 & E1 & _ & Hok1 & Hb1 & Hs1 & Hblk & Hoth).
  rewrite length_app in *. simpl in *.
  apply (filled_frame _ _ _ _ _ h1) in HF; [|done|lia|done].
  destruct (filled_set p s fvs h h1 f (brk h) HF Hf Hnew) as (h2 & E2 & HF2 & Hb2 & Hbl2 & Hm2).
  pose proof (fl_below _ _ _ _ _ HF) as Hbel.
  assert (block_at h2 (brk h) (until_nul bs ++ [0])) as Hblk2.
  { eapply block_at_frame; [done|by rewrite Hbl2|]. intros x Hx. apply Hm2. lia. }
  destruct (free_payload h2 (brk h) (brk h) (until_nul bs ++ [0])) as (h3 & E3 & Hrel).
  { apply HF2. }
  { unfold string_at. rewrite bool_decide_false; [done|]. by destruct (until_nul bs). }
  { rewrite bool_decide_false; [done|]. by destruct (until_nul bs). }
  { intros x Hx. rewrite Hbl2, Hoth by lia. apply Hok. lia. }
  exists h1, h2, h3. split; [done|]. split; [done|]. split; [apply HF2|]. split.
  { apply fromCString_run; [done|apply until_nul_nonzero|]. rewrite length_app. simpl. lia. }
  split; [done|]. split.
  - eapply filled_free; [exact HF2|reflexivity| |intros x Hx; lia|exact Hrel].
    rewrite length_app. simpl. lia.
  - apply pointer_id. destruct Hok. lia.
Qed.

(** The same for a value that [copyString] copies. *)
Lemma copyString_member p s fvs h f bs :
  heap_ok h -> filled p s fvs h h -> is_Some (offsetof s f) -> f ∉ fvs.*1 ->
  brk h + Z.of_nat (length bs) <= ADDRESS_END ->
  exists q h1 h2 h3, copyString bs h = Some (q, h1) /\
    set_field s f p q h1 = Some (tt, h2) /\ fields h2 p s ((f, q) :: fvs) /\
    fromPtr q (Z.of_nat (length bs)) h2 = Some (bs, h2) /\ free q h2 = Some (tt, h3) /\
    kept (within p (sizeof s)) h h3 /\ wrap pointer q = q.
Proof.
  intros Hok HF Hf Hnew Hroom.
  destruct (copyString_run bs h Hok Hroom) as (q & h1 & E1 & Hok1 & Hb1 & Hs1 & Hstr & Hq & Hoth).
  apply (filled_frame _ _ _ _ _ h1) in HF; [|done|lia|done].
  destruct (filled_set p s fvs h h1 f q HF Hf Hnew) as (h2 & E2 & HF2 & Hb2 & Hbl2 & Hm2).
  pose proof (fl_below _ _ _ _ _ HF) as Hbel.
  assert (string_at h2 q bs) as Hstr2.
  { eapply string_at_frame; [done|by rewrite Hbl2|]. intros x Hx. apply Hm2. rewrite Hq in Hx.
    case_bool_decide as He; rewrite ?He in Hx; simpl in Hx; lia. }
  destruct (free_payload h2 q (brk h) bs) as (h3 & E3 & Hrel); [apply HF2|done|done| |].
  { intros x Hx. rewrite Hbl2, Hoth; [apply Hok; lia|]. rewrite Hq. case_bool_decide; destruct Hok; lia. }
  exists q, h1, h2, h3. split; [done|]. split; [done|]. split; [apply HF2|].
  split; [by apply fromPtr_run|]. split; [done|]. split.
  - eapply (filled_free _ _ _ _ _ _ (brk h) (Z.of_nat (length bs))); [exact HF2|lia|lia|intros x Hx; lia|exact Hrel].
  - apply pointer_id. rewrite Hq. destruct Hok. case_bool_decide as He; [unfold ADDRESS_END; lia|].
    destruct bs; [done|]. simpl in Hroom. lia.
Qed.

Section callbacks.
Context `{!ReaderCodes, !TypesCodes}.

Definition is_code (st : Z) : Prop := 0 <= st < 2 ^ 16.

Lemma wrap_code st : is_code st -> wrap uint16_t st = st.
Proof. unfold is_code, wrap. int_solve. Qed.

Lemma append_run p st r h :
  heap_ok h -> region h p (sizeof append_cb_data_t) -> 0 < p -> is_code st -> record_ok r ->
  exists h', (append_cb p st r ;; peekAppendCallBackData p) h =
      Some ({| appendCbRetCode := st; appendCbLogID := d_logid r; appendCbLSN := d_lsn r;
               appendCbTimestamp := d_timestamp r |}, h') /\
    kept (within p (sizeof append_cb_data_t)) h h'.
Proof.
  intros Hok Hr Hp Hst (Hr1 & Hr2 & Hr3 & _).
  pose proof (filled_start p append_cb_data_t h Hok Hr eq_refl) as HF.
  unfold append_cb. rewrite (proj2 (Z.eqb_neq p 0)) by lia. unfold bind at 1.
  set_next HF h1 Eb1 Ebl1 Em1. set_next HF h2 Eb2 Ebl2 Em2.
  set_next HF h3 Eb3 Ebl3 Em3. set_next HF h4 Eb4 Ebl4 Em4.
  pose proof (fl_fields _ _ _ _ _ HF) as Hf. exists h4. split.
  - unfold peekAppendCallBackData. do 4 peek_next Hf. rewrite wrap_code by done.
    unfold ret, wrap. by rewrite !u64_id, i64_id.
  - eapply filled_kept_same; [exact HF|congruence].
Qed.

Lemma is_log_empty_run p st e h :
  heap_ok h -> region h p (sizeof is_log_empty_cb_data_t) -> 0 < p -> is_code st ->
  exists h', (is_log_empty_cb p st e ;; peekIsLogEmptyCbData p) h =
      Some ((st, if e then 1 else 0), h') /\
    kept (within p (sizeof is_log_empty_cb_data_t)) h h'.
Proof.
  intros Hok Hr Hp Hst.
  pose proof (filled_start p is_log_empty_cb_data_t h Hok Hr eq_refl) as HF.
  unfold is_log_empty_cb. rewrite (proj2 (Z.eqb_neq p 0)) by lia. unfold bind at 1.
  set_next HF h1 Eb1 Ebl1 Em1. set_next HF h2 Eb2 Ebl2 Em2.
  pose proof (fl_fields _ _ _ _ _ HF) as Hf. exists h2. split.
  - unfold peekIsLogEmptyCbData. do 2 peek_next Hf. rewrite wrap_code by done. by destruct e.
  - eapply filled_kept_same; [exact HF|congruence].
Qed.

Lemma logsconfig_status_run p st version reason h :
  heap_ok h -> region h p (sizeof logsconfig_status_cb_data_t) -> 0 < p -> is_code st ->
  is_u64 version -> brk h + Z.of_nat (length (until_nul reason ++ [0])) <= ADDRESS_END ->
  exists h', (logsconfig_status_cb p st version reason ;; peekLogsConfigStatusCbData p) h =
      Some ({| logsConfigCbRetCode := st; logsConfigCbVersion := version;
               logsConfigCbFailInfo := until_nul reason |}, h') /\
    kept (within p (sizeof logsconfig_status_cb_data_t)) h h'.
Proof.
  intros Hok Hr Hp Hst Hv Hroom.
  pose proof (filled_start p logsconfig_status_cb_data_t h Hok Hr eq_refl) as HF.
  unfold logsconfig_status_cb. rewrite (proj2 (Z.eqb_neq p 0)) by lia. unfold bind at 1.
  set_next HF h1 Eb1 Ebl1 Em1. set_next HF h2 Eb2 Ebl2 Em2.
  pose proof (filled_kept_same _ _ _ _ _ HF ltac:(congruence)) as Hk2.
  destruct (strdup_member _ _ _ h2 "failure_reason" reason (kp_ok _ _ _ Hk2) (filled_rebase _ _ _ _ _ HF))
    as (h3 & h4 & h5 & E3 & E4 & Hf & Ec & E5 & Hk5 & Hptr); [is_member|new_member| |].
  { by rewrite Eb2, Eb1. }
  rewrite (heap_bind _ _ _ _ _ E3), E4. exists h5. split.
  - unfold peekLogsConfigStatusCbData. do 3 peek_next Hf. rewrite Hptr.
    rewrite (heap_bind _ _ _ _ _ Ec), (heap_bind _ _ _ _ _ E5).
    rewrite wrap_code by done. unfold ret, wrap. by rewrite u64_id.
  - eapply kept_trans; [exact Hk2|congruence|exact Hk5].
Qed.

Lemma vcs_value_run p st val h :
  heap_ok h -> region h p (sizeof vcs_value_callback_data_t) -> 0 < p -> is_code st ->
  Z.of_nat (length val) < 2 ^ 63 -> brk h + Z.of_nat (length val) <= ADDRESS_END ->
  exists h', (vcs_value_cb p st val ;; peekVcsValueCallbackData p) h =
      Some ((st, if st =? E_OK then val else []), h') /\
    kept (within p (sizeof vcs_value_callback_data_t)) h h'.
Proof.
  intros Hok Hr Hp Hst Hlen Hroom.
  pose proof (filled_start p vcs_value_callback_data_t h Hok Hr eq_refl) as HF.
  unfold vcs_value_cb, peekVcsValueCallbackData. rewrite (proj2 (Z.eqb_neq p 0)) by lia.
  unfold bind at 1. set_next HF h1 Eb1 Ebl1 Em1. destruct (st =? E_OK) eqn:Est.
  - set_next HF h2 Eb2 Ebl2 Em2.
    pose proof (filled_kept_same _ _ _ _ _ HF ltac:(congruence)) as Hk2.
    destruct (copyString_member _ _ _ h2 "value" val (kp_ok _ _ _ Hk2) (filled_rebase _ _ _ _ _ HF))
      as (q & h3 & h4 & h5 & E3 & E4 & Hf & Ec & E5 & Hk5 & Hptr); [is_member|new_member| |].
    { by rewrite Eb2, Eb1. }
    rewrite (heap_bind _ _ _ _ _ E3), E4. exists h5. split.
    + peek_next Hf. rewrite wrap_code, Est by done. do 2 peek_next Hf. rewrite Hptr.
      assert (wrap int64_t (Z.of_nat (length val)) = Z.of_nat (length val)) as ->
        by (apply i64_id; unfold is_i64; lia).
      rewrite (heap_bind _ _ _ _ _ Ec). peek_next Hf. rewrite Hptr.
      by rewrite (heap_bind _ _ _ _ _ E5).
    + eapply kept_trans; [exact Hk2|congruence|exact Hk5].
  - exists h1. pose proof (fl_fields _ _ _ _ _ HF) as Hf. split.
    + unfold ret at 1. peek_next Hf. by rewrite wrap_code, Est by done.
    + eapply filled_kept_same; [exact HF|congruence].
Qed.

Lemma vcs_write_run p st version val h :
  heap_ok h -> region h p (sizeof vcs_write_callback_data_t) -> 0 < p -> is_code st ->
  is_u64 version -> Z.of_nat (length val) < 2 ^ 63 ->
  brk h + Z.of_nat (length val) <= ADDRESS_END ->
  exists h', (vcs_write_cb C_VERSION_MISMATCH p st version val ;; peekVcsWriteCallbackData p) h =
      Some (if (st =? E_OK) || (st =? C_VERSION_MISMATCH) then
              {| vcsWriteCallbackSt := st; vcsWriteCallbackVersion := version;
                 vcsWriteCallbackValue := val |}
            else
              {| vcsWriteCallbackSt := st; vcsWriteCallbackVersion := C_EMPTY_VERSION;
                 vcsWriteCallbackValue := [] |}, h') /\
    kept (within p (sizeof vcs_write_callback_data_t)) h h'.
Proof.
  intros Hok Hr Hp Hst Hv Hlen Hroom.
  pose proof (filled_start p vcs_write_callback_data_t h Hok Hr eq_refl) as HF.
  unfold vcs_write_cb, peekVcsWriteCallbackData.
  change (peek uint16_t vcs_value_callback_data_t "st" p)
    with (peek uint16_t vcs_write_callback_data_t "st" p).
  rewrite (proj2 (Z.eqb_neq p 0)) by lia.
  unfold bind at 1. set_next HF h1 Eb1 Ebl1 Em1.
  destruct ((st =? E_OK) || (st =? C_VERSION_MISMATCH)) eqn:Est.
  - set_next HF h2 Eb2 Ebl2 Em2. set_next HF h2' Eb2' Ebl2' Em2'.
    pose proof (filled_kept_same _ _ _ _ _ HF ltac:(congruence)) as Hk2.
    destruct (copyString_member _ _ _ h2' "value" val (kp_ok _ _ _ Hk2) (filled_rebase _ _ _ _ _ HF))
      as (q & h3 & h4 & h5 & E3 & E4 & Hf & Ec & E5 & Hk5 & Hptr); [is_member|new_member| |].
    { by rewrite Eb2', Eb2, Eb1. }
    rewrite (heap_bind _ _ _ _ _ E3), E4. exists h5. split.
    + peek_next Hf. rewrite wrap_code, Est by done. do 3 peek_next Hf. rewrite Hptr.
      assert (wrap int64_t (Z.of_nat (length val)) = Z.of_nat (length val)) as ->
        by (apply i64_id; unfold is_i64; lia).
      rewrite (heap_bind _ _ _ _ _ Ec). peek_next Hf. rewrite Hptr.
      rewrite (heap_bind _ _ _ _ _ E5). unfold ret, wrap. by rewrite u64_id.
    + eapply kept_trans; [exact Hk2|congruence|exact Hk5].
  - exists h1. pose proof (fl_fields _ _ _ _ _ HF) as Hf. split.
    + unfold ret at 1. peek_next Hf. by rewrite wrap_code, Est by done.
    + eapply filled_kept_same; [exact HF|congruence].
Qed.
End callbacks.

(** ** Objects that are handed over *)

(** [g] is the only new block, or null. *)
Definition handed (made : bool) (g n : Z) (h h' : heap) : Prop :=
  heap_ok h' /\ (if made then 0 < g /\ blocks h !! g = None /\ blocks h' !! g = Some n else g = 0) /\
  (forall x, x <> g -> blocks h' !! x = blocks h !! x).

Lemma kept_blocks R h h' : heap_ok h -> kept R h h' -> blocks h' = blocks h.
Proof.
  intros Hok [H1 H2 H3 H4 H5 H6]. apply map_eq. intros x. destruct (decide (x < brk h)); [auto|].
  rewrite (proj2 (H6 x ltac:(lia))). symmetry. apply Hok. lia.
Qed.

(** The object of a callback while its structure is filled. *)
Lemma object_run (made : bool) n p s fvs h0 h :
  filled p s fvs h0 h -> 0 < n -> brk h + n <= ADDRESS_END ->
  exists g h', (if made then new_object n else ret 0) h = Some (g, h') /\
    filled p s fvs h0 h' /\ handed made g n h h' /\ brk h' <= brk h + n /\
    (if made then g = brk h /\ region h' g n else True) /\ wrap pointer g = g.
Proof.
  intros HF Hn Hroom. pose proof (fl_ok _ _ _ _ _ HF) as Hok. destruct made.
  - destruct (malloc_run n h Hok Hn Hroom) as (h' & E & Hok' & Hb & Hs & Hr & Hblk & Hoth).
    exists (brk h), h'. split.
    { unfold new_object. rewrite (heap_bind _ _ _ _ _ E).
      rewrite (proj2 (Z.eqb_neq _ _)) by (destruct Hok; lia). done. }
    split; [eapply filled_frame; [done|done|lia|done]|]. split.
    { split; [done|]. split; [|done]. split; [by destruct Hok as [[? _] _]|].
      split; [|done]. by apply Hok. }
    split; [lia|]. split; [done|]. apply pointer_id. destruct Hok. lia.
  - exists 0, h. split; [done|]. split; [done|]. split; [by split|]. split; [lia|]. by split.
Qed.

Lemma handed_blocks made g n h h' h1 h2 :
  handed made g n h h' -> blocks h1 = blocks h -> blocks h2 = blocks h' -> heap_ok h2 ->
  handed made g n h1 h2.
Proof. unfold handed. intros (_ & Hg & Ho) -> -> Hok. by split. Qed.

Section objects.
Context `{!ReaderCodes, !TypesCodes}.

Lemma make_loggroup_run p st made reason h :
  heap_ok h -> region h p (sizeof make_loggroup_cb_data_t) -> 0 < p -> is_code st ->
  brk h + 8 + Z.of_nat (length (until_nul reason ++ [0])) <= ADDRESS_END ->
  exists g h', (make_loggroup_cb p st made reason ;; peekMakeLogGroupCbData p) h =
      Some ({| makeLogGroupCbRetCode := st; makeLogGroupCbGrpPtr := g;
               makeLogGroupFailInfo := until_nul reason |}, h') /\ handed made g 8 h h'.
Proof.
  intros Hok Hr Hp Hst Hroom.
  pose proof (filled_start p make_loggroup_cb_data_t h Hok Hr eq_refl) as HF.
  unfold make_loggroup_cb. rewrite (proj2 (Z.eqb_neq p 0)) by lia. unfold bind at 1.
  set_next HF h1 Eb1 Ebl1 Em1.
  destruct (object_run made 8 _ _ _ _ _ HF) as (g & h2 & E2 & HF2 & Hg & Hb2 & _ & Hptr2);
    [done|rewrite Eb1; lia|].
  rewrite (heap_bind _ _ _ _ _ E2). set_next HF2 h3 Eb3 Ebl3 Em3.
  destruct (strdup_member _ _ _ h3 "failure_reason" reason (fl_ok _ _ _ _ _ HF2)
    (filled_rebase _ _ _ _ _ HF2)) as (h4 & h5 & h6 & E4 & E5 & Hf & Ec & E6 & Hk6 & Hptr);
    [is_member|new_member|lia|].
  rewrite (heap_bind _ _ _ _ _ E4), E5. exists g, h6. split.
  - unfold peekMakeLogGroupCbData. do 3 peek_next Hf. rewrite Hptr.
    rewrite (heap_bind _ _ _ _ _ Ec). peek_next Hf. rewrite Hptr, (heap_bind _ _ _ _ _ E6).
    unfold ret. by rewrite wrap_code, Hptr2.
  - apply (handed_blocks _ _ _ h1 h2); [done|done| |by apply (kp_ok _ _ _ Hk6)].
    rewrite (kept_blocks _ _ _ (fl_ok _ _ _ _ _ HF2) Hk6). congruence.
Qed.

Lemma make_directory_run p st made reason h :
  heap_ok h -> region h p (sizeof make_directory_cb_data_t) -> 0 < p -> is_code st ->
  brk h + 8 + Z.of_nat (length (until_nul reason ++ [0])) <= ADDRESS_END ->
  exists g h', (make_directory_cb p st made reason ;; peekMakeDirectoryCbData p) h =
      Some ({| makeDirectoryCbRetCode := st; makeDirectoryCbDirPtr := g;
               makeDirectoryFailInfo := until_nul reason |}, h') /\ handed made g 8 h h'.
Proof.
  intros Hok Hr Hp Hst Hroom.
  pose proof (filled_start p make_directory_cb_data_t h Hok Hr eq_refl) as HF.
  unfold make_directory_cb. rewrite (proj2 (Z.eqb_neq p 0)) by lia. unfold bind at 1.
  set_next HF h1 Eb1 Ebl1 Em1.
  destruct (object_run made 8 _ _ _ _ _ HF) as (g & h2 & E2 & HF2 & Hg & Hb2 & _ & Hptr2);
    [done|rewrite Eb1; lia|].
  rewrite (heap_bind _ _ _ _ _ E2). set_next HF2 h3 Eb3 Ebl3 Em3.
  destruct (strdup_member _ _ _ h3 "failure_reason" reason (fl_ok _ _ _ _ _ HF2)
    (filled_rebase _ _ _ _ _ HF2)) as (h4 & h5 & h6 & E4 & E5 & Hf & Ec & E6 & Hk6 & Hptr);
    [is_member|new_member|lia|].
  rewrite (heap_bind _ _ _ _ _ E4), E5. exists g, h6. split.
  - unfold peekMakeDirectoryCbData. do 3 peek_next Hf. rewrite Hptr.
    rewrite (heap_bind _ _ _ _ _ Ec), (heap_bind _ _ _ _ _ E6).
    unfold ret. by rewrite wrap_code, Hptr2.
  - apply (handed_blocks _ _ _ h1 h2); [done|done| |by apply (kp_ok _ _ _ Hk6)].
    rewrite (kept_blocks _ _ _ (fl_ok _ _ _ _ _ HF2) Hk6). congruence.
Qed.

Lemma head_attributes_run p st made h :
  heap_ok h -> region h p (sizeof log_head_attributes_cb_data_t) -> 0 < p -> is_code st ->
  brk h + 8 <= ADDRESS_END ->
  exists g h', (head_attributes_cb p st made ;; peekLogHeadAttrsCbData p) h = Some ((st, g), h') /\
    handed made g 8 h h'.
Proof.
  intros Hok Hr Hp Hst Hroom.
  pose proof (filled_start p log_head_attributes_cb_data_t h Hok Hr eq_refl) as HF.
  unfold head_attributes_cb. rewrite (proj2 (Z.eqb_neq p 0)) by lia. unfold bind at 1.
  set_next HF h1 Eb1 Ebl1 Em1.
  destruct (object_run made 8 _ _ _ _ _ HF) as (g & h2 & E2 & HF2 & Hg & Hb2 & _ & Hptr2);
    [done|rewrite Eb1; lia|].
  rewrite (heap_bind _ _ _ _ _ E2). set_next HF2 h3 Eb3 Ebl3 Em3.
  pose proof (fl_fields _ _ _ _ _ HF2) as Hf. exists g, h3. split.
  - unfold peekLogHeadAttrsCbData. do 2 peek_next Hf. unfold ret. by rewrite wrap_code, Hptr2.
  - apply (handed_blocks _ _ _ h1 h2); [done|done|done|by apply (fl_ok _ _ _ _ _ HF2)].
Qed.

(** The tail is a structure of its own: read by the accessors, then freed. *)
Lemma tail_attributes_run p st lsn ts off h :
  heap_ok h -> region h p (sizeof log_tail_attributes_cb_data_t) -> 0 < p -> is_code st ->
  is_u64 lsn -> is_i64 ts -> is_u64 off -> brk h + 24 <= ADDRESS_END ->
  exists g h' h'', (tail_attributes_cb p st (Some (lsn, ts, off)) ;; peekLogTailAttrsCbData p) h =
      Some ((st, g), h') /\
    ld_client_get_tail_attributes_lsn g h' = Some (lsn, h') /\
    ld_client_get_tail_attributes_last_timestamp g h' = Some (ts, h') /\
    ld_client_get_tail_attributes_bytes_offset g h' = Some (off, h') /\
    free_logdevice_tail_attributes g h' = Some (tt, h'') /\ blocks h'' = blocks h.
Proof.
  intros Hok Hr Hp Hst H1 H2 H3 Hroom.
  pose proof (filled_start p log_tail_attributes_cb_data_t h Hok Hr eq_refl) as HF.
  unfold tail_attributes_cb. rewrite (proj2 (Z.eqb_neq p 0)) by lia. unfold bind at 1.
  set_next HF h1 Eb1 Ebl1 Em1.
  destruct (object_run true (sizeof log_tail_attributes_t) _ _ _ _ _ HF)
    as (g & h2 & E2 & HF2 & (_ & (Hg0 & Hg1 & Hg2) & Hg3) & Hb2 & [Hg Hrg] & Hptr2); [done|rewrite Eb1; done|].
  rewrite (heap_bind _ _ _ _ _ E2).
  pose proof (filled_start g log_tail_attributes_t h2 (fl_ok _ _ _ _ _ HF2) Hrg eq_refl) as HG.
  set_next HG h3 Eb3 Ebl3 Em3. set_next HG h4 Eb4 Ebl4 Em4. set_next HG h5 Eb5 Ebl5 Em5.
  assert (filled p log_tail_attributes_cb_data_t [("st", st)] h5 h5) as HP.
  { pose proof (fl_below _ _ _ _ _ HF2) as Hbel.
    assert (forall x, x < p + sizeof log_tail_attributes_cb_data_t -> mem h5 !! x = mem h2 !! x) as Hx5.
    { intros x Hx. rewrite Em5, Em4, Em3; [done|lia|lia|lia]. }
    split; try done; try lia.
    - apply HG.
    - intros x Hx. rewrite Hx5 by lia. by apply (fl_region _ _ _ _ _ HF2).
    - pose proof (fl_brk _ _ _ _ _ HF2). lia.
    - eapply fields_agree; [|apply (fl_fields _ _ _ _ _ HF2)]. intros x Hx. apply Hx5. lia. }
  set_next HP h6 Eb6 Ebl6 Em6.
  pose proof (fl_fields _ _ _ _ _ HP) as Hf.
  assert (fields h6 g log_tail_attributes_t
    [("offsets", off); ("last_timestamp", ts); ("last_released_real_lsn", lsn)]) as Hgf.
  { eapply fields_agree; [|apply (fl_fields _ _ _ _ _ HG)]. intros x Hx. apply Em6.
    pose proof (fl_below _ _ _ _ _ HF2). lia. }
  destruct (free_run g (sizeof log_tail_attributes_t) h6 (fl_ok _ _ _ _ _ HP) Hg0)
    as (h7 & E7 & _ & _ & _ & _ & Hd7 & He7); [congruence|].
  exists g, h6, h7. split; [|split; [|split; [|split; [|split; [done|]]]]].
  - unfold peekLogTailAttrsCbData. do 2 peek_next Hf. unfold ret. by rewrite wrap_code, Hptr2.
  - erewrite <- (u64_id lsn) by done. by eapply (peek_assoc _ _ _ _ _ lsn).
  - erewrite <- (i64_id ts) by done. by eapply (peek_assoc _ _ _ _ _ ts).
  - erewrite <- (u64_id off) by done. by eapply (peek_assoc _ _ _ _ _ off).
  - apply map_eq. intros x. destruct (decide (x = g)) as [->|Hne].
    + rewrite Hd7. by rewrite <- Ebl1.
    + rewrite He7, Ebl6, Ebl5, Ebl4, Ebl3, Hg3 by done. by rewrite Ebl1.
Qed.
End objects.

(** ** Theorems *)

Section theorems.
Context `{!ReaderCodes, !TypesCodes}.

(** A read that [readerReadSome] repeats: a gap, or no records. *)
Definition idle (rr : read_result) : bool :=
  skipped rr || ((0 <=? nread rr) && bool_decide (data rr = [])).

(** What a read that is not repeated makes of the call. *)
Definition read_outcome (rr : read_result) : outcome (list HsDataRecord) :=
  if nread rr <? 0 then inl E_DATALOSS else inr (hs_record <$> data rr).

Lemma try_idle asserts maxlen rr p h :
  E_DATALOSS <> E_OK -> result_ok maxlen rr -> idle rr = true ->
  tryReaderRead' asserts rr p 0 h = Some (inr (inl None), h) \/
  tryReaderRead' asserts rr p 0 h = Some (inr (inr []), h).
Proof.
  intros Hne Hrr Hid. destruct (Z.ltb_spec (nread rr) 0) as [Hn|Hn].
  - left. rewrite (try_gap asserts maxlen rr p h Hne Hrr Hn).
    unfold idle in Hid. rewrite (proj2 (Z.leb_gt _ _) Hn), andb_false_l, orb_false_r in Hid.
    by rewrite Hid.
  - right. unfold idle, skipped in Hid. rewrite (proj2 (Z.ltb_ge _ _) Hn) in Hid.
    rewrite andb_false_l, orb_false_l, andb_true_iff, bool_decide_eq_true in Hid.
    destruct Hid as [_ He]. destruct Hrr as [[? _]|(Hl & _ & _)]; [lia|].
    unfold tryReaderRead', READ_mem. rewrite (proj2 (Z.leb_le _ _) Hn), Hl, He. unfold bind, ret. simpl.
    by rewrite Z.eqb_refl.
Qed.

Lemma some_go_run asserts pre rr rest retries maxlen p h :
  E_DATALOSS <> E_OK -> heap_ok h -> region h p (maxlen * sizeof data_record_t) ->
  Forall (fun g => result_ok maxlen g /\ idle g = true) pre ->
  result_ok maxlen rr -> idle rr = false -> brk h + total (data rr) <= ADDRESS_END ->
  exists h', some_go asserts (pre ++ rr :: rest) retries p h =
      Some (Some (if bool_decide (length pre < retries)%nat then read_outcome rr else inr []), h') /\
    kept (within p (maxlen * sizeof data_record_t)) h h'.
Proof.
  intros Hne Hok Hr Hpre Hrr Hid Hroom. revert retries.
  induction Hpre as [|g pre [Hg Hgi] Hpre IH]; intros [|retries].
  1, 3: exists h; split; [done|by apply kept_refl].
  - cbn [app some_go length]. rewrite bool_decide_true by lia. unfold read_outcome.
    unfold idle in Hid. apply orb_false_iff in Hid as [Hsk Hemp].
    destruct (Z.ltb_spec (nread rr) 0) as [Hn|Hn].
    + rewrite (heap_bind _ _ _ _ _ (try_gap asserts maxlen rr p h Hne Hrr Hn)), Hsk.
      exists h. split; [done|]. by apply kept_refl.
    + destruct (try_records asserts maxlen rr p 0 h Hrr Hn Hok Hr Hroom) as (h' & E & Hk).
      rewrite (heap_bind _ _ _ _ _ E). exists h'. split; [|done].
      rewrite (proj2 (Z.leb_le _ _) Hn) in Hemp. apply bool_decide_eq_false in Hemp.
      by destruct (data rr).
  - cbn [app some_go length].
    destruct (IH retries) as (h' & E & Hk). exists h'. split; [|done].
    replace (bool_decide (S (length pre) < S retries)%nat) with (bool_decide (length pre < retries)%nat)
      by (apply bool_decide_ext; lia).
    destruct (try_idle asserts maxlen g p h Hne Hg Hgi) as [Et|Et];
      rewrite (heap_bind _ _ _ _ _ Et); exact E.
Qed.


(** [readerReadAllowGap] returns the records, or the gap with its ends and
    its type, and gives the memory of both structures back. *)
Theorem read_allow_gap_exact asserts rr maxlen h :
  heap_ok h -> 0 < maxlen -> result_ok maxlen rr -> gap_ok (gap rr) ->
  brk h + maxlen * sizeof data_record_t + sizeof gap_record_t + total (data rr) <= ADDRESS_END ->
  exists h', readerReadAllowGap asserts rr maxlen h =
      Some (inr (if nread rr <? 0 then inl (hs_gap (gap rr)) else inr (hs_record <$> data rr)), h') /\
    restored h h'.
Proof.
  intros Hok Hmax Hrr Hg Hroom. pose proof (total_nonneg (data rr)).
  unfold readerReadAllowGap. change (sizeof gap_record_t) with 32 in *. change (sizeof data_record_t) with 56 in *.
  apply alloca_restores; [done|lia|lia|]. intros h1 Hok1 Hr1 Hb1.
  apply alloca_kept; [done|lia|lia|]. intros h2 Hok2 Hr2 Hb2 Hs2.
  destruct (Z.ltb_spec (nread rr) 0) as [Hn|Hn].
  - destruct (try_gap_out asserts maxlen rr (brk h) (brk h1) h2 Hrr Hn Hg Hok2) as (h3 & E & Hk);
      [destruct Hok; lia|done|].
    rewrite (heap_bind _ _ _ _ _ E). exists h3. split; [done|].
    eapply kept_weaken; [|exact Hk]. by right.
  - destruct (try_records asserts maxlen rr (brk h) (brk h1) h2 Hrr Hn Hok2) as (h3 & E & Hk).
    { change (sizeof data_record_t) with 56. intros x Hx.
      rewrite (proj1 (Hs2 x ltac:(lia))). by apply Hr1. }
    { lia. }
    rewrite (heap_bind _ _ _ _ _ E). exists h3. split; [done|].
    eapply kept_weaken; [|exact Hk]. by left.
Qed.


(** Objects are handed over. When C++ makes a log group or a directory, or
    has the head of a log, the pointer that Haskell reads is the one new block,
    and null when there was none; the message is freed. The members of a log's
    tail are what LogDevice gave, until the tail is freed, after which no block
    is left. *)
Theorem objects_handed_over p st made reason lsn ts off h :
  heap_ok h -> 0 < p -> region h p 24 -> is_code st ->
  is_u64 lsn -> is_i64 ts -> is_u64 off ->
  brk h + 24 + Z.of_nat (length (until_nul reason ++ [0])) <= ADDRESS_END ->
  (exists g h', (make_loggroup_cb p st made reason ;; peekMakeLogGroupCbData p) h =
      Some ({| makeLogGroupCbRetCode := st; makeLogGroupCbGrpPtr := g;
               makeLogGroupFailInfo := until_nul reason |}, h') /\ handed made g 8 h h') /\
  (exists g h', (make_directory_cb p st made reason ;; peekMakeDirectoryCbData p) h =
      Some ({| makeDirectoryCbRetCode := st; makeDirectoryCbDirPtr := g;
               makeDirectoryFailInfo := until_nul reason |}, h') /\ handed made g 8 h h') /\
  (exists g h', (head_attributes_cb p st made ;; peekLogHeadAttrsCbData p) h =
      Some ((st, g), h') /\ handed made g 8 h h') /\
  (exists g h' h'', (tail_attributes_cb p st (Some (lsn, ts, off)) ;; peekLogTailAttrsCbData p) h =
      Some ((st, g), h') /\
    ld_client_get_tail_attributes_lsn g h' = Some (lsn, h') /\
    ld_client_get_tail_attributes_last_timestamp g h' = Some (ts, h') /\
    ld_client_get_tail_attributes_bytes_offset g h' = Some (off, h') /\
    free_logdevice_tail_attributes g h' = Some (tt, h'') /\ blocks h'' = blocks h).
Proof.
  intros Hok Hp Hr Hst Hv1 Hv2 Hv3 Hroom.
  assert (forall n, n <= 24 -> region h p n) as Hrn by (intros n Hn x Hx; apply Hr; lia).
  split; [|split; [|split]].
  - apply make_loggroup_run; [done|by apply Hrn|done|done|lia].
  - apply make_directory_run; [done|by apply Hrn|done|done|lia].
  - apply head_attributes_run; [done|by apply Hrn|done|done|lia].
  - apply tail_attributes_run; try done; [by apply Hrn|lia].
Qed.
End theorems.

End StoreRecords.

Module StoreRecordsWitness.
Import StoreRecords.

(** Any distinct codes do. *)
#[local] Instance codes : ReaderCodes :=
  {| E_OK := 0; E_GAP := 5; E_DATALOSS := 22; GapType_DATALOSS := 3 |}.
#[local] Instance types_codes : TypesCodes :=
  {| C_BYTE_OFFSET_INVALID := 2 ^ 64 - 1; C_VERSION_MISMATCH := 40 |}.

(** A heap with one block of 24 bytes. *)
Definition start : heap :=
  {| mem := map_seqZ 16 (replicate 24 None); blocks := {[ 16 := 24 ]}; brk := 40 |}.

Lemma start_ok : heap_ok start.
Proof.
  split; [done|]. intros a Ha. change (40 <= a) in Ha. unfold start. cbn [mem blocks]. split.
  - apply lookup_map_seqZ_None. rewrite length_replicate. lia.
  - apply lookup_singleton_None. lia.
Qed.

Definition rec (payload : list Z) : DataRecord :=
  {| d_logid := 7; d_lsn := 2 ^ 33; d_timestamp := -1; d_batch_offset := 0; d_payload := payload;
     d_byte_offset := 2 ^ 64 - 1 |}.
Definition hole : GapRecord := {| g_logid := 7; g_type := 2; g_lo := 3; g_hi := 9 |}.
Definition gap_read : read_result := {| nread := -1; data := []; gap := hole; err := 5 |}.
Definition two_read : read_result :=
  {| nread := 2; data := [rec [104; 105]; rec []]; gap := hole; err := 0 |}.

Lemma rec_ok payload : Z.of_nat (length payload) < 2 ^ 63 -> record_ok (rec payload).
Proof. intros H. split_and!; done. Qed.
Lemma gap_read_ok : result_ok 3 gap_read.
Proof. by left. Qed.
Lemma two_read_ok : result_ok 3 two_read.
Proof. right. split; [done|]. split; [done|]. repeat constructor; by apply rec_ok. Qed.


Lemma read_allow_gap_exact_witness :
  exists h', readerReadAllowGap true gap_read 3 start = Some (inr (inl (hs_gap hole)), h') /\
    restored start h'.
Proof.
  destruct (read_allow_gap_exact true gap_read 3 start) as [h' H];
    [exact start_ok|done|exact gap_read_ok|split_and!; done|by vm_compute|exists h'; exact H].
Defined.


Lemma objects_handed_over_witness :
  exists g h', (make_loggroup_cb 16 0 true [110; 111] ;; peekMakeLogGroupCbData 16) start =
      Some ({| makeLogGroupCbRetCode := 0; makeLogGroupCbGrpPtr := g;
               makeLogGroupFailInfo := [110; 111] |}, h') /\ handed true g 8 start h'.
Proof.
  destruct (objects_handed_over 16 0 true [110; 111] 5 6 7 start) as [H _];
    [exact start_ok|done| |done|done|done|done|by vm_compute|exact H].
  intros x Hx. unfold start. cbn [mem]. exists None. apply lookup_map_seqZ_Some. split; [lia|].
  apply lookup_replicate_2. lia.
Defined.

End StoreRecordsWitness.
