(* ===== verification/StoreExports.v ===== *)
(** * The store functions that are linked into Haskell
      (src/hstream-store/include/hs_logdevice.h and cbits, foreign imports of
      HStream/Store/Internal)

    The prototypes of the header, the [extern "C"] functions that have none, and
    every foreign import of the store's bindings with the types on both sides.
    The linker only compares names: this file compares the types. *)

From stdpp Require Import base list strings.
From Stdlib Require Import ZArith Lia.
From S2P Require Import Prelude.

Module StoreExports.

(** ** Types *)

(** Integers by width and sign. [c_error_code_t], [Status] and [ErrorCode] have
    16 bits, [KeyType] and [NodeLocationScope] 8; [bool], [HsBool], [Bool] and
    [CBool] one byte. *)
Inductive scalar := U8 | U16 | U32 | U64 | I32 | I64 | Bool8.

(** The structures and classes that pointers refer to, one name for the type of
    C++ and the phantom type of Haskell. *)
Inductive object :=
| Client | Reader | SyncCheckpointedReader | CheckpointStore | LogGroup | LogDirectory
| LogAttributes | LogHeadAttributes | LogTailAttributes | VersionedConfigStore | LDQuery_
| QueryResults | Checker | StdString | PrimMVar | DataRecord | GapRecord | AppendCbData
| MakeDirectoryCbData | MakeLogGroupCbData | LogsConfigStatusCbData | VcsValueCbData
| VcsWriteCbData | LogHeadAttrsCbData | LogTailAttrsCbData | IsLogEmptyCbData
| ClientSettings_ | AppendAttributes_.

(** [ByteArray]: [StgArrBytes], an array on Haskell's heap. [Any]: a type
    variable of an import. *)
Inductive ty :=
| Scalar (s : scalar) | Object (o : object) | Ptr (t : ty) | Vector (t : ty) | ByteArray | Any
| Unit.
Coercion Scalar : scalar >-> ty.
Coercion Object : object >-> ty.
#[local] Arguments cons {A} & _ _.

#[global] Instance scalar_eq_dec : EqDecision scalar.
Proof. solve_decision. Defined.
#[global] Instance object_eq_dec : EqDecision object.
Proof. solve_decision. Defined.
#[global] Instance ty_eq_dec : EqDecision ty.
Proof. solve_decision. Defined.

Record symbol := fn { s_name : string; s_args : list ty; s_ret : ty }.

(** An import: [safe] calls may run while the garbage collector moves the heap;
    an argument is passed as it is ([arg]) or as the address of an array on the
    heap ([heap]: [BA#], [MBA#], [BAArray#]); [addr] imports the address of the
    function (a finalizer). *)
Inductive safety := safe | unsafe.
Inductive argument := arg (t : ty) | heap (t : ty).
Record import := mk_import {
  i_addr : bool; i_safety : safety; i_name : string; i_args : list argument; i_ret : ty;
}.
Notation call := (mk_import false).
Notation addr := (mk_import true).

#[global] Instance safety_eq_dec : EqDecision safety.
Proof. solve_decision. Defined.
Definition arg_ty (a : argument) : ty := match a with arg t | heap t => t end.
Definition on_heap (a : argument) : bool := match a with arg _ => false | heap _ => true end.

(** ** Prototypes of hs_logdevice.h *)

(** Utilities *)
Definition header_utils : list symbol :=
  [
   fn "hs_cal_std_string_off" [Ptr StdString; I64] (Ptr StdString);
   fn "init_logdevice" [] Unit
  ].

(** LogAttributes *)
Definition header_attributes : list symbol :=
  [
   fn "new_log_attributes" [I32; I64; Ptr (Ptr ByteArray); Ptr (Ptr ByteArray)]
      (Ptr LogAttributes);
   fn "free_log_attributes" [Ptr LogAttributes] Unit;
   fn "exist_log_attrs_extras" [Ptr LogAttributes; Ptr U8] Bool8;
   fn "get_log_attrs_extra" [Ptr LogAttributes; Ptr U8] (Ptr StdString);
   fn "get_attribute_extras" [Ptr LogAttributes; Ptr U64; Ptr (Ptr StdString);
      Ptr (Ptr StdString); Ptr (Ptr (Vector StdString)); Ptr (Ptr (Vector StdString))] Unit
  ].

(** LogTailAttributes *)
Definition header_tail : list symbol :=
  [
   fn "valid_log_tail_attributes" [Ptr LogTailAttributes] Bool8;
   fn "ld_client_get_tail_attributes" [Ptr Client; U64; Ptr PrimMVar; I64; Ptr LogTailAttrsCbData]
      U16;
   fn "ld_client_get_tail_attributes_lsn" [Ptr LogTailAttributes] U64;
   fn "ld_client_get_tail_attributes_last_timestamp" [Ptr LogTailAttributes] I64;
   fn "ld_client_get_tail_attributes_bytes_offset" [Ptr LogTailAttributes] U64;
   fn "free_logdevice_tail_attributes" [Ptr LogTailAttributes] Unit
  ].

(** Err *)
Definition header_errors : list symbol :=
  [
   fn "show_error_name" [U16] (Ptr U8);
   fn "show_error_description" [U16] (Ptr U8)
  ].

(** Debug *)
Definition header_debug : list symbol :=
  [
   fn "set_dbg_level" [U32] Unit;
   fn "dbg_use_fd" [I32] I32
  ].

(** Client *)
Definition header_client : list symbol :=
  [
   fn "new_logdevice_client" [Ptr U8; Ptr (Ptr Client)] U16;
   fn "free_logdevice_client" [Ptr Client] Unit;
   fn "ld_client_get_max_payload_size" [Ptr Client] U64;
   fn "ld_client_is_log_empty" [Ptr Client; U64; Ptr PrimMVar; I64; Ptr IsLogEmptyCbData] U16;
   fn "ld_client_get_tail_lsn_sync" [Ptr Client; U64] U64;
   fn "ld_client_get_tail_lsn" [Ptr Client; U64; Ptr PrimMVar; I64; Ptr U16; Ptr U64] I64;
   fn "ld_client_get_settings" [Ptr Client; Ptr U8] (Ptr StdString);
   fn "ld_client_set_settings" [Ptr Client; Ptr U8; Ptr U8] U16;
   fn "ld_client_trim" [Ptr Client; U64; U64; Ptr PrimMVar; I64; Ptr U16] I64;
   fn "ld_client_find_time" [Ptr Client; U64; I64; I64; Ptr PrimMVar; I64; Ptr U16; Ptr U64] I64
  ].

(** LogConfigType *)
Definition header_logsconfig : list symbol :=
  [
   fn "ld_client_sync_logsconfig_version" [Ptr Client; U64] U16;
   fn "ld_client_make_directory_sync" [Ptr Client; Ptr U8; Bool8; Ptr LogAttributes;
      Ptr (Ptr LogDirectory)] U16;
   fn "ld_client_make_directory" [Ptr Client; Ptr U8; Bool8; Ptr LogAttributes; Ptr PrimMVar; I64;
      Ptr MakeDirectoryCbData] U16;
   fn "free_logdevice_logdirectory" [Ptr LogDirectory] Unit;
   fn "ld_client_get_directory" [Ptr Client; Ptr U8; Ptr PrimMVar; I64; Ptr U16;
      Ptr (Ptr LogDirectory)] U16;
   fn "ld_logdirectory_get_attrs" [Ptr LogDirectory] (Ptr LogAttributes);
   fn "ld_client_make_loggroup_sync" [Ptr Client; Ptr U8; U64; U64; Ptr LogAttributes; Bool8;
      Ptr (Ptr LogGroup)] U16;
   fn "ld_client_make_loggroup" [Ptr Client; Ptr U8; U64; U64; Ptr LogAttributes; Bool8;
      Ptr PrimMVar; I64; Ptr MakeLogGroupCbData] U16;
   fn "free_logdevice_loggroup" [Ptr LogGroup] Unit;
   fn "ld_client_get_loggroup_sync" [Ptr Client; Ptr U8; Ptr (Ptr LogGroup)] U16;
   fn "ld_client_get_loggroup" [Ptr Client; Ptr U8; Ptr PrimMVar; I64; Ptr U16; Ptr (Ptr LogGroup)]
      Unit;
   fn "ld_client_rename" [Ptr Client; Ptr U8; Ptr U8; Ptr PrimMVar; I64;
      Ptr LogsConfigStatusCbData] U16;
   fn "ld_client_remove_loggroup" [Ptr Client; Ptr U8; Ptr PrimMVar; I64;
      Ptr LogsConfigStatusCbData] U16;
   fn "ld_client_set_log_group_range" [Ptr Client; Ptr U8; U64; U64; Ptr PrimMVar; I64;
      Ptr LogsConfigStatusCbData] U16;
   fn "ld_client_set_attributes" [Ptr Client; Ptr U8; Ptr LogAttributes; Ptr PrimMVar; I64;
      Ptr LogsConfigStatusCbData] U16
  ].

(** Log Head Attributes *)
Definition header_head : list symbol :=
  [
   fn "free_log_head_attributes" [Ptr LogHeadAttributes] Unit;
   fn "get_head_attributes" [Ptr Client; U64; Ptr PrimMVar; I64; Ptr LogHeadAttrsCbData] U16;
   fn "get_trim_point_timestamp" [Ptr LogHeadAttributes] I64;
   fn "get_trim_point" [Ptr LogHeadAttributes] U64
  ].

(** Appender *)
Definition header_appender : list symbol :=
  [
   fn "logdevice_append_async" [Ptr Client; U64; Ptr U8; I64; I64; Ptr PrimMVar; I64;
      Ptr AppendCbData] U16;
   fn "logdevice_append_with_attrs_async" [Ptr Client; U64; Ptr U8; I64; I64; U8; Ptr U8;
      Ptr PrimMVar; I64; Ptr AppendCbData] U16;
   fn "logdevice_append_sync" [Ptr Client; U64; Ptr U8; I64; I64; Ptr I64; Ptr U64] U16;
   fn "logdevice_append_with_attrs_sync" [Ptr Client; U64; Ptr U8; I64; I64; U8; Ptr U8; Ptr I64;
      Ptr U64] U16
  ].

(** Checkpoint *)
Definition header_checkpoint : list symbol :=
  [
   fn "new_file_based_checkpoint_store" [Ptr U8] (Ptr CheckpointStore);
   fn "new_rsm_based_checkpoint_store" [Ptr Client; U64; I64] (Ptr CheckpointStore);
   fn "new_zookeeper_based_checkpoint_store" [Ptr Client] (Ptr CheckpointStore);
   fn "free_checkpoint_store" [Ptr CheckpointStore] Unit;
   fn "checkpoint_store_get_lsn" [Ptr CheckpointStore; Ptr U8; U64; Ptr PrimMVar; I64; Ptr U16;
      Ptr U64] Unit;
   fn "checkpoint_store_get_lsn_sync" [Ptr CheckpointStore; Ptr U8; U64; Ptr U64] U16;
   fn "checkpoint_store_update_lsn" [Ptr CheckpointStore; Ptr U8; U64; U64; Ptr PrimMVar; I64;
      Ptr U16] Unit;
   fn "checkpoint_store_update_lsn_sync" [Ptr CheckpointStore; Ptr U8; U64; U64] U16;
   fn "checkpoint_store_update_multi_lsn_sync" [Ptr CheckpointStore; Ptr U8; Ptr U64; Ptr U64; U64]
      U16
  ].

(** Reader *)
Definition header_reader : list symbol :=
  [
   fn "new_logdevice_reader" [Ptr Client; U64; I64] (Ptr Reader);
   fn "free_logdevice_reader" [Ptr Reader] Unit;
   fn "new_sync_checkpointed_reader" [Ptr U8; Ptr Reader; Ptr CheckpointStore; U32]
      (Ptr SyncCheckpointedReader);
   fn "free_sync_checkpointed_reader" [Ptr SyncCheckpointedReader] Unit;
   fn "ld_reader_start_reading" [Ptr Reader; U64; U64; U64] U16;
   fn "ld_checkpointed_reader_start_reading" [Ptr SyncCheckpointedReader; U64; U64; U64] U16;
   fn "ld_checkpointed_reader_start_reading_from_ckp" [Ptr SyncCheckpointedReader; U64; U64] U16;
   fn "ld_reader_stop_reading" [Ptr Reader; U64] U16;
   fn "ld_checkpointed_reader_stop_reading" [Ptr SyncCheckpointedReader; U64] U16;
   fn "ld_reader_is_reading" [Ptr Reader; U64] Bool8;
   fn "ld_checkpointed_reader_is_reading" [Ptr SyncCheckpointedReader; U64] Bool8;
   fn "ld_reader_is_reading_any" [Ptr Reader] Bool8;
   fn "ld_checkpointed_reader_is_reading_any" [Ptr SyncCheckpointedReader] Bool8;
   fn "ld_reader_set_timeout" [Ptr Reader; I32] I32;
   fn "ld_checkpointed_reader_set_timeout" [Ptr SyncCheckpointedReader; I32] I32;
   fn "logdevice_reader_read" [Ptr Reader; U64; Ptr DataRecord; Ptr GapRecord; Ptr I64] U16;
   fn "logdevice_checkpointed_reader_read" [Ptr SyncCheckpointedReader; U64; Ptr DataRecord;
      Ptr GapRecord; Ptr I64] U16;
   fn "crb_write_checkpoints" [Ptr SyncCheckpointedReader; Ptr U64; Ptr U64; U64; Ptr PrimMVar;
      I64; Ptr U16] Unit;
   fn "crb_write_last_read_checkpoints" [Ptr SyncCheckpointedReader; Ptr U64; U64; Ptr PrimMVar;
      I64; Ptr U16] Unit;
   fn "sync_write_checkpoints" [Ptr SyncCheckpointedReader; Ptr U64; Ptr U64; U64] U16;
   fn "sync_write_last_read_checkpoints" [Ptr SyncCheckpointedReader; Ptr U64; U64] U16
  ].

(** ** Functions without a prototype in the header *)

(** [hs_logdevice.cpp] *)
Definition cpp_logdevice : list symbol :=
  [
   fn "create_default_client_settings" [] (Ptr ClientSettings_);
   fn "ld_client_find_key" [Ptr Client; U64; Ptr U8; I64; Ptr PrimMVar; I64; Ptr U16; Ptr U64;
      Ptr U64] I64
  ].

(** [hs_checkpoint.cpp] *)
Definition cpp_checkpoint : list symbol :=
  [
   fn "checkpoint_store_get_all_checkpoints" [Ptr CheckpointStore; Ptr U8; Ptr PrimMVar; I64;
      Ptr U16; Ptr I64; Ptr (Ptr U64); Ptr (Ptr U64); Ptr (Ptr (Vector U64));
      Ptr (Ptr (Vector U64))] Unit;
   fn "checkpoint_store_update_multi_lsn" [Ptr CheckpointStore; Ptr U8; Ptr U64; Ptr U64; U64;
      Ptr PrimMVar; I64; Ptr U16] Unit;
   fn "checkpoint_store_remove_checkpoints" [Ptr CheckpointStore; Ptr U8; Ptr U64; I64; I64;
      Ptr PrimMVar; I64; Ptr U16] Unit;
   fn "checkpoint_store_remove_all_checkpoints" [Ptr CheckpointStore; Ptr U8; Ptr PrimMVar; I64;
      Ptr U16] Unit
  ].

(** [hs_ldquery.cpp] *)
Definition cpp_ldquery : list symbol :=
  [
   fn "new_ldquery" [Ptr U8; I64; Bool8] (Ptr LDQuery_);
   fn "delete_ldquery" [Ptr LDQuery_] Unit;
   fn "ldquery_show_tables" [Ptr LDQuery_; Ptr U64; Ptr (Ptr StdString);
      Ptr (Ptr (Vector StdString)); Ptr (Ptr StdString); Ptr (Ptr (Vector StdString))] Unit;
   fn "ldquery_show_table_columns" [Ptr LDQuery_; Ptr U8; Ptr U64; Ptr (Ptr StdString);
      Ptr (Ptr (Vector StdString)); Ptr (Ptr StdString); Ptr (Ptr (Vector StdString));
      Ptr (Ptr StdString); Ptr (Ptr (Vector StdString))] Unit;
   fn "ldquery_query" [Ptr LDQuery_; Ptr U8; Ptr U64; Ptr (Ptr QueryResults); Ptr (Ptr U8)] Unit;
   fn "delete_query_results_" [Ptr QueryResults] Unit;
   fn "queryResults__headers_" [Ptr QueryResults; I64; Ptr U64; Ptr (Ptr StdString)] Unit;
   fn "queryResults__cols_max_size_" [Ptr QueryResults; I64; Ptr U64; Ptr (Ptr U64)] Unit;
   fn "queryResults_rows_len" [Ptr QueryResults; I64] U64;
   fn "queryResults_rows_val" [Ptr QueryResults; I64; I64; Ptr U64; Ptr (Ptr StdString)] Unit;
   fn "queryResults__metadata_contacted_nodes_" [Ptr QueryResults; I64] U64;
   fn "queryResults__metadata_latency_" [Ptr QueryResults; I64] U64;
   fn "queryResults__metadata_failures_" [Ptr QueryResults; I64; Ptr U64; Ptr (Ptr I32);
      Ptr (Ptr (Vector I32)); Ptr (Ptr StdString); Ptr (Ptr (Vector StdString));
      Ptr (Ptr StdString); Ptr (Ptr (Vector StdString))] Unit
  ].

(** [hs_log_attributes.cpp] *)
Definition cpp_log_attributes : list symbol :=
  [
   fn "poke_log_attributes" [Ptr I32; Bool8; Ptr I32; Bool8; Ptr I32; Bool8; Ptr Bool8; Bool8;
      Ptr U8; Bool8; I64; Ptr U8; Ptr I64; Bool8; Bool8; Ptr I32; Bool8; Ptr Bool8; Bool8;
      Ptr Bool8; Bool8; Ptr Bool8; Bool8; I64; Ptr (Ptr ByteArray); Ptr (Ptr ByteArray)]
      (Ptr LogAttributes);
   fn "peek_log_attributes" [Ptr LogAttributes; Ptr Bool8; Ptr I64; Ptr Bool8; Ptr Bool8; Ptr I64;
      Ptr Bool8; Ptr Bool8; Ptr I64; Ptr Bool8; Ptr Bool8; Ptr Bool8; Ptr Bool8; Ptr Bool8;
      Ptr U8; Ptr Bool8; I64; Ptr U8; Ptr I64; Ptr Bool8; Ptr Bool8; Ptr Bool8; Ptr I64;
      Ptr Bool8; Ptr Bool8; Ptr Bool8; Ptr Bool8; Ptr Bool8; Ptr Bool8; Ptr Bool8; Ptr Bool8;
      Ptr Bool8; Ptr Bool8] Unit;
   fn "peek_log_attributes_extras" [Ptr LogAttributes; Ptr U64; Ptr (Ptr StdString);
      Ptr (Ptr StdString); Ptr (Ptr (Vector StdString)); Ptr (Ptr (Vector StdString))] Unit;
   fn "get_replicateAcross_size" [Ptr LogAttributes] I64
  ].

(** [hs_logconfigtypes.cpp] *)
Definition cpp_logconfigtypes : list symbol :=
  [
   fn "update_log_attrs_extras" [Ptr LogAttributes; I64; Ptr (Ptr ByteArray); Ptr (Ptr ByteArray)]
      (Ptr LogAttributes);
   fn "get_replication_factor" [Ptr LogAttributes] I32;
   fn "describe_log_maxWritesInFlight" [Ptr LogAttributes] (Ptr StdString);
   fn "ld_client_get_loggroup_by_id" [Ptr Client; U64; Ptr PrimMVar; I64; Ptr U16;
      Ptr (Ptr LogGroup)] Unit;
   fn "ld_client_logid_has_group" [Ptr Client; U64; Ptr PrimMVar; I64; Ptr U16; Ptr Bool8] Unit;
   fn "ld_loggroup_get_range" [Ptr LogGroup; Ptr U64; Ptr U64] Unit;
   fn "ld_loggroup_get_name" [Ptr LogGroup] (Ptr U8);
   fn "ld_loggroup_get_fully_qualified_name" [Ptr LogGroup] (Ptr U8);
   fn "ld_loggroup_get_attrs" [Ptr LogGroup] (Ptr LogAttributes);
   fn "ld_loggroup_get_version" [Ptr LogGroup] U64;
   fn "ld_loggroup_update_extra_attrs" [Ptr Client; Ptr LogGroup; I64; Ptr (Ptr ByteArray);
      Ptr (Ptr ByteArray); Ptr PrimMVar; I64; Ptr LogsConfigStatusCbData] U16;
   fn "ld_client_remove_directory" [Ptr Client; Ptr U8; Bool8; Ptr PrimMVar; I64;
      Ptr LogsConfigStatusCbData] U16;
   fn "ld_logdir_children_keys" [Ptr LogDirectory; Ptr I64; Ptr (Ptr (Vector StdString))]
      (Ptr StdString);
   fn "ld_logdir_logs_keys" [Ptr LogDirectory; Ptr I64; Ptr (Ptr (Vector StdString))]
      (Ptr StdString);
   fn "ld_logdirectory_name" [Ptr LogDirectory] (Ptr U8);
   fn "ld_logdirectory_full_name" [Ptr LogDirectory] (Ptr U8);
   fn "ld_logdirectory_get_version" [Ptr LogDirectory] U64;
   fn "ld_logdir_child_name" [Ptr LogDirectory; Ptr U8] (Ptr U8);
   fn "ld_logdir_child_full_name" [Ptr LogDirectory; Ptr U8] (Ptr U8);
   fn "ld_logdir_child_version" [Ptr LogDirectory; Ptr U8] U64;
   fn "ld_logdir_log_name" [Ptr LogDirectory; Ptr U8] (Ptr U8);
   fn "ld_logdir_log_full_name" [Ptr LogDirectory; Ptr U8] (Ptr U8);
   fn "ld_logdir_log_version" [Ptr LogDirectory; Ptr U8] U64;
   fn "ld_logdir_log_attrs" [Ptr LogDirectory; Ptr U8] (Ptr LogAttributes);
   fn "ld_logdir_logs_range" [Ptr LogDirectory; Ptr U8; Ptr U64; Ptr U64] Unit;
   fn "ld_logdirectory_get_logs_name" [Ptr LogDirectory; Bool8; Ptr U64; Ptr (Ptr StdString);
      Ptr (Ptr (Vector StdString))] Unit;
   fn "ld_client_remove_loggroup_sync" [Ptr Client; Ptr U8; Ptr U64] U16
  ].

(** [hs_reader.cpp] *)
Definition cpp_reader : list symbol :=
  [
   fn "ld_reader_without_payload" [Ptr Reader] Unit;
   fn "ld_ckp_reader_without_payload" [Ptr SyncCheckpointedReader] Unit;
   fn "ld_reader_include_byteoffset" [Ptr Reader] Unit;
   fn "ld_ckp_reader_include_byteoffset" [Ptr SyncCheckpointedReader] Unit;
   fn "ld_reader_wait_only_when_no_data" [Ptr Reader] Unit;
   fn "ld_ckp_reader_wait_only_when_no_data" [Ptr SyncCheckpointedReader] Unit;
   fn "ld_start_reading_from_ckp_or_start" [Ptr SyncCheckpointedReader; U64; U64; U64] U16;
   fn "crb_asyncRemoveCheckpoints" [Ptr SyncCheckpointedReader; Ptr U64; U64; Ptr PrimMVar; I64;
      Ptr U16] Unit;
   fn "crb_asyncRemoveAllCheckpoints" [Ptr SyncCheckpointedReader; Ptr PrimMVar; I64; Ptr U16]
      Unit
  ].

(** [hs_versioned_config_store.cpp] *)
Definition cpp_versioned_config_store : list symbol :=
  [
   fn "new_rsm_based_vcs" [Ptr Client; U64; I64] (Ptr VersionedConfigStore);
   fn "free_logdevice_vcs" [Ptr VersionedConfigStore] Unit;
   fn "logdevice_vcs_get_config" [Ptr VersionedConfigStore; Ptr U8; Ptr U64; Ptr PrimMVar; I64;
      Ptr VcsValueCbData] Unit;
   fn "logdevice_vcs_get_latest_config" [Ptr VersionedConfigStore; Ptr U8; Ptr PrimMVar; I64;
      Ptr VcsValueCbData] Unit;
   fn "logdevice_vcs_update_config" [Ptr VersionedConfigStore; Ptr U8; Ptr U8; I64; I64; I64; U64;
      Ptr PrimMVar; I64; Ptr VcsWriteCbData] Unit
  ].

(** [hs_writer.cpp] *)
Definition cpp_writer : list symbol :=
  [
   fn "ld_cons_append_attributes" [Ptr AppendAttributes_; Ptr U8; Ptr (Ptr U8); I64; Ptr U8;
      Ptr I64; I64] Unit;
   fn "ld_new_append_attributes" [Ptr U8; Ptr (Ptr U8); I64; Ptr U8; Ptr I64; I64]
      (Ptr AppendAttributes_);
   fn "ld_free_append_attributes" [Ptr AppendAttributes_] Unit;
   fn "logdevice_append_batch_rts" [Ptr Client; U64; Ptr (Ptr ByteArray); Ptr I64; I64; U8; I64;
      I64; Ptr U8; Ptr (Ptr ByteArray); Ptr PrimMVar; I64; Ptr AppendCbData] U16;
   fn "logdevice_append_batch" [Ptr Client; U64; Ptr (Ptr U8); Ptr I32; Ptr I32; I64; U8; I64;
      I64; Ptr U8; Ptr (Ptr ByteArray); Ptr PrimMVar; I64; Ptr AppendCbData] U16
  ].

(** [ld_configuration.cpp] *)
Definition cpp_ld_configuration : list symbol :=
  [
   fn "isInternalLog" [U64] Bool8;
   fn "getInternalLogName" [U64] (Ptr StdString)
  ].

(** [ld_health_checker.cpp] *)
Definition cpp_ld_health_checker : list symbol :=
  [
   fn "new_ld_checker" [Ptr Client] (Ptr Checker);
   fn "delete_ld_checker" [Ptr Checker] Unit;
   fn "ld_checker_check" [Ptr Checker; I32] Bool8
  ].

(** [utils.cpp] *)
Definition cpp_utils : list symbol :=
  [
   fn "get_vector_of_string_size" [Ptr (Vector StdString)] I64;
   fn "get_vector_of_string_data" [Ptr (Vector StdString)] (Ptr StdString)
  ].

Definition exports : list symbol :=
  header_utils ++ header_attributes ++ header_tail ++ header_errors ++ header_debug ++
  header_client ++ header_logsconfig ++ header_head ++ header_appender ++ header_checkpoint ++
  header_reader ++ cpp_logdevice ++ cpp_checkpoint ++ cpp_ldquery ++ cpp_log_attributes ++
  cpp_logconfigtypes ++ cpp_reader ++ cpp_versioned_config_store ++ cpp_writer ++
  cpp_ld_configuration ++ cpp_ld_health_checker ++ cpp_utils.

(** ** Foreign imports *)

(** [LogDevice.hs] *)
Definition import_LogDevice : list import :=
  [
   call unsafe "new_logdevice_client" [heap (Ptr U8); heap (Ptr (Ptr Client))] U16;
   addr unsafe "free_logdevice_client" [arg (Ptr Client)] Unit;
   call unsafe "ld_client_get_max_payload_size" [arg (Ptr Client)] U64;
   call unsafe "ld_client_get_settings" [arg (Ptr Client); heap (Ptr U8)] (Ptr StdString);
   call unsafe "ld_client_set_settings" [arg (Ptr Client); heap (Ptr U8); heap (Ptr U8)] U16;
   call safe "ld_client_get_tail_lsn_sync" [arg (Ptr Client); arg U64] U64;
   call unsafe "ld_client_get_tail_lsn" [arg (Ptr Client); arg U64; arg (Ptr PrimMVar); arg I64;
      heap (Ptr U16); heap (Ptr U64)] I64;
   call unsafe "ld_client_is_log_empty" [arg (Ptr Client); arg U64; arg (Ptr PrimMVar); arg I64;
      arg (Ptr IsLogEmptyCbData)] U16;
   call unsafe "ld_client_trim" [arg (Ptr Client); arg U64; arg U64; arg (Ptr PrimMVar); arg I64;
      heap (Ptr U16)] I64;
   call unsafe "ld_client_find_time" [arg (Ptr Client); arg U64; arg I64; arg I64;
      arg (Ptr PrimMVar); arg I64; heap (Ptr U16); heap (Ptr U64)] I64;
   call unsafe "ld_client_find_key" [arg (Ptr Client); arg U64; heap (Ptr U8); arg I64;
      arg (Ptr PrimMVar); arg I64; heap (Ptr U16); heap (Ptr U64); heap (Ptr U64)] I64
  ].

(** [LogDevice/LDQuery.hs] *)
Definition import_LDQuery : list import :=
  [
   call safe "new_ldquery" [arg (Ptr U8); arg I64; arg Bool8] (Ptr LDQuery_);
   call unsafe "delete_ldquery" [arg (Ptr LDQuery_)] Unit;
   addr unsafe "delete_ldquery" [arg (Ptr LDQuery_)] Unit;
   call unsafe "ldquery_show_tables" [arg (Ptr LDQuery_); heap (Ptr U64);
      heap (Ptr (Ptr StdString)); heap (Ptr (Ptr (Vector StdString))); heap (Ptr (Ptr StdString));
      heap (Ptr (Ptr (Vector StdString)))] Unit;
   call unsafe "ldquery_show_table_columns" [arg (Ptr LDQuery_); heap (Ptr U8); heap (Ptr U64);
      heap (Ptr (Ptr StdString)); heap (Ptr (Ptr (Vector StdString))); heap (Ptr (Ptr StdString));
      heap (Ptr (Ptr (Vector StdString))); heap (Ptr (Ptr StdString));
      heap (Ptr (Ptr (Vector StdString)))] Unit;
   call safe "ldquery_query" [arg (Ptr LDQuery_); arg (Ptr U8); arg (Ptr U64);
      arg (Ptr (Ptr QueryResults)); arg (Ptr (Ptr U8))] Unit;
   call unsafe "delete_query_results_" [arg (Ptr QueryResults)] Unit;
   addr unsafe "delete_query_results_" [arg (Ptr QueryResults)] Unit;
   call unsafe "queryResults__headers_" [arg (Ptr QueryResults); arg I64; heap (Ptr U64);
      heap (Ptr (Ptr StdString))] Unit;
   call unsafe "queryResults__cols_max_size_" [arg (Ptr QueryResults); arg I64; heap (Ptr U64);
      heap (Ptr (Ptr U64))] Unit;
   call unsafe "queryResults_rows_len" [arg (Ptr QueryResults); arg I64] U64;
   call unsafe "queryResults_rows_val" [arg (Ptr QueryResults); arg I64; arg I64; heap (Ptr U64);
      heap (Ptr (Ptr StdString))] Unit;
   call unsafe "queryResults__metadata_contacted_nodes_" [arg (Ptr QueryResults); arg I64] U64;
   call unsafe "queryResults__metadata_latency_" [arg (Ptr QueryResults); arg I64] U64;
   call unsafe "queryResults__metadata_failures_" [arg (Ptr QueryResults); arg I64;
      heap (Ptr U64); heap (Ptr (Ptr I32)); heap (Ptr (Ptr (Vector I32)));
      heap (Ptr (Ptr StdString)); heap (Ptr (Ptr (Vector StdString))); heap (Ptr (Ptr StdString));
      heap (Ptr (Ptr (Vector StdString)))] Unit
  ].

(** [LogDevice/LogConfigTypes.hs] *)
Definition import_LogConfigTypes1 : list import :=
  [
   call unsafe "get_attribute_extras" [arg (Ptr LogAttributes); heap (Ptr U64);
      heap (Ptr (Ptr StdString)); heap (Ptr (Ptr StdString)); heap (Ptr (Ptr (Vector StdString)));
      heap (Ptr (Ptr (Vector StdString)))] Unit;
   call unsafe "get_replication_factor" [arg (Ptr LogAttributes)] I32;
   call unsafe "new_log_attributes" [arg I32; arg I64; heap (Ptr (Ptr ByteArray));
      heap (Ptr (Ptr ByteArray))] (Ptr LogAttributes);
   call unsafe "update_log_attrs_extras" [arg (Ptr LogAttributes); arg I64;
      heap (Ptr (Ptr ByteArray)); heap (Ptr (Ptr ByteArray))] (Ptr LogAttributes);
   call unsafe "exist_log_attrs_extras" [arg (Ptr LogAttributes); heap (Ptr U8)] Bool8;
   call unsafe "get_log_attrs_extra" [arg (Ptr LogAttributes); heap (Ptr U8)] (Ptr StdString);
   call unsafe "free_log_attributes" [arg (Ptr LogAttributes)] Unit;
   addr unsafe "free_log_attributes" [arg (Ptr LogAttributes)] Unit
  ].

(** [LogDevice/LogConfigTypes.hs] *)
Definition import_LogConfigTypes2 : list import :=
  [
   call unsafe "get_head_attributes" [arg (Ptr Client); arg U64; arg (Ptr PrimMVar); arg I64;
      arg (Ptr LogHeadAttrsCbData)] U16;
   call unsafe "get_trim_point_timestamp" [arg (Ptr LogHeadAttributes)] I64;
   call unsafe "get_trim_point" [arg (Ptr LogHeadAttributes)] U64;
   call unsafe "free_log_head_attributes" [arg (Ptr LogHeadAttributes)] Unit;
   addr unsafe "free_log_head_attributes" [arg (Ptr LogHeadAttributes)] Unit
  ].

(** [LogDevice/LogConfigTypes.hs] *)
Definition import_LogConfigTypes3 : list import :=
  [
   call unsafe "ld_client_get_tail_attributes" [arg (Ptr Client); arg U64; arg (Ptr PrimMVar);
      arg I64; arg (Ptr LogTailAttrsCbData)] U16;
   call unsafe "ld_client_get_tail_attributes_lsn" [arg (Ptr LogTailAttributes)] U64;
   call unsafe "ld_client_get_tail_attributes_last_timestamp" [arg (Ptr LogTailAttributes)] I64;
   call unsafe "ld_client_get_tail_attributes_bytes_offset" [arg (Ptr LogTailAttributes)] U64;
   call unsafe "free_logdevice_tail_attributes" [arg (Ptr LogTailAttributes)] Unit;
   addr unsafe "free_logdevice_tail_attributes" [arg (Ptr LogTailAttributes)] Unit
  ].

(** [LogDevice/LogConfigTypes.hs] *)
Definition import_LogConfigTypes4 : list import :=
  [
   call unsafe "ld_logdir_child_full_name" [arg (Ptr LogDirectory); heap (Ptr U8)] (Ptr U8);
   call unsafe "ld_logdir_log_full_name" [arg (Ptr LogDirectory); heap (Ptr U8)] (Ptr U8);
   call unsafe "ld_logdir_children_keys" [arg (Ptr LogDirectory); heap (Ptr I64);
      heap (Ptr (Ptr (Vector StdString)))] (Ptr StdString);
   call unsafe "ld_logdir_logs_keys" [arg (Ptr LogDirectory); heap (Ptr I64);
      heap (Ptr (Ptr (Vector StdString)))] (Ptr StdString);
   call unsafe "ld_client_make_directory_sync" [arg (Ptr Client); heap (Ptr U8); arg Bool8;
      arg (Ptr LogAttributes); heap (Ptr (Ptr LogDirectory))] U16;
   call unsafe "ld_client_make_directory" [arg (Ptr Client); heap (Ptr U8); arg Bool8;
      arg (Ptr LogAttributes); arg (Ptr PrimMVar); arg I64; arg (Ptr MakeDirectoryCbData)] U16;
   call unsafe "free_logdevice_logdirectory" [arg (Ptr LogDirectory)] Unit;
   addr unsafe "free_logdevice_logdirectory" [arg (Ptr LogDirectory)] Unit;
   call unsafe "ld_client_remove_directory" [arg (Ptr Client); heap (Ptr U8); arg Bool8;
      arg (Ptr PrimMVar); arg I64; arg (Ptr LogsConfigStatusCbData)] U16;
   call unsafe "ld_logdirectory_name" [arg (Ptr LogDirectory)] (Ptr U8);
   call unsafe "ld_logdirectory_full_name" [arg (Ptr LogDirectory)] (Ptr U8);
   call unsafe "ld_logdirectory_get_version" [arg (Ptr LogDirectory)] U64;
   call unsafe "ld_logdirectory_get_attrs" [arg (Ptr LogDirectory)] (Ptr LogAttributes);
   call unsafe "ld_client_get_directory" [arg (Ptr Client); heap (Ptr U8); arg (Ptr PrimMVar);
      arg I64; heap (Ptr U16); heap (Ptr (Ptr LogDirectory))] U16;
   call unsafe "ld_logdirectory_get_logs_name" [arg (Ptr LogDirectory); arg Bool8; heap (Ptr U64);
      heap (Ptr (Ptr StdString)); heap (Ptr (Ptr (Vector StdString)))] Unit
  ].

(** [LogDevice/LogConfigTypes.hs] *)
Definition import_LogConfigTypes5 : list import :=
  [
   call unsafe "ld_client_set_log_group_range" [arg (Ptr Client); heap (Ptr U8); arg U64; arg U64;
      arg (Ptr PrimMVar); arg I64; arg (Ptr LogsConfigStatusCbData)] U16;
   call unsafe "ld_client_make_loggroup" [arg (Ptr Client); heap (Ptr U8); arg U64; arg U64;
      arg (Ptr LogAttributes); arg Bool8; arg (Ptr PrimMVar); arg I64;
      arg (Ptr MakeLogGroupCbData)] U16;
   call unsafe "ld_client_make_loggroup_sync" [arg (Ptr Client); heap (Ptr U8); arg U64; arg U64;
      arg (Ptr LogAttributes); arg Bool8; heap (Ptr (Ptr LogGroup))] U16;
   call unsafe "ld_client_get_loggroup" [arg (Ptr Client); heap (Ptr U8); arg (Ptr PrimMVar);
      arg I64; heap (Ptr U16); heap (Ptr (Ptr LogGroup))] Unit;
   call unsafe "ld_client_get_loggroup_by_id" [arg (Ptr Client); arg U64; arg (Ptr PrimMVar);
      arg I64; heap (Ptr U16); heap (Ptr (Ptr LogGroup))] Unit;
   call unsafe "ld_client_logid_has_group" [arg (Ptr Client); arg U64; arg (Ptr PrimMVar);
      arg I64; heap (Ptr U16); heap (Ptr Bool8)] Unit;
   call unsafe "ld_client_remove_loggroup" [arg (Ptr Client); heap (Ptr U8); arg (Ptr PrimMVar);
      arg I64; arg (Ptr LogsConfigStatusCbData)] U16;
   call unsafe "ld_loggroup_get_range" [arg (Ptr LogGroup); heap (Ptr U64); heap (Ptr U64)] Unit;
   call unsafe "ld_loggroup_get_name" [arg (Ptr LogGroup)] (Ptr U8);
   call unsafe "ld_loggroup_get_fully_qualified_name" [arg (Ptr LogGroup)] (Ptr U8);
   call unsafe "ld_loggroup_get_attrs" [arg (Ptr LogGroup)] (Ptr LogAttributes);
   call unsafe "ld_loggroup_get_version" [arg (Ptr LogGroup)] U64;
   call unsafe "ld_loggroup_update_extra_attrs" [arg (Ptr Client); arg (Ptr LogGroup); arg I64;
      heap (Ptr (Ptr ByteArray)); heap (Ptr (Ptr ByteArray)); arg (Ptr PrimMVar); arg I64;
      arg (Ptr LogsConfigStatusCbData)] U16;
   call unsafe "free_logdevice_loggroup" [arg (Ptr LogGroup)] Unit;
   addr unsafe "free_logdevice_loggroup" [arg (Ptr LogGroup)] Unit
  ].

(** [LogDevice/LogConfigTypes.hs] *)
Definition import_LogConfigTypes6 : list import :=
  [
   call safe "ld_client_sync_logsconfig_version" [arg (Ptr Client); arg U64] U16;
   call unsafe "ld_client_set_attributes" [arg (Ptr Client); heap (Ptr U8);
      arg (Ptr LogAttributes); arg (Ptr PrimMVar); arg I64; arg (Ptr LogsConfigStatusCbData)] U16;
   call unsafe "ld_client_rename" [arg (Ptr Client); heap (Ptr U8); heap (Ptr U8);
      arg (Ptr PrimMVar); arg I64; arg (Ptr LogsConfigStatusCbData)] U16
  ].

(** [LogDevice/Configuration.hs] *)
Definition import_Configuration : list import :=
  [
   call unsafe "isInternalLog" [arg U64] Bool8;
   call unsafe "getInternalLogName" [arg U64] (Ptr StdString)
  ].

(** [LogDevice/Writer.hs] *)
Definition import_Writer : list import :=
  [
   call unsafe "logdevice_append_async" [arg (Ptr Client); arg U64; arg (Ptr U8); arg I64;
      arg I64; arg (Ptr PrimMVar); arg I64; arg (Ptr AppendCbData)] U16;
   call unsafe "logdevice_append_with_attrs_async" [arg (Ptr Client); arg U64; arg (Ptr U8);
      arg I64; arg I64; arg U8; arg (Ptr U8); arg (Ptr PrimMVar); arg I64; arg (Ptr AppendCbData)]
      U16;
   call unsafe "logdevice_append_batch_rts" [arg (Ptr Client); arg U64;
      heap (Ptr (Ptr ByteArray)); heap (Ptr I64); arg I64; arg I64; arg I64; arg I64;
      heap (Ptr U8); heap (Ptr (Ptr ByteArray)); arg (Ptr PrimMVar); arg I64;
      arg (Ptr AppendCbData)] U16;
   call unsafe "logdevice_append_batch" [arg (Ptr Client); arg U64; arg (Ptr (Ptr U8));
      arg (Ptr I32); arg (Ptr I32); arg I64; arg I64; arg I64; arg I64; heap (Ptr U8);
      heap (Ptr (Ptr ByteArray)); arg (Ptr PrimMVar); arg I64; arg (Ptr AppendCbData)] U16;
   call safe "logdevice_append_sync" [arg (Ptr Client); arg U64; arg (Ptr U8); arg I64; arg I64;
      arg (Ptr I64); arg (Ptr U64)] U16;
   call safe "logdevice_append_with_attrs_sync" [arg (Ptr Client); arg U64; arg (Ptr U8); arg I64;
      arg I64; arg U8; arg (Ptr U8); arg (Ptr I64); arg (Ptr U64)] U16
  ].

(** [LogDevice/HealthCheck.hs] *)
Definition import_HealthCheck : list import :=
  [
   call unsafe "new_ld_checker" [arg (Ptr Client)] (Ptr Checker);
   addr unsafe "delete_ld_checker" [arg (Ptr Checker)] Unit;
   call safe "ld_checker_check" [arg (Ptr Checker); arg I32] Bool8
  ].

(** [LogDevice/LogAttributes.hs] *)
Definition import_LogAttributes : list import :=
  [
   call unsafe "poke_log_attributes" [arg (Ptr I32); arg Bool8; arg (Ptr I32); arg Bool8;
      arg (Ptr I32); arg Bool8; arg (Ptr Bool8); arg Bool8; arg (Ptr U8); arg Bool8; arg I64;
      heap (Ptr U8); heap (Ptr I64); arg Bool8; arg Bool8; arg (Ptr I32); arg Bool8;
      arg (Ptr Bool8); arg Bool8; arg (Ptr Bool8); arg Bool8; arg (Ptr Bool8); arg Bool8; arg I64;
      heap (Ptr (Ptr ByteArray)); heap (Ptr (Ptr ByteArray))] (Ptr LogAttributes);
   call unsafe "peek_log_attributes" [arg (Ptr LogAttributes); heap (Ptr Bool8); heap (Ptr I64);
      heap (Ptr Bool8); heap (Ptr Bool8); heap (Ptr I64); heap (Ptr Bool8); heap (Ptr Bool8);
      heap (Ptr I64); heap (Ptr Bool8); heap (Ptr Bool8); heap (Ptr Bool8); heap (Ptr Bool8);
      heap (Ptr Bool8); heap (Ptr U8); heap (Ptr Bool8); arg I64; heap (Ptr Any); heap (Ptr Any);
      heap (Ptr Bool8); heap (Ptr Bool8); heap (Ptr Bool8); heap (Ptr I64); heap (Ptr Bool8);
      heap (Ptr Bool8); heap (Ptr Bool8); heap (Ptr Bool8); heap (Ptr Bool8); heap (Ptr Bool8);
      heap (Ptr Bool8); heap (Ptr Bool8); heap (Ptr Bool8); heap (Ptr Bool8)] Unit;
   call unsafe "free_log_attributes" [arg (Ptr LogAttributes)] Unit;
   addr unsafe "free_log_attributes" [arg (Ptr LogAttributes)] Unit;
   call unsafe "peek_log_attributes_extras" [arg (Ptr LogAttributes); heap (Ptr U64);
      heap (Ptr (Ptr StdString)); heap (Ptr (Ptr StdString)); heap (Ptr (Ptr (Vector StdString)));
      heap (Ptr (Ptr (Vector StdString)))] Unit;
   call unsafe "get_replicateAcross_size" [arg (Ptr LogAttributes)] I64
  ].

(** [LogDevice/Reader.hs] *)
Definition import_Reader : list import :=
  [
   call unsafe "new_logdevice_reader" [arg (Ptr Client); arg U64; arg I64] (Ptr Reader);
   call unsafe "free_logdevice_reader" [arg (Ptr Reader)] Unit;
   addr unsafe "free_logdevice_reader" [arg (Ptr Reader)] Unit;
   call unsafe "new_sync_checkpointed_reader" [heap (Ptr U8); arg (Ptr Reader);
      arg (Ptr CheckpointStore); arg U32] (Ptr SyncCheckpointedReader);
   call unsafe "free_sync_checkpointed_reader" [arg (Ptr SyncCheckpointedReader)] Unit;
   addr unsafe "free_sync_checkpointed_reader" [arg (Ptr SyncCheckpointedReader)] Unit;
   call unsafe "ld_reader_start_reading" [arg (Ptr Reader); arg U64; arg U64; arg U64] U16;
   call unsafe "ld_checkpointed_reader_start_reading" [arg (Ptr SyncCheckpointedReader); arg U64;
      arg U64; arg U64] U16;
   call safe "ld_checkpointed_reader_start_reading_from_ckp" [arg (Ptr SyncCheckpointedReader);
      arg U64; arg U64] U16;
   call safe "ld_start_reading_from_ckp_or_start" [arg (Ptr SyncCheckpointedReader); arg U64;
      arg U64; arg U64] U16;
   call unsafe "ld_reader_stop_reading" [arg (Ptr Reader); arg U64] U16;
   call unsafe "ld_checkpointed_reader_stop_reading" [arg (Ptr SyncCheckpointedReader); arg U64]
      U16;
   call unsafe "ld_reader_is_reading" [arg (Ptr Reader); arg U64] Bool8;
   call unsafe "ld_checkpointed_reader_is_reading" [arg (Ptr SyncCheckpointedReader); arg U64]
      Bool8;
   call unsafe "ld_reader_is_reading_any" [arg (Ptr Reader)] Bool8;
   call unsafe "ld_checkpointed_reader_is_reading_any" [arg (Ptr SyncCheckpointedReader)] Bool8;
   call unsafe "ld_reader_set_timeout" [arg (Ptr Reader); arg I32] I32;
   call unsafe "ld_checkpointed_reader_set_timeout" [arg (Ptr SyncCheckpointedReader); arg I32]
      I32;
   call unsafe "ld_reader_without_payload" [arg (Ptr Reader)] Unit;
   call unsafe "ld_ckp_reader_without_payload" [arg (Ptr SyncCheckpointedReader)] Unit;
   call unsafe "ld_reader_include_byteoffset" [arg (Ptr Reader)] Unit;
   call unsafe "ld_ckp_reader_include_byteoffset" [arg (Ptr SyncCheckpointedReader)] Unit;
   call unsafe "ld_reader_wait_only_when_no_data" [arg (Ptr Reader)] Unit;
   call unsafe "ld_ckp_reader_wait_only_when_no_data" [arg (Ptr SyncCheckpointedReader)] Unit;
   call safe "logdevice_reader_read" [arg (Ptr Reader); arg U64; arg (Ptr DataRecord);
      arg (Ptr GapRecord); arg (Ptr I64)] U16;
   call safe "logdevice_checkpointed_reader_read" [arg (Ptr SyncCheckpointedReader); arg U64;
      arg (Ptr DataRecord); arg (Ptr GapRecord); arg (Ptr I64)] U16;
   call unsafe "crb_write_checkpoints" [arg (Ptr SyncCheckpointedReader); heap (Ptr U64);
      heap (Ptr U64); arg U64; arg (Ptr PrimMVar); arg I64; heap (Ptr U16)] Unit;
   call unsafe "crb_write_last_read_checkpoints" [arg (Ptr SyncCheckpointedReader);
      heap (Ptr U64); arg U64; arg (Ptr PrimMVar); arg I64; heap (Ptr U16)] Unit;
   call unsafe "crb_asyncRemoveCheckpoints" [arg (Ptr SyncCheckpointedReader); heap (Ptr U64);
      arg U64; arg (Ptr PrimMVar); arg I64; heap (Ptr U16)] Unit;
   call unsafe "crb_asyncRemoveAllCheckpoints" [arg (Ptr SyncCheckpointedReader);
      arg (Ptr PrimMVar); arg I64; heap (Ptr U16)] Unit;
   call safe "sync_write_last_read_checkpoints" [arg (Ptr SyncCheckpointedReader); arg (Ptr U64);
      arg U64] U16;
   call safe "sync_write_checkpoints" [arg (Ptr SyncCheckpointedReader); arg (Ptr U64);
      arg (Ptr U64); arg U64] U16
  ].

(** [LogDevice/Checkpoint.hs] *)
Definition import_Checkpoint1 : list import :=
  [
   call unsafe "new_file_based_checkpoint_store" [heap (Ptr U8)] (Ptr CheckpointStore);
   call unsafe "new_rsm_based_checkpoint_store" [arg (Ptr Client); arg U64; arg I64]
      (Ptr CheckpointStore);
   call unsafe "new_zookeeper_based_checkpoint_store" [arg (Ptr Client)] (Ptr CheckpointStore);
   call safe "free_checkpoint_store" [arg (Ptr CheckpointStore)] Unit;
   addr safe "free_checkpoint_store" [arg (Ptr CheckpointStore)] Unit;
   call unsafe "checkpoint_store_get_lsn" [arg (Ptr CheckpointStore); heap (Ptr U8); arg U64;
      arg (Ptr PrimMVar); arg I64; heap (Ptr U16); heap (Ptr U64)] Unit;
   call unsafe "checkpoint_store_get_all_checkpoints" [arg (Ptr CheckpointStore); heap (Ptr U8);
      arg (Ptr PrimMVar); arg I64; heap (Ptr U16); heap (Ptr I64); heap (Ptr (Ptr U64));
      heap (Ptr (Ptr U64)); heap (Ptr (Ptr (Vector U64))); heap (Ptr (Ptr (Vector U64)))] Unit;
   call unsafe "checkpoint_store_update_lsn" [arg (Ptr CheckpointStore); heap (Ptr U8); arg U64;
      arg U64; arg (Ptr PrimMVar); arg I64; heap (Ptr U16)] Unit;
   call unsafe "checkpoint_store_update_multi_lsn" [arg (Ptr CheckpointStore); heap (Ptr U8);
      heap (Ptr U64); heap (Ptr U64); arg U64; arg (Ptr PrimMVar); arg I64; heap (Ptr U16)] Unit;
   call unsafe "checkpoint_store_remove_checkpoints" [arg (Ptr CheckpointStore); heap (Ptr U8);
      heap (Ptr U64); arg I64; arg I64; arg (Ptr PrimMVar); arg I64; heap (Ptr U16)] Unit;
   call unsafe "checkpoint_store_remove_all_checkpoints" [arg (Ptr CheckpointStore);
      heap (Ptr U8); arg (Ptr PrimMVar); arg I64; heap (Ptr U16)] Unit
  ].

(** [LogDevice/Checkpoint.hs] *)
Definition import_Checkpoint2 : list import :=
  [
   call safe "checkpoint_store_get_lsn_sync" [arg (Ptr CheckpointStore); arg (Ptr U8); arg U64;
      arg (Ptr U64)] U16;
   call safe "checkpoint_store_update_lsn_sync" [arg (Ptr CheckpointStore); arg (Ptr U8); arg U64;
      arg U64] U16;
   call safe "checkpoint_store_update_multi_lsn_sync" [arg (Ptr CheckpointStore); arg (Ptr U8);
      arg (Ptr U64); arg (Ptr U64); arg U64] U16
  ].

(** [LogDevice/VersionedConfigStore.hs] *)
Definition import_VersionedConfigStore : list import :=
  [
   call unsafe "new_rsm_based_vcs" [arg (Ptr Client); arg U64; arg I64] (Ptr VersionedConfigStore);
   call unsafe "free_logdevice_vcs" [arg (Ptr VersionedConfigStore)] Unit;
   addr unsafe "free_logdevice_vcs" [arg (Ptr VersionedConfigStore)] Unit;
   call unsafe "logdevice_vcs_get_config" [arg (Ptr VersionedConfigStore); heap (Ptr U8);
      heap (Ptr U64); arg (Ptr PrimMVar); arg I64; arg (Ptr VcsValueCbData)] Unit;
   call unsafe "logdevice_vcs_get_config" [arg (Ptr VersionedConfigStore); heap (Ptr U8);
      arg (Ptr U64); arg (Ptr PrimMVar); arg I64; arg (Ptr VcsValueCbData)] Unit;
   call unsafe "logdevice_vcs_get_latest_config" [arg (Ptr VersionedConfigStore); heap (Ptr U8);
      arg (Ptr PrimMVar); arg I64; arg (Ptr VcsValueCbData)] Unit;
   call unsafe "logdevice_vcs_update_config" [arg (Ptr VersionedConfigStore); heap (Ptr U8);
      heap (Ptr U8); arg I64; arg I64; arg I64; arg U64; arg (Ptr PrimMVar); arg I64;
      arg (Ptr VcsWriteCbData)] Unit
  ].

(** [Types.hsc] *)
Definition import_Types1 : list import :=
  [
   call unsafe "show_error_name" [arg U16] (Ptr U8);
   call unsafe "show_error_description" [arg U16] (Ptr U8)
  ].

(** [Types.hsc] *)
Definition import_Types2 : list import :=
  [
   call unsafe "set_dbg_level" [arg U8] Unit;
   call unsafe "dbg_use_fd" [arg I32] I32
  ].

(** [Foreign.hs] *)
Definition import_Foreign : list import :=
  [
   call unsafe "hs_cal_std_string_off" [arg (Ptr StdString); arg I64] (Ptr StdString);
   call unsafe "get_vector_of_string_size" [arg (Ptr (Vector StdString))] I64;
   call unsafe "get_vector_of_string_data" [arg (Ptr (Vector StdString))] (Ptr StdString)
  ].

Definition imports : list import :=
  import_LogDevice ++ import_LDQuery ++ import_LogConfigTypes1 ++ import_LogConfigTypes2 ++
  import_LogConfigTypes3 ++ import_LogConfigTypes4 ++ import_LogConfigTypes5 ++
  import_LogConfigTypes6 ++ import_Configuration ++ import_Writer ++ import_HealthCheck ++
  import_LogAttributes ++ import_Reader ++ import_Checkpoint1 ++ import_Checkpoint2 ++
  import_VersionedConfigStore ++ import_Types1 ++ import_Types2 ++ import_Foreign.

(** ** Linking *)

Definition link (name : string) : option symbol :=
  list_find (fun s => s_name s = name) exports ≫= fun '(_, s) => Some s.

(** A type variable stands for any type. *)
Fixpoint same_ty (c h : ty) : bool :=
  match c, h with
  | _, Any => true
  | Ptr c, Ptr h | Vector c, Vector h => same_ty c h
  | _, _ => bool_decide (c = h)
  end.

(** The arguments whose types differ. *)
Fixpoint differing (k : nat) (cs : list ty) (hs : list argument) : list (nat * ty * ty) :=
  match cs, hs with
  | c :: cs, h :: hs =>
      (if same_ty c (arg_ty h) then [] else [(k, c, arg_ty h)]) ++ differing (S k) cs hs
  | _, _ => []
  end.

(** What the linker does not see of an import. *)
Definition mismatches (i : import) : list (string * nat * ty * ty) :=
  match link (i_name i) with
  | Some s => (fun '(k, c, h) => (i_name i, k, c, h)) <$> differing 0 (s_args s) (i_args i)
  | None => []
  end.

Definition resolves (i : import) : bool :=
  match link (i_name i) with
  | Some s =>
      bool_decide (length (s_args s) = length (i_args i)) && same_ty (s_ret s) (i_ret i)
  | None => false
  end.

(** A safe call gets no address into the heap. *)
Definition stays (i : import) : bool :=
  bool_decide (i_safety i = unsafe) || negb (existsb on_heap (i_args i)).

(** A finalizer takes the pointer and returns nothing. *)
Definition finalizer_ok (i : import) : bool :=
  negb (i_addr i) ||
  match i_args i, i_ret i with [arg (Ptr (Object _))], Unit => true | _, _ => false end.

(** ** Theorems *)

Lemma names_distinct : NoDup (s_name <$> exports).
Proof. apply (bool_decide_unpack _). vm_compute. exact I. Qed.

Lemma checks_pass : forallb (fun i => resolves i && stays i && finalizer_ok i) imports = true.
Proof. vm_compute. reflexivity. Qed.

Lemma mismatches_are :
  (imports ≫= mismatches) =
  [("logdevice_append_batch_rts", 5%nat, Scalar U8, Scalar I64);
   ("logdevice_append_batch", 6%nat, Scalar U8, Scalar I64);
   ("set_dbg_level", 0%nat, Scalar U32, Scalar U8)].
Proof. vm_compute. reflexivity. Qed.

Lemma link_spec name s : link name = Some s -> s ∈ exports /\ s_name s = name.
Proof.
  unfold link. destruct (list_find _ exports) as [[k s']|] eqn:E; simpl; [|done].
  intros [= <-]. apply list_find_Some in E as (Hk & Hn & _). split; [|done].
  by eapply list_elem_of_lookup_2.
Qed.


End StoreExports.
